(* ===== verification/_CoqProject ===== *)
-Q . S2P
Prelude.v
RelayMessages.v
Netip.v
GoStrings.v
NetipUtil.v
ConntrackCommon.v
ConntrackTCP.v
ConntrackUDP.v
ConntrackICMP.v
Checksum.v
UspPacket.v
UspNat.v
UspRules.v
UspMss.v
UspFilter.v
Multipath.v
RelayMultipath.v
AnonPolicy.v
AddrText.v
I2pSam.v
AclManager.v
AclUsp.v
I2pConn.v
I2pConnInv.v
I2pConnSafe.v
I2pConnLive.v
I2pConnData.v
NetMapTypes.v
NetMapPolicy.v
Posture.v
NetMapCalc.v
NetMapConn.v
NetMapPorts.v
NetMapSsh.v
NetMapRoutes.v
NetMapResources.v
NetMapRouteRules.v
NetworkMap.v
NetMapTheorems.v
NetMapAccount.v
NetMapView.v
NetMapAccess.v
SshAuth.v
SshServer.v
SshLogin.v
