(* ===== verification/Prelude.v ===== *)
(** * A verification library for AnonBird

    AnonBird is a fork of NetBird, an overlay network of WireGuard peers, whose
    peers reach the control plane and each other through Tor or I2P only.  This
    library models the parts of the Go code on which the isolation and the
    anonymity of a peer rest, and proves what makes them correct.

    ** The program and the files that model it

    A packet that arrives from another peer is delivered by a (multipath) relay
    connection, decrypted by WireGuard and handed to the userspace firewall
    (client/firewall/uspfilter), which undoes address translation, admits
    replies of tracked connections, and applies the peer rules or the route
    rules.  The rules are put there by the ACL manager
    (client/internal/acl), which follows the network maps that the management
    service sends.  Before any connection is made, the anonymity policy
    (client/internal/anonymous) checks that every endpoint is a hidden service.

    - [Prelude] (this file): results of Go calls ([res]: value, error, panic),
      slices with their run-time bounds checks, fixed-width integers, the hint
      databases and tactics of the development.
    - [Netip], [GoStrings], [AddrText]: the standard library as the sources use
      it: netip.Addr and Prefix with their parsers and text form, strings,
      net.SplitHostPort, net/url, strconv.  [NetipUtil]: the compact encoding
      of shared/netiputil/compact.go.
    - [RelayMessages]: the relay wire protocol, shared/relay/messages
      (message.go, peer_state.go, id.go): one definition per encoder and
      decoder.
    - [ConntrackCommon], [ConntrackTCP], [ConntrackUDP], [ConntrackICMP]: the
      connection trackers of uspfilter/conntrack, with the complete TCP state
      machine, eviction, the cleanup of the ticker and the flow events.
    - [Checksum], [UspPacket], [UspNat], [UspRules], [UspMss], [UspFilter]:
      uspfilter/nat.go, filter.go, rule.go, localip.go, common/hooks.go and
      firewall/manager: checksums, decoded packets, translation of addresses
      and ports, rule tables and their verdicts, MSS clamping, and the packet
      pipeline ([filterInbound], [filterOutbound]) composed of them.
    - [Multipath], [RelayMultipath]: anonymous/multipath/flow.go and
      peer/relay_multipath_conn.go: flow classification, the choice of a
      channel, and the connection over several relay channels as a pool of
      threads with atomic steps.
    - [AnonPolicy]: anonymous/anonymous.go and runtime.go.
    - [I2pSam]: the client of the I2P bridge, shared/anonymous/i2psam (sam.go,
      datagram.go), over a model of connections.
    - [I2pConn]: peer/i2p_datagram_conn.go, the registry of shared datagram
      sessions and the connections on them, as a pool of threads; [I2pConnInv]
      has the effect of each step, [I2pConnSafe], [I2pConnLive] and
      [I2pConnData] the theorems on sessions, shutdown and data.
    - [AclManager]: acl/manager.go, proved against the interface of a firewall
      (class [Firewall] for the operations, class [FirewallSpec] for what they
      promise).  [AclUsp]: the userspace firewall is an instance of that
      interface; the composition of the manager with it.
    - The management service's calculation of network maps
      (management/server/types): [NetMapTypes] has the data and the expansion
      of ports by client version, [NetMapPolicy] the text form and the
      comparison of policies, [Posture] the posture checks, [NetMapCalc] every
      function of networkmap_components.go up to [Calculate], [NetMapAccount]
      the view of the account a map is calculated from
      (account_components.go).  The proofs are split by part: [NetMapConn]
      (peers and firewall rules), [NetMapPorts], [NetMapSsh],
      [NetMapRoutes], [NetMapResources], [NetMapRouteRules], put together in
      [NetworkMap]; [NetMapTheorems] has the theorems on the whole map.
      [NetMapView] relates the view to the account, and [NetMapAccess] has the
      theorems on the maps of an account.
    - SSH logins: [SshAuth] has the encoding of the authorised users in the
      messages (conversion.go) and the authorizer that reads them
      (client/ssh/auth), [SshServer] the login handler of client/ssh/server with
      its critical sections and the extraction of users (shared/auth/jwt),
      [SshLogin] the theorems.

    ** How the code is represented

    A struct is a record with the fields of the source; a method is a function
    from the state to the new state and its results.  A mutex makes a method
    one step (the trackers of [ConntrackTCP] and its siblings, which hold the
    mutex only for the lookup, are modelled so as well: their theorems are
    about operations one after the other); where goroutines interleave ([RelayMultipath], [I2pConn], [SshServer]) each access to
    shared memory, each channel operation and each call that may block is a
    step of a thread, and theorems quantify over all interleavings.  Go maps
    are finite maps; the order of iterating one is a parameter, of which only
    that it is a permutation is assumed.  Integers are numbers in [Z] with the
    truncation of the Go type written out.  Slices are lists; every index and
    slice expression is checked and panics as the Go run time does, so that the
    absence of panics is a theorem.

    Parameters of the model, each with the hypotheses that the code relies on
    where there are any: the decoders of the gopacket library, SHA-256, the
    clock, the unicode case tables, uuids (no value occurs twice), the start of
    the Tor and I2P daemons, the native firewall, the iteration orders, the
    results of the network operations and of the datagram sessions of the
    threads, the IDN conversion and the comparison of version numbers.

    Loops without a structural argument have fuel: [fold_fuel] = 2 rounds fold
    any 32-bit checksum sum; [walk_fuel] is the length of the packet plus one,
    as every IPv6 extension header is at least eight bytes long; the loop of
    [parse_groups] and the frame loop of the peer-state encoder consume their
    input.  That the fuel suffices is part of the theorems on these functions.

    ** What is proved

    - Isolation: with userspace routing, only fragments, replies in tracked
      flows and packets that the peer rules accept reach the local stack
      ([UspFilter.inbound_denied_by_default]); route rules are deny-overrides
      with default deny, peer rules too up to wildcard deny rules, which have no
      effect, and special ICMP errors, which always pass ([UspRules]); after
      EnableRouting no routed packet reaches the overlay network; after any
      history of network maps the verdict of the peer ACLs on a packet is that
      of the last map, with the same two exceptions
      ([AclUsp.acl_packet_verdict]); and for every firewall that keeps the
      interface a rule of an earlier map survives only if the firewall failed
      to delete it ([AclManager.acl_enforces_map]).
    - Connection tracking: an inbound packet is admitted without ACL only in a
      flow that was opened before; as long as operations do not overlap, flow
      events are exact (each end is reported once, the open flows are the
      table; [ConntrackTCP.overlapping_reset_ends_twice] shows what an overlap
      can do, because the source updates an entry after it releases the lock);
      the TCP machine only moves forward, admits a regular session and is not
      moved by forged segments.
    - Translation: rewriting an address, a port or the MSS changes only that
      field and checksums, and keeps the checksums valid; translation and reverse translation
      are inverse; the optimised checksums equal RFC 1071.
    - Wire formats: decoders never panic, encoders and decoders are inverse.
    - Multipath: both directions of a flow have one key, whatever the other
      bytes of their packets are; selection is
      rendezvous hashing; Close runs once, a connection closes only by its
      owner or when all channels failed, and the shutdown can always finish.
    - Anonymity: a configuration whose endpoints are URLs that parse or hosts
      with or without a port is accepted exactly if its hosts are hidden
      services of the transport; path, query and fragment of a URL that parses
      cannot spoof one; the Tor proxy is local; the I2P client dials its bridge
      only, releases its connections (all but the control connection of a
      stream that fails after its session was confirmed), reads replies as
      they are meant and keeps the datagram stream in step.
    - Network maps: the firewall rules, the peers, the routes, the SSH users and
      the resource rules that the management service sends to a peer are
      exactly those the policies give it ([NetMapTheorems]); the view a map is
      calculated from loses nothing, so that the maps of two peers match on the
      ports that the clients of both understand, and enforce the policies of
      the whole account ([NetMapAccess]).  Rule texts and posture checks mean
      exactly what their specifications say ([NetMapPolicy], [Posture]).
    - SSH logins: a login is admitted exactly as the network map of the last
      message says, and no interleaving of logins and updates admits one
      without a valid token and an authorizer that names its user ([SshLogin]).
    - I2P connections: a shared session is closed at most once and never in
      use, the threads never deadlock and come to rest after a bounded number
      of steps per received datagram, with every unused session closed unless
      its Receive failed (a history of these errors is part of the state); a
      connection only gets the payloads of its own peer in order, and only
      uses a session with its own identity, unless SHA-256 collides on the two
      texts in question.

    Some theorems state what the code does where that differs from what it
    means to do: a drop rule for everyone is not enforced
    ([UspRules.wildcard_deny_not_enforced]), a denied packet leaves its port in
    the pooled decoder ([UspFilter.denied_packet_leaks_dnat_port]), a stream
    that cannot be connected leaks its session
    ([I2pSam.dial_stream_leaks_control]), a receive loop that fails leaks its
    session ([I2pConnSafe.receive_error_leaks_session]), an endpoint without a
    scheme or with a broken escape is judged by its path
    ([AnonPolicy.schemeless_path_spoofs], [AnonPolicy.broken_escape_spoofs]), a
    peer of an unknown operating system meets every check of system versions
    ([Posture.unknown_system_meets_os_check]), a peer that a rule names
    directly needs neither validation nor posture
    ([NetMapAccess.unvalidated_source_connected],
    [NetMapTheorems.peer_source_skips_posture]), an update in the middle of an
    SSH login leaves the old user claim in force ([SshLogin.stale_user_claim]),
    and others that follow their
    files' main theorems.

    ** What is not modelled

    Code whose effect is that of the operating system or of a library: the
    nftables and iptables backends, the gVisor forwarder, WireGuard devices,
    the supervision of the Tor and I2P processes, ICE, DNS and SSH sessions; log output
    and error texts; the storage and the API of the management service, the
    signal and proxy services; generated code. *)

From Stdlib Require Import ZArith Lia.
From stdpp Require Import base gmap strings numbers countable sorting list.

(** ** Results of Go code

    A Go function that returns [(T, error)] is modelled by [res E T]: [Ok] is
    the nil-error return, [Err] an error return, and [Panic] a run-time panic
    (slice bounds out of range, index out of range).  Panics are kept apart
    from errors so that their absence is a theorem. *)
Inductive res (E A : Type) : Type :=
| Ok (a : A)
| Err (e : E)
| Panic.
Arguments Ok {E A} a.
Arguments Err {E A} e.
Arguments Panic {E A}.

#[global] Instance res_ret {E} : MRet (res E) := fun _ a => Ok a.

#[global] Instance res_bind {E} : MBind (res E) := fun _ _ k m =>
  match m with
  | Ok a => k a
  | Err e => Err e
  | Panic => Panic
  end.

#[global] Instance res_eq_dec {E A} `{EqDecision E, EqDecision A} :
  EqDecision (res E A).
Proof. solve_decision. Defined.

(** The call returned (with a value or an error): it did not panic. *)
Definition returns {E A} (m : res E A) : Prop :=
  match m with Panic => False | _ => True end.

Definition res_map {E A B} (f : A -> B) (m : res E A) : res E B :=
  match m with
  | Ok a => Ok (f a)
  | Err e => Err e
  | Panic => Panic
  end.

(** ** Machine integers

    A Go integer of width [w] is a [Z]; the wrap-around of an operation is
    written where the source performs it. *)
#[global] Arguments Z.pow : simpl never.

Definition u8 (z : Z) : Z := z mod 2 ^ 8.
Definition u16 (z : Z) : Z := z mod 2 ^ 16.
Definition u32 (z : Z) : Z := z mod 2 ^ 32.
Definition u64 (z : Z) : Z := z mod 2 ^ 64.

Lemma u8_range z : (0 <= u8 z < 256)%Z.
Proof. unfold u8. apply Z.mod_pos_bound. lia. Qed.

Lemma lor_shiftl_add (a b n : Z) :
  (0 <= n)%Z -> (0 <= b < 2 ^ n)%Z ->
  Z.lor (Z.shiftl a n) b = (a * 2 ^ n + b)%Z.
Proof.
  intros Hn Hb.
  assert (Hland : Z.land (Z.shiftl a n) b = 0%Z).
  { apply Z.bits_inj'. intros i Hi.
    rewrite Z.land_spec, Z.bits_0, Z.shiftl_spec by lia.
    destruct (Z.ltb_spec i n).
    - by rewrite (Z.testbit_neg_r a) by lia.
    - destruct (Z.eq_dec b 0%Z) as [->|]; [by rewrite Z.bits_0, andb_false_r|].
      rewrite (Z.bits_above_log2 b), andb_false_r; [done|lia|].
      assert (Z.log2 b < n)%Z by (apply Z.log2_lt_pow2; lia). lia. }
  rewrite <- (Z.shiftl_mul_pow2 a n) by lia.
  rewrite <- Z.lxor_lor by exact Hland.
  symmetry. by apply Z.add_nocarry_lxor.
Qed.

(** ** Slices of bytes

    [s[i:j]] panics unless [i <= j <= len s] (the code modelled here never
    reslices beyond the length); [s[i]] panics unless [i < len s]. *)
Definition go_slice {E A} (l : list A) (i j : nat) : res E (list A) :=
  if decide (i <= j <= length l) then Ok (take (j - i) (drop i l)) else Panic.

Definition go_slice_from {E A} (l : list A) (i : nat) : res E (list A) :=
  go_slice l i (length l).

Definition go_index {E A} (l : list A) (i : nat) : res E A :=
  match l !! i with Some a => Ok a | None => Panic end.

(** [copy(dst[off:], src)]: the number of bytes copied is the smaller of the
    two lengths, so nothing beyond [dst] is written. *)
Definition copy_into {A} (dst : list A) (off : nat) (src : list A) : list A :=
  take off dst ++
  take (length dst - off) src ++
  drop (off + length src) dst.

Lemma copy_into_length {A} (dst src : list A) off :
  off <= length dst -> length (copy_into dst off src) = length dst.
Proof.
  intros H. unfold copy_into.
  rewrite !length_app, !length_take, length_drop. lia.
Qed.

(** Copying at the end of a prefix overwrites the head of what follows. *)
Lemma copy_into_app {A} (a b src : list A) off :
  off = length a -> length src <= length b ->
  copy_into (a ++ b) off src = a ++ src ++ drop (length src) b.
Proof.
  intros -> H. unfold copy_into.
  rewrite take_app_length, length_app.
  rewrite (take_ge src) by lia.
  rewrite drop_app_ge by lia. do 3 f_equal. lia.
Qed.

Lemma go_slice_ok {E A} (a b c l : list A) i j :
  l = a ++ b ++ c -> i = length a -> j = length a + length b ->
  @go_slice E A l i j = Ok b.
Proof.
  intros -> -> ->. unfold go_slice. rewrite decide_True.
  2:{ rewrite !length_app. lia. }
  f_equal. rewrite drop_app_length.
  replace (length a + length b - length a) with (length b) by lia.
  apply take_app_length.
Qed.

Lemma go_slice_from_ok {E A} (a b l : list A) i :
  l = a ++ b -> i = length a -> @go_slice_from E A l i = Ok b.
Proof.
  intros -> ->. unfold go_slice_from.
  apply (go_slice_ok a b []); [by rewrite app_nil_r|done|by rewrite length_app].
Qed.

Lemma go_slice_returns {E A} (l : list A) i j :
  i <= j <= length l -> @go_slice E A l i j = Ok (take (j - i) (drop i l)).
Proof. intros H. unfold go_slice. by rewrite decide_True. Qed.

Lemma go_index_returns {E A} (l : list A) i :
  i < length l -> exists a, l !! i = Some a /\ @go_index E A l i = Ok a.
Proof.
  intros H. destruct (lookup_lt_is_Some_2 l i H) as [a Ha].
  exists a. unfold go_index. by rewrite Ha.
Qed.

(** ** Absence of panics, compositionally *)
Create HintDb anonbird.

Lemma returns_bind {E A B} (m : res E A) (k : A -> res E B) :
  returns m -> (forall a, m = Ok a -> returns (k a)) -> returns (m ≫= k).
Proof. destruct m; simpl; auto. Qed.

Lemma returns_if {E A} (P : Prop) `{Decision P} (m1 m2 : res E A) :
  (P -> returns m1) -> (~ P -> returns m2) ->
  returns (if decide P then m1 else m2).
Proof. case_decide; auto. Qed.

Lemma returns_slice {E A} (l : list A) i j :
  i <= j <= length l -> returns (@go_slice E A l i j).
Proof. intros H. by rewrite go_slice_returns. Qed.

Lemma returns_slice_from {E A} (l : list A) i :
  i <= length l -> returns (@go_slice_from E A l i).
Proof. intros H. apply returns_slice. lia. Qed.

Lemma returns_index {E A} (l : list A) i :
  i < length l -> returns (@go_index E A l i).
Proof. intros H. by destruct (@go_index_returns E A l i H) as (a & _ & ->). Qed.

Lemma go_slice_length {E A} (l s : list A) i j :
  @go_slice E A l i j = Ok s -> length s = j - i.
Proof.
  unfold go_slice. case_decide; intros ?; simplify_eq.
  rewrite length_take, length_drop. lia.
Qed.

Lemma go_slice_from_length {E A} (l s : list A) i :
  @go_slice_from E A l i = Ok s -> length s = length l - i.
Proof. apply go_slice_length. Qed.

#[export] Hint Resolve returns_bind returns_if returns_slice returns_slice_from
  returns_index : anonbird.

(** ** Automation *)

(** Case analysis on the scrutinee of a [match] or [if] of the goal or of a
    hypothesis. *)
Ltac break_match :=
  match goal with
  | |- context [match ?x with _ => _ end] => destruct x eqn:?
  | H : context [match ?x with _ => _ end] |- _ => destruct x eqn:?
  end.

Ltac crush := repeat (simplify_eq/=; try break_match); try done.

(** One step of a monadic computation whose head is a value. *)
Ltac mred := cbn [mbind res_bind mret res_ret].

(** A closed decidable proposition, by evaluating its decision procedure. *)
Ltac by_decide := refine (bool_decide_unpack _ _); vm_compute; exact I.
