(* ===== verification/RelayMessages.v ===== *)
(** * The relay wire protocol (shared/relay/messages)

    Every marshal and unmarshal function of message.go, peer_state.go and
    id.go, over byte lists ([list Z]).  Slice expressions and index reads are
    checked ([go_slice], [go_index]): an out-of-range access is [Panic].  The
    theorems: no decoder panics on any input, encoders and decoders are
    inverse to each other, every frame respects the protocol's size bounds,
    and the one round trip that fails (the deprecated Hello message). *)

From Stdlib Require Import ZArith Lia.
From stdpp Require Import base gmap strings numbers countable sorting list.
From S2P Require Import Prelude.

(** ** Constants (message.go, id.go) *)
Definition sha256Size : nat := 32.
Definition prefixLength : nat := 4.
Definition peerIDSize : nat := prefixLength + sha256Size.
Definition prefix_ : list Z := [115; 104; 97; 45]%Z.

Definition MaxHandshakeSize : nat := 212.
Definition MaxHandshakeRespSize : nat := Z.to_nat 8192.
Definition MaxMessageSize : nat := Z.to_nat 8820.
Definition CurrentProtocolVersion : Z := 1.

Definition MsgTypeUnknown : Z := 0.
Definition MsgTypeHello : Z := 1.
Definition MsgTypeHelloResponse : Z := 2.
Definition MsgTypeTransport : Z := 3.
Definition MsgTypeClose : Z := 4.
Definition MsgTypeHealthCheck : Z := 5.
Definition MsgTypeAuth : Z := 6.
Definition MsgTypeAuthResponse : Z := 7.
Definition MsgTypeSubscribePeerState : Z := 8.
Definition MsgTypeUnsubscribePeerState : Z := 9.
Definition MsgTypePeersOnline : Z := 10.
Definition MsgTypePeersWentOffline : Z := 11.
Definition MsgTypeTransportChannel : Z := 12.
Definition MsgTypeAuthChannel : Z := 13.

Definition sizeOfVersionByte : nat := 1.
Definition sizeOfMsgType : nat := 1.
Definition sizeOfProtoHeader : nat := sizeOfVersionByte + sizeOfMsgType.
Definition channelIDSize : nat := 4.
Definition sizeOfMagicByte : nat := 4.
Definition headerSizeAuth : nat := sizeOfMagicByte + peerIDSize.
Definition offsetMagicByte : nat := sizeOfProtoHeader.
Definition offsetAuthPeerID : nat := sizeOfProtoHeader + sizeOfMagicByte.
Definition headerTotalSizeAuth : nat := sizeOfProtoHeader + headerSizeAuth.
Definition offsetAuthChannelID : nat := headerTotalSizeAuth.
Definition headerTotalSizeAuthChannel : nat := headerTotalSizeAuth + channelIDSize.
Definition headerSizeHello : nat := sizeOfMagicByte + peerIDSize.
Definition headerSizeHelloResp : nat := 0.
Definition headerSizeTransport : nat := peerIDSize.
Definition offsetTransportID : nat := sizeOfProtoHeader.
Definition headerTotalSizeTransport : nat := sizeOfProtoHeader + headerSizeTransport.
Definition offsetTransportChannelID : nat := headerTotalSizeTransport.
Definition headerTotalSizeTransportChannel : nat :=
  headerTotalSizeTransport + channelIDSize.

Definition magicHeader : list Z := [33; 18; 164; 66]%Z.
Definition healthCheckMsg : list Z := [CurrentProtocolVersion; MsgTypeHealthCheck].

(** A [PeerID] is a 36-byte array. *)
Definition PeerID : Type := list Z.
Definition peerID_ok (p : PeerID) : Prop := length p = peerIDSize.

(** The errors the package returns; the arguments are what the error text
    prints. *)
Inductive msg_error : Type :=
| ErrInvalidMessageLength
| ErrUnsupportedVersion (version : Z)
| ErrInvalidMsgType (t : Z)
| ErrInvalidMagicHeader
| ErrTooLargeAuthPayload
| ErrInvalidAuthChannelMsgType (t : Z)
| ErrAuthResponseLength (n : nat)
| ErrUnexpectedTransportType (t : Z)
| ErrNoPeerIDs
| ErrInvalidMessageFormat
| ErrInvalidPeerListSize (n : nat).

#[global] Instance msg_error_eq_dec : EqDecision msg_error.
Proof. solve_decision. Defined.

Definition mres : Type -> Type := res msg_error.

(** ** Peer identifiers (id.go)

    [sha256.Sum256] is a parameter; the code relies on its fixed size. *)
Definition HashID (sum256 : list Z -> list Z) (peerID : list Z) : PeerID :=
  let idHash := sum256 peerID in
  let prefixedHash := replicate peerIDSize 0%Z in
  let prefixedHash := copy_into prefixedHash 0 prefix_ in
  copy_into prefixedHash prefixLength idHash.

(** ** Version and message type (message.go) *)
Definition MsgType_String (m : Z) : string :=
  (if decide (m = MsgTypeHello) then "hello"
  else if decide (m = MsgTypeHelloResponse) then "hello response"
  else if decide (m = MsgTypeAuth) then "auth"
  else if decide (m = MsgTypeAuthResponse) then "auth response"
  else if decide (m = MsgTypeAuthChannel) then "auth channel"
  else if decide (m = MsgTypeTransport) then "transport"
  else if decide (m = MsgTypeClose) then "close"
  else if decide (m = MsgTypeHealthCheck) then "health check"
  else if decide (m = MsgTypeSubscribePeerState) then "subscribe peer state"
  else if decide (m = MsgTypeUnsubscribePeerState) then "unsubscribe peer state"
  else if decide (m = MsgTypePeersOnline) then "peers online"
  else if decide (m = MsgTypePeersWentOffline) then "peers went offline"
  else if decide (m = MsgTypeTransportChannel) then "transport channel"
  else "unknown")%string.

Definition ValidateVersion (msg : list Z) : mres Z :=
  if decide (length msg < sizeOfProtoHeader) then Err ErrInvalidMessageLength
  else
    version ← go_index msg 0;
    if decide (version ≠ CurrentProtocolVersion)
    then Err (ErrUnsupportedVersion version)
    else Ok version.

Definition clientMsgTypes : list Z :=
  [MsgTypeHello; MsgTypeAuth; MsgTypeAuthChannel; MsgTypeTransport;
   MsgTypeTransportChannel; MsgTypeClose; MsgTypeHealthCheck;
   MsgTypeSubscribePeerState; MsgTypeUnsubscribePeerState].

Definition DetermineClientMessageType (msg : list Z) : mres Z :=
  if decide (length msg < sizeOfProtoHeader) then Err ErrInvalidMessageLength
  else
    msgType ← go_index msg 1;
    if decide (msgType ∈ clientMsgTypes) then Ok msgType
    else Err (ErrInvalidMsgType msgType).

Definition serverMsgTypes : list Z :=
  [MsgTypeHelloResponse; MsgTypeAuthResponse; MsgTypeTransport;
   MsgTypeTransportChannel; MsgTypeClose; MsgTypeHealthCheck;
   MsgTypePeersOnline; MsgTypePeersWentOffline].

Definition DetermineServerMessageType (msg : list Z) : mres Z :=
  if decide (length msg < sizeOfProtoHeader) then Err ErrInvalidMessageLength
  else
    msgType ← go_index msg 1;
    if decide (msgType ∈ serverMsgTypes) then Ok msgType
    else Err (ErrInvalidMsgType msgType).

(** ** 32-bit integers *)

(** The four bytes [putUint32] stores. *)
Definition putUint32 (v : Z) : list Z :=
  [u8 (Z.shiftr v 24); u8 (Z.shiftr v 16); u8 (Z.shiftr v 8); u8 v].

Definition readUint32 (src : list Z) : mres Z :=
  b0 ← go_index src 0;
  b1 ← go_index src 1;
  b2 ← go_index src 2;
  b3 ← go_index src 3;
  Ok (Z.lor (Z.lor (Z.lor (u32 (Z.shiftl b0 24)) (u32 (Z.shiftl b1 16)))
                   (u32 (Z.shiftl b2 8))) b3).

(** ** Hello messages (deprecated) *)
Definition MarshalHelloMsg (peerID : PeerID) (additions : list Z) : mres (list Z) :=
  let msg := replicate (sizeOfProtoHeader + sizeOfMagicByte) 0%Z in
  let msg := <[0 := CurrentProtocolVersion]> msg in
  let msg := <[1 := MsgTypeHello]> msg in
  let msg := copy_into msg sizeOfProtoHeader magicHeader in
  let msg := msg ++ peerID in
  let msg := msg ++ additions in
  Ok msg.

Definition UnmarshalHelloMsg (msg : list Z) : mres (PeerID * list Z) :=
  if decide (length msg < sizeOfProtoHeader + headerSizeHello)
  then Err ErrInvalidMessageLength
  else
    magic ← go_slice msg sizeOfProtoHeader (sizeOfProtoHeader + sizeOfMagicByte);
    if decide (magic ≠ magicHeader) then Err ErrInvalidMagicHeader
    else
      peerID ← go_slice msg (sizeOfProtoHeader + sizeOfMagicByte)
                            (sizeOfProtoHeader + headerSizeHello);
      rest ← go_slice_from msg headerSizeHello;
      Ok (peerID, rest).

Definition MarshalHelloResponse (additionalData : list Z) : mres (list Z) :=
  let msg := replicate sizeOfProtoHeader 0%Z in
  let msg := <[0 := CurrentProtocolVersion]> msg in
  let msg := <[1 := MsgTypeHelloResponse]> msg in
  Ok (msg ++ additionalData).

Definition UnmarshalHelloResponse (msg : list Z) : mres (list Z) :=
  if decide (length msg < sizeOfProtoHeader + headerSizeHelloResp)
  then Err ErrInvalidMessageLength
  else Ok msg.

(** ** Auth messages *)
Definition MarshalAuthMsg (peerID : PeerID) (authPayload : list Z) : mres (list Z) :=
  if decide (MaxHandshakeSize < headerTotalSizeAuth + length authPayload)
  then Err ErrTooLargeAuthPayload
  else
    let msg := replicate (headerTotalSizeAuth + length authPayload) 0%Z in
    let msg := <[0 := CurrentProtocolVersion]> msg in
    let msg := <[1 := MsgTypeAuth]> msg in
    let msg := copy_into msg sizeOfProtoHeader magicHeader in
    let msg := copy_into msg offsetAuthPeerID peerID in
    let msg := copy_into msg headerTotalSizeAuth authPayload in
    Ok msg.

Definition UnmarshalAuthMsg (msg : list Z) : mres (PeerID * list Z) :=
  if decide (length msg < headerTotalSizeAuth) then Err ErrInvalidMessageLength
  else
    magic ← go_slice msg offsetMagicByte (offsetMagicByte + sizeOfMagicByte);
    if decide (magic ≠ magicHeader) then Err ErrInvalidMagicHeader
    else
      peerID ← go_slice msg offsetAuthPeerID headerTotalSizeAuth;
      payload ← go_slice_from msg headerTotalSizeAuth;
      Ok (peerID, payload).

Definition MarshalAuthChannelMsg (peerID : PeerID) (channelID : Z)
    (authPayload : list Z) : mres (list Z) :=
  if decide (channelID = 0%Z) then MarshalAuthMsg peerID authPayload
  else if decide (MaxHandshakeSize < headerTotalSizeAuthChannel + length authPayload)
  then Err ErrTooLargeAuthPayload
  else
    let msg := replicate (headerTotalSizeAuthChannel + length authPayload) 0%Z in
    let msg := <[0 := CurrentProtocolVersion]> msg in
    let msg := <[1 := MsgTypeAuthChannel]> msg in
    let msg := copy_into msg sizeOfProtoHeader magicHeader in
    let msg := copy_into msg offsetAuthPeerID peerID in
    let msg := copy_into msg offsetAuthChannelID (putUint32 channelID) in
    let msg := copy_into msg headerTotalSizeAuthChannel authPayload in
    Ok msg.

Definition UnmarshalAuthChannelMsg (msg : list Z) : mres (PeerID * Z * list Z) :=
  msgType ← DetermineClientMessageType msg;
  if decide (msgType = MsgTypeAuth) then
    r ← UnmarshalAuthMsg msg;
    Ok (r.1, 0%Z, r.2)
  else if decide (msgType ≠ MsgTypeAuthChannel)
  then Err (ErrInvalidAuthChannelMsgType msgType)
  else if decide (length msg < headerTotalSizeAuthChannel)
  then Err ErrInvalidMessageLength
  else
    magic ← go_slice msg offsetMagicByte (offsetMagicByte + sizeOfMagicByte);
    if decide (magic ≠ magicHeader) then Err ErrInvalidMagicHeader
    else
      peerID ← go_slice msg offsetAuthPeerID headerTotalSizeAuth;
      cid ← go_slice msg offsetAuthChannelID headerTotalSizeAuthChannel;
      channelID ← readUint32 cid;
      payload ← go_slice_from msg headerTotalSizeAuthChannel;
      Ok (peerID, channelID, payload).

Definition MarshalAuthResponse (address : list Z) : mres (list Z) :=
  let msg := replicate sizeOfProtoHeader 0%Z in
  let msg := <[0 := CurrentProtocolVersion]> msg in
  let msg := <[1 := MsgTypeAuthResponse]> msg in
  let msg := msg ++ address in
  if decide (MaxHandshakeRespSize < length msg)
  then Err (ErrAuthResponseLength (length msg))
  else Ok msg.

Definition UnmarshalAuthResponse (msg : list Z) : mres (list Z) :=
  if decide (length msg < sizeOfProtoHeader + 1) then Err ErrInvalidMessageLength
  else go_slice_from msg sizeOfProtoHeader.

Definition MarshalCloseMsg : list Z := [CurrentProtocolVersion; MsgTypeClose].

Definition MarshalHealthcheck : list Z := healthCheckMsg.

(** ** Transport messages *)
Definition MarshalTransportMsg (peerID : PeerID) (payload : list Z) : mres (list Z) :=
  let msg := replicate (headerTotalSizeTransport + length payload) 0%Z in
  let msg := <[0 := CurrentProtocolVersion]> msg in
  let msg := <[1 := MsgTypeTransport]> msg in
  let msg := copy_into msg sizeOfProtoHeader peerID in
  let msg := copy_into msg (sizeOfProtoHeader + peerIDSize) payload in
  Ok msg.

Definition MarshalTransportChannelMsg (peerID : PeerID) (channelID : Z)
    (payload : list Z) : mres (list Z) :=
  let msg := replicate (headerTotalSizeTransportChannel + length payload) 0%Z in
  let msg := <[0 := CurrentProtocolVersion]> msg in
  let msg := <[1 := MsgTypeTransportChannel]> msg in
  let msg := copy_into msg sizeOfProtoHeader peerID in
  let msg := copy_into msg offsetTransportChannelID (putUint32 channelID) in
  let msg := copy_into msg headerTotalSizeTransportChannel payload in
  Ok msg.

Definition UnmarshalTransportMsg (buf : list Z) : mres (PeerID * list Z) :=
  if decide (length buf < headerTotalSizeTransport) then Err ErrInvalidMessageLength
  else
    let offsetEnd := offsetTransportID + peerIDSize in
    peerID ← go_slice buf offsetTransportID offsetEnd;
    payload ← go_slice_from buf headerTotalSizeTransport;
    Ok (peerID, payload).

Definition UnmarshalTransportChannelMsg (buf : list Z) : mres (PeerID * Z * list Z) :=
  if decide (length buf < sizeOfProtoHeader) then Err ErrInvalidMessageLength
  else
    t ← go_index buf 1;
    if decide (t = MsgTypeTransport) then
      r ← UnmarshalTransportMsg buf;
      Ok (r.1, 0%Z, r.2)
    else if decide (t = MsgTypeTransportChannel) then
      if decide (length buf < headerTotalSizeTransportChannel)
      then Err ErrInvalidMessageLength
      else
        let offsetEnd := offsetTransportID + peerIDSize in
        peerID ← go_slice buf offsetTransportID offsetEnd;
        cid ← go_slice_from buf offsetTransportChannelID;
        channelID ← readUint32 cid;
        payload ← go_slice_from buf headerTotalSizeTransportChannel;
        Ok (peerID, channelID, payload)
    else Err (ErrUnexpectedTransportType t).

Definition UnmarshalTransportID (buf : list Z) : mres PeerID :=
  if decide (length buf < headerTotalSizeTransport) then Err ErrInvalidMessageLength
  else
    let offsetEnd := offsetTransportID + peerIDSize in
    go_slice buf offsetTransportID offsetEnd.

(** The server rewrites the destination id in place; the updated buffer is
    the result. *)
Definition UpdateTransportMsg (msg : list Z) (peerID : PeerID) : mres (list Z) :=
  if decide (length msg < offsetTransportID + peerIDSize)
  then Err ErrInvalidMessageLength
  else Ok (copy_into msg offsetTransportID peerID).

(** ** Peer state messages (peer_state.go) *)
Definition maxPeersPerMessage : nat :=
  (MaxMessageSize - sizeOfProtoHeader) / peerIDSize.

(** The body of the outer loop: one message for one chunk. *)
Definition marshalChunk (msgType : Z) (chunk : list PeerID) : list Z :=
  let totalSize := sizeOfProtoHeader + length chunk * peerIDSize in
  let buf := replicate totalSize 0%Z in
  let buf := <[0 := CurrentProtocolVersion]> buf in
  let buf := <[1 := msgType]> buf in
  (foldl (fun '(buf, offset) id => (copy_into buf offset id, offset + peerIDSize))
    (buf, sizeOfProtoHeader) chunk).1.

(** [for i := 0; i < len(ids); i += maxPeersPerMessage], the loop variable
    being [i]; [length ids] iterations always suffice. *)
Fixpoint marshalLoop (fuel : nat) (ids : list PeerID) (msgType : Z) (i : nat)
    : list (list Z) :=
  match fuel with
  | O => []
  | S fuel =>
      if decide (i < length ids) then
        let end_ := if decide (length ids < i + maxPeersPerMessage)
                    then length ids else i + maxPeersPerMessage in
        let chunk := take (end_ - i) (drop i ids) in
        marshalChunk msgType chunk ::
          marshalLoop fuel ids msgType (i + maxPeersPerMessage)
      else []
  end.

Definition marshalPeerIDs (ids : list PeerID) (msgType : Z) : mres (list (list Z)) :=
  if decide (length ids = 0) then Err ErrNoPeerIDs
  else Ok (marshalLoop (length ids) ids msgType 0).

(** The loop of [unmarshalPeerIDs]: [n] identifiers from [offset]. *)
Fixpoint unmarshalLoop (n : nat) (buf : list Z) (offset : nat) : mres (list PeerID) :=
  match n with
  | O => Ok []
  | S n =>
      id ← go_slice buf offset (offset + peerIDSize);
      rest ← unmarshalLoop n buf (offset + peerIDSize);
      Ok (id :: rest)
  end.

Definition unmarshalPeerIDs (buf : list Z) : mres (list PeerID) :=
  if decide (length buf < sizeOfProtoHeader) then Err ErrInvalidMessageFormat
  else if decide ((length buf - sizeOfProtoHeader) `mod` peerIDSize ≠ 0)
  then Err (ErrInvalidPeerListSize (length buf - sizeOfProtoHeader))
  else
    let numIDs := (length buf - sizeOfProtoHeader) / peerIDSize in
    unmarshalLoop numIDs buf sizeOfProtoHeader.

Definition MarshalSubPeerStateMsg (ids : list PeerID) : mres (list (list Z)) :=
  marshalPeerIDs ids MsgTypeSubscribePeerState.
Definition UnmarshalSubPeerStateMsg (buf : list Z) : mres (list PeerID) :=
  unmarshalPeerIDs buf.
Definition MarshalUnsubPeerStateMsg (ids : list PeerID) : mres (list (list Z)) :=
  marshalPeerIDs ids MsgTypeUnsubscribePeerState.
Definition UnmarshalUnsubPeerStateMsg (buf : list Z) : mres (list PeerID) :=
  unmarshalPeerIDs buf.
Definition MarshalPeersOnline (ids : list PeerID) : mres (list (list Z)) :=
  marshalPeerIDs ids MsgTypePeersOnline.
Definition UnmarshalPeersOnlineMsg (buf : list Z) : mres (list PeerID) :=
  unmarshalPeerIDs buf.
Definition MarshalPeersWentOffline (ids : list PeerID) : mres (list (list Z)) :=
  marshalPeerIDs ids MsgTypePeersWentOffline.
Definition UnMarshalPeersWentOffline (buf : list Z) : mres (list PeerID) :=
  unmarshalPeerIDs buf.

(** ** Frame shapes

    What the make/assign/copy sequences of the encoders build. *)
Ltac unfold_sizes :=
  unfold headerTotalSizeTransportChannel, offsetTransportChannelID,
    headerTotalSizeTransport, offsetTransportID, headerSizeTransport,
    headerTotalSizeAuthChannel, offsetAuthChannelID, headerTotalSizeAuth,
    offsetAuthPeerID, offsetMagicByte, headerSizeAuth, headerSizeHello,
    headerSizeHelloResp, channelIDSize, sizeOfMagicByte, sizeOfProtoHeader,
    sizeOfMsgType, sizeOfVersionByte, peerID_ok, peerIDSize, prefixLength,
    sha256Size in *.

Ltac sizes := unfold_sizes; cbn [length] in *;
  rewrite ?length_app, ?length_drop, ?length_replicate in *;
  change (length magicHeader) with 4 in *; cbn [length] in *; lia.

Lemma frame_header (n : nat) (v t : Z) :
  2 <= n ->
  <[1 := t]> (<[0 := v]> (replicate n 0%Z)) = [v; t] ++ replicate (n - 2) 0%Z.
Proof.
  intros H. destruct n as [|[|n]]; [lia|lia|]. simpl. by rewrite Nat.sub_0_r.
Qed.

(** Filling the zeroed remainder of a frame with the next field. *)
Lemma fill_next (a src : list Z) (n off : nat) :
  off = length a -> length src <= n ->
  copy_into (a ++ replicate n 0%Z) off src =
  (a ++ src) ++ replicate (n - length src) 0%Z.
Proof.
  intros Hoff Hlen.
  rewrite copy_into_app by (rewrite ?length_replicate; lia).
  by rewrite drop_replicate, app_assoc.
Qed.

Lemma replicate_zero_nil (n : nat) : n = 0 -> replicate n 0%Z = [].
Proof. by intros ->. Qed.

Ltac build_frame :=
  rewrite frame_header by sizes;
  repeat (rewrite fill_next by sizes);
  rewrite replicate_zero_nil by sizes;
  rewrite app_nil_r, <- ?app_assoc.

Lemma putUint32_length v : length (putUint32 v) = 4.
Proof. done. Qed.

Lemma HashID_shape sum256 id :
  length (sum256 id) = sha256Size -> HashID sum256 id = prefix_ ++ sum256 id.
Proof.
  intros Hlen.
  change (HashID sum256 id) with
    (copy_into (prefix_ ++ replicate sha256Size 0%Z) prefixLength (sum256 id)).
  rewrite fill_next by (done || by rewrite Hlen).
  rewrite Hlen, replicate_zero_nil by done.
  by rewrite app_nil_r.
Qed.

Lemma MarshalAuthMsg_shape p payload :
  peerID_ok p -> headerTotalSizeAuth + length payload <= MaxHandshakeSize ->
  MarshalAuthMsg p payload =
  Ok ([CurrentProtocolVersion; MsgTypeAuth] ++ magicHeader ++ p ++ payload).
Proof.
  intros Hp Hsz. unfold MarshalAuthMsg. rewrite decide_False by lia.
  f_equal. cbv zeta. by build_frame.
Qed.

Lemma MarshalAuthChannelMsg_shape p ch payload :
  peerID_ok p -> ch ≠ 0%Z ->
  headerTotalSizeAuthChannel + length payload <= MaxHandshakeSize ->
  MarshalAuthChannelMsg p ch payload =
  Ok ([CurrentProtocolVersion; MsgTypeAuthChannel] ++ magicHeader ++ p ++
      putUint32 ch ++ payload).
Proof.
  intros Hp Hch Hsz. unfold MarshalAuthChannelMsg.
  rewrite decide_False, decide_False by (done || lia).
  f_equal. cbv zeta. pose proof (putUint32_length ch) as Hl.
  generalize dependent (putUint32 ch). intros l Hl. by build_frame.
Qed.

Lemma MarshalTransportMsg_shape p payload :
  peerID_ok p ->
  MarshalTransportMsg p payload =
  Ok ([CurrentProtocolVersion; MsgTypeTransport] ++ p ++ payload).
Proof.
  intros Hp. unfold MarshalTransportMsg. f_equal. cbv zeta. by build_frame.
Qed.

Lemma MarshalTransportChannelMsg_shape p ch payload :
  peerID_ok p ->
  MarshalTransportChannelMsg p ch payload =
  Ok ([CurrentProtocolVersion; MsgTypeTransportChannel] ++ p ++
      putUint32 ch ++ payload).
Proof.
  intros Hp. unfold MarshalTransportChannelMsg. f_equal. cbv zeta.
  pose proof (putUint32_length ch) as Hl.
  generalize dependent (putUint32 ch). intros l Hl. by build_frame.
Qed.

Lemma MarshalHelloMsg_shape p additions :
  MarshalHelloMsg p additions =
  Ok ([CurrentProtocolVersion; MsgTypeHello] ++ magicHeader ++ p ++ additions).
Proof. reflexivity. Qed.

(** ** 32-bit round trip *)
Lemma readUint32_put (v : Z) rest :
  (0 <= v < 2 ^ 32)%Z -> readUint32 (putUint32 v ++ rest) = Ok v.
Proof.
  intros Hv. unfold readUint32, putUint32. simpl. f_equal.
  unfold u8, u32. rewrite !Z.shiftr_div_pow2 by lia.
  set (a := ((v / 2 ^ 24) mod 2 ^ 8)%Z). set (b := ((v / 2 ^ 16) mod 2 ^ 8)%Z).
  set (c := ((v / 2 ^ 8) mod 2 ^ 8)%Z). set (d := (v mod 2 ^ 8)%Z).
  assert (0 <= a < 256 /\ 0 <= b < 256 /\ 0 <= c < 256 /\ 0 <= d < 256)%Z
    as (Ha & Hb & Hc & Hd) by (repeat split; apply Z.mod_pos_bound; lia).
  rewrite !Z.shiftl_mul_pow2, !(Z.mod_small (_ * _)) by lia.
  rewrite <- !Z.shiftl_mul_pow2 by lia.
  rewrite (lor_shiftl_add a) by (rewrite ?Z.shiftl_mul_pow2; lia).
  rewrite (Z.shiftl_mul_pow2 b) by lia.
  replace (a * 2 ^ 24 + b * 2 ^ 16)%Z with (Z.shiftl (a * 2 ^ 8 + b) 16)
    by (rewrite Z.shiftl_mul_pow2; lia).
  rewrite lor_shiftl_add by (rewrite ?Z.shiftl_mul_pow2; lia).
  rewrite (Z.shiftl_mul_pow2 c) by lia.
  replace ((a * 2 ^ 8 + b) * 2 ^ 16 + c * 2 ^ 8)%Z
    with (Z.shiftl ((a * 2 ^ 8 + b) * 2 ^ 8 + c) 8)
    by (rewrite Z.shiftl_mul_pow2; lia).
  rewrite lor_shiftl_add by lia.
  subst a b c d. Z.div_mod_to_equations. lia.
Qed.

(** ** Absence of panics *)
Lemma readUint32_returns src : 4 <= length src -> returns (readUint32 src).
Proof.
  intros H. unfold readUint32.
  repeat (apply returns_bind; [apply returns_index; lia|intros ? _]). done.
Qed.

Ltac returns_tac :=
  repeat first
    [ progress intros
    | done
    | apply returns_slice_from; sizes
    | apply returns_slice; sizes
    | apply returns_index; sizes
    | apply readUint32_returns; sizes
    | apply returns_if
    | apply returns_bind ].

Lemma DetermineClientMessageType_returns msg : returns (DetermineClientMessageType msg).
Proof. unfold DetermineClientMessageType. returns_tac. Qed.

Lemma UnmarshalAuthMsg_returns msg : returns (UnmarshalAuthMsg msg).
Proof. unfold UnmarshalAuthMsg. returns_tac. Qed.

Lemma UnmarshalTransportMsg_returns msg : returns (UnmarshalTransportMsg msg).
Proof. unfold UnmarshalTransportMsg. returns_tac. Qed.

Lemma UnmarshalAuthChannelMsg_returns msg : returns (UnmarshalAuthChannelMsg msg).
Proof.
  unfold UnmarshalAuthChannelMsg.
  apply returns_bind; [apply DetermineClientMessageType_returns|intros t _].
  apply returns_if; intros.
  { apply returns_bind; [apply UnmarshalAuthMsg_returns|done]. }
  do 2 (apply returns_if; intros; [done|]).
  apply returns_bind; [returns_tac|intros magic _].
  apply returns_if; intros; [done|].
  apply returns_bind; [returns_tac|intros pid _].
  apply returns_bind; [returns_tac|intros cid Hcid%go_slice_length].
  returns_tac.
Qed.

Lemma UnmarshalTransportChannelMsg_returns msg :
  returns (UnmarshalTransportChannelMsg msg).
Proof.
  unfold UnmarshalTransportChannelMsg. apply returns_if; intros; [done|].
  apply returns_bind; [returns_tac|intros t _].
  apply returns_if; intros.
  { apply returns_bind; [apply UnmarshalTransportMsg_returns|done]. }
  do 2 (apply returns_if; intros; [|done || idtac]); [done|].
  apply returns_bind; [returns_tac|intros pid _].
  apply returns_bind; [returns_tac|intros cid Hcid%go_slice_from_length].
  returns_tac.
Qed.

Lemma unmarshalLoop_returns n buf offset :
  offset + n * peerIDSize <= length buf -> returns (unmarshalLoop n buf offset).
Proof.
  revert offset. induction n as [|n IH]; intros offset H; [done|].
  cbn [unmarshalLoop]. rewrite Nat.mul_succ_l in H.
  apply returns_bind; [apply returns_slice; lia|intros id _].
  apply returns_bind; [apply IH; lia|done].
Qed.

Lemma unmarshalPeerIDs_returns buf : returns (unmarshalPeerIDs buf).
Proof.
  unfold unmarshalPeerIDs. do 2 (apply returns_if; intros; [done|]).
  apply unmarshalLoop_returns.
  pose proof (Nat.Div0.div_mod (length buf - sizeOfProtoHeader) peerIDSize). lia.
Qed.

(** no byte string sent to the relay server or to a client can make a
    decoder of the package panic: each of them returns a value or an error on
    every input, whatever its length. *)
Theorem relay_decoders_never_panic (msg : list Z) :
  returns (ValidateVersion msg) /\
  returns (DetermineClientMessageType msg) /\
  returns (DetermineServerMessageType msg) /\
  returns (UnmarshalHelloMsg msg) /\
  returns (UnmarshalHelloResponse msg) /\
  returns (UnmarshalAuthMsg msg) /\
  returns (UnmarshalAuthChannelMsg msg) /\
  returns (UnmarshalAuthResponse msg) /\
  returns (UnmarshalTransportMsg msg) /\
  returns (UnmarshalTransportChannelMsg msg) /\
  returns (UnmarshalTransportID msg) /\
  returns (unmarshalPeerIDs msg) /\
  forall p, returns (UpdateTransportMsg msg p).
Proof.
  split_and!; eauto using DetermineClientMessageType_returns,
    UnmarshalAuthMsg_returns, UnmarshalAuthChannelMsg_returns,
    UnmarshalTransportMsg_returns, UnmarshalTransportChannelMsg_returns,
    unmarshalPeerIDs_returns.
  - unfold ValidateVersion. returns_tac.
  - unfold DetermineServerMessageType. returns_tac.
  - unfold UnmarshalHelloMsg. returns_tac.
  - unfold UnmarshalHelloResponse. returns_tac.
  - unfold UnmarshalAuthResponse. returns_tac.
  - unfold UnmarshalTransportID. returns_tac.
  - intros p. unfold UpdateTransportMsg. returns_tac.
Qed.

(** ** Round trips *)
Lemma frame_type (v t : Z) rest :
  (go_index ([v; t] ++ rest) 1 : mres Z) = Ok t.
Proof. done. Qed.

Lemma DetermineClientMessageType_frame v t rest :
  t ∈ clientMsgTypes -> DetermineClientMessageType ([v; t] ++ rest) = Ok t.
Proof.
  intros Ht. unfold DetermineClientMessageType. rewrite decide_False by sizes.
  rewrite frame_type. mred. by rewrite decide_True.
Qed.

Lemma UnmarshalAuthMsg_frame t p payload :
  peerID_ok p ->
  UnmarshalAuthMsg ([CurrentProtocolVersion; t] ++ magicHeader ++ p ++ payload) =
  Ok (p, payload).
Proof.
  intros Hp. unfold UnmarshalAuthMsg. rewrite decide_False by sizes.
  rewrite (go_slice_ok [CurrentProtocolVersion; t] magicHeader (p ++ payload)
    _ offsetMagicByte) by done.
  mred. rewrite decide_False by auto.
  rewrite (go_slice_ok ([CurrentProtocolVersion; t] ++ magicHeader) p payload
    _ offsetAuthPeerID)
    by (rewrite <- ?app_assoc; done || sizes).
  mred.
  rewrite (go_slice_from_ok ([CurrentProtocolVersion; t] ++ magicHeader ++ p) payload)
    by (rewrite <- ?app_assoc; done || sizes).
  done.
Qed.

(** the relay authentication frame round-trips.  For every peer id, every
    32-bit channel and every payload that fits the handshake, encoding
    succeeds within [MaxHandshakeSize], the server's dispatcher recognises the
    frame, and decoding returns exactly the peer id, channel and payload;
    channel 0 travels as the legacy Auth frame. *)
Theorem auth_channel_roundtrip (p : PeerID) (ch : Z) (payload : list Z) :
  peerID_ok p -> (0 <= ch < 2 ^ 32)%Z ->
  headerTotalSizeAuthChannel + length payload <= MaxHandshakeSize ->
  exists msg,
    MarshalAuthChannelMsg p ch payload = Ok msg /\
    length msg <= MaxHandshakeSize /\
    ValidateVersion msg = Ok CurrentProtocolVersion /\
    DetermineClientMessageType msg =
      Ok (if decide (ch = 0%Z) then MsgTypeAuth else MsgTypeAuthChannel) /\
    UnmarshalAuthChannelMsg msg = Ok (p, ch, payload).
Proof.
  intros Hp Hch Hsz. destruct (decide (ch = 0%Z)) as [->|Hne].
  - exists ([CurrentProtocolVersion; MsgTypeAuth] ++ magicHeader ++ p ++ payload).
    split_and!; [|sizes|done|done|].
    + unfold MarshalAuthChannelMsg. rewrite decide_True by done.
      apply MarshalAuthMsg_shape; [done|sizes].
    + unfold UnmarshalAuthChannelMsg. rewrite DetermineClientMessageType_frame by by_decide.
      mred. rewrite decide_True by done.
      by rewrite UnmarshalAuthMsg_frame.
  - exists ([CurrentProtocolVersion; MsgTypeAuthChannel] ++ magicHeader ++ p ++
      putUint32 ch ++ payload).
    pose proof (putUint32_length ch) as Hl.
    split_and!; [by apply MarshalAuthChannelMsg_shape|sizes|done|done|].
    unfold UnmarshalAuthChannelMsg. rewrite DetermineClientMessageType_frame by by_decide.
    mred. do 2 rewrite decide_False by (done || auto).
    rewrite decide_False by sizes.
    rewrite (go_slice_ok [CurrentProtocolVersion; MsgTypeAuthChannel] magicHeader
      (p ++ putUint32 ch ++ payload) _ offsetMagicByte) by done.
    mred. rewrite decide_False by auto.
    rewrite (go_slice_ok ([CurrentProtocolVersion; MsgTypeAuthChannel] ++ magicHeader)
      p (putUint32 ch ++ payload) _ offsetAuthPeerID) by (rewrite <- ?app_assoc; done || sizes).
    mred.
    rewrite (go_slice_ok ([CurrentProtocolVersion; MsgTypeAuthChannel] ++ magicHeader ++ p)
      (putUint32 ch) payload _ offsetAuthChannelID) by (rewrite <- ?app_assoc; done || sizes).
    mred.
    pose proof (readUint32_put ch [] Hch) as Hr. rewrite app_nil_r in Hr. rewrite Hr.
    mred.
    rewrite (go_slice_from_ok ([CurrentProtocolVersion; MsgTypeAuthChannel] ++
      magicHeader ++ p ++ putUint32 ch) payload)
      by (rewrite <- ?app_assoc; done || sizes).
    done.
Qed.

(** A concrete peer id for the witnesses. *)
Definition samplePeerID : PeerID := prefix_ ++ replicate sha256Size 7%Z.

Lemma auth_channel_roundtrip_witness :
  exists msg,
    MarshalAuthChannelMsg samplePeerID 3 [1; 2; 3]%Z = Ok msg /\
    length msg <= MaxHandshakeSize /\
    ValidateVersion msg = Ok CurrentProtocolVersion /\
    DetermineClientMessageType msg =
      Ok (if decide (3 = 0)%Z then MsgTypeAuth else MsgTypeAuthChannel) /\
    UnmarshalAuthChannelMsg msg = Ok (samplePeerID, 3%Z, [1; 2; 3]%Z).
Proof. apply (auth_channel_roundtrip samplePeerID 3 [1; 2; 3]%Z); by_decide. Defined.

Lemma UnmarshalTransportMsg_frame v t p payload :
  peerID_ok p ->
  UnmarshalTransportMsg ([v; t] ++ p ++ payload) = Ok (p, payload).
Proof.
  intros Hp. unfold UnmarshalTransportMsg. rewrite decide_False by sizes. cbv zeta.
  rewrite (go_slice_ok [v; t] p payload _ offsetTransportID) by (done || sizes). mred.
  rewrite (go_slice_from_ok ([v; t] ++ p) payload)
    by (rewrite <- ?app_assoc; done || sizes).
  done.
Qed.

Lemma UnmarshalTransportChannelMsg_legacy_frame p payload :
  peerID_ok p ->
  UnmarshalTransportChannelMsg
    ([CurrentProtocolVersion; MsgTypeTransport] ++ p ++ payload) = Ok (p, 0%Z, payload).
Proof.
  intros Hp. unfold UnmarshalTransportChannelMsg. rewrite decide_False by sizes.
  rewrite frame_type. mred. rewrite decide_True by done.
  by rewrite UnmarshalTransportMsg_frame.
Qed.

Lemma UnmarshalTransportChannelMsg_frame p ch payload :
  peerID_ok p -> (0 <= ch < 2 ^ 32)%Z ->
  UnmarshalTransportChannelMsg
    ([CurrentProtocolVersion; MsgTypeTransportChannel] ++ p ++ putUint32 ch ++ payload)
  = Ok (p, ch, payload).
Proof.
  intros Hp Hch. unfold UnmarshalTransportChannelMsg.
  pose proof (putUint32_length ch) as Hl. rewrite decide_False by sizes.
  rewrite frame_type. mred. rewrite decide_False by by_decide. rewrite decide_True by done.
  rewrite decide_False by sizes. cbv zeta.
  set (h := [CurrentProtocolVersion; MsgTypeTransportChannel]).
  rewrite (go_slice_ok h p (putUint32 ch ++ payload) _ offsetTransportID)
    by (done || subst h; sizes). mred.
  rewrite (go_slice_from_ok (h ++ p) (putUint32 ch ++ payload) _ offsetTransportChannelID)
    by (rewrite <- ?app_assoc; done || subst h; sizes). mred.
  rewrite readUint32_put by done. mred.
  rewrite (go_slice_from_ok (h ++ p ++ putUint32 ch) payload)
    by (rewrite <- ?app_assoc; done || subst h; sizes).
  done.
Qed.

Lemma UpdateTransportMsg_frame v t p q rest :
  peerID_ok p -> peerID_ok q ->
  UpdateTransportMsg ([v; t] ++ p ++ rest) q = Ok ([v; t] ++ q ++ rest).
Proof.
  intros Hp Hq. unfold UpdateTransportMsg. rewrite decide_False by sizes. f_equal.
  rewrite copy_into_app by (done || sizes). do 2 f_equal.
  rewrite Hq, <- Hp. apply drop_app_length.
Qed.

(** C35: relaying preserves traffic.  A transport frame built by a sender for
    [dst] with any 32-bit channel (or the legacy frame, channel 0) carries
    [dst] where the server looks for it, and after the server has rewritten
    the destination to the sender's id in place, the receiver decodes the
    sender's id with the same channel and the same payload, byte for byte. *)
Theorem transport_relay_roundtrip (dst src : PeerID) (ch : Z) (payload : list Z) :
  peerID_ok dst -> peerID_ok src -> (0 <= ch < 2 ^ 32)%Z ->
  (exists msg upd,
    MarshalTransportChannelMsg dst ch payload = Ok msg /\
    UnmarshalTransportID msg = Ok dst /\
    UpdateTransportMsg msg src = Ok upd /\
    length upd = length msg /\
    UnmarshalTransportChannelMsg upd = Ok (src, ch, payload)) /\
  (exists msg upd,
    MarshalTransportMsg dst payload = Ok msg /\
    UnmarshalTransportID msg = Ok dst /\
    UpdateTransportMsg msg src = Ok upd /\
    length upd = length msg /\
    UnmarshalTransportMsg upd = Ok (src, payload) /\
    UnmarshalTransportChannelMsg upd = Ok (src, 0%Z, payload)).
Proof.
  intros Hd Hs Hch.
  assert (Hid : forall v t rest, UnmarshalTransportID ([v; t] ++ dst ++ rest) = Ok dst).
  { intros v t rest. unfold UnmarshalTransportID. rewrite decide_False by sizes.
    apply (go_slice_ok [v; t] dst rest); [done|done|sizes]. }
  set (h t := [CurrentProtocolVersion; t]).
  split.
  - exists (h MsgTypeTransportChannel ++ dst ++ putUint32 ch ++ payload),
      (h MsgTypeTransportChannel ++ src ++ putUint32 ch ++ payload).
    split_and!; [by apply MarshalTransportChannelMsg_shape|by apply Hid
      |by apply UpdateTransportMsg_frame|
      |by apply UnmarshalTransportChannelMsg_frame].
    rewrite !length_app, Hd, Hs. done.
  - exists (h MsgTypeTransport ++ dst ++ payload), (h MsgTypeTransport ++ src ++ payload).
    split_and!; [by apply MarshalTransportMsg_shape|by apply Hid
      |by apply UpdateTransportMsg_frame|
      |by apply UnmarshalTransportMsg_frame
      |by apply UnmarshalTransportChannelMsg_legacy_frame].
    rewrite !length_app, Hd, Hs. done.
Qed.

Lemma transport_relay_roundtrip_witness :
  exists msg upd,
    MarshalTransportChannelMsg samplePeerID 7 [9]%Z = Ok msg /\
    UnmarshalTransportID msg = Ok samplePeerID /\
    UpdateTransportMsg msg (replicate 36 5%Z) = Ok upd /\
    length upd = length msg /\
    UnmarshalTransportChannelMsg upd = Ok (replicate 36 5%Z, 7%Z, [9]%Z).
Proof.
  apply (transport_relay_roundtrip samplePeerID (replicate 36 5%Z) 7 [9]%Z); by_decide.
Defined.

(** ** Peer state messages *)
Lemma maxPeersPerMessage_eq : maxPeersPerMessage = 244.
Proof. by vm_compute. Qed.

Lemma copyLoop_shape (a : list Z) (chunk : list PeerID) n :
  Forall peerID_ok chunk -> length chunk * peerIDSize = n ->
  (foldl (fun '(buf, offset) id => (copy_into buf offset id, offset + peerIDSize))
    (a ++ replicate n 0%Z, length a) chunk).1 = a ++ concat chunk.
Proof.
  intros Hok. revert a n. induction Hok as [|id chunk Hid Hok IH]; intros a n Hn.
  - simpl in *. by subst n.
  - cbn [foldl]. cbn [length] in Hn. rewrite Nat.mul_succ_l in Hn.
    unfold peerID_ok in Hid. rewrite fill_next by lia.
    replace (length a + peerIDSize) with (length (a ++ id))
      by (rewrite length_app; lia).
    rewrite IH by lia. simpl. by rewrite app_assoc.
Qed.

Lemma marshalChunk_shape t chunk :
  Forall peerID_ok chunk ->
  marshalChunk t chunk = [CurrentProtocolVersion; t] ++ concat chunk.
Proof.
  intros Hok. unfold marshalChunk. rewrite frame_header by sizes.
  apply (copyLoop_shape [_; _]); [done|sizes].
Qed.

Lemma concat_peers_length (chunk : list PeerID) :
  Forall peerID_ok chunk -> length (concat chunk) = length chunk * peerIDSize.
Proof.
  induction 1 as [|id chunk Hid _ IH]; [done|].
  cbn [concat length]. rewrite length_app, IH, Hid. lia.
Qed.

Lemma unmarshalLoop_concat a chunk offset n :
  Forall peerID_ok chunk -> offset = length a -> n = length chunk ->
  unmarshalLoop n (a ++ concat chunk) offset = Ok chunk.
Proof.
  intros Hok. revert a offset n.
  induction Hok as [|id chunk Hid Hok IH]; intros a offset n -> ->; [done|].
  cbn [unmarshalLoop length concat].
  rewrite (go_slice_ok a id (concat chunk)) by (done || by rewrite Hid). mred.
  rewrite app_assoc, (IH (a ++ id)) by (rewrite ?length_app, ?Hid; done). done.
Qed.

Lemma unmarshalPeerIDs_chunk t chunk :
  Forall peerID_ok chunk -> unmarshalPeerIDs (marshalChunk t chunk) = Ok chunk.
Proof.
  intros Hok. rewrite marshalChunk_shape by done. unfold unmarshalPeerIDs.
  rewrite decide_False by sizes.
  replace (length ([CurrentProtocolVersion; t] ++ concat chunk) - sizeOfProtoHeader)
    with (length chunk * peerIDSize)
    by (rewrite length_app, concat_peers_length by done; simpl; lia).
  rewrite decide_False by (rewrite Nat.Div0.mod_mul; auto).
  rewrite Nat.div_mul by done.
  by apply unmarshalLoop_concat.
Qed.

(** The chunk an iteration of the outer loop marshals. *)
Lemma loop_chunk (ids : list PeerID) i :
  i < length ids ->
  take ((if decide (length ids < i + maxPeersPerMessage)
         then length ids else i + maxPeersPerMessage) - i) (drop i ids) =
  take maxPeersPerMessage (drop i ids).
Proof.
  intros Hi. case_decide.
  - rewrite !take_ge; [done|rewrite length_drop; lia|rewrite length_drop; lia].
  - f_equal. lia.
Qed.

Lemma marshalLoop_spec t ids : forall fuel i,
  Forall peerID_ok ids -> length ids <= i + fuel * maxPeersPerMessage ->
  exists chunks,
    marshalLoop fuel ids t i = map (marshalChunk t) chunks /\
    concat chunks = drop i ids /\
    Forall (Forall peerID_ok) chunks /\
    Forall (fun c => length c <= maxPeersPerMessage) chunks.
Proof.
  intros fuel. induction fuel as [|fuel IH]; intros i Hok Hfuel.
  - exists []. simpl in *. rewrite drop_ge by lia. auto.
  - cbn [marshalLoop]. case_decide as Hi.
    + rewrite Nat.mul_succ_l in Hfuel.
      destruct (IH (i + maxPeersPerMessage)) as (chunks & E1 & E2 & E3 & E4); [done|lia|].
      exists (take maxPeersPerMessage (drop i ids) :: chunks).
      cbv zeta. rewrite loop_chunk, E1 by done. split; [done|]. split_and!.
      * cbn [concat]. rewrite E2, <- drop_drop. apply take_drop.
      * constructor; [|done]. by apply Forall_take, Forall_drop.
      * constructor; [|done]. rewrite length_take. lia.
    + exists []. rewrite drop_ge by lia. auto.
Qed.

(** peer-state subscriptions and notifications are never lost or
    reordered.  For every non-empty list of peer ids, [marshalPeerIDs] splits
    it into frames that all respect [MaxMessageSize], each frame decodes, and
    the concatenation of the decoded frames is the original list. *)
Theorem peer_state_roundtrip (ids : list PeerID) (t : Z) :
  ids ≠ [] -> Forall peerID_ok ids ->
  exists msgs chunks,
    marshalPeerIDs ids t = Ok msgs /\
    Forall2 (fun m c => unmarshalPeerIDs m = Ok c /\ length m <= MaxMessageSize)
      msgs chunks /\
    concat chunks = ids.
Proof.
  intros Hne Hok. unfold marshalPeerIDs.
  rewrite decide_False by (by destruct ids).
  destruct (marshalLoop_spec t ids (length ids) 0) as (chunks & -> & E2 & E3 & E4);
    [done|rewrite maxPeersPerMessage_eq; lia|].
  exists (map (marshalChunk t) chunks), chunks. split_and!; [done| |done].
  clear E2. induction chunks as [|c chunks IH]; [done|].
  inversion_clear E3. inversion_clear E4. constructor; [split|by apply IH].
  - by apply unmarshalPeerIDs_chunk.
  - rewrite marshalChunk_shape, length_app, concat_peers_length by done.
    rewrite maxPeersPerMessage_eq in *. unfold MaxMessageSize, peerIDSize.
    unfold prefixLength, sha256Size. simpl length. lia.
Qed.

Lemma peer_state_roundtrip_witness :
  exists msgs chunks,
    marshalPeerIDs (replicate 300 samplePeerID) MsgTypePeersOnline = Ok msgs /\
    Forall2 (fun m c => unmarshalPeerIDs m = Ok c /\ length m <= MaxMessageSize)
      msgs chunks /\
    concat chunks = replicate 300 samplePeerID.
Proof.
  apply (peer_state_roundtrip (replicate 300 samplePeerID) MsgTypePeersOnline).
  - done.
  - by apply Forall_replicate.
Defined.

(** ** The deprecated Hello message *)

(** the deprecated Hello decoder does not invert the Hello encoder: it
    skips [headerSizeHello] bytes instead of the protocol header plus
    [headerSizeHello], so the additional data it returns for every frame
    starts with the last two bytes of the peer id.  The peer id itself is
    decoded correctly. *)
Theorem hello_additions_carry_peer_id_tail (p : PeerID) (additions : list Z) :
  peerID_ok p ->
  exists msg,
    MarshalHelloMsg p additions = Ok msg /\
    UnmarshalHelloMsg msg =
      Ok (p, drop (peerIDSize - sizeOfProtoHeader) p ++ additions).
Proof.
  intros Hp. rewrite MarshalHelloMsg_shape. eexists. split; [done|].
  set (h := [CurrentProtocolVersion; MsgTypeHello]).
  unfold UnmarshalHelloMsg. rewrite decide_False by (subst h; sizes).
  rewrite (go_slice_ok h magicHeader (p ++ additions) _ sizeOfProtoHeader) by done. mred.
  rewrite decide_False by auto.
  rewrite (go_slice_ok (h ++ magicHeader) p additions _
    (sizeOfProtoHeader + sizeOfMagicByte)) by (rewrite <- ?app_assoc; done || subst h; sizes).
  mred.
  rewrite (go_slice_from_ok
    (h ++ magicHeader ++ take (peerIDSize - sizeOfProtoHeader) p)
    (drop (peerIDSize - sizeOfProtoHeader) p ++ additions) _ headerSizeHello).
  - done.
  - rewrite <- !app_assoc. do 2 f_equal. rewrite app_assoc. by rewrite take_drop.
  - rewrite !length_app, length_take, Hp. done.
Qed.

Lemma hello_additions_carry_peer_id_tail_witness :
  exists msg,
    MarshalHelloMsg samplePeerID [1; 2]%Z = Ok msg /\
    UnmarshalHelloMsg msg =
      Ok (samplePeerID, drop (peerIDSize - sizeOfProtoHeader) samplePeerID ++ [1; 2]%Z).
Proof. apply (hello_additions_carry_peer_id_tail samplePeerID [1; 2]%Z). done. Defined.
