(* ===== verification/Netip.v ===== *)
(** * Addresses and prefixes of Go's net/netip

    The part of the standard library's [netip] package the modelled sources
    use: an address is invalid (the zero value), an IPv4 address or an IPv6
    address with an optional zone; a prefix is an address with a length, the
    length [-1] standing for an invalid prefix. *)

From Stdlib Require Import ZArith Lia.
From stdpp Require Import base gmap strings numbers countable sorting list.
From S2P Require Import Prelude.

Inductive Addr : Type :=
| AddrInvalid
| Addr4 (ip : Z)
| Addr6 (ip : Z) (zone : string).

#[global] Instance Addr_eq_dec : EqDecision Addr.
Proof. solve_decision. Defined.

#[global] Instance Addr_countable : Countable Addr.
Proof.
  refine (inj_countable'
    (fun a => match a with
              | AddrInvalid => inl tt
              | Addr4 ip => inr (inl ip)
              | Addr6 ip z => inr (inr (ip, z))
              end)
    (fun s => match s with
              | inl _ => AddrInvalid
              | inr (inl ip) => Addr4 ip
              | inr (inr (ip, z)) => Addr6 ip z
              end) _).
  by intros [].
Defined.

#[global] Instance Addr_inhabited : Inhabited Addr := populate AddrInvalid.

Definition IsValid (a : Addr) : bool :=
  match a with AddrInvalid => false | _ => true end.

Definition Is4 (a : Addr) : bool :=
  match a with Addr4 _ => true | _ => false end.

(** IPv6 includes the IPv4-mapped addresses. *)
Definition Is6 (a : Addr) : bool :=
  match a with Addr6 _ _ => true | _ => false end.

(** The 96 upper bits of an IPv4-mapped IPv6 address. *)
Definition v4mapped_prefix : Z := 65535.

Definition Is4In6 (a : Addr) : bool :=
  match a with
  | Addr6 ip _ => Z.eqb (Z.shiftr ip 32) v4mapped_prefix
  | _ => false
  end.

Definition Unmap (a : Addr) : Addr :=
  if Is4In6 a then
    match a with Addr6 ip _ => Addr4 (ip mod 2 ^ 32) | _ => a end
  else a.

Definition BitLen (a : Addr) : Z :=
  match a with AddrInvalid => 0 | Addr4 _ => 32 | Addr6 _ _ => 128 end.

Definition addr_bits (a : Addr) : Z :=
  match a with AddrInvalid => 0 | Addr4 ip => ip | Addr6 ip _ => ip end.

Definition hasZone (a : Addr) : bool :=
  match a with Addr6 _ z => negb (bool_decide (z = EmptyString)) | _ => false end.

Definition withoutZone (a : Addr) : Addr :=
  match a with Addr6 ip _ => Addr6 ip EmptyString | _ => a end.

(** The numeric part of an address fits its width. *)
Definition addr_wf (a : Addr) : Prop :=
  match a with
  | AddrInvalid => True
  | Addr4 ip => (0 <= ip < 2 ^ 32)%Z
  | Addr6 ip _ => (0 <= ip < 2 ^ 128)%Z
  end.

#[global] Instance addr_wf_dec a : Decision (addr_wf a).
Proof. destruct a; simpl; apply _. Defined.

(** [AsSlice]: the bytes of the address, most significant first. *)
Fixpoint be_bytes (n : nat) (v : Z) : list Z :=
  match n with
  | O => []
  | S n => be_bytes n (Z.shiftr v 8) ++ [u8 v]
  end.

Definition AsSlice (a : Addr) : list Z :=
  match a with
  | AddrInvalid => []
  | Addr4 ip => be_bytes 4 ip
  | Addr6 ip _ => be_bytes 16 ip
  end.

(** The value of big-endian bytes ([AddrFrom4], [AddrFrom16]). *)
Definition be_value (l : list Z) : Z := foldl (fun acc b => (acc * 256 + b)%Z) 0%Z l.

Definition AddrFrom4 (b : list Z) : Addr := Addr4 (be_value b).
Definition AddrFrom16 (b : list Z) : Addr := Addr6 (be_value b) EmptyString.

(** [netip.AddrFromSlice]: the zero address unless there are 4 or 16 bytes. *)
Definition AddrFromSlice (b : list Z) : Addr :=
  if decide (length b = 4) then AddrFrom4 b
  else if decide (length b = 16) then AddrFrom16 b
  else AddrInvalid.

(** [cmp.Compare] as an [int]. *)
Definition cmpZ (c : comparison) : Z := match c with Lt => -1 | Eq => 0 | Gt => 1 end.

(** [netip.Addr.Compare]: width, value, zone. *)
Definition addr_zone (a : Addr) : string :=
  match a with Addr6 _ z => z | _ => EmptyString end.

Definition addr_compare (a b : Addr) : Z :=
  match (BitLen a ?= BitLen b)%Z with
  | Eq => match (addr_bits a ?= addr_bits b)%Z with
          | Eq => cmpZ (String.compare (addr_zone a) (addr_zone b))
          | c => cmpZ c
          end
  | c => cmpZ c
  end.

(** [As16]: an IPv4 address in its IPv4-mapped form. *)
Definition As16 (a : Addr) : list Z :=
  match a with
  | AddrInvalid => replicate 16 0%Z
  | Addr4 ip => replicate 10 0%Z ++ [255; 255]%Z ++ be_bytes 4 ip
  | Addr6 ip _ => be_bytes 16 ip
  end.

(** ** Prefixes *)
Record Prefix : Type := mkPrefix { PAddr : Addr; PBits : Z }.

#[global] Instance Prefix_eq_dec : EqDecision Prefix.
Proof. solve_decision. Defined.

#[global] Instance Prefix_countable : Countable Prefix.
Proof.
  refine (inj_countable' (fun p => (PAddr p, PBits p))
    (fun '(a, b) => mkPrefix a b) _).
  by intros [].
Defined.

Definition PrefixZero : Prefix := mkPrefix AddrInvalid (-1).

Definition PrefixFrom (ip : Addr) (bits : Z) : Prefix :=
  if IsValid ip && (0 <=? bits)%Z && (bits <=? BitLen ip)%Z
  then mkPrefix (withoutZone ip) bits
  else mkPrefix (withoutZone ip) (-1).

Definition PIsValid (p : Prefix) : bool := (0 <=? PBits p)%Z.

(** [Contains]: same family, no zone, and equal upper bits. *)
Definition Contains (p : Prefix) (ip : Addr) : bool :=
  PIsValid p && negb (hasZone ip) &&
  (BitLen (PAddr p) =? BitLen ip)%Z && IsValid ip &&
  (Z.shiftr (addr_bits (PAddr p)) (BitLen ip - PBits p) =?
   Z.shiftr (addr_bits ip) (BitLen ip - PBits p))%Z.

(** [Masked]: the prefix with the host bits cleared. *)
Definition mask_bits (width bits v : Z) : Z :=
  Z.shiftl (Z.shiftr v (width - bits)) (width - bits).

Definition Masked (p : Prefix) : Prefix :=
  if PIsValid p then
    match PAddr p with
    | AddrInvalid => PrefixZero
    | Addr4 ip => mkPrefix (Addr4 (mask_bits 32 (PBits p) ip)) (PBits p)
    | Addr6 ip z => mkPrefix (Addr6 (mask_bits 128 (PBits p) ip) z) (PBits p)
    end
  else PrefixZero.

Definition prefix_wf (p : Prefix) : Prop :=
  addr_wf (PAddr p) /\ hasZone (PAddr p) = false /\
  (0 <= PBits p <= BitLen (PAddr p))%Z /\ IsValid (PAddr p) = true.

(** ** Facts *)
Lemma be_bytes_length n v : length (be_bytes n v) = n.
Proof.
  revert v. induction n as [|n IH]; intros v; [done|].
  simpl. rewrite length_app, IH. simpl. lia.
Qed.

Lemma be_value_snoc l b : be_value (l ++ [b]) = (be_value l * 256 + b)%Z.
Proof. unfold be_value. by rewrite foldl_app. Qed.

Lemma be_value_bytes n v :
  (0 <= v < 2 ^ (8 * Z.of_nat n))%Z -> be_value (be_bytes n v) = v.
Proof.
  revert v. induction n as [|n IH]; intros v Hv.
  - simpl in *. change (be_value []) with 0%Z. lia.
  - cbn [be_bytes]. rewrite be_value_snoc.
    rewrite Z.shiftr_div_pow2 by lia. unfold u8.
    replace (8 * Z.of_nat (S n))%Z with (8 * Z.of_nat n + 8)%Z in Hv by lia.
    rewrite Z.pow_add_r in Hv by lia.
    rewrite IH; [Z.div_mod_to_equations; lia|].
    split; [apply Z.div_pos; lia|].
    apply Z.div_lt_upper_bound; lia.
Qed.

Lemma Unmap_not_4in6 a : Is4In6 a = false -> Unmap a = a.
Proof. unfold Unmap. by intros ->. Qed.

Lemma Unmap_idemp a : Unmap (Unmap a) = Unmap a.
Proof.
  unfold Unmap at 2 3. destruct (Is4In6 a) eqn:E; [|by apply Unmap_not_4in6].
  by destruct a.
Qed.

Lemma Unmap_wf a : addr_wf a -> addr_wf (Unmap a).
Proof.
  unfold Unmap. destruct (Is4In6 a); [|done]. destruct a; simpl; [done|done|].
  intros _. apply Z.mod_pos_bound. lia.
Qed.

Lemma Unmap_Is4In6 a : Is4In6 (Unmap a) = false.
Proof. unfold Unmap. destruct (Is4In6 a) eqn:E; [by destruct a|done]. Qed.

Lemma Contains_self p : prefix_wf p -> Contains p (PAddr p) = true.
Proof.
  intros (_ & Hz & Hb & Hv). unfold Contains, PIsValid.
  rewrite Hz, Hv, Z.eqb_refl, Z.eqb_refl.
  by rewrite (proj2 (Z.leb_le 0 _)) by lia.
Qed.

(** A default route ([0.0.0.0/0], [::/0]) contains every address of its
    family. *)
Lemma Contains_default p a :
  prefix_wf p -> PBits p = 0%Z -> addr_wf a -> hasZone a = false ->
  BitLen a = BitLen (PAddr p) -> Contains p a = true.
Proof.
  intros (Hw & Hz & Hb & Hv) H0 Ha Hza HL. unfold Contains, PIsValid.
  rewrite H0, Hza, HL, Z.eqb_refl, Z.sub_0_r. simpl.
  assert (forall x, addr_wf x -> IsValid x = true ->
    Z.shiftr (addr_bits x) (BitLen x) = 0%Z) as Hs.
  { intros x Hx Hvx. destruct x; simpl in *; [done|..];
      rewrite Z.shiftr_div_pow2 by lia; apply Z.div_small; lia. }
  assert (IsValid a = true) as Hva
    by (destruct a, (PAddr p); simpl in *; done).
  rewrite Hva. simpl. apply Z.eqb_eq. rewrite Hs by done.
  rewrite <- HL. by rewrite Hs.
Qed.

(** ** The order on addresses *)
Lemma cmpZ_opp c : cmpZ (CompOpp c) = (- cmpZ c)%Z.
Proof. by destruct c. Qed.

Lemma addr_compare_antisym a b : addr_compare b a = (- addr_compare a b)%Z.
Proof.
  unfold addr_compare. rewrite (Z.compare_antisym (BitLen a)).
  destruct (BitLen a ?= BitLen b)%Z; try done. simpl.
  rewrite (Z.compare_antisym (addr_bits a)).
  destruct (addr_bits a ?= addr_bits b)%Z; try done. simpl.
  by rewrite (String.compare_antisym _ (addr_zone a)), cmpZ_opp.
Qed.

Lemma addr_compare_eq a b : addr_compare a b = 0%Z -> a = b.
Proof.
  unfold addr_compare. intros H.
  destruct (BitLen a ?= BitLen b)%Z eqn:E1; try done. apply Z.compare_eq in E1.
  destruct (addr_bits a ?= addr_bits b)%Z eqn:E2; try done. apply Z.compare_eq in E2.
  destruct (String.compare _ _) eqn:E3; try done.
  apply String.compare_eq_iff in E3.
  destruct a, b; simpl in *; by simplify_eq.
Qed.
