(* ===== verification/GoStrings.v ===== *)
(** * Strings of the Go standard library
      (packages strings, strconv, net and net/url)

    The functions of the standard library that the modelled sources apply to
    addresses, URLs and protocol lines.  A Go string is its list of bytes.
    Case mapping outside ASCII needs the Unicode tables, which are a parameter
    where it matters. *)

From Stdlib Require Import ZArith Lia Ascii.
From stdpp Require Import base gmap strings numbers countable sorting pretty list.
From S2P Require Import Prelude Netip.

Notation gostring := (list ascii).

(** String literals. *)
Definition lit (s : string) : gostring := String.list_ascii_of_string s.

Definition byte_of (c : ascii) : N := Ascii.N_of_ascii c.

(** Lists of bytes with a decidable membership. *)
Definition mem (c : ascii) (l : gostring) : bool := bool_decide (c ∈ l).

(** ** Package strings *)

Fixpoint HasPrefix (s prefix : gostring) : bool :=
  match prefix, s with
  | [], _ => true
  | _ :: _, [] => false
  | p :: prefix, c :: s => if decide (p = c) then HasPrefix s prefix else false
  end.

Definition HasSuffix (s suffix : gostring) : bool :=
  bool_decide (length suffix <= length s) &&
  bool_decide (drop (length s - length suffix) s = suffix).

Definition TrimSuffix (s suffix : gostring) : gostring :=
  if HasSuffix s suffix then take (length s - length suffix) s else s.

(** [strings.IndexByte] and [strings.LastIndexByte]; [None] for -1. *)
Fixpoint IndexByte (s : gostring) (c : ascii) : option nat :=
  match s with
  | [] => None
  | x :: s => if decide (x = c) then Some 0 else S <$> IndexByte s c
  end.

Fixpoint LastIndexByte (s : gostring) (c : ascii) : option nat :=
  match s with
  | [] => None
  | x :: s =>
      match LastIndexByte s c with
      | Some i => Some (S i)
      | None => if decide (x = c) then Some 0 else None
      end
  end.

(** [strings.Cut] at a byte: the text before and after, and whether it occurs. *)
Fixpoint Cut (s : gostring) (c : ascii) : gostring * gostring * bool :=
  match s with
  | [] => ([], [], false)
  | x :: s =>
      if decide (x = c) then ([], s, true)
      else let '(before, after, found) := Cut s c in (x :: before, after, found)
  end.

Definition count_byte (c : ascii) (s : gostring) : nat := length (filter (eq c) s).

(** [strings.Trim] with a cutset of ASCII bytes. *)
Fixpoint trim_left_set (cutset : gostring) (s : gostring) : gostring :=
  match s with
  | [] => []
  | c :: rest => if mem c cutset then trim_left_set cutset rest else s
  end.

Definition Trim (s cutset : gostring) : gostring :=
  reverse (trim_left_set cutset (reverse (trim_left_set cutset s))).

(** [unicode.IsSpace] on UTF-8: one byte, two bytes, three bytes. *)
Definition space1 (a : ascii) : bool :=
  bool_decide (9 <= byte_of a <= 13 \/ byte_of a = 32)%N.
Definition space2 (a b : ascii) : bool :=
  bool_decide (byte_of a = 194 /\ (byte_of b = 133 \/ byte_of b = 160))%N.
Definition space3 (a b c : ascii) : bool :=
  bool_decide ((byte_of a = 225 /\ byte_of b = 154 /\ byte_of c = 128) \/
    (byte_of a = 226 /\ byte_of b = 128 /\
     (128 <= byte_of c <= 138 \/ byte_of c = 168 \/ byte_of c = 169 \/ byte_of c = 175)) \/
    (byte_of a = 226 /\ byte_of b = 129 /\ byte_of c = 159) \/
    (byte_of a = 227 /\ byte_of b = 128 /\ byte_of c = 128))%N.

Section trim.
Context (sp1 : ascii -> bool) (sp2 : ascii -> ascii -> bool) (sp3 : ascii -> ascii -> ascii -> bool).

Fixpoint trim_runes (s : gostring) : gostring :=
  match s with
  | a :: s1 =>
      if sp1 a then trim_runes s1
      else match s1 with
           | b :: s2 =>
               if sp2 a b then trim_runes s2
               else match s2 with
                    | c :: s3 => if sp3 a b c then trim_runes s3 else s
                    | [] => s
                    end
           | [] => s
           end
  | [] => []
  end.

End trim.

Definition TrimSpace (s : gostring) : gostring :=
  let s := trim_runes space1 space2 space3 s in
  reverse (trim_runes space1 (fun a b => space2 b a) (fun a b c => space3 c b a) (reverse s)).

(** ASCII case. *)
Definition lower_byte (c : ascii) : ascii :=
  if decide (65 <= byte_of c <= 90)%N then Ascii.ascii_of_N (byte_of c + 32) else c.
Definition upper_byte (c : ascii) : ascii :=
  if decide (97 <= byte_of c <= 122)%N then Ascii.ascii_of_N (byte_of c - 32) else c.

Definition is_ascii (s : gostring) : bool := forallb (fun c => bool_decide (byte_of c < 128)%N) s.

(** [strings.ToLower] and [strings.ToUpper]; [unicode] maps strings that are
    not pure ASCII. *)
Definition ToLower (unicode : gostring -> gostring) (s : gostring) : gostring :=
  if is_ascii s then map lower_byte s else unicode s.
Definition ToUpper (unicode : gostring -> gostring) (s : gostring) : gostring :=
  if is_ascii s then map upper_byte s else unicode s.

(** [strings.EqualFold(s, t)] for an ASCII [t]: outside ASCII only U+017F
    folds to "s" and U+212A to "k". *)
Fixpoint EqualFold (s t : gostring) : bool :=
  match t, s with
  | [], [] => true
  | c :: t, a :: s1 =>
      if bool_decide (byte_of a < 128)%N
      then bool_decide (lower_byte a = lower_byte c) && EqualFold s1 t
      else match s1 with
           | b :: s2 =>
               if bool_decide (lower_byte c = "s"%char /\ byte_of a = 197 /\ byte_of b = 191)%N
               then EqualFold s2 t
               else match s2 with
                    | d :: s3 =>
                        if bool_decide (lower_byte c = "k"%char /\
                             byte_of a = 226 /\ byte_of b = 132 /\ byte_of d = 170)%N
                        then EqualFold s3 t else false
                    | [] => false
                    end
           | [] => false
           end
  | _, _ => false
  end.

(** ** Package net *)

Inductive addr_error : Type :=
| missingPort | tooManyColons | missingBracket | unexpectedOpen | unexpectedClose.

#[global] Instance addr_error_eq_dec : EqDecision addr_error.
Proof. solve_decision. Defined.

Definition SplitHostPort (hostport : gostring) : addr_error + (gostring * gostring) :=
  match LastIndexByte hostport ":" with
  | None => inl missingPort
  | Some i =>
      let finish (host : gostring) (j k : nat) : addr_error + (gostring * gostring) :=
        if mem "[" (drop j hostport) then inl unexpectedOpen
        else if mem "]" (drop k hostport) then inl unexpectedClose
        else inr (host, drop (i + 1) hostport) in
      if bool_decide (hostport !! 0 = Some "["%char) then
        match IndexByte hostport "]" with
        | None => inl missingBracket
        | Some e =>
            if decide (e + 1 = length hostport) then inl missingPort
            else if decide (e + 1 = i) then finish (drop 1 (take e hostport)) 1 (e + 1)
            else if bool_decide (hostport !! (e + 1) = Some ":"%char) then inl tooManyColons
            else inl missingPort
        end
      else
        let host := take i hostport in
        if mem ":" host then inl tooManyColons else finish host 0 0
  end.

(** *** [netip.ParseAddr] and [net.ParseIP] *)
Definition digit (c : ascii) : option Z :=
  if decide (48 <= byte_of c <= 57)%N then Some (Z.of_N (byte_of c - 48)) else None.

Definition hex_digit (c : ascii) : option Z :=
  if decide (48 <= byte_of c <= 57)%N then Some (Z.of_N (byte_of c - 48))
  else if decide (97 <= byte_of c <= 102)%N then Some (Z.of_N (byte_of c - 87))
  else if decide (65 <= byte_of c <= 70)%N then Some (Z.of_N (byte_of c - 55))
  else None.

(** [parseIPv4Fields]: the fields read so far, the value and the number of
    digits of the current one. *)
Fixpoint parseIPv4Fields (s : gostring) (fields : list Z) (val : Z) (digLen : nat)
    : option (list Z) :=
  match s with
  | [] =>
      if decide (length fields < 3) then None
      else if decide (digLen = 0) then None else Some (fields ++ [val])
  | c :: rest =>
      match digit c with
      | Some d =>
          if decide (digLen = 1 /\ val = 0%Z) then None
          else
            let val := (val * 10 + d)%Z in
            if decide (255 < val)%Z then None else parseIPv4Fields rest fields val (digLen + 1)
      | None =>
          if decide (c = "."%char) then
            if decide (digLen = 0 \/ rest = [] \/ length fields = 3) then None
            else parseIPv4Fields rest (fields ++ [val]) 0 0
          else None
      end
  end.

Definition parseIPv4 (s : gostring) : option Addr :=
  AddrFrom4 <$> parseIPv4Fields s [] 0 0.

(** The digits of one group: at most four. *)
Fixpoint hex_group (s : gostring) (off : nat) (acc : Z) : option (nat * Z * gostring) :=
  match s with
  | c :: rest =>
      match hex_digit c with
      | Some d =>
          if decide (3 < off) then None
          else hex_group rest (off + 1) (acc * 16 + d)%Z
      | None => Some (off, acc, s)
      end
  | [] => Some (off, acc, s)
  end.

(** The loop over the groups: [ip] holds the bytes parsed so far, [ellipsis]
    the position of "::"; the result is the bytes, the position and the
    rest of the string.  One group consumes at least one byte. *)
Fixpoint parse_groups (fuel : nat) (s : gostring) (ip : list Z) (ellipsis : option nat)
    : option (list Z * option nat * gostring) :=
  match fuel with
  | O => None
  | S fuel =>
      if decide (16 <= length ip) then Some (ip, ellipsis, s) else
      match hex_group s 0 0 with
      | None => None
      | Some (off, acc, rest) =>
          if decide (off = 0) then None else
          match rest with
          | "."%char :: _ =>
              if decide (ellipsis = None /\ length ip <> 12 \/ 16 < length ip + 4) then None
              else match parseIPv4Fields s [] 0 0 with
                   | Some fields => Some (ip ++ fields, ellipsis, [])
                   | None => None
                   end
          | _ =>
              let ip := ip ++ [(acc / 256)%Z; (acc mod 256)%Z] in
              match rest with
              | [] => Some (ip, ellipsis, [])
              | ":"%char :: [] => None
              | ":"%char :: ":"%char :: rest =>
                  if ellipsis then None
                  else match rest with
                       | [] => Some (ip, Some (length ip), [])
                       | _ => parse_groups fuel rest ip (Some (length ip))
                       end
              | ":"%char :: rest => parse_groups fuel rest ip ellipsis
              | _ => None
              end
          end
      end
  end.

Definition parseIPv6 (s : gostring) : option Addr :=
  let '(s, zone, has_zone) := Cut s "%" in
  if has_zone && bool_decide (zone = []) then None else
  let zone := String.string_of_list_ascii zone in
  let '(s, ellipsis) :=
    match s with
    | ":"%char :: ":"%char :: rest => (rest, Some 0)
    | _ => (s, None)
    end in
  if decide (ellipsis = Some 0 /\ s = []) then Some (Addr6 0 zone) else
  match parse_groups (S (length s)) s [] ellipsis with
  | Some (ip, ellipsis, []) =>
      if decide (length ip < 16) then
        match ellipsis with
        | Some e =>
            Some (Addr6 (be_value (take e ip ++ replicate (16 - length ip) 0%Z ++ drop e ip)) zone)
        | None => None
        end
      else if ellipsis then None else Some (Addr6 (be_value ip) zone)
  | _ => None
  end.

(** The first of ".", ":" and "%" decides the family. *)
Fixpoint parse_family (s whole : gostring) : option Addr :=
  match s with
  | [] => None
  | "."%char :: _ => parseIPv4 whole
  | ":"%char :: _ => parseIPv6 whole
  | "%"%char :: _ => None
  | _ :: s => parse_family s whole
  end.

Definition ParseAddr (s : gostring) : option Addr := parse_family s s.

(** [net.ParseIP]: no zone. *)
Definition ParseIP (s : gostring) : option Addr :=
  match ParseAddr s with
  | Some a => if hasZone a then None else Some a
  | None => None
  end.

(** [IP.IsLoopback], with IPv4-mapped addresses seen as IPv4. *)
Definition IsLoopback (a : Addr) : bool :=
  match Unmap a with
  | Addr4 ip => (Z.shiftr ip 24 =? 127)%Z
  | Addr6 ip _ => (ip =? 1)%Z
  | AddrInvalid => false
  end.

(** ** Package net/url *)

Definition is_alnum (c : ascii) : bool :=
  bool_decide ((48 <= byte_of c <= 57) \/ (65 <= byte_of c <= 90) \/ (97 <= byte_of c <= 122))%N.

(** The bytes below 0x80 that [shouldEscape] lets stand in a host. *)
Definition host_byte (c : ascii) : bool :=
  is_alnum c || mem c (lit "!$&'()*+,;=:[]<>-_.~") || bool_decide (byte_of c = 34)%N.

Definition ishex (c : ascii) : bool := match hex_digit c with Some _ => true | None => false end.

Inductive encoding : Type := encodeHost | encodeZone | encodePath | encodeUserPassword
  | encodeFragment.

(** [unescape] in the modes that parsing uses. *)
Fixpoint unescape (mode : encoding) (s : gostring) : option gostring :=
  match s with
  | [] => Some []
  | c :: rest =>
      if decide (c = "%"%char) then
        match rest with
        | h1 :: h2 :: rest =>
            match hex_digit h1, hex_digit h2 with
            | Some v1, Some v2 =>
                let v := Ascii.ascii_of_N (Z.to_N (v1 * 16 + v2)) in
                let percent := bool_decide (h1 = "2"%char /\ h2 = "5"%char) in
                if match mode with
                   | encodeHost => bool_decide (v1 < 8)%Z && negb percent
                   | encodeZone =>
                       negb percent && negb (bool_decide (v = " "%char)) &&
                       negb (host_byte v)
                   | _ => false
                   end
                then None
                else cons v <$> unescape mode rest
            | _, _ => None
            end
        | _ => None
        end
      else
        if match mode with
           | encodeHost | encodeZone => bool_decide (byte_of c < 128)%N && negb (host_byte c)
           | _ => false
           end
        then None
        else cons c <$> unescape mode rest
  end.

Definition validOptionalPort (port : gostring) : bool :=
  match port with
  | [] => true
  | c :: rest =>
      bool_decide (c = ":"%char) && forallb (fun d => match digit d with Some _ => true | None => false end) rest
  end.

(** The position of the first "%25". *)
Fixpoint index_zone (s : gostring) : option nat :=
  match s with
  | [] => None
  | _ :: rest => if HasPrefix s (lit "%25") then Some 0 else S <$> index_zone rest
  end.

Definition parse_host_literal (host : gostring) (openIdx : nat) : option gostring :=
  closeIdx ← LastIndexByte host "]";
  let colonPort := drop (closeIdx + 1) host in
  if negb (validOptionalPort colonPort) then None else
  port ← unescape encodeHost colonPort;
  let hostname := drop (openIdx + 1) (take closeIdx host) in
  name ← match index_zone hostname with
         | Some z =>
             h ← unescape encodeHost (take z hostname);
             zone ← unescape encodeZone (drop z hostname);
             Some (h ++ zone)
         | None => unescape encodeHost hostname
         end;
  addr ← ParseAddr name;
  if Is4 addr then None else Some (lit "[" ++ name ++ lit "]" ++ port).

Definition parseHost (host : gostring) : option gostring :=
  match LastIndexByte host "[" with
  | Some openIdx => parse_host_literal host openIdx
  | None =>
      match LastIndexByte host ":" with
      | Some i => if validOptionalPort (drop i host) then unescape encodeHost host else None
      | None => unescape encodeHost host
      end
  end.

(** [validUserinfo] *)
Definition validUserinfo (s : gostring) : bool :=
  forallb (fun c => is_alnum c || mem c (lit "-._:~!$&'()*+,;=%@")) s.

Definition parse_userinfo (userinfo : gostring) : option unit :=
  if negb (validUserinfo userinfo) then None else
  let '(name, password, _) := Cut userinfo ":" in
  _ ← unescape encodeUserPassword name;
  _ ← unescape encodeUserPassword password;
  Some tt.

(** [parseAuthority], reduced to the host. *)
Definition parseAuthority (authority : gostring) : option gostring :=
  match LastIndexByte authority "@" with
  | None => parseHost authority
  | Some i =>
      host ← parseHost (drop (i + 1) authority);
      _ ← parse_userinfo (take i authority);
      Some host
  end.

(** [getScheme]: [None] for an error; the index [i] is the number of bytes
    before. *)
Fixpoint get_scheme (s : gostring) (before : gostring) (whole : gostring)
    : option (gostring * gostring) :=
  match s with
  | [] => Some ([], whole)
  | c :: rest =>
      if bool_decide ((97 <= byte_of c <= 122) \/ (65 <= byte_of c <= 90))%N
      then get_scheme rest (before ++ [c]) whole
      else if bool_decide (48 <= byte_of c <= 57)%N || mem c (lit "+-.") then
        if decide (before = []) then Some ([], whole) else get_scheme rest (before ++ [c]) whole
      else if decide (c = ":"%char) then
        if decide (before = []) then None else Some (before, rest)
      else Some ([], whole)
  end.

Definition has_ctl (s : gostring) : bool :=
  existsb (fun c => bool_decide (byte_of c < 32 \/ byte_of c = 127)%N) s.

(** The part of the URL before a query. *)
Definition strip_query (rest : gostring) : gostring :=
  if HasSuffix rest (lit "?") && bool_decide (count_byte "?" rest = 1)
  then take (length rest - 1) rest
  else let '(before, _, _) := Cut rest "?" in before.

(** [parse(rawURL, false)], reduced to the host; [None] for an error. *)
Definition url_parse_host (rawURL : gostring) : option gostring :=
  if has_ctl rawURL then None else
  if decide (rawURL = lit "*") then Some [] else
  '(scheme, rest) ← get_scheme rawURL [] rawURL;
  let rest := strip_query rest in
  if negb (HasPrefix rest (lit "/")) && negb (bool_decide (scheme = [])) then Some [] else
  if negb (HasPrefix rest (lit "/")) && mem ":" (Cut rest "/").1.1 then None else
  if (negb (bool_decide (scheme = [])) || negb (HasPrefix rest (lit "///"))) &&
     HasPrefix rest (lit "//")
  then
    let authority := drop 2 rest in
    let '(authority, path) :=
      match IndexByte authority "/" with
      | Some i => (take i authority, drop i authority)
      | None => (authority, [])
      end in
    host ← parseAuthority authority;
    _ ← unescape encodePath path;
    Some host
  else
    _ ← unescape encodePath rest;
    Some [].

(** [url.Parse], reduced to the host. *)
Definition url_host (rawURL : gostring) : option gostring :=
  let '(u, frag, _) := Cut rawURL "#" in
  host ← url_parse_host u;
  _ ← unescape encodeFragment frag;
  Some host.

(** [URL.Hostname]: the host without port and brackets. *)
Definition url_hostname (host : gostring) : gostring :=
  let host :=
    match LastIndexByte host ":" with
    | Some colon => if validOptionalPort (drop colon host) then take colon host else host
    | None => host
    end in
  if HasPrefix host (lit "[") && HasSuffix host (lit "]")
  then drop 1 (take (length host - 1) host) else host.

(** ** Package strconv *)

(** The value of decimal digits; [None] for an empty string or another byte. *)
Fixpoint digits_value (s : gostring) (acc : Z) : option Z :=
  match s with
  | [] => Some acc
  | c :: rest =>
      match digit c with
      | Some d => digits_value rest (acc * 10 + d)%Z
      | None => None
      end
  end.

(** [strconv.Atoi] with 64-bit integers. *)
Definition Atoi (s : gostring) : option Z :=
  let '(neg, ds) :=
    match s with
    | "-"%char :: ds => (true, ds)
    | "+"%char :: ds => (false, ds)
    | _ => (false, s)
    end in
  if decide (ds = []) then None else
  v ← digits_value ds 0;
  let v := if (neg : bool) then (- v)%Z else v in
  if decide (- 2 ^ 63 <= v < 2 ^ 63)%Z then Some v else None.

(** [netip.ParsePrefix]: no zone, no sign and no leading zero in the length. *)
Definition ParsePrefix (s : gostring) : option Prefix :=
  i ← LastIndexByte s "/";
  ip ← ParseAddr (take i s);
  if hasZone ip then None else
  let bitsStr := drop (i + 1) s in
  if match bitsStr with
     | c :: _ :: _ => bool_decide (byte_of c < 49 \/ 57 < byte_of c)%N
     | _ => false
     end then None else
  bits ← Atoi bitsStr;
  if decide (bits < 0 \/ BitLen ip < bits)%Z then None else Some (PrefixFrom ip bits).

(** ** Facts *)
Lemma mem_spec c l : mem c l = true <-> c ∈ l.
Proof. unfold mem. apply bool_decide_eq_true. Qed.

Lemma mem_false c l : mem c l = false <-> c ∉ l.
Proof. unfold mem. apply bool_decide_eq_false. Qed.

Lemma HasSuffix_spec s suffix : HasSuffix s suffix = true <-> exists p, s = p ++ suffix.
Proof.
  unfold HasSuffix. rewrite andb_true_iff, !bool_decide_eq_true. split.
  - intros [Hl Hd]. exists (take (length s - length suffix) s).
    rewrite <- Hd at 2. by rewrite take_drop.
  - intros [p ->]. rewrite length_app. split; [lia|].
    replace (length p + length suffix - length suffix) with (length p) by lia.
    apply drop_app_length.
Qed.

Lemma IndexByte_None s c : IndexByte s c = None <-> c ∉ s.
Proof.
  induction s as [|x s IH]; simpl; [by split; [intros _; apply not_elem_of_nil|]|].
  rewrite not_elem_of_cons. case_decide as E.
  - split; [done|]. intros [? _]. congruence.
  - destruct (IndexByte s c); simpl; split; try done.
    + intros [_ H]. by apply IH in H.
    + intros _. split; [congruence|by apply IH].
Qed.

Lemma IndexByte_Some s c i : IndexByte s c = Some i ->
  s = take i s ++ c :: drop (S i) s /\ c ∉ take i s.
Proof.
  revert i. induction s as [|x s IH]; intros i; simpl; [done|]. case_decide as E.
  - intros [= <-]. subst. split; [done|apply not_elem_of_nil].
  - destruct (IndexByte s c) as [j|]; simpl; [|done]. intros [= <-].
    destruct (IH j eq_refl) as [H1 H2]. cbn [take drop app]. split; [by f_equal|].
    apply not_elem_of_cons. split; [congruence|done].
Qed.

Lemma IndexByte_app p c s : c ∉ p -> IndexByte (p ++ c :: s) c = Some (length p).
Proof.
  induction p as [|x p IH]; simpl; [by rewrite decide_True|].
  intros [Hx Hp]%not_elem_of_cons. by rewrite decide_False, IH by congruence.
Qed.

Lemma LastIndexByte_None s c : LastIndexByte s c = None <-> c ∉ s.
Proof.
  induction s as [|x s IH]; simpl; [by split; [intros _; apply not_elem_of_nil|]|].
  rewrite not_elem_of_cons. destruct (LastIndexByte s c) as [i|].
  - split; [done|]. intros [_ H]. by apply IH in H.
  - case_decide as E; split; try done; [intros [? _]; congruence|].
    intros _. split; [congruence|by apply IH].
Qed.

Lemma LastIndexByte_Some s c i : LastIndexByte s c = Some i ->
  s = take i s ++ c :: drop (S i) s /\ c ∉ drop (S i) s /\ i < length s.
Proof.
  revert i. induction s as [|x s IH]; intros i; simpl; [done|].
  destruct (LastIndexByte s c) as [j|] eqn:E.
  - intros [= <-]. destruct (IH j eq_refl) as (H1 & H2 & H3).
    cbn [take app]. split_and!; [by f_equal|done|lia].
  - case_decide; [|done]. intros [= <-]. subst. split_and!; [done| |lia].
    by apply LastIndexByte_None.
Qed.

Lemma LastIndexByte_app p c s : c ∉ s -> LastIndexByte (p ++ c :: s) c = Some (length p).
Proof.
  intros Hs. induction p as [|x p IH]; simpl.
  - rewrite (proj2 (LastIndexByte_None s c) Hs). by rewrite decide_True.
  - by rewrite IH.
Qed.

Lemma Cut_absent s c : c ∉ s -> Cut s c = (s, [], false).
Proof.
  induction s as [|x s IH]; simpl; [done|]. intros [Hx Hs]%not_elem_of_cons.
  by rewrite decide_False, IH by congruence.
Qed.

Lemma Cut_app p c s : c ∉ p -> Cut (p ++ c :: s) c = (p, s, true).
Proof.
  induction p as [|x p IH]; simpl; [by rewrite decide_True|].
  intros [Hx Hp]%not_elem_of_cons. by rewrite decide_False, IH by congruence.
Qed.

Lemma HasPrefix_app p s : HasPrefix (p ++ s) p = true.
Proof. induction p as [|x p IH]; simpl; [by destruct s|]. by rewrite decide_True. Qed.

Lemma HasPrefix_absent c l p : c ∉ l -> HasPrefix l (c :: p) = false.
Proof.
  destruct l as [|x l]; [done|]. intros [Hx _]%not_elem_of_cons. simpl. by rewrite decide_False.
Qed.

(** A string that does not start or end with a byte of the cutset. *)
Lemma trim_left_set_none cutset s : (forall c, c ∈ s -> c ∉ cutset) -> trim_left_set cutset s = s.
Proof.
  destruct s as [|c s]; [done|]. intros H. simpl.
  rewrite (proj2 (mem_false c cutset)); [done|]. apply H. by left.
Qed.

Lemma Trim_none cutset s : (forall c, c ∈ s -> c ∉ cutset) -> Trim s cutset = s.
Proof.
  intros H. unfold Trim. rewrite (trim_left_set_none cutset s) by done.
  rewrite trim_left_set_none; [apply reverse_involutive|].
  intros c Hc. apply H. by apply elem_of_reverse.
Qed.

Lemma elem_drop_take {A} (x : A) i j (l : list A) : x ∈ drop i (take j l) -> x ∈ take j l /\ x ∈ drop i l.
Proof.
  intros (k & Hk)%list_elem_of_lookup. rewrite lookup_drop in Hk. split.
  - by eapply list_elem_of_lookup_2.
  - apply lookup_take_Some in Hk as [Hk _].
    apply (list_elem_of_lookup_2 _ k). by rewrite lookup_drop.
Qed.

Lemma elem_take {A} (x : A) j (l : list A) : x ∈ take j l -> x ∈ l.
Proof. intros (k & Hk & _)%elem_of_take. by eapply list_elem_of_lookup_2. Qed.

(** The host part of a successful split has no brackets. *)
Lemma SplitHostPort_host hp host port :
  SplitHostPort hp = inr (host, port) -> "["%char ∉ host /\ "]"%char ∉ host.
Proof.
  unfold SplitHostPort. destruct (LastIndexByte hp ":") as [i|]; [|done].
  case_bool_decide.
  - destruct (IndexByte hp "]") as [e|] eqn:Ee; [|done].
    apply IndexByte_Some in Ee as [_ He].
    destruct (decide (e + 1 = length hp)); [done|].
    destruct (decide (e + 1 = i)) as [_|]; [|by case_bool_decide].
    destruct (mem "[" (drop 1 hp)) eqn:E1; [done|].
    destruct (mem "]" (drop (e + 1) hp)); [done|].
    intros [= <- <-]. apply mem_false in E1.
    split; intros [H1 H2]%elem_drop_take; done.
  - destruct (mem ":" (take i hp)); [done|]. rewrite !drop_0.
    destruct (mem "[" hp) eqn:E1; [done|]. destruct (mem "]" hp) eqn:E2; [done|].
    intros [= <- <-]. apply mem_false in E1, E2.
    split; intros ?%elem_take; done.
Qed.

(** ** URLs of the usual form *)
Definition letter (c : ascii) : Prop :=
  ((97 <= byte_of c <= 122) \/ (65 <= byte_of c <= 90))%N.
Definition name_byte (c : ascii) : Prop := is_alnum c = true \/ c = "-"%char \/ c = "."%char.
Definition is_digit (c : ascii) : Prop := (48 <= byte_of c <= 57)%N.
Definition not_ctl (c : ascii) : Prop := (32 <= byte_of c)%N /\ byte_of c <> 127%N.

(** [scheme://host:port/path?query#fragment], where port, path, query and
    fragment may be empty. *)
Record url_parts (scheme host port path query fragment : gostring) : Prop := {
  up_scheme : scheme <> [] /\ Forall letter scheme;
  up_host : host <> [] /\ Forall name_byte host;
  up_port : port = [] \/ exists digits, port = ":"%char :: digits /\ Forall is_digit digits;
  up_path : (path = [] \/ exists p, path = "/"%char :: p) /\ "?"%char ∉ path /\ "#"%char ∉ path;
  up_query : (query = [] \/ exists q, query = "?"%char :: q) /\ "#"%char ∉ query;
  up_fragment : fragment = [] \/ exists f, fragment = "#"%char :: f }.

Definition make_url (scheme host port path query fragment : gostring) : gostring :=
  scheme ++ lit "://" ++ host ++ port ++ path ++ query ++ fragment.

(** Every percent sign begins an escape of two hexadecimal digits. *)
Fixpoint escapes_ok (s : gostring) : bool :=
  match s with
  | [] => true
  | c :: rest =>
      if decide (c = "%"%char) then
        match rest with h1 :: h2 :: rest => ishex h1 && ishex h2 && escapes_ok rest | _ => false end
      else escapes_ok rest
  end.

(** What may follow the authority of a URL: no control bytes before the
    fragment, and no broken escapes in path and fragment. *)
Definition tail_ok (path query fragment : gostring) : bool :=
  negb (has_ctl (path ++ query)) && escapes_ok path && escapes_ok fragment.

Lemma get_scheme_letters scheme before rest whole :
  Forall letter scheme -> before ++ scheme <> [] ->
  get_scheme (scheme ++ ":"%char :: rest) before whole = Some (before ++ scheme, rest).
Proof.
  intros Hs. revert before. induction Hs as [|c scheme Hc Hs IH]; intros before Hne.
  - rewrite app_nil_r in *. cbn [app get_scheme]. simpl. by rewrite decide_False.
  - cbn [app get_scheme]. rewrite bool_decide_eq_true_2 by exact Hc.
    rewrite IH by (by destruct before). by rewrite <- app_assoc.
Qed.

Lemma unescape_plain mode s :
  Forall (fun c => c <> "%"%char /\ (mode = encodeHost \/ mode = encodeZone -> host_byte c = true)) s ->
  unescape mode s = Some s.
Proof.
  induction 1 as [|c s [Hc Hh] Hs IH]; [done|]. cbn [unescape].
  rewrite decide_False by done. rewrite IH.
  destruct mode; try done; rewrite Hh by auto; by rewrite andb_false_r.
Qed.

Lemma name_byte_host c : name_byte c -> host_byte c = true /\ c ∉ lit "%[]:@/?#".
Proof.
  intros H. split.
  - unfold host_byte. destruct H as [-> | [-> | ->]]; reflexivity || done.
  - intros Hin. simpl in Hin. unfold name_byte, is_alnum in H. rewrite bool_decide_eq_true in H.
    repeat (apply elem_of_cons in Hin as [->|Hin]; [by destruct H as [?|[?|?]]; vm_compute in *; intuition|]).
    by apply not_elem_of_nil in Hin.
Qed.

Lemma Forall_not_elem (P : ascii -> Prop) l x : Forall P l -> (P x -> False) -> x ∉ l.
Proof. intros Hl Hx Hin. apply Hx. by eapply Forall_forall in Hl. Qed.

Lemma names_avoid l c : Forall name_byte l -> c ∈ lit "%[]:@/?#" -> c ∉ l.
Proof. intros Hl Hc. apply (Forall_not_elem _ _ _ Hl). intros H. by destruct (name_byte_host c H). Qed.

Lemma digit_name c : is_digit c -> name_byte c.
Proof. intros H. left. unfold is_alnum. apply bool_decide_eq_true. by left. Qed.

Lemma digits_valid digits : Forall is_digit digits -> validOptionalPort (":"%char :: digits) = true.
Proof.
  intros H. simpl. apply forallb_forall. intros d Hd%list_elem_of_In.
  eapply Forall_forall in H; [|exact Hd]. unfold digit. by rewrite decide_True.
Qed.

(** The host and port of a plain URL, as the parser keeps them. *)
Section plain.
Context (host port : gostring).
Hypothesis Hhost : host <> [] /\ Forall name_byte host.
Hypothesis Hport : port = [] \/ exists digits, port = ":"%char :: digits /\ Forall is_digit digits.

Lemma host_avoids c : c ∈ lit "%[]:@/?#" -> c ∉ host.
Proof. apply names_avoid, Hhost. Qed.

Lemma port_avoids c : c ∈ lit "%[]@/?#" -> c ∉ port.
Proof.
  destruct Hport as [->|(ds & -> & Hd)]; [intros _; apply not_elem_of_nil|].
  intros Hc. apply not_elem_of_cons. split.
  - intros ->. by vm_compute in Hc; repeat (apply elem_of_cons in Hc as [Hc|Hc]; [done|]);
      apply not_elem_of_nil in Hc.
  - apply names_avoid; [by eapply Forall_impl; [|apply digit_name]|].
    revert Hc. clear. simpl. rewrite !elem_of_cons. tauto.
Qed.

Lemma hostport_avoids c : c ∈ lit "%[]@/?#" -> c ∉ host ++ port.
Proof.
  intros Hc. rewrite elem_of_app. intros [H|H]; [|by apply (port_avoids c)].
  apply (host_avoids c); [|done]. revert Hc. clear. simpl. rewrite !elem_of_cons. tauto.
Qed.

Lemma parseHost_plain : parseHost (host ++ port) = Some (host ++ port).
Proof.
  unfold parseHost.
  rewrite (proj2 (LastIndexByte_None _ _)) by (apply hostport_avoids; by_decide).
  assert (unescape encodeHost (host ++ port) = Some (host ++ port)) as Hu.
  { apply unescape_plain. apply Forall_app. split.
    - eapply Forall_impl; [apply Hhost|]. intros c Hc. destruct (name_byte_host c Hc) as [? Hn].
      split; [|done]. intros ->. apply Hn. by_decide.
    - destruct Hport as [->|(ds & -> & Hd)]; constructor; [done|].
      eapply Forall_impl; [exact Hd|]. intros c Hc%digit_name.
      destruct (name_byte_host c Hc) as [? Hn]. split; [|done]. intros ->. apply Hn. by_decide. }
  destruct Hport as [->|(ds & -> & Hd)].
  - rewrite app_nil_r in *.
    rewrite (proj2 (LastIndexByte_None _ _)); [done|]. apply host_avoids. by_decide.
  - rewrite LastIndexByte_app, drop_app_length, digits_valid; [done|done|].
    apply names_avoid; [by eapply Forall_impl; [|apply digit_name]|by_decide].
Qed.

Lemma url_hostname_plain : url_hostname (host ++ port) = host.
Proof.
  assert (HasPrefix host (lit "[") = false) as Hb.
  { apply HasPrefix_absent, host_avoids. by_decide. }
  unfold url_hostname. destruct Hport as [->|(ds & -> & Hd)].
  - rewrite app_nil_r, (proj2 (LastIndexByte_None _ _)) by (apply host_avoids; by_decide).
    by rewrite Hb.
  - rewrite LastIndexByte_app, drop_app_length, digits_valid, take_app_length, Hb; [done|done|].
    apply names_avoid; [by eapply Forall_impl; [|apply digit_name]|by_decide].
Qed.

End plain.

Lemma Cut_fst_absent s c : c ∉ (Cut s c).1.1.
Proof.
  induction s as [|x s IH]; simpl; [apply not_elem_of_nil|].
  case_decide; [apply not_elem_of_nil|]. destruct (Cut s c) as [[b a] f]. simpl in *.
  apply not_elem_of_cons. split; [congruence|done].
Qed.

(** Both branches of [strip_query] cut at the first question mark. *)
Lemma strip_query_app p q :
  "?"%char ∉ p -> q = [] \/ (exists q', q = "?"%char :: q') -> strip_query (p ++ q) = p.
Proof.
  intros Hp Hq. unfold strip_query. destruct Hq as [->|[q' ->]].
  - rewrite app_nil_r, (Cut_absent p) by done.
    assert (HasSuffix p (lit "?") = false) as ->; [|done].
    destruct (HasSuffix p (lit "?")) eqn:E; [|done]. apply HasSuffix_spec in E as [p' ->].
    exfalso. apply Hp, elem_of_app. right. by left.
  - rewrite Cut_app by done.
    destruct (HasSuffix _ _ && _) eqn:E; [|done].
    apply andb_true_iff in E as [[s Hs]%HasSuffix_spec Hc%bool_decide_eq_true].
    unfold count_byte in Hc. rewrite filter_app, length_app, filter_cons_True in Hc by done.
    simpl in Hc. destruct q' as [|x q']; [rewrite length_app; simpl; rewrite Nat.add_sub; apply take_app_length|].
    exfalso. assert (last (x :: q') = Some "?"%char) as Hl%last_Some_elem_of.
    { change (lit "?") with ["?"%char] in Hs. apply (f_equal last) in Hs.
      by rewrite last_snoc, last_app_cons, last_cons_cons in Hs. }
    destruct (filter (eq "?"%char) (x :: q')) as [|y l] eqn:Ef; [|simpl in Hc; lia].
    by apply (filter_nil_not_elem_of _ _ "?"%char) in Ef.
Qed.

Lemma has_ctl_false s : Forall not_ctl s -> has_ctl s = false.
Proof.
  unfold has_ctl. induction 1 as [|c s [H1 H2] _ IH]; simpl; [done|].
  rewrite IH, bool_decide_eq_false_2 by lia. done.
Qed.

Lemma letter_ctl c : letter c -> not_ctl c.
Proof. unfold letter, not_ctl. lia. Qed.

Lemma name_ctl c : name_byte c -> not_ctl c.
Proof.
  unfold name_byte, is_alnum, not_ctl. rewrite bool_decide_eq_true.
  intros [?|[-> | ->]]; [lia|vm_compute; split; congruence..].
Qed.

Lemma authority_split hp path :
  "/"%char ∉ hp -> path = [] \/ (exists p, path = "/"%char :: p) ->
  match IndexByte (hp ++ path) "/" with
  | Some i => (take i (hp ++ path), drop i (hp ++ path))
  | None => (hp ++ path, [])
  end = (hp, path).
Proof.
  intros Hn [->|[p ->]].
  - rewrite app_nil_r. by rewrite (proj2 (IndexByte_None _ _) Hn).
  - rewrite IndexByte_app by done. by rewrite take_app_length, drop_app_length.
Qed.

Lemma has_ctl_app s t : has_ctl (s ++ t) = has_ctl s || has_ctl t.
Proof. apply existsb_app. Qed.

(** Paths and fragments decode exactly if their escapes are complete. *)
Lemma unescape_ok mode s : mode = encodePath \/ mode = encodeFragment ->
  unescape mode s = None <-> escapes_ok s = false.
Proof.
  intros Hm. assert (forall n s, length s <= n -> unescape mode s = None <-> escapes_ok s = false) as H; [|by eapply H].
  clear s. induction n as [|n IH]; intros s Hl; [by destruct s; simpl in *; [|lia]|].
  destruct s as [|c rest]; [done|]. cbn [unescape escapes_ok length] in *. case_decide.
  - destruct rest as [|h1 [|h2 rest]]; [done..|]. cbn [length] in *. unfold ishex.
    destruct (hex_digit h1), (hex_digit h2); cbn [andb]; try done.
    destruct Hm as [-> | ->]; rewrite fmap_None; apply IH; lia.
  - destruct Hm as [-> | ->]; rewrite fmap_None; apply IH; lia.
Qed.

(** The part before the fragment, and the part of it before the query. *)
Section parts.
Context (scheme host port path query fragment : gostring).
Hypothesis Hu : url_parts scheme host port path query fragment.

Lemma authority_path_avoids c : c = "?"%char \/ c = "#"%char -> c ∉ lit "//" ++ (host ++ port) ++ path.
Proof.
  destruct Hu as [_ Hh Hp (_ & Hq & Hf) _ _]. intros Hc.
  rewrite !(elem_of_app _ (_ ++ _)), elem_of_app. intros [H|[H|H]].
  - destruct Hc as [-> | ->]; by vm_compute in H; repeat (apply elem_of_cons in H as [H|H]; [done|]);
      apply not_elem_of_nil in H.
  - revert H. apply (hostport_avoids _ _ Hh Hp). destruct Hc as [-> | ->]; by_decide.
  - by destruct Hc as [-> | ->].
Qed.

Lemma before_fragment_avoids : "#"%char ∉ scheme ++ ":"%char :: (lit "//" ++ (host ++ port) ++ path) ++ query.
Proof.
  rewrite elem_of_app, elem_of_cons, elem_of_app. intros [H|[H|[H|H]]]; [|done|..].
  - destruct (up_scheme _ _ _ _ _ _ Hu) as [_ Hs]. eapply Forall_forall in Hs; [|exact H].
    vm_compute in Hs. intuition congruence.
  - revert H. apply authority_path_avoids. by right.
  - by destruct (up_query _ _ _ _ _ _ Hu) as [_ ?].
Qed.

Lemma authority_not_ctl : has_ctl (scheme ++ ":"%char :: lit "//" ++ host ++ port) = false.
Proof.
  destruct Hu as [[_ Hs] [_ Hh] Hp _ _ _]. apply has_ctl_false. rewrite Forall_app, Forall_cons, !Forall_app. split_and!.
  - eapply Forall_impl; [exact Hs|apply letter_ctl].
  - split; vm_compute; congruence.
  - repeat constructor; vm_compute; congruence.
  - eapply Forall_impl; [exact Hh|apply name_ctl].
  - destruct Hp as [->|(ds & -> & Hd)]; [constructor|]. constructor.
    + split; vm_compute; congruence.
    + eapply Forall_impl; [exact Hd|]. intros c Hc. by apply name_ctl, digit_name.
Qed.

(** The host of a URL without its fragment. *)
Lemma url_parse_host_parts :
  url_parse_host (scheme ++ ":"%char :: (lit "//" ++ (host ++ port) ++ path) ++ query) =
  if negb (has_ctl (path ++ query)) && escapes_ok path then Some (host ++ port) else None.
Proof.
  pose proof authority_not_ctl as Hctl. pose proof authority_path_avoids as Hav.
  destruct Hu as [[Hs0 Hs] Hh Hp [Hpa _] [Hq _] _]. unfold url_parse_host.
  assert (has_ctl (scheme ++ ":"%char :: (lit "//" ++ (host ++ port) ++ path) ++ query) = has_ctl (path ++ query)) as ->.
  { replace (scheme ++ ":"%char :: (lit "//" ++ (host ++ port) ++ path) ++ query)
      with ((scheme ++ ":"%char :: lit "//" ++ host ++ port) ++ path ++ query).
    - by rewrite has_ctl_app, Hctl.
    - rewrite <- !app_assoc. cbn. by rewrite <- !app_assoc. }
  destruct (has_ctl (path ++ query)); [done|]. cbn [negb andb].
  rewrite decide_False.
  2:{ intros H. apply (f_equal (fun l => ":"%char ∈ l)) in H.
      assert (":"%char ∈ lit "*") as Hin by (rewrite <- H; apply elem_of_app; right; by left).
      vm_compute in Hin. apply elem_of_cons in Hin as [?|?%not_elem_of_nil]; done. }
  rewrite get_scheme_letters by (done || by destruct scheme). cbn [mbind option_bind app].
  set (rest := lit "//" ++ (host ++ port) ++ path).
  rewrite strip_query_app; [|by apply Hav; left|done].
  assert (HasPrefix rest (lit "/") = true) as -> by (unfold rest; apply (HasPrefix_app (lit "/"))).
  assert (HasPrefix rest (lit "//") = true) as -> by apply HasPrefix_app.
  rewrite bool_decide_eq_false_2 by done. cbn [negb andb orb].
  replace (drop 2 rest) with ((host ++ port) ++ path) by done.
  rewrite (authority_split (host ++ port) path); [|apply hostport_avoids; auto; by_decide|done].
  unfold parseAuthority.
  rewrite (proj2 (LastIndexByte_None _ _)) by (apply hostport_avoids; auto; by_decide).
  rewrite parseHost_plain by done. cbn [mbind option_bind].
  pose proof (unescape_ok encodePath path ltac:(by left)) as He.
  destruct (escapes_ok path), (unescape encodePath path); cbn; try done; intuition congruence.
Qed.

(** Only the authority decides the host; the rest decides whether there is
    a result at all. *)
Lemma url_host_parts : url_host (make_url scheme host port path query fragment) =
  if tail_ok path query fragment then Some (host ++ port) else None.
Proof.
  pose proof url_parse_host_parts as Hparse. pose proof before_fragment_avoids as Hn. unfold url_host.
  set (u := scheme ++ ":"%char :: (lit "//" ++ (host ++ port) ++ path) ++ query) in *.
  assert (make_url scheme host port path query fragment = u ++ fragment) as ->.
  { unfold make_url, u. rewrite <- !app_assoc. cbn. by rewrite <- !app_assoc. }
  unfold tail_ok.
  assert (exists f b, Cut (u ++ fragment) "#" = (u, f, b) /\ escapes_ok fragment = escapes_ok f) as (f & b & -> & ->).
  { destruct (up_fragment _ _ _ _ _ _ Hu) as [->|[f ->]].
    - rewrite app_nil_r, Cut_absent by done. eauto.
    - rewrite Cut_app by done. eauto. }
  rewrite Hparse. destruct (negb (has_ctl (path ++ query)) && escapes_ok path); [|done]. cbn [mbind option_bind andb].
  pose proof (unescape_ok encodeFragment f ltac:(by right)) as He.
  destruct (escapes_ok f), (unescape encodeFragment f); cbn; try done; intuition congruence.
Qed.
End parts.
