(* ===== verification/NetipUtil.v ===== *)
(** * Compact prefix encoding (shared/netiputil/compact.go)

    The management protocol ships prefixes as the address bytes followed by
    one length byte; the family is told by the total length. *)

From Stdlib Require Import ZArith Lia.
From stdpp Require Import base gmap strings numbers countable sorting list.
From S2P Require Import Prelude Netip.

Inductive compact_error : Type :=
| ErrPrefixLen4 (bits : Z)          (* IPv4 length above 32 *)
| ErrPrefixLenMapped (bits : Z)     (* v4-mapped length above 32 *)
| ErrPrefixLen6 (bits : Z)          (* IPv6 length above 128 *)
| ErrCompactLength (n : nat).       (* neither 5 nor 17 bytes *)

#[global] Instance compact_error_eq_dec : EqDecision compact_error.
Proof. solve_decision. Defined.

Definition EncodePrefix (p : Prefix) : res compact_error (list Z) :=
  let addr := Unmap (PAddr p) in
  let bits := PBits p in
  if Is4 addr && (32 <? bits)%Z then Err (ErrPrefixLen4 bits)
  else Ok (AsSlice addr ++ [u8 bits]).

Definition DecodePrefix (b : list Z) : res compact_error Prefix :=
  if decide (length b = 5) then
    let ip4 := copy_into (replicate 4 0%Z) 0 b in
    bits ← go_index b (length b - 1);
    if decide (32 < bits)%Z then Err (ErrPrefixLen4 bits)
    else Ok (PrefixFrom (AddrFrom4 ip4) bits)
  else if decide (length b = 17) then
    let ip6 := copy_into (replicate 16 0%Z) 0 b in
    let addr := Unmap (AddrFrom16 ip6) in
    bits ← go_index b (length b - 1);
    if Is4 addr then
      if decide (32 < bits)%Z then Err (ErrPrefixLenMapped bits)
      else Ok (PrefixFrom addr bits)
    else if decide (128 < bits)%Z then Err (ErrPrefixLen6 bits)
    else Ok (PrefixFrom addr bits)
  else Err (ErrCompactLength (length b)).

(** The code drops the error of [EncodePrefix] here: a nil slice is what it
    would use. *)
Definition EncodeAddr (a : Addr) : list Z :=
  let a := Unmap a in
  let bits := if Is4 a then 32%Z else 128%Z in
  match EncodePrefix (PrefixFrom a bits) with Ok b => b | _ => [] end.

Definition DecodeAddr (b : list Z) : res compact_error Addr :=
  p ← DecodePrefix b;
  Ok (PAddr p).

(** ** Decoding what was encoded *)
Lemma go_index_last {E A} (l : list A) (x : A) :
  @go_index E A (l ++ [x]) (length (l ++ [x]) - 1) = Ok x.
Proof.
  unfold go_index. rewrite length_app. simpl.
  replace (length l + 1 - 1) with (length l) by lia.
  by rewrite list_lookup_middle.
Qed.

Lemma copy_head (n : nat) (l : list Z) (x : Z) :
  length l = n -> copy_into (replicate n 0%Z) 0 (l ++ [x]) = l.
Proof.
  intros Hl. unfold copy_into. rewrite length_replicate, length_app. simpl.
  rewrite drop_ge by (rewrite length_replicate; lia).
  rewrite app_nil_r, Nat.sub_0_r, <- Hl. apply take_app_length.
Qed.

Lemma decode4 v bits :
  (0 <= v < 2 ^ 32)%Z -> (0 <= bits <= 32)%Z ->
  DecodePrefix (be_bytes 4 v ++ [u8 bits]) = Ok (mkPrefix (Addr4 v) bits).
Proof.
  intros Hv Hb. unfold DecodePrefix, u8. rewrite Z.mod_small by lia.
  rewrite decide_True by (rewrite length_app, be_bytes_length; done).
  rewrite go_index_last. mred. rewrite decide_False by lia. f_equal.
  rewrite copy_head by apply be_bytes_length.
  unfold AddrFrom4. rewrite be_value_bytes by (change (8 * Z.of_nat 4)%Z with 32%Z; lia).
  unfold PrefixFrom. simpl. by rewrite !(proj2 (Z.leb_le _ _)) by lia.
Qed.

Lemma decode6 v bits :
  (0 <= v < 2 ^ 128)%Z -> (0 <= bits <= 128)%Z -> Is4In6 (Addr6 v EmptyString) = false ->
  DecodePrefix (be_bytes 16 v ++ [u8 bits]) = Ok (mkPrefix (Addr6 v EmptyString) bits).
Proof.
  intros Hv Hb Hm. unfold DecodePrefix, u8. rewrite Z.mod_small by lia.
  rewrite decide_False by (rewrite length_app, be_bytes_length; done).
  rewrite decide_True by (rewrite length_app, be_bytes_length; done).
  rewrite go_index_last. mred.
  rewrite copy_head by apply be_bytes_length.
  unfold AddrFrom16. rewrite be_value_bytes by (change (8 * Z.of_nat 16)%Z with 128%Z; lia).
  rewrite Unmap_not_4in6 by done. simpl Is4. cbv iota. rewrite decide_False by lia.
  unfold PrefixFrom. simpl. by rewrite !(proj2 (Z.leb_le _ _)) by lia.
Qed.

(** compact prefixes round-trip up to unmapping.  Every well-formed prefix
    is either rejected, exactly when its address is IPv4 after unmapping and
    its length exceeds 32, or encoded to bytes that decode to the unmapped
    address with the same length; a prefix that is not v4-mapped comes back
    unchanged. *)
Theorem compact_prefix_roundtrip (p : Prefix) :
  prefix_wf p ->
  (Is4In6 (PAddr p) = true /\ (32 < PBits p)%Z /\
     EncodePrefix p = Err (ErrPrefixLen4 (PBits p))) \/
  (exists b, EncodePrefix p = Ok b /\
     DecodePrefix b = Ok (mkPrefix (Unmap (PAddr p)) (PBits p)) /\
     (Is4In6 (PAddr p) = false -> DecodePrefix b = Ok p)).
Proof.
  destruct p as [[|v|v z] bits]; intros (Hw & Hz & Hb & Hv);
    cbn [PAddr PBits addr_wf hasZone IsValid BitLen] in *; [discriminate Hv|..].
  - right. unfold EncodePrefix. cbn [PAddr PBits].
    change (Unmap (Addr4 v)) with (Addr4 v). cbn [Is4 andb].
    rewrite (proj2 (Z.ltb_ge _ _)) by lia. eexists. split; [done|].
    unfold AsSlice. by rewrite decode4 by lia.
  - apply negb_false_iff, bool_decide_eq_true in Hz as ->.
    unfold EncodePrefix, Unmap. cbn [PAddr PBits].
    destruct (Is4In6 (Addr6 v EmptyString)) eqn:Hm; cbn [Is4 andb].
    + destruct (Z.ltb_spec 32 bits); [by left|right].
      eexists. split; [done|]. unfold AsSlice.
      rewrite decode4 by (try apply Z.mod_pos_bound; lia). done.
    + right. eexists. split; [done|]. unfold AsSlice.
      by rewrite decode6 by (done || lia).
Qed.

Lemma compact_prefix_roundtrip_witness :
  prefix_wf (mkPrefix (Addr4 167772160) 8) /\
  exists b, EncodePrefix (mkPrefix (Addr4 167772160) 8) = Ok b /\
    DecodePrefix b = Ok (mkPrefix (Addr4 167772160) 8).
Proof.
  assert (Hw : prefix_wf (mkPrefix (Addr4 167772160) 8)) by (repeat split; simpl; lia).
  split; [exact Hw|].
  destruct (compact_prefix_roundtrip _ Hw) as [(H & _)|(b & E1 & E2 & _)];
    [discriminate H|].
  exists b. split; [exact E1|exact E2].
Defined.

(** peer addresses round-trip through the compact form: decoding an
    encoded valid address gives the unmapped address without its zone. *)
Theorem compact_addr_roundtrip (a : Addr) :
  addr_wf a -> IsValid a = true ->
  DecodeAddr (EncodeAddr a) = Ok (withoutZone (Unmap a)).
Proof.
  intros Hw Hv. unfold DecodeAddr, EncodeAddr.
  pose proof (Unmap_wf a Hw) as Hw'. pose proof (Unmap_Is4In6 a) as Hm.
  assert (IsValid (Unmap a) = true) as Hv'
    by (unfold Unmap; destruct (Is4In6 a), a; done).
  destruct (Unmap a) as [|v|v z]; [done|..]; cbn [Is4].
  - change (PrefixFrom (Addr4 v) 32) with (mkPrefix (Addr4 v) 32).
    unfold EncodePrefix. cbn [PAddr PBits]. cbn [addr_wf] in Hw'.
    change (Unmap (Addr4 v)) with (Addr4 v). cbn [Is4 andb AsSlice].
    change (32 <? 32)%Z with false. cbv iota. by rewrite decode4 by lia.
  - change (PrefixFrom (Addr6 v z) 128) with (mkPrefix (Addr6 v EmptyString) 128).
    unfold EncodePrefix. cbn [PAddr PBits]. cbn [addr_wf] in Hw'.
    rewrite Unmap_not_4in6 by done.
    cbn [Is4 andb AsSlice]. by rewrite decode6 by (done || lia).
Qed.

Lemma compact_addr_roundtrip_witness :
  DecodeAddr (EncodeAddr (Addr6 (2 ^ 127 + 5) EmptyString)) =
  Ok (Addr6 (2 ^ 127 + 5) EmptyString).
Proof.
  apply (compact_addr_roundtrip (Addr6 (2 ^ 127 + 5) EmptyString)); [by_decide|done].
Defined.
