(* ===== verification/ConntrackCommon.v ===== *)
(** * What the three connection trackers share
      (client/firewall/uspfilter/conntrack/common.go)

    The base record with its counters, the connection key, the flow events
    (client/internal/netflow/types), the sampling scan behind every
    [evictOneLocked], and the accounting of flows over a connection table:
    the multiset of flows that a table still has to report as ended.

    Time is a number of nanoseconds passed to every operation that reads the
    clock.  Go's map iteration order is not fixed: an operation that ranges
    over a table takes the order as an argument, any permutation of the
    table's entries being possible. *)

From Stdlib Require Import ZArith Lia.
From stdpp Require Import base gmap strings numbers countable sorting list.
From S2P Require Import Prelude Netip.

(** ** Flow events (netflow/types/types.go) *)
Inductive Direction : Type := DirectionUnknown | Ingress | Egress.

#[global] Instance Direction_eq_dec : EqDecision Direction.
Proof. solve_decision. Defined.

Inductive EventType : Type := TypeUnknown | TypeStart | TypeEnd | TypeDrop.

#[global] Instance EventType_eq_dec : EqDecision EventType.
Proof. solve_decision. Defined.

Definition ICMP : Z := 1.
Definition TCP : Z := 6.
Definition UDP : Z := 17.
Definition ICMPv6 : Z := 58.

(** The identifiers [uuid.New] returns. *)
Definition UUID : Type := Z.

Record EventFields : Type := mkEvent {
  EvFlowID : UUID;
  EvType : EventType;
  EvRuleID : list Z;
  EvDirection : Direction;
  EvProtocol : Z;
  EvSourceIP : Addr;
  EvDestIP : Addr;
  EvSourcePort : Z;
  EvDestPort : Z;
  EvICMPType : Z;
  EvICMPCode : Z;
  EvRxPackets : Z;
  EvTxPackets : Z;
  EvRxBytes : Z;
  EvTxBytes : Z
}.

(** ** Environment overrides

    [v] is what [os.Getenv] returned; [time.ParseDuration] and
    [strconv.Atoi] are arguments ([None] is a parse error). *)
Definition envDuration (ParseDuration : string -> option Z) (v : string) (def : Z) : Z :=
  if decide (v = EmptyString) then def
  else match ParseDuration v with
       | None => def
       | Some d => if decide (d <= 0)%Z then def else d
       end.

Definition envInt (Atoi : string -> option Z) (v : string) (def : Z) : Z :=
  if decide (v = EmptyString) then def
  else match Atoi v with
       | None => def
       | Some n => if decide (n <= 0)%Z then def else n
       end.

(** ** The base record *)
Record BaseConnTrack : Type := mkBase {
  FlowId : UUID;
  BDirection : Direction;
  SourceIP : Addr;
  DestIP : Addr;
  lastSeen : Z;
  PacketsTx : Z;
  PacketsRx : Z;
  BytesTx : Z;
  BytesRx : Z;
  DNATOrigPort : Z
}.

Definition UpdateLastSeen (now : Z) (b : BaseConnTrack) : BaseConnTrack :=
  mkBase (FlowId b) (BDirection b) (SourceIP b) (DestIP b) now
    (PacketsTx b) (PacketsRx b) (BytesTx b) (BytesRx b) (DNATOrigPort b).

(** Counters are 64-bit and wrap. *)
Definition UpdateCounters (direction : Direction) (bytes : Z) (b : BaseConnTrack)
    : BaseConnTrack :=
  if decide (direction = Egress) then
    mkBase (FlowId b) (BDirection b) (SourceIP b) (DestIP b) (lastSeen b)
      (u64 (PacketsTx b + 1)) (PacketsRx b) (u64 (BytesTx b + u64 bytes)) (BytesRx b)
      (DNATOrigPort b)
  else
    mkBase (FlowId b) (BDirection b) (SourceIP b) (DestIP b) (lastSeen b)
      (PacketsTx b) (u64 (PacketsRx b + 1)) (BytesTx b) (u64 (BytesRx b + u64 bytes))
      (DNATOrigPort b).

Definition GetLastSeen (b : BaseConnTrack) : Z := lastSeen b.

(** [time.Since] saturates at the bounds of a [Duration]. *)
Definition time_since (now t : Z) : Z :=
  Z.max (- 2 ^ 63) (Z.min (2 ^ 63 - 1) (now - t)).

Definition timeoutExceeded (now timeout : Z) (b : BaseConnTrack) : bool :=
  bool_decide (timeout < time_since now (lastSeen b))%Z.

(** ** Connection keys *)
Record ConnKey : Type := mkKey {
  SrcIP : Addr;
  DstIP : Addr;
  SrcPort : Z;
  DstPort : Z
}.

#[global] Instance ConnKey_eq_dec : EqDecision ConnKey.
Proof. solve_decision. Defined.

#[global] Instance ConnKey_countable : Countable ConnKey.
Proof.
  refine (inj_countable' (fun k => (SrcIP k, DstIP k, SrcPort k, DstPort k))
    (fun '(a, b, c, d) => mkKey a b c d) _).
  by intros [].
Defined.

(** The key of the opposite direction. *)
Definition reverse_key (k : ConnKey) : ConnKey :=
  mkKey (DstIP k) (SrcIP k) (DstPort k) (SrcPort k).

(** ** The eviction scan

    The loop shared by the trackers' [evictOneLocked]: it stops at the first
    tombstone, or after [evictSampleSize] entries, and remembers the entry
    that was seen longest ago. *)
Definition evictSampleSize : nat := 8.

Inductive scan_result (K : Type) : Type :=
| ScanTombstone (k : K)
| ScanOldest (k : K)
| ScanNothing.
Arguments ScanTombstone {K} k.
Arguments ScanOldest {K} k.
Arguments ScanNothing {K}.

Section scan.
Context {K C : Type} (tomb : C -> bool) (seenAt : C -> Z).

Definition scan_done (cand : option (K * Z)) : scan_result K :=
  match cand with Some (k, _) => ScanOldest k | None => ScanNothing end.

Fixpoint evict_scan (order : list (K * C)) (cand : option (K * Z)) (sampled : nat)
    : scan_result K :=
  match order with
  | [] => scan_done cand
  | (k, c) :: rest =>
      if tomb c then ScanTombstone k
      else
        let seen := seenAt c in
        let cand' := match cand with
                     | None => Some (k, seen)
                     | Some (_, candSeen) =>
                         if decide (seen < candSeen)%Z then Some (k, seen) else cand
                     end in
        if decide (evictSampleSize <= S sampled) then scan_done cand'
        else evict_scan rest cand' (S sampled)
  end.

(** The chosen entry is one of the table, and a non-empty table always
    yields one: an insertion at capacity always makes room. *)
Lemma evict_scan_spec order cand sampled :
  match evict_scan order cand sampled with
  | ScanTombstone k => exists c, (k, c) ∈ order /\ tomb c = true
  | ScanOldest k =>
      (exists s, cand = Some (k, s)) \/ (exists c, (k, c) ∈ order /\ tomb c = false)
  | ScanNothing => cand = None /\ order = []
  end.
Proof.
  revert cand sampled. induction order as [|[k c] rest IH]; intros cand sampled.
  - destruct cand as [[k s]|]; simpl; eauto.
  - cbn [evict_scan]. destruct (tomb c) eqn:Ht; [exists c; set_solver|].
    set (cand' := match cand with
                  | None => Some (k, seenAt c)
                  | Some (_, candSeen) =>
                      if decide (seenAt c < candSeen)%Z then Some (k, seenAt c) else cand
                  end).
    assert (Hc : exists k' s', cand' = Some (k', s') /\
      (cand = Some (k', s') \/ k' = k)).
    { subst cand'. destruct cand as [[k0 s0]|]; [|eauto].
      case_decide; eauto. }
    clearbody cand'. destruct Hc as (k' & s' & Ecand' & Hor). subst cand'. cbv zeta.
    case_decide.
    + simpl. destruct Hor as [H' | H']; subst; [eauto|].
      right. exists c. set_solver.
    + specialize (IH (Some (k', s')) (S sampled)).
      destruct (evict_scan rest (Some (k', s')) (S sampled)) as [k1|k1|].
      * destruct IH as (c1 & Hin & ?). exists c1. set_solver.
      * destruct IH as [[s1 [= <- <-]]|(c1 & Hin & ?)].
        -- destruct Hor as [H'|H']; subst; [eauto|]. right. exists c. set_solver.
        -- right. exists c1. set_solver.
      * by destruct IH as [[=] _].
Qed.

(** Among the sampled entries the evicted one was seen longest ago, unless
    a tombstone was found. *)
Lemma evict_scan_oldest order k0 s0 sampled k :
  evict_scan order (Some (k0, s0)) sampled = ScanOldest k ->
  exists s, (s <= s0)%Z /\
    (k = k0 /\ s = s0 \/ exists c, (k, c) ∈ order /\ seenAt c = s) /\
    Forall (fun e : K * C => (s <= seenAt e.2)%Z)
      (take (evictSampleSize - sampled) order).
Proof.
  revert k0 s0 sampled. induction order as [|[k1 c1] rest IH]; intros k0 s0 sampled.
  - simpl. intros [= ->]. exists s0. rewrite take_nil. split_and!; [lia|auto|done].
  - cbn [evict_scan]. destruct (tomb c1); [done|]. cbv zeta.
    destruct (decide (seenAt c1 < s0)%Z) as [Hlt|Hlt];
      destruct (decide (evictSampleSize <= S sampled)) as [Hlast|Hlast]; intros Hs.
    + simpl in Hs. simplify_eq. exists (seenAt c1). split; [lia|]. split.
      * right. exists c1. set_solver.
      * destruct (evictSampleSize - sampled) as [|[|n]] eqn:En; [done| |lia].
        simpl. rewrite take_0. repeat constructor. simpl. lia.
    + apply IH in Hs as (s & Hle & Hor & Hall). exists s. split; [lia|]. split.
      * destruct Hor as [[-> ->]|(c & ? & ?)]; right; [exists c1|exists c]; set_solver.
      * replace (evictSampleSize - sampled) with (S (evictSampleSize - S sampled)) by lia.
        simpl. constructor; [simpl; lia|done].
    + simpl in Hs. simplify_eq. exists s0. split; [lia|]. split; [auto|].
      destruct (evictSampleSize - sampled) as [|[|n]] eqn:En; [done| |lia].
      simpl. rewrite take_0. repeat constructor. simpl. lia.
    + apply IH in Hs as (s & Hle & Hor & Hall). exists s. split; [lia|]. split.
      * destruct Hor as [[-> ->]|(c & ? & ?)]; [auto|]. right. exists c. set_solver.
      * replace (evictSampleSize - sampled) with (S (evictSampleSize - S sampled)) by lia.
        simpl. constructor; [simpl; lia|done].
Qed.
End scan.

(** ** Flow accounting

    [pending m] lists the flows of a table whose end has not been reported
    yet; a log and a table are balanced when every started flow is either
    reported as ended or still pending, counted with multiplicity. *)
Definition started (log : list EventFields) : list UUID :=
  omap (fun e => if decide (EvType e = TypeStart) then Some (EvFlowID e) else None) log.

Definition ended (log : list EventFields) : list UUID :=
  omap (fun e => if decide (EvType e = TypeEnd) then Some (EvFlowID e) else None) log.

Lemma started_app l1 l2 : started (l1 ++ l2) = started l1 ++ started l2.
Proof. apply omap_app. Qed.

Lemma ended_app l1 l2 : ended (l1 ++ l2) = ended l1 ++ ended l2.
Proof. apply omap_app. Qed.

Section accounting.
Context {K C : Type} `{Countable K} (fid : C -> UUID) (active : C -> bool).

Definition contrib (c : C) : list UUID := if active c then [fid c] else [].

Definition pending (m : gmap K C) : list UUID :=
  map_to_list m ≫= fun kc => contrib kc.2.

Lemma pending_empty : pending ∅ = [].
Proof. unfold pending. by rewrite map_to_list_empty. Qed.

Lemma pending_insert m k c :
  m !! k = None -> pending (<[k := c]> m) ≡ₚ contrib c ++ pending m.
Proof.
  intros Hk. unfold pending. rewrite map_to_list_insert by done. done.
Qed.

Lemma pending_delete m k c :
  m !! k = Some c -> pending m ≡ₚ contrib c ++ pending (delete k m).
Proof.
  intros Hk. rewrite <- (pending_insert (delete k m) k c) by apply lookup_delete_eq.
  by rewrite insert_delete_id.
Qed.

Lemma pending_replace m k c c' :
  m !! k = Some c ->
  contrib c ++ pending (<[k := c']> m) ≡ₚ contrib c' ++ pending m.
Proof.
  intros Hk. rewrite <- insert_delete_eq.
  rewrite pending_insert by apply lookup_delete_eq.
  rewrite (pending_delete m k c) by done. solve_Permutation.
Qed.

(** Replacing an inactive entry, or adding a new one. *)
Lemma pending_put m k c' :
  (forall c, m !! k = Some c -> active c = false) ->
  pending (<[k := c']> m) ≡ₚ contrib c' ++ pending m.
Proof.
  intros Hin. destruct (m !! k) as [c|] eqn:Hk; [|by apply pending_insert].
  pose proof (pending_replace m k c c' Hk) as Hp.
  unfold contrib at 1 in Hp. by rewrite Hin in Hp.
Qed.

Lemma elem_of_pending m f :
  f ∈ pending m <-> exists k c, m !! k = Some c /\ active c = true /\ fid c = f.
Proof.
  unfold pending. rewrite list_elem_of_bind. split.
  - intros ([k c] & Hf & Hkc%elem_of_map_to_list). exists k, c.
    unfold contrib in Hf. simpl in *. destruct (active c); set_solver.
  - intros (k & c & Hkc & Ha & <-). exists (k, c). simpl.
    unfold contrib. rewrite Ha, elem_of_map_to_list. set_solver.
Qed.

Definition balanced (log : list EventFields) (m : gmap K C) : Prop :=
  started log ≡ₚ ended log ++ pending m.

(** With distinct flow identifiers, a balanced log reports every end at
    most once, only for flows it reported as started, and never for a flow
    that is still pending. *)
Lemma balanced_once log m :
  NoDup (started log) -> balanced log m ->
  NoDup (ended log) /\
  (forall f, f ∈ ended log -> f ∈ started log) /\
  (forall f, f ∈ ended log -> f ∉ pending m) /\
  (forall f, f ∈ started log -> f ∈ ended log \/ f ∈ pending m).
Proof.
  intros Hnd Hb. unfold balanced in Hb. rewrite Hb in Hnd.
  apply NoDup_app in Hnd as (Hnd & Hdis & _). split_and!; [done|..].
  - intros f Hf. rewrite Hb. set_solver.
  - intros f Hf. by apply Hdis.
  - intros f Hf. rewrite Hb in Hf. set_solver.
Qed.
End accounting.

(** What a tracker promises to whoever consumes its flow events: a step
    relation that keeps the log balanced against the table. *)
Class FlowTracker (St : Type) : Type := {
  ft_log : St -> list EventFields;
  ft_pending : St -> list UUID;
  ft_reach : St -> Prop;
  ft_fresh : forall st, ft_reach st -> NoDup (started (ft_log st));
  ft_balanced : forall st, ft_reach st ->
    started (ft_log st) ≡ₚ ended (ft_log st) ++ ft_pending st
}.

(** The consumer's side: proved once, for every tracker. *)
Lemma flow_end_once `{FlowTracker St} st :
  ft_reach st ->
  NoDup (ended (ft_log st)) /\
  (forall f, f ∈ ended (ft_log st) -> f ∈ started (ft_log st)) /\
  (forall f, f ∈ started (ft_log st) -> f ∉ ended (ft_log st) -> f ∈ ft_pending st) /\
  (forall f, f ∈ ft_pending st -> f ∉ ended (ft_log st)).
Proof.
  intros Hr. pose proof (ft_fresh st Hr) as Hnd. pose proof (ft_balanced st Hr) as Hb.
  rewrite Hb in Hnd. apply NoDup_app in Hnd as (Hnd & Hdis & _).
  split_and!; [done|..].
  - intros f Hf. rewrite Hb. set_solver.
  - intros f Hf Hnf. rewrite Hb in Hf. set_solver.
  - intros f Hf Hin. by apply (Hdis f).
Qed.
