(* ===== verification/ConntrackTCP.v ===== *)
(** * TCP connection tracking
      (client/firewall/uspfilter/conntrack/tcp.go)

    The tracker of the userspace firewall: the eleven-state machine, the
    admission check for inbound packets, tracking with eviction at capacity,
    the periodic cleanup and the flow events.  Every operation is a function
    of the tracker state; the clock, the identifier [uuid.New] returns and
    the iteration order of the connection table are arguments.  Logging has
    no effect on the state and is left out.

    An operation is one step.  The code holds its mutex for the lookup and
    for each change of the table only: a packet that has looked up a
    connection updates it beside cleanups, evictions and other packets.
    Whether a packet is admitted depends on what it looked up, not on that
    overlap; the count of flow ends does depend on it, see the findings at the
    end. *)

From Stdlib Require Import ZArith Lia.
From stdpp Require Import base gmap strings numbers countable sorting list.
From S2P Require Import Prelude Netip ConntrackCommon.

(** ** Constants *)
Definition second : Z := 10 ^ 9.
Definition minute : Z := 60 * second.
Definition hour : Z := 60 * minute.

Definition MSL : Z := 2 * minute.
Definition TimeWaitTimeout : Z := 2 * MSL.
Definition DefaultTCPTimeout : Z := 3 * hour.
Definition TCPHandshakeTimeout : Z := 60 * second.
Definition FinWaitTimeout : Z := 60 * second.
Definition CloseWaitTimeout : Z := 60 * second.
Definition LastAckTimeout : Z := 30 * second.
Definition DefaultMaxTCPEntries : Z := 65536.

Definition TCPFin : Z := 1.
Definition TCPSyn : Z := 2.
Definition TCPRst : Z := 4.
Definition TCPPush : Z := 8.
Definition TCPAck : Z := 16.
Definition TCPUrg : Z := 32.

(** [flags & bit != 0] *)
Definition has (flags bit : Z) : bool := negb (Z.land flags bit =? 0)%Z.

(** ** States and connections *)
Inductive TCPState : Type :=
| TCPStateNew
| TCPStateSynSent
| TCPStateSynReceived
| TCPStateEstablished
| TCPStateFinWait1
| TCPStateFinWait2
| TCPStateClosing
| TCPStateTimeWait
| TCPStateCloseWait
| TCPStateLastAck
| TCPStateClosed.

#[global] Instance TCPState_eq_dec : EqDecision TCPState.
Proof. solve_decision. Defined.

Record TCPConnTrack : Type := mkTCPConn {
  base : BaseConnTrack;
  SourcePort : Z;
  DestPort : Z;
  state : TCPState;
  tombstone : bool
}.

Definition with_base (f : BaseConnTrack -> BaseConnTrack) (c : TCPConnTrack) : TCPConnTrack :=
  mkTCPConn (f (base c)) (SourcePort c) (DestPort c) (state c) (tombstone c).

Definition GetState (c : TCPConnTrack) : TCPState := state c.

Definition SetState (s : TCPState) (c : TCPConnTrack) : TCPConnTrack :=
  mkTCPConn (base c) (SourcePort c) (DestPort c) s (tombstone c).

Definition CompareAndSwapState (old new : TCPState) (c : TCPConnTrack)
    : TCPConnTrack * bool :=
  if decide (state c = old) then (SetState new c, true) else (c, false).

Definition IsTombstone (c : TCPConnTrack) : bool := tombstone c.

Definition SetTombstone (c : TCPConnTrack) : TCPConnTrack :=
  mkTCPConn (base c) (SourcePort c) (DestPort c) (state c) true.

Definition IsSupersededBy (c : TCPConnTrack) (flags : Z) : bool :=
  if tombstone c then true
  else has flags TCPSyn && negb (has flags TCPAck) &&
       bool_decide (state c = TCPStateTimeWait).

(** The tracker.  [isNil] is set by [Close], which assigns a nil map:
    reading a nil map finds nothing, writing to it panics. *)
Record TCPTracker : Type := mkTCPTracker {
  connections : gmap ConnKey TCPConnTrack;
  isNil : bool;
  timeout : Z;
  waitTimeout : Z;
  finWaitTimeout : Z;
  closeWaitTimeout : Z;
  lastAckTimeout : Z;
  maxEntries : Z;
  flowLog : list EventFields
}.

Definition with_connections (m : gmap ConnKey TCPConnTrack) (t : TCPTracker) : TCPTracker :=
  mkTCPTracker m (isNil t) (timeout t) (waitTimeout t) (finWaitTimeout t)
    (closeWaitTimeout t) (lastAckTimeout t) (maxEntries t) (flowLog t).

Definition store_events (evs : list EventFields) (t : TCPTracker) : TCPTracker :=
  mkTCPTracker (connections t) (isNil t) (timeout t) (waitTimeout t) (finWaitTimeout t)
    (closeWaitTimeout t) (lastAckTimeout t) (maxEntries t) (flowLog t ++ evs).

(** [timeout / 45] is Go's truncated division.  The last four arguments are
    what [envDuration] and [envInt] return. *)
Definition NewTCPTracker (timeout_ finWait closeWait lastAck max : Z) : TCPTracker :=
  let waitTimeout_ := if decide (timeout_ = 0)%Z then TimeWaitTimeout
                      else Z.quot timeout_ 45 in
  let timeout_ := if decide (timeout_ = 0)%Z then DefaultTCPTimeout else timeout_ in
  mkTCPTracker ∅ false timeout_ waitTimeout_ finWait closeWait lastAck max [].

(** ** Events *)
Definition sendEvent (typ : EventType) (c : TCPConnTrack) (ruleID : list Z) : EventFields :=
  mkEvent (FlowId (base c)) typ ruleID (BDirection (base c)) TCP
    (SourceIP (base c)) (DestIP (base c)) (SourcePort c) (DestPort c) 0 0
    (PacketsRx (base c)) (PacketsTx (base c)) (BytesRx (base c)) (BytesTx (base c)).

(** ** Flags *)
Definition isValidFlagCombination (flags : Z) : bool :=
  if has flags TCPSyn && has flags TCPFin then false
  else if has flags TCPRst && (has flags TCPSyn || has flags TCPFin) then false
  else true.

Definition isValidStateForFlags (s : TCPState) (flags : Z) : bool :=
  if has flags TCPRst then
    if decide (s = TCPStateSynSent) then has flags TCPAck else true
  else
    match s with
    | TCPStateNew => has flags TCPSyn && negb (has flags TCPAck)
    | TCPStateSynSent => has flags TCPSyn && has flags TCPAck
    | TCPStateSynReceived => has flags TCPAck
    | TCPStateEstablished => has flags TCPAck
    | TCPStateFinWait1 => has flags TCPFin || has flags TCPAck
    | TCPStateFinWait2 => has flags TCPFin || has flags TCPAck
    | TCPStateClosing => has flags TCPAck
    | TCPStateTimeWait => has flags TCPAck
    | TCPStateCloseWait => has flags TCPFin || has flags TCPAck
    | TCPStateLastAck => has flags TCPAck
    | TCPStateClosed => has flags TCPAck
    end.

(** ** Transitions

    The value 0, which is [TCPStateNew], means no transition. *)
Definition transNew (flags : Z) (connDir : Direction) (_ : bool) : TCPState :=
  if has flags TCPSyn && negb (has flags TCPAck) then
    if decide (connDir = Egress) then TCPStateSynSent else TCPStateSynReceived
  else TCPStateNew.

Definition transSynSent (flags : Z) (_ : Direction) (same : bool) : TCPState :=
  if has flags TCPSyn && has flags TCPAck then
    if same then TCPStateSynReceived else TCPStateEstablished
  else TCPStateNew.

Definition transSynReceived (flags : Z) (_ : Direction) (same : bool) : TCPState :=
  if has flags TCPAck && negb (has flags TCPSyn) && same
  then TCPStateEstablished else TCPStateNew.

Definition transEstablished (flags : Z) (_ : Direction) (same : bool) : TCPState :=
  if negb (has flags TCPFin) then TCPStateNew
  else if same then TCPStateFinWait1 else TCPStateCloseWait.

Definition transFinWait1 (flags : Z) (_ : Direction) (same : bool) : TCPState :=
  if same then TCPStateNew
  else if has flags TCPFin && has flags TCPAck then TCPStateTimeWait
  else if has flags TCPFin then TCPStateClosing
  else if has flags TCPAck then TCPStateFinWait2
  else TCPStateNew.

Definition transFinWait2 (flags : Z) (_ : Direction) (same : bool) : TCPState :=
  if has flags TCPFin && negb same then TCPStateTimeWait else TCPStateNew.

Definition transClosing (flags : Z) (_ : Direction) (same : bool) : TCPState :=
  if has flags TCPAck && negb same then TCPStateTimeWait else TCPStateNew.

Definition transCloseWait (flags : Z) (_ : Direction) (same : bool) : TCPState :=
  if has flags TCPFin && same then TCPStateLastAck else TCPStateNew.

Definition transLastAck (flags : Z) (_ : Direction) (same : bool) : TCPState :=
  if has flags TCPAck && negb same then TCPStateClosed else TCPStateNew.

Definition stateTable (s : TCPState) : option (Z -> Direction -> bool -> TCPState) :=
  match s with
  | TCPStateNew => Some transNew
  | TCPStateSynSent => Some transSynSent
  | TCPStateSynReceived => Some transSynReceived
  | TCPStateEstablished => Some transEstablished
  | TCPStateFinWait1 => Some transFinWait1
  | TCPStateFinWait2 => Some transFinWait2
  | TCPStateClosing => Some transClosing
  | TCPStateCloseWait => Some transCloseWait
  | TCPStateLastAck => Some transLastAck
  | TCPStateTimeWait | TCPStateClosed => None
  end.

Definition nextState (currentState : TCPState) (connDir packetDir : Direction) (flags : Z)
    : TCPState :=
  match stateTable currentState with
  | None => TCPStateNew
  | Some fn => fn flags connDir (bool_decide (packetDir = connDir))
  end.

(** A connection update yields the connection and the events it emits. *)
Definition onTransition (c : TCPConnTrack) (to : TCPState)
    : TCPConnTrack * list EventFields :=
  match to with
  | TCPStateTimeWait => (c, [sendEvent TypeEnd c []])
  | TCPStateClosed => let c := SetTombstone c in (c, [sendEvent TypeEnd c []])
  | _ => (c, [])
  end.

Definition handleRst (c : TCPConnTrack) (currentState : TCPState) (packetDir : Direction)
    : TCPConnTrack * list EventFields :=
  if decide (currentState = TCPStateTimeWait) then (c, [])
  else if decide (currentState = TCPStateSynSent /\ packetDir = BDirection (base c))
  then (c, [])
  else
    let '(c, swapped) := CompareAndSwapState currentState TCPStateClosed c in
    if swapped then
      let c := SetTombstone c in (c, [sendEvent TypeEnd c []])
    else (c, []).

Definition updateState (now : Z) (c : TCPConnTrack) (flags : Z) (packetDir : Direction)
    (size_ : Z) : TCPConnTrack * list EventFields :=
  let c := with_base (UpdateCounters packetDir size_) c in
  if negb (isValidFlagCombination flags) then (c, [])
  else
    let c := with_base (UpdateLastSeen now) c in
    let currentState := GetState c in
    if has flags TCPRst then handleRst c currentState packetDir
    else
      let newState := nextState currentState (BDirection (base c)) packetDir flags in
      if decide (newState = TCPStateNew) then (c, [])
      else
        let '(c, swapped) := CompareAndSwapState currentState newState c in
        if swapped then onTransition c newState else (c, []).

(** ** The tracker's operations *)

(** The connection is shared with the table: its update is visible there. *)
Definition update_tracked (now : Z) (key : ConnKey) (c : TCPConnTrack) (flags : Z)
    (dir : Direction) (size_ : Z) (t : TCPTracker) : TCPTracker :=
  let '(c, evs) := updateState now c flags dir size_ in
  store_events evs (with_connections (<[key := c]> (connections t)) t).

Definition updateIfExists (now : Z) (srcIP dstIP : Addr) (srcPort dstPort flags : Z)
    (direction : Direction) (size_ : Z) (t : TCPTracker)
    : TCPTracker * (ConnKey * Z * bool) :=
  let key := mkKey srcIP dstIP srcPort dstPort in
  match connections t !! key with
  | Some conn =>
      if negb (IsSupersededBy conn flags) then
        (update_tracked now key conn flags direction size_ t,
         (key, u16 (DNATOrigPort (base conn)), true))
      else (t, (key, 0%Z, false))
  | None => (t, (key, 0%Z, false))
  end.

Definition evictOneLocked (order : list (ConnKey * TCPConnTrack)) (t : TCPTracker)
    : TCPTracker :=
  match evict_scan IsTombstone (fun c => lastSeen (base c)) order None 0 with
  | ScanTombstone k => with_connections (delete k (connections t)) t
  | ScanNothing => t
  | ScanOldest k =>
      let evs :=
        match connections t !! k with
        | Some evicted =>
            if negb (bool_decide (GetState evicted = TCPStateTimeWait)) &&
               negb (IsTombstone evicted)
            then [sendEvent TypeEnd evicted []] else []
        | None => []
        end in
      store_events evs (with_connections (delete k (connections t)) t)
  end.

(** [None] is the panic of an assignment to the nil map left by [Close]. *)
Definition track (now : Z) (uuid : UUID) (order : list (ConnKey * TCPConnTrack))
    (srcIP dstIP : Addr) (srcPort dstPort flags : Z) (direction : Direction)
    (ruleID : list Z) (size_ origPort : Z) (t : TCPTracker) : option TCPTracker :=
  let '(t, (key, _, exists_)) :=
    updateIfExists now srcIP dstIP srcPort dstPort flags direction size_ t in
  if exists_ || negb (has flags TCPSyn) then Some t
  else if negb (isValidFlagCombination flags) then Some t
  else
    let conn := mkTCPConn
      (mkBase uuid direction srcIP dstIP 0 0 0 0 0 (u32 origPort))
      srcPort dstPort TCPStateNew false in
    let '(conn, evs) := updateState now conn flags direction size_ in
    let t := store_events evs t in
    let t := if bool_decide (0 < maxEntries t)%Z &&
                bool_decide (maxEntries t <= Z.of_nat (size (connections t)))%Z
             then evictOneLocked order t else t in
    if isNil t then None
    else
      let t := with_connections (<[key := conn]> (connections t)) t in
      Some (store_events [sendEvent TypeStart conn ruleID] t).

Definition TrackOutbound (now : Z) (uuid : UUID) (order : list (ConnKey * TCPConnTrack))
    (srcIP dstIP : Addr) (srcPort dstPort flags size_ : Z) (t : TCPTracker)
    : option (TCPTracker * Z) :=
  let '(t, (_, origPort, exists_)) :=
    updateIfExists now dstIP srcIP dstPort srcPort flags Egress size_ t in
  if exists_ then Some (t, origPort)
  else
    t ← track now uuid order srcIP dstIP srcPort dstPort flags Egress [] size_ 0 t;
    Some (t, 0%Z).

Definition TrackInbound (now : Z) (uuid : UUID) (order : list (ConnKey * TCPConnTrack))
    (srcIP dstIP : Addr) (srcPort dstPort flags : Z) (ruleID : list Z)
    (size_ dnatOrigPort : Z) (t : TCPTracker) : option TCPTracker :=
  track now uuid order srcIP dstIP srcPort dstPort flags Ingress ruleID size_ dnatOrigPort t.

Definition IsValidInbound (now : Z) (srcIP dstIP : Addr) (srcPort dstPort flags size_ : Z)
    (t : TCPTracker) : TCPTracker * bool :=
  let key := mkKey dstIP srcIP dstPort srcPort in
  match connections t !! key with
  | None => (t, false)
  | Some conn =>
      if IsSupersededBy conn flags then (t, false)
      else if negb (isValidFlagCombination flags) then (t, false)
      else
        let currentState := GetState conn in
        if negb (isValidStateForFlags currentState flags) then (t, false)
        else (update_tracked now key conn flags Ingress size_ t, true)
  end.

Definition stateTimeout (t : TCPTracker) (s : TCPState) : Z :=
  match s with
  | TCPStateTimeWait => waitTimeout t
  | TCPStateEstablished => timeout t
  | TCPStateFinWait1 | TCPStateFinWait2 | TCPStateClosing => finWaitTimeout t
  | TCPStateCloseWait => closeWaitTimeout t
  | TCPStateLastAck => lastAckTimeout t
  | _ => TCPHandshakeTimeout
  end.

(** The body of the cleanup loop. *)
Definition cleanup_entry (now : Z) (t : TCPTracker) (e : ConnKey * TCPConnTrack)
    : TCPTracker :=
  let '(key, conn) := e in
  if IsTombstone conn then with_connections (delete key (connections t)) t
  else
    let currentState := GetState conn in
    let timeout_ := stateTimeout t currentState in
    if timeoutExceeded now timeout_ (base conn) then
      let t := with_connections (delete key (connections t)) t in
      if bool_decide (currentState ≠ TCPStateTimeWait)
      then store_events [sendEvent TypeEnd conn []] t else t
    else t.

Definition cleanup (now : Z) (order : list (ConnKey * TCPConnTrack)) (t : TCPTracker)
    : TCPTracker :=
  foldl (cleanup_entry now) t order.

Definition GetConnection (srcIP : Addr) (srcPort : Z) (dstIP : Addr) (dstPort : Z)
    (t : TCPTracker) : option TCPConnTrack :=
  connections t !! mkKey srcIP dstIP srcPort dstPort.

Definition Close (t : TCPTracker) : TCPTracker :=
  mkTCPTracker ∅ true (timeout t) (waitTimeout t) (finWaitTimeout t)
    (closeWaitTimeout t) (lastAckTimeout t) (maxEntries t) (flowLog t).

(** ** One connection *)

(** A connection is tombstoned exactly when it is closed. *)
Definition conn_wf (c : TCPConnTrack) : Prop :=
  tombstone c = true <-> state c = TCPStateClosed.

(** The connection belongs under its key. *)
Definition conn_at (k : ConnKey) (c : TCPConnTrack) : Prop :=
  k = mkKey (SourceIP (base c)) (DestIP (base c)) (SourcePort c) (DestPort c).

(** The flow still has to be reported as ended. *)
Definition conn_active (c : TCPConnTrack) : bool :=
  negb (tombstone c) && negb (bool_decide (state c = TCPStateTimeWait)).

Definition conn_fid (c : TCPConnTrack) : UUID := FlowId (base c).

(** What never changes about a connection. *)
Definition same_conn (c c' : TCPConnTrack) : Prop :=
  FlowId (base c') = FlowId (base c) /\
  BDirection (base c') = BDirection (base c) /\
  SourceIP (base c') = SourceIP (base c) /\ DestIP (base c') = DestIP (base c) /\
  SourcePort c' = SourcePort c /\ DestPort c' = DestPort c /\
  DNATOrigPort (base c') = DNATOrigPort (base c).

(** Progress of a connection through its life. *)
Definition state_rank (s : TCPState) : nat :=
  match s with
  | TCPStateNew => 0
  | TCPStateSynSent => 1
  | TCPStateSynReceived => 2
  | TCPStateEstablished => 3
  | TCPStateFinWait1 | TCPStateCloseWait => 4
  | TCPStateFinWait2 | TCPStateClosing | TCPStateLastAck => 5
  | TCPStateTimeWait => 6
  | TCPStateClosed => 7
  end.

Lemma with_base_counters d n c : same_conn c (with_base (UpdateCounters d n) c).
Proof. unfold same_conn, with_base, UpdateCounters. by case_decide. Qed.

Lemma same_conn_refl c : same_conn c c.
Proof. by repeat split. Qed.

Lemma same_conn_trans c1 c2 c3 : same_conn c1 c2 -> same_conn c2 c3 -> same_conn c1 c3.
Proof. unfold same_conn. intuition congruence. Qed.

#[local] Hint Resolve with_base_counters same_conn_refl : anonbird.

Lemma nextState_rank s cd pd flags :
  nextState s cd pd flags ≠ TCPStateNew ->
  state_rank s < state_rank (nextState s cd pd flags).
Proof.
  unfold nextState. generalize (bool_decide (pd = cd)) as same. intros same.
  destruct s; simpl;
    unfold transNew, transSynSent, transSynReceived, transEstablished, transFinWait1,
      transFinWait2, transClosing, transCloseWait, transLastAck;
    repeat case_match; simpl; (done || lia).
Qed.

Lemma nextState_live s cd pd flags :
  s = TCPStateTimeWait \/ s = TCPStateClosed -> nextState s cd pd flags = TCPStateNew.
Proof. by intros [-> | ->]. Qed.

(** The effect of one packet on a tracked connection: the identity is kept,
    closure and tombstone stay in step, no start is emitted, and an end is
    emitted exactly when the flow stops being active. *)
Lemma updateState_spec now c flags dir sz c' evs :
  tombstone c = false -> conn_wf c ->
  updateState now c flags dir sz = (c', evs) ->
  same_conn c c' /\ conn_wf c' /\ started evs = [] /\
  contrib conn_fid conn_active c = ended evs ++ contrib conn_fid conn_active c' /\
  (state c' = state c \/ state_rank (state c) < state_rank (state c')).
Proof.
  intros Ht Hwf. unfold updateState.
  pose proof (with_base_counters dir sz c) as Hs1.
  set (c1 := with_base (UpdateCounters dir sz) c) in *.
  assert (state c1 = state c /\ tombstone c1 = false) as [Hst1 Ht1] by done.
  assert (Hc1 : contrib conn_fid conn_active c1 = contrib conn_fid conn_active c).
  { unfold contrib, conn_active, conn_fid. rewrite Hst1, Ht1, Ht.
    by rewrite (proj1 Hs1). }
  assert (Hnc : state c ≠ TCPStateClosed)
    by (intros E; apply Hwf in E; congruence).
  clearbody c1. destruct (isValidFlagCombination flags); simpl negb; cbv iota.
  2:{ intros [= <- <-]. rewrite Hc1. split_and!; try done; [|by left].
      unfold conn_wf in *. by rewrite Hst1, Ht1, <- Ht. }
  set (c2 := with_base (UpdateLastSeen now) c1).
  assert (Hs2 : same_conn c c2) by (eapply same_conn_trans; [exact Hs1|done]).
  assert (Hc2 : contrib conn_fid conn_active c2 = contrib conn_fid conn_active c)
    by (rewrite <- Hc1; done).
  assert (state c2 = state c /\ tombstone c2 = false) as [Hst2 Ht2]
    by (by rewrite <- Hst1).
  clearbody c2. clear c1 Hs1 Hst1 Ht1 Hc1. unfold GetState. cbv zeta.
  assert (Hwf2 : conn_wf c2) by (unfold conn_wf in *; by rewrite Hst2, Ht2, <- Ht).
  assert (Hold : (c2, []) = (c', evs) ->
    same_conn c c' /\ conn_wf c' /\ started evs = [] /\
    contrib conn_fid conn_active c = ended evs ++ contrib conn_fid conn_active c' /\
    (state c' = state c \/ state_rank (state c) < state_rank (state c'))).
  { intros [= <- <-]. split_and!; try done. by left. }
  assert (Hact : state c ≠ TCPStateTimeWait ->
    contrib conn_fid conn_active c = [FlowId (base c2)]).
  { intros Hn. unfold contrib, conn_active, conn_fid. rewrite Ht.
    rewrite bool_decide_eq_false_2 by done. simpl. by rewrite (proj1 Hs2). }
  destruct (has flags TCPRst).
  - unfold handleRst. case_decide as Htw; [by apply Hold|].
    case_decide; [by apply Hold|].
    unfold CompareAndSwapState. rewrite decide_True by done.
    intros [= <- <-]. rewrite Hst2 in Htw. rewrite Hact by done.
    split_and!; try done. right. destruct (state c); simpl; (done || lia).
  - case_decide as Hnew; [by apply Hold|].
    pose proof (nextState_rank _ _ _ _ Hnew) as Hrank.
    destruct (decide (state c = TCPStateTimeWait)) as [Etw|Hntw].
    { exfalso. apply Hnew. apply nextState_live. left. congruence. }
    rewrite Hact by done. unfold CompareAndSwapState. rewrite decide_True by done.
    rewrite Hst2 in *.
    destruct (nextState (state c) _ dir flags); intros [= <- <-]; split_and!;
      first [ done
            | right; simpl in *; lia
            | unfold conn_wf; simpl; rewrite ?Ht2; split; discriminate
            | unfold contrib, conn_active, conn_fid; simpl; by rewrite ?Ht2 ].
Qed.

(** ** The tracker *)

(** [opened] is the set of keys for which a connection was opened. *)
Record tcp_inv (opened : ConnKey -> Prop) (t : TCPTracker) : Prop := {
  inv_conn : forall k c, connections t !! k = Some c ->
    conn_wf c /\ conn_at k c /\ opened k;
  inv_nil : isNil t = true -> connections t = ∅;
  inv_balanced : isNil t = false ->
    balanced conn_fid conn_active (flowLog t) (connections t);
  inv_fresh : NoDup (started (flowLog t));
  inv_capacity : (0 < maxEntries t)%Z ->
    (Z.of_nat (size (connections t)) <= maxEntries t)%Z
}.

Lemma tcp_inv_mono (P Q : ConnKey -> Prop) t :
  (forall k, P k -> Q k) -> tcp_inv P t -> tcp_inv Q t.
Proof.
  intros HPQ [H1 H2 H3 H4 H5]. split; [|done..].
  intros k c Hk. destruct (H1 k c Hk) as (? & ? & ?). auto.
Qed.

Lemma NewTCPTracker_inv opened a b c d e : tcp_inv opened (NewTCPTracker a b c d e).
Proof.
  split; try done.
  - intros _. unfold balanced. cbn [connections flowLog NewTCPTracker].
    by rewrite pending_empty.
  - constructor.
  - intros. cbn [connections maxEntries NewTCPTracker] in *. rewrite map_size_empty. lia.
Qed.

Lemma superseded_inactive c flags :
  conn_wf c -> IsSupersededBy c flags = true -> conn_active c = false.
Proof.
  intros _ Hs. unfold IsSupersededBy, conn_active in *.
  destruct (tombstone c); [done|]. simpl.
  apply andb_true_iff in Hs as [_ Hs]. by rewrite Hs.
Qed.

Lemma not_superseded_alive c flags : IsSupersededBy c flags = false -> tombstone c = false.
Proof. unfold IsSupersededBy. by destruct (tombstone c). Qed.

Lemma conn_at_same k c c' : conn_at k c -> same_conn c c' -> conn_at k c'.
Proof. unfold conn_at. intros -> (_ & _ & -> & -> & -> & -> & _). done. Qed.

Lemma update_tracked_inv opened now k c flags dir sz t :
  tcp_inv opened t -> connections t !! k = Some c -> tombstone c = false ->
  tcp_inv opened (update_tracked now k c flags dir sz t).
Proof.
  intros Hinv Hk Ht. unfold update_tracked.
  destruct (updateState now c flags dir sz) as [c' evs] eqn:Hu.
  destruct (inv_conn _ _ Hinv k c Hk) as (Hwf & Hat & Hop).
  destruct (updateState_spec _ _ _ _ _ _ _ Ht Hwf Hu) as (Hs & Hwf' & Hst & Hc & _).
  split; simpl.
  - intros k' c1 [[<- <-]|[_ Hk']]%lookup_insert_Some.
    + eauto using conn_at_same.
    + by apply (inv_conn _ _ Hinv).
  - intros Hnil. apply (inv_nil _ _ Hinv) in Hnil. by rewrite Hnil in Hk.
  - intros Hnil. unfold balanced. rewrite started_app, ended_app, Hst, app_nil_r.
    rewrite (inv_balanced _ _ Hinv Hnil).
    pose proof (pending_replace conn_fid conn_active (connections t) k c c' Hk) as Hp.
    rewrite Hc, <- app_assoc in Hp.
    rewrite <- app_assoc. f_equiv.
    apply (Permutation_app_inv_l (contrib conn_fid conn_active c')).
    rewrite <- Hp. solve_Permutation.
  - rewrite started_app, Hst, app_nil_r. apply (inv_fresh _ _ Hinv).
  - intros Hm. rewrite map_size_insert_Some by (by eexists).
    by apply (inv_capacity _ _ Hinv).
Qed.

(** Removing entries, with the end events of the active ones. *)
Lemma remove_inv opened t k c evs :
  tcp_inv opened t -> connections t !! k = Some c ->
  started evs = [] -> ended evs = contrib conn_fid conn_active c ->
  tcp_inv opened (store_events evs (with_connections (delete k (connections t)) t)).
Proof.
  intros Hinv Hk Hs He. split; simpl.
  - intros k' c' [_ Hk']%lookup_delete_Some. by apply (inv_conn _ _ Hinv).
  - intros Hnil. apply (inv_nil _ _ Hinv) in Hnil. by rewrite Hnil in Hk.
  - intros Hnil. unfold balanced. rewrite started_app, ended_app, Hs, He, app_nil_r.
    rewrite (inv_balanced _ _ Hinv Hnil).
    rewrite (pending_delete conn_fid conn_active _ k c Hk). by rewrite app_assoc.
  - rewrite started_app, Hs, app_nil_r. apply (inv_fresh _ _ Hinv).
  - intros Hm. pose proof (inv_capacity _ _ Hinv Hm).
    rewrite map_size_delete_Some by (by eexists). lia.
Qed.

Lemma with_connections_store m t : with_connections m t = store_events [] (with_connections m t).
Proof. unfold store_events. destruct t. simpl. by rewrite app_nil_r. Qed.

Lemma end_event_contrib c :
  conn_wf c ->
  started (if negb (bool_decide (GetState c = TCPStateTimeWait)) && negb (IsTombstone c)
           then [sendEvent TypeEnd c []] else []) = [] /\
  ended (if negb (bool_decide (GetState c = TCPStateTimeWait)) && negb (IsTombstone c)
         then [sendEvent TypeEnd c []] else []) = contrib conn_fid conn_active c.
Proof.
  intros _. unfold contrib, conn_active, GetState, IsTombstone.
  by destruct (bool_decide _), (tombstone c).
Qed.

(** Eviction keeps the invariant and, on a non-empty table, removes exactly
    one entry. *)
Lemma evictOneLocked_inv opened order t :
  tcp_inv opened t -> order ≡ₚ map_to_list (connections t) ->
  tcp_inv opened (evictOneLocked order t) /\
  isNil (evictOneLocked order t) = isNil t /\
  maxEntries (evictOneLocked order t) = maxEntries t /\
  started (flowLog (evictOneLocked order t)) = started (flowLog t) /\
  (exists k, connections (evictOneLocked order t) = delete k (connections t) /\
     (connections t ≠ ∅ -> is_Some (connections t !! k))).
Proof.
  intros Hinv Hord. unfold evictOneLocked.
  pose proof (evict_scan_spec IsTombstone (fun c => lastSeen (base c)) order None 0) as Hscan.
  assert (Hin : forall k c, (k, c) ∈ order -> connections t !! k = Some c).
  { intros k c Hkc. rewrite Hord in Hkc. by apply elem_of_map_to_list. }
  destruct (evict_scan IsTombstone _ order None 0) as [k|k|].
  - destruct Hscan as (c & Hkc & Htomb). apply Hin in Hkc. split.
    + rewrite with_connections_store. eapply remove_inv; [done..|].
      unfold contrib, conn_active. unfold IsTombstone in Htomb. by rewrite Htomb.
    + simpl. eauto 10.
  - destruct Hscan as [[s Hs]|(c & Hkc & _)]; [done|]. apply Hin in Hkc.
    rewrite Hkc. destruct (inv_conn _ _ Hinv k c Hkc) as (Hwf & _ & _).
    destruct (end_event_contrib c Hwf) as [E1 E2].
    split; [by eapply remove_inv|]. simpl. rewrite started_app, E1, app_nil_r. eauto 10.
  - destruct Hscan as [_ ->]. split_and!; try done.
    apply Permutation_nil_l, eq_sym, map_to_list_empty_iff in Hord.
    rewrite Hord. exists (mkKey AddrInvalid AddrInvalid 0 0). by rewrite delete_empty.
Qed.

(** Opening a connection: a fresh flow, at most one entry more. *)
Lemma insert_inv (opened : ConnKey -> Prop) t k conn evs start f :
  tcp_inv opened t -> isNil t = false ->
  (forall c, connections t !! k = Some c -> conn_active c = false) ->
  conn_wf conn -> conn_at k conn -> opened k ->
  started (evs ++ [start]) = [f] -> ended (evs ++ [start]) = ended evs ->
  [f] = ended evs ++ contrib conn_fid conn_active conn ->
  f ∉ started (flowLog t) ->
  ((0 < maxEntries t)%Z -> (Z.of_nat (size (connections t)) < maxEntries t)%Z) ->
  tcp_inv opened (store_events (evs ++ [start])
    (with_connections (<[k := conn]> (connections t)) t)).
Proof.
  intros Hinv Hnil Hold Hwf Hat Hop Hs He Hf Hfresh Hcap. split; simpl.
  - intros k' c [[<- <-]|[_ Hk']]%lookup_insert_Some; [done|].
    by apply (inv_conn _ _ Hinv).
  - congruence.
  - intros _. unfold balanced. rewrite started_app, ended_app, Hs, He.
    rewrite (pending_put conn_fid conn_active) by done.
    rewrite (inv_balanced _ _ Hinv Hnil), Hf. solve_Permutation.
  - rewrite started_app, Hs. apply NoDup_app. split_and!.
    + apply (inv_fresh _ _ Hinv).
    + intros g Hg Hg'. apply list_elem_of_singleton in Hg' as ->. done.
    + apply NoDup_singleton.
  - intros Hm. specialize (Hcap Hm).
    rewrite map_size_insert. destruct (connections t !! k); simpl; lia.
Qed.

(** A packet opens a connection when it carries a SYN in a legal
    combination. *)
Definition opening (flags : Z) : bool := has flags TCPSyn && isValidFlagCombination flags.

Lemma updateIfExists_cases now src dst sp dp flags dir sz t t' r :
  updateIfExists now src dst sp dp flags dir sz t = (t', r) ->
  let k := mkKey src dst sp dp in
  (exists c, connections t !! k = Some c /\ IsSupersededBy c flags = false /\
     t' = update_tracked now k c flags dir sz t /\
     r = (k, u16 (DNATOrigPort (base c)), true)) \/
  (t' = t /\ r = (k, 0%Z, false) /\
     forall c, connections t !! k = Some c -> IsSupersededBy c flags = true).
Proof.
  unfold updateIfExists. cbv zeta.
  destruct (connections t !! mkKey src dst sp dp) as [c|] eqn:Hk.
  - destruct (IsSupersededBy c flags) eqn:Hsup; simpl; intros [= <- <-]; [right|left].
    + split_and!; [done..|]. intros c' [= <-]. done.
    + eauto 10.
  - intros [= <- <-]. right. by split_and!.
Qed.

Lemma updateIfExists_inv opened now src dst sp dp flags dir sz t t' r :
  tcp_inv opened t -> updateIfExists now src dst sp dp flags dir sz t = (t', r) ->
  tcp_inv opened t'.
Proof.
  intros Hinv [(c & Hk & Hsup & -> & _)|(-> & _)]%updateIfExists_cases; [|done].
  eapply update_tracked_inv; eauto using not_superseded_alive.
Qed.

(** The state in which [track] stores the new connection. *)
Definition make_room (order : list (ConnKey * TCPConnTrack)) (t : TCPTracker) : TCPTracker :=
  if bool_decide (0 < maxEntries t)%Z &&
     bool_decide (maxEntries t <= Z.of_nat (size (connections t)))%Z
  then evictOneLocked order t else t.

Lemma make_room_spec opened order t :
  tcp_inv opened t -> order ≡ₚ map_to_list (connections t) ->
  tcp_inv opened (make_room order t) /\
  isNil (make_room order t) = isNil t /\
  started (flowLog (make_room order t)) = started (flowLog t) /\
  (forall k c, connections (make_room order t) !! k = Some c ->
     connections t !! k = Some c) /\
  ((0 < maxEntries (make_room order t))%Z ->
   (Z.of_nat (size (connections (make_room order t))) < maxEntries (make_room order t))%Z).
Proof.
  intros Hinv Hord. unfold make_room.
  case_bool_decide as Hpos; [case_bool_decide as Hfull|]; simpl; [|split_and!; done || lia..].
  destruct (evictOneLocked_inv opened order t Hinv Hord)
    as (Hi & Hn & Hm & Hs & k & Hc & Hsome).
  split_and!; try done.
  - intros k' c. rewrite Hc. by intros [_ ?]%lookup_delete_Some.
  - intros _. rewrite Hm, Hc. pose proof (inv_capacity _ _ Hinv Hpos).
    assert (connections t ≠ ∅) as Hne
      by (intros E; rewrite E, map_size_empty in Hfull; lia).
    specialize (Hsome Hne). rewrite map_size_delete_Some by done.
    apply map_size_non_empty_iff in Hne. lia.
Qed.

(** A new connection before its first packet. *)
Definition fresh_conn (uuid : UUID) (dir : Direction) (src dst : Addr) (sp dp orig : Z)
    : TCPConnTrack :=
  mkTCPConn (mkBase uuid dir src dst 0 0 0 0 0 (u32 orig)) sp dp TCPStateNew false.

(** The first packet of a connection emits nothing: it is a SYN, hence not a
    reset, and it can only move the connection to a handshake state. *)
Lemma fresh_update now uuid dir src dst sp dp flags orig sz :
  opening flags = true ->
  exists c, updateState now (fresh_conn uuid dir src dst sp dp orig) flags dir sz = (c, []) /\
    same_conn (fresh_conn uuid dir src dst sp dp orig) c /\ conn_wf c /\
    contrib conn_fid conn_active c = [uuid].
Proof.
  intros Hop. apply andb_true_iff in Hop as [Hsyn Hval].
  assert (Hrst : has flags TCPRst = false).
  { unfold isValidFlagCombination in Hval. rewrite Hsyn in Hval. simpl in Hval.
    destruct (has flags TCPFin); [done|]. by destruct (has flags TCPRst). }
  destruct (updateState now _ flags dir sz) as [c evs] eqn:Hu.
  destruct (updateState_spec now (fresh_conn uuid dir src dst sp dp orig) flags dir sz c evs)
    as (Hs & Hwf & _ & Hc & _); [done|done|done|].
  assert (evs = []) as ->.
  { revert Hu. unfold updateState. rewrite Hval, Hrst. simpl.
    unfold nextState, stateTable, GetState, fresh_conn. simpl.
    unfold transNew. rewrite Hsyn. simpl.
    destruct (has flags TCPAck); simpl;
      repeat case_decide; simpl; intros E; by apply (f_equal snd) in E. }
  exists c. split_and!; try done.
Qed.

Lemma track_inv (opened : ConnKey -> Prop) now uuid order src dst sp dp flags dir rule sz orig t t' :
  tcp_inv opened t -> order ≡ₚ map_to_list (connections t) ->
  uuid ∉ started (flowLog t) ->
  (opening flags = true -> opened (mkKey src dst sp dp)) ->
  track now uuid order src dst sp dp flags dir rule sz orig t = Some t' ->
  tcp_inv opened t'.
Proof.
  intros Hinv Hord Hfresh Hopen. unfold track.
  destruct (updateIfExists now src dst sp dp flags dir sz t) as [t1 [[k p] b]] eqn:Hu.
  pose proof (updateIfExists_inv _ _ _ _ _ _ _ _ _ _ _ _ Hinv Hu) as Hinv1.
  destruct (b || negb (has flags TCPSyn)) eqn:Hb; [by intros [= <-]|].
  apply orb_false_iff in Hb as [-> Hsyn%negb_false_iff].
  destruct (isValidFlagCombination flags) eqn:Hval; [|by intros [= <-]]. simpl negb. cbv iota.
  assert (Hop : opening flags = true) by (unfold opening; by rewrite Hsyn, Hval).
  apply updateIfExists_cases in Hu as [(c0 & _ & _ & _ & Hr)|(-> & Hr & Hold)];
    [by simplify_eq|].
  assert (k = mkKey src dst sp dp) as -> by (by simplify_eq).
  destruct (fresh_update now uuid dir src dst sp dp flags orig sz Hop)
    as (conn & Hupd & Hsame & Hwf & Hcon).
  fold (fresh_conn uuid dir src dst sp dp orig). rewrite Hupd.
  assert (store_events [] t = t) as -> by (unfold store_events; destruct t; simpl; by rewrite app_nil_r).
  fold (make_room order t).
  destruct (make_room_spec opened order t Hinv Hord) as (Hi & Hn & Hs & Hsub & Hcap).
  destruct (isNil (make_room order t)) eqn:Hnil; [done|]. intros [= <-].
  apply (insert_inv opened (make_room order t) (mkKey src dst sp dp) conn []
    (sendEvent TypeStart conn rule) uuid); try done.
  - intros c Hc%Hsub. eapply superseded_inactive; [by apply (inv_conn _ _ Hinv _ _ Hc)|].
    by apply Hold.
  - apply (conn_at_same _ (fresh_conn uuid dir src dst sp dp orig)); done.
  - by apply Hopen.
  - simpl. by rewrite (proj1 Hsame).
  - by rewrite Hs.
Qed.

(** ** Cleanup *)
Lemma stateTimeout_connections m evs t s :
  stateTimeout (store_events evs (with_connections m t)) s = stateTimeout t s.
Proof. by destruct s. Qed.

(** An entry survives the cleanup loop's body when it is alive and within
    the timeout of its state. *)
Definition survives (now : Z) (t : TCPTracker) (c : TCPConnTrack) : bool :=
  negb (IsTombstone c) && negb (timeoutExceeded now (stateTimeout t (GetState c)) (base c)).

Lemma cleanup_entry_spec opened now t k c :
  tcp_inv opened t -> connections t !! k = Some c ->
  let t' := cleanup_entry now t (k, c) in
  tcp_inv opened t' /\
  connections t' = (if survives now t c then connections t else delete k (connections t)) /\
  (forall s, stateTimeout t' s = stateTimeout t s) /\ isNil t' = isNil t.
Proof.
  intros Hinv Hk. unfold cleanup_entry, survives.
  destruct (inv_conn _ _ Hinv k c Hk) as (Hwf & _ & _).
  unfold IsTombstone, GetState. destruct (tombstone c) eqn:Ht; cbn [negb andb].
  { rewrite with_connections_store. split; [|split_and!; [done| |done]].
    - eapply remove_inv; [done..|]. unfold contrib, conn_active. by rewrite Ht.
    - intros s. apply stateTimeout_connections. }
  destruct (timeoutExceeded now _ (base c)); cbn [negb]; [|by split_and!].
  pose proof (end_event_contrib c Hwf) as [E1 E2].
  unfold GetState, IsTombstone in E1, E2. rewrite Ht in E1, E2.
  destruct (decide (state c = TCPStateTimeWait)) as [Hs|Hs].
  - rewrite (bool_decide_eq_true_2 _ Hs) in E1, E2. cbn [negb andb] in E1, E2.
    rewrite bool_decide_eq_false_2 by (by intros []).
    rewrite with_connections_store.
    split; [by eapply remove_inv|]. split_and!; [done| |done].
    intros s. apply stateTimeout_connections.
  - rewrite (bool_decide_eq_false_2 _ Hs) in E1, E2. cbn [negb andb] in E1, E2.
    rewrite bool_decide_eq_true_2 by done.
    split; [by eapply remove_inv|]. split_and!; [done| |done].
    intros s. apply stateTimeout_connections.
Qed.

Lemma cleanup_fold opened now order : forall t,
  tcp_inv opened t -> NoDup order.*1 ->
  (forall k c, (k, c) ∈ order -> connections t !! k = Some c) ->
  let t' := foldl (cleanup_entry now) t order in
  tcp_inv opened t' /\ isNil t' = isNil t /\
  (forall s, stateTimeout t' s = stateTimeout t s) /\
  forall k, connections t' !! k =
    (c ← connections t !! k;
     if decide (k ∈ order.*1) then if survives now t c then Some c else None else Some c).
Proof.
  induction order as [|[k c] order IH]; intros t Hinv Hnd Hin;
    cbn [foldl fmap list_fmap fst].
  - split_and!; [done..|]. intros k. by destruct (connections t !! k).
  - apply NoDup_cons in Hnd as [Hnin Hnd].
    pose proof (Hin k c ltac:(set_solver)) as Hk.
    destruct (cleanup_entry_spec opened now t k c Hinv Hk) as (Hi & Hc & Hto & Hn).
    set (t1 := cleanup_entry now t (k, c)) in *.
    destruct (IH t1 Hi Hnd) as (Hi' & Hn' & Hto' & Hl).
    { intros k' c' Hkc. rewrite Hc. destruct (survives now t c); [apply Hin; set_solver|].
      rewrite lookup_delete_ne; [apply Hin; set_solver|].
      intros ->. apply Hnin. apply list_elem_of_fmap. by exists (k', c'). }
    split_and!; [done|congruence|intros s; by rewrite Hto', Hto|].
    assert (Hsurv : forall c', survives now t1 c' = survives now t c')
      by (intros c'; unfold survives; by rewrite Hto).
    intros k'. rewrite Hl, Hc. clear Hl. destruct (decide (k' = k)) as [->|Hne].
    + rewrite Hk. destruct (survives now t c) eqn:Hsv.
      * rewrite Hk. cbn [mbind option_bind].
        rewrite decide_False by done. rewrite decide_True by set_solver. by rewrite Hsv.
      * rewrite lookup_delete_eq. cbn [mbind option_bind].
        rewrite decide_True by set_solver. by rewrite Hsv.
    + assert (Hlk : (if survives now t c then connections t else delete k (connections t)) !! k'
        = connections t !! k')
        by (destruct (survives now t c); [done|by rewrite lookup_delete_ne by done]).
      rewrite Hlk. destruct (connections t !! k') as [c'|]; [|done].
      cbn [mbind option_bind]. rewrite Hsurv.
      rewrite (decide_ext (k' ∈ order.*1) (k' ∈ ((k, c) :: order).*1)); [done|set_solver].
Qed.

Lemma order_entries {V} (m : gmap ConnKey V) (order : list (ConnKey * V)) :
  order ≡ₚ map_to_list m ->
  NoDup order.*1 /\ forall k v, (k, v) ∈ order <-> m !! k = Some v.
Proof.
  intros Hord. split.
  - rewrite Hord. apply NoDup_fst_map_to_list.
  - intros k v. by rewrite Hord, elem_of_map_to_list.
Qed.

Lemma cleanup_spec opened now order t :
  tcp_inv opened t -> order ≡ₚ map_to_list (connections t) ->
  tcp_inv opened (cleanup now order t) /\ isNil (cleanup now order t) = isNil t /\
  forall k, connections (cleanup now order t) !! k =
    (c ← connections t !! k; if survives now t c then Some c else None).
Proof.
  intros Hinv Hord. destruct (order_entries _ _ Hord) as [Hnd Hin].
  destruct (cleanup_fold opened now order t Hinv Hnd) as (Hi & Hn & _ & Hl).
  { intros k c. apply Hin. }
  split_and!; [done..|]. intros k. unfold cleanup. rewrite Hl.
  destruct (connections t !! k) as [c|] eqn:Hk; [|done]. simpl.
  rewrite decide_True; [done|]. apply list_elem_of_fmap. exists (k, c).
  split; [done|]. by apply Hin.
Qed.

(** ** Traces *)
Inductive tcp_op : Type :=
| OpTrackOutbound (now : Z) (uuid : UUID) (order : list (ConnKey * TCPConnTrack))
    (src dst : Addr) (sp dp flags sz : Z)
| OpTrackInbound (now : Z) (uuid : UUID) (order : list (ConnKey * TCPConnTrack))
    (src dst : Addr) (sp dp flags : Z) (rule : list Z) (sz orig : Z)
| OpIsValidInbound (now : Z) (src dst : Addr) (sp dp flags sz : Z)
| OpCleanup (now : Z) (order : list (ConnKey * TCPConnTrack))
| OpClose.

Definition run_op (t : TCPTracker) (op : tcp_op) : option TCPTracker :=
  match op with
  | OpTrackOutbound now uuid order src dst sp dp flags sz =>
      fst <$> TrackOutbound now uuid order src dst sp dp flags sz t
  | OpTrackInbound now uuid order src dst sp dp flags rule sz orig =>
      TrackInbound now uuid order src dst sp dp flags rule sz orig t
  | OpIsValidInbound now src dst sp dp flags sz =>
      Some (IsValidInbound now src dst sp dp flags sz t).1
  | OpCleanup now order => Some (cleanup now order t)
  | OpClose => Some (Close t)
  end.

(** What the environment guarantees: a range over the table visits its
    entries, and [uuid.New] returns an identifier not used before. *)
Definition op_ok (t : TCPTracker) (op : tcp_op) : Prop :=
  match op with
  | OpTrackOutbound _ uuid order _ _ _ _ _ _ =>
      order ≡ₚ map_to_list (connections t) /\ uuid ∉ started (flowLog t)
  | OpTrackInbound _ uuid order _ _ _ _ _ _ _ _ =>
      order ≡ₚ map_to_list (connections t) /\ uuid ∉ started (flowLog t)
  | OpIsValidInbound _ _ _ _ _ _ _ => True
  | OpCleanup _ order => order ≡ₚ map_to_list (connections t)
  | OpClose => True
  end.

(** The key for which an operation may open a connection. *)
Definition op_opens (op : tcp_op) : option ConnKey :=
  match op with
  | OpTrackOutbound _ _ _ src dst sp dp flags _
  | OpTrackInbound _ _ _ src dst sp dp flags _ _ _ =>
      if opening flags then Some (mkKey src dst sp dp) else None
  | _ => None
  end.

(** Trackers reachable from a fresh one, with the operations performed. *)
Inductive tcp_reach : list tcp_op -> TCPTracker -> Prop :=
| tcp_reach_new tmo fw cw la mx : tcp_reach [] (NewTCPTracker tmo fw cw la mx)
| tcp_reach_step ops t op t' :
    tcp_reach ops t -> op_ok t op -> run_op t op = Some t' -> tcp_reach (ops ++ [op]) t'.

Definition opened_in (ops : list tcp_op) (k : ConnKey) : Prop :=
  exists op, op ∈ ops /\ op_opens op = Some k.

Lemma IsValidInbound_inv opened now src dst sp dp flags sz t :
  tcp_inv opened t -> tcp_inv opened (IsValidInbound now src dst sp dp flags sz t).1.
Proof.
  intros Hinv. unfold IsValidInbound.
  destruct (connections t !! _) as [c|] eqn:Hk; [|done].
  destruct (IsSupersededBy c flags) eqn:Hs; [done|].
  repeat case_match; try done. simpl.
  eapply update_tracked_inv; eauto using not_superseded_alive.
Qed.

Lemma tcp_reach_inv ops t : tcp_reach ops t -> tcp_inv (opened_in ops) t.
Proof.
  induction 1 as [|ops t op t' Hr IH Hok Hrun]; [apply NewTCPTracker_inv|].
  apply (tcp_inv_mono _ (opened_in (ops ++ [op]))) in IH.
  2:{ intros k (o & Ho & Hk). exists o. set_solver. }
  assert (Hnew : forall k, op_opens op = Some k -> opened_in (ops ++ [op]) k).
  { intros k Hk. exists op. set_solver. }
  destruct op as [now uuid order src dst sp dp flags sz
    |now uuid order src dst sp dp flags rule sz orig|now src dst sp dp flags sz
    |now order|]; simpl in Hok, Hrun.
  - destruct Hok as [Hord Hfr]. unfold TrackOutbound in Hrun.
    destruct (updateIfExists now dst src dp sp flags Egress sz t) as [t1 [[k p] b]] eqn:Hu.
    pose proof (updateIfExists_inv _ _ _ _ _ _ _ _ _ _ _ _ IH Hu) as Hi1.
    destruct b; [by simplify_eq/=|].
    apply updateIfExists_cases in Hu as [(? & _ & _ & _ & ?)|(-> & _ & _)]; [by simplify_eq|].
    destruct (track _ _ _ _ _ _ _ _ _ _ _ _ _) as [t2|] eqn:Htr; simplify_eq/=.
    eapply track_inv; [..|exact Htr]; try done.
    intros Hop. apply Hnew. simpl. by rewrite Hop.
  - destruct Hok as [Hord Hfr]. eapply track_inv; [..|exact Hrun]; try done.
    intros Hop. apply Hnew. simpl. by rewrite Hop.
  - simplify_eq. by apply IsValidInbound_inv.
  - simplify_eq. by apply cleanup_spec.
  - simplify_eq. split; simpl; try done.
    + apply (inv_fresh _ _ IH).
    + intros. rewrite map_size_empty. lia.
Qed.

(** ** The theorems *)

#[export] Program Instance TCPTracker_flows : FlowTracker TCPTracker := {|
  ft_log := flowLog;
  ft_pending t := pending conn_fid conn_active (connections t);
  ft_reach t := isNil t = false /\ exists ops, tcp_reach ops t
|}.
Next Obligation. intros t [_ [ops Hr]]. apply (inv_fresh _ _ (tcp_reach_inv _ _ Hr)). Qed.
Next Obligation.
  intros t [Hnil [ops Hr]]. apply (inv_balanced _ _ (tcp_reach_inv _ _ Hr) Hnil).
Qed.

(** TCP flow accounting is exact as long as operations do not overlap.  In
    every state the tracker can reach by operations one after the other,
    whatever packets, evictions and cleanups occurred, no flow is reported as
    ended twice, none is reported as ended without having been reported as
    started, and the flows started but not yet ended are exactly those of the
    table's entries that are neither tombstoned nor in TIME-WAIT. *)
Theorem tcp_flow_accounting (ops : list tcp_op) (t : TCPTracker) :
  tcp_reach ops t -> isNil t = false ->
  NoDup (started (flowLog t)) /\ NoDup (ended (flowLog t)) /\
  (forall f, f ∈ ended (flowLog t) -> f ∈ started (flowLog t)) /\
  (forall f, f ∈ started (flowLog t) /\ f ∉ ended (flowLog t) <->
     exists k c, connections t !! k = Some c /\ FlowId (base c) = f /\
       tombstone c = false /\ state c ≠ TCPStateTimeWait).
Proof.
  intros Hr Hnil. assert (Hft : ft_reach t) by (split; [done|by exists ops]).
  destruct (flow_end_once t Hft) as (H1 & H2 & H3 & H4). simpl in *.
  split_and!; [by apply (inv_fresh _ _ (tcp_reach_inv _ _ Hr))|done..|].
  assert (Hp : forall f, f ∈ pending conn_fid conn_active (connections t) <->
    exists k c, connections t !! k = Some c /\ FlowId (base c) = f /\
       tombstone c = false /\ state c ≠ TCPStateTimeWait).
  { intros f. rewrite elem_of_pending. unfold conn_active, conn_fid.
    split; intros (k & c & Hk & Ha & Hb); exists k, c; split_and!; try done.
    - by destruct (tombstone c).
    - destruct (tombstone c); [done|]. by case_bool_decide.
    - destruct Hb as [-> Hb]. by rewrite bool_decide_eq_false_2. }
  intros f. rewrite <- Hp. split; [intros [??]; auto|].
  intros Hf. split; [|by apply H4].
  pose proof (ft_balanced t Hft) as Hb. simpl in Hb. rewrite Hb. set_solver.
Qed.

(** C33: the firewall admits no unsolicited inbound TCP traffic.  Whatever
    happened before, an inbound packet passes [IsValidInbound] only if an
    earlier packet of the opposite direction with a SYN in a legal flag
    combination opened that connection, and the entry is not tombstoned. *)
Theorem tcp_no_unsolicited_inbound (ops : list tcp_op) (t t' : TCPTracker)
    (now : Z) (src dst : Addr) (sp dp flags sz : Z) :
  tcp_reach ops t ->
  IsValidInbound now src dst sp dp flags sz t = (t', true) ->
  isValidFlagCombination flags = true /\
  (exists op, op ∈ ops /\ op_opens op = Some (mkKey dst src dp sp)) /\
  (exists c, connections t !! mkKey dst src dp sp = Some c /\
     SourceIP (base c) = dst /\ DestIP (base c) = src /\
     state c ≠ TCPStateClosed /\ isValidStateForFlags (state c) flags = true).
Proof.
  intros Hr%tcp_reach_inv. unfold IsValidInbound.
  destruct (connections t !! mkKey dst src dp sp) as [c|] eqn:Hk; [|done].
  destruct (IsSupersededBy c flags) eqn:Hs; [done|].
  destruct (isValidFlagCombination flags); [|done].
  destruct (isValidStateForFlags (GetState c) flags) eqn:Hv; [|done]. intros _.
  destruct (inv_conn _ _ Hr _ _ Hk) as (Hwf & Hat & Hop).
  split; [done|]. split; [done|]. exists c. unfold conn_at in Hat. simplify_eq.
  split_and!; try done. intros Hc. apply Hwf in Hc.
  apply not_superseded_alive in Hs. congruence.
Qed.

(** the connection table never exceeds the configured maximum: at
    capacity every insertion evicts an entry first. *)
Theorem tcp_table_bounded (ops : list tcp_op) (t : TCPTracker) :
  tcp_reach ops t -> (0 < maxEntries t)%Z ->
  (Z.of_nat (size (connections t)) <= maxEntries t)%Z.
Proof. intros Hr. apply (inv_capacity _ _ (tcp_reach_inv _ _ Hr)). Qed.

(** connections only move forward.  Whatever packet a live connection
    receives, it keeps its identity (flow id, endpoints, direction), its state
    is unchanged or strictly further in the life cycle (whose ranks are 0 to 7,
    so it changes at most seven times), and it is tombstoned exactly when it becomes CLOSED. *)
Theorem tcp_connection_progress (now : Z) (c c' : TCPConnTrack) (flags : Z)
    (dir : Direction) (sz : Z) (evs : list EventFields) :
  tombstone c = false -> state c ≠ TCPStateClosed ->
  updateState now c flags dir sz = (c', evs) ->
  same_conn c c' /\
  (state c' = state c \/ state_rank (state c) < state_rank (state c')) /\
  (tombstone c' = true <-> state c' = TCPStateClosed).
Proof.
  intros Ht Hnc Hu.
  assert (Hwf : conn_wf c) by (unfold conn_wf; rewrite Ht; split; done).
  destruct (updateState_spec _ _ _ _ _ _ _ Ht Hwf Hu) as (Hs & Hwf' & _ & _ & Hst).
  by split_and!.
Qed.

(** the cleanup removes exactly what it should.  After a cleanup at time
    [now], in whatever order the table is visited, an entry is present iff it
    was present before, is not tombstoned and was seen within the timeout of
    its state; the entries that stay are unchanged. *)
Theorem tcp_cleanup_exact (ops : list tcp_op) (t : TCPTracker) (now : Z)
    (order : list (ConnKey * TCPConnTrack)) :
  tcp_reach ops t -> order ≡ₚ map_to_list (connections t) ->
  forall k c, connections (cleanup now order t) !! k = Some c <->
    connections t !! k = Some c /\ tombstone c = false /\
    (time_since now (lastSeen (base c)) <= stateTimeout t (state c))%Z.
Proof.
  intros Hr Hord k c.
  destruct (cleanup_spec _ now order t (tcp_reach_inv _ _ Hr) Hord) as (_ & _ & ->).
  unfold survives, timeoutExceeded, IsTombstone, GetState.
  destruct (connections t !! k) as [c0|]; simpl;
    [|split; [done|by intros [? _]]].
  destruct (tombstone c0) eqn:Ht; simpl;
    [split; [done|intros ([= ->] & ? & _); congruence]|].
  case_bool_decide as Hto; simpl; split.
  - done.
  - intros ([= ->] & _ & ?). lia.
  - intros [= ->]. split_and!; [done..|lia].
  - by intros (? & _).
Qed.

(** forged segments are inert.  A segment with an illegal flag
    combination neither changes the state nor refreshes the timestamp of a
    connection nor passes the inbound check, and a RST that the handshake or
    TIME-WAIT cannot have caused (from the SYN's own direction in SYN-SENT, or
    in TIME-WAIT) leaves the connection as it is; in neither case is an event
    emitted. *)
Theorem tcp_forged_segments_inert (now : Z) (c c' : TCPConnTrack) (flags : Z)
    (dir : Direction) (sz : Z) (evs : list EventFields) (t : TCPTracker)
    (src dst : Addr) (sp dp : Z) :
  updateState now c flags dir sz = (c', evs) ->
  (isValidFlagCombination flags = false ->
     state c' = state c /\ tombstone c' = tombstone c /\
     lastSeen (base c') = lastSeen (base c) /\ evs = [] /\
     IsValidInbound now src dst sp dp flags sz t = (t, false)) /\
  (has flags TCPRst = true ->
     state c = TCPStateTimeWait \/
     (state c = TCPStateSynSent /\ dir = BDirection (base c)) ->
     state c' = state c /\ tombstone c' = tombstone c /\ evs = []).
Proof.
  intros Hu. split.
  - intros Hv. unfold updateState in Hu. rewrite Hv in Hu. simpl in Hu. simplify_eq.
    split_and!; try done.
    + unfold with_base, UpdateCounters. simpl. by case_decide.
    + unfold IsValidInbound. rewrite Hv. simpl. by repeat case_match.
  - intros Hrst Hst. unfold updateState in Hu. rewrite Hrst in Hu.
    destruct (isValidFlagCombination flags); simpl in Hu; [|by simplify_eq].
    unfold handleRst, GetState in Hu. simpl in Hu.
    assert (Hkeep : forall b, (with_base (UpdateLastSeen now)
      (with_base (UpdateCounters dir sz) c), b) = (c', evs) -> b = [] ->
      state c' = state c /\ tombstone c' = tombstone c /\ evs = [])
      by (by intros b [= <- <-] ->).
    case_decide as H1; [by eapply Hkeep|].
    rewrite decide_True in Hu; [by eapply Hkeep|].
    destruct Hst as [?|[? Hd]]; [done|]. split; [done|].
    rewrite Hd at 1. symmetry. exact (proj1 (proj2 (with_base_counters dir sz c))).
Qed.

(** ** A complete session *)

(** The tracker holds exactly the flow [u] under [k], in state [s]. *)
Definition holds (t : TCPTracker) (k : ConnKey) (u : UUID) (s : TCPState) : Prop :=
  exists c, connections t = {[k := c]} /\ state c = s /\ tombstone c = false /\
    BDirection (base c) = Egress /\ FlowId (base c) = u.

(** The effect of a legal non-RST segment that moves the connection on
    without ending it. *)
Lemma update_holds now k u s s' flags dir sz t c :
  connections t = {[k := c]} -> state c = s -> tombstone c = false ->
  BDirection (base c) = Egress -> FlowId (base c) = u ->
  isValidFlagCombination flags = true -> has flags TCPRst = false ->
  nextState s Egress dir flags = s' ->
  s' ≠ TCPStateNew -> s' ≠ TCPStateTimeWait -> s' ≠ TCPStateClosed ->
  holds (update_tracked now k c flags dir sz t) k u s' /\
  flowLog (update_tracked now k c flags dir sz t) = flowLog t /\
  isNil (update_tracked now k c flags dir sz t) = isNil t.
Proof.
  intros Hm Hs Ht Hd Hu Hv Hr Hn H1 H2 H3.
  unfold update_tracked, updateState. rewrite Hv, Hr. simpl negb. cbv iota zeta.
  set (c2 := with_base (UpdateLastSeen now) (with_base (UpdateCounters dir sz) c)).
  assert (BDirection (base c2) = Egress) as Hd2
    by (rewrite <- Hd; exact (proj1 (proj2 (with_base_counters dir sz c)))).
  assert (FlowId (base c2) = u) as Hu2
    by (rewrite <- Hu; exact (proj1 (with_base_counters dir sz c))).
  change (GetState c2) with (state c). rewrite Hd2, Hs, Hn, decide_False by done.
  unfold CompareAndSwapState. change (state c2) with (state c).
  rewrite decide_True by done.
  assert (onTransition (SetState s' c2) s' = (SetState s' c2, [])) as ->
    by (by destruct s').
  simpl. split_and!; [|by rewrite app_nil_r|done].
  exists (SetState s' c2). rewrite Hm, insert_singleton_eq. by split_and!.
Qed.

Lemma inbound_step now k u s s' flags sz t :
  holds t k u s -> s ≠ TCPStateTimeWait ->
  isValidFlagCombination flags = true -> has flags TCPRst = false ->
  isValidStateForFlags s flags = true -> nextState s Egress Ingress flags = s' ->
  s' ≠ TCPStateNew -> s' ≠ TCPStateTimeWait -> s' ≠ TCPStateClosed ->
  exists t', IsValidInbound now (DstIP k) (SrcIP k) (DstPort k) (SrcPort k) flags sz t
    = (t', true) /\ holds t' k u s' /\ flowLog t' = flowLog t /\ isNil t' = isNil t.
Proof.
  intros (c & Hm & Hs & Ht & Hd & Hu) Hntw Hv Hr Hok Hn H1 H2 H3.
  unfold IsValidInbound. replace (mkKey _ _ _ _) with k by (by destruct k).
  rewrite Hm, lookup_singleton_eq. unfold IsSupersededBy, GetState. rewrite Ht, Hs.
  rewrite (bool_decide_eq_false_2 (s = _)), andb_false_r by done.
  rewrite Hv, Hok. simpl negb. cbv iota.
  eexists. split; [done|]. by eapply update_holds.
Qed.

Lemma outbound_step now uuid order k u s s' flags sz t :
  holds t k u s -> reverse_key k ≠ k -> s ≠ TCPStateTimeWait ->
  isValidFlagCombination flags = true -> has flags TCPRst = false ->
  nextState s Egress Egress flags = s' ->
  s' ≠ TCPStateNew -> s' ≠ TCPStateTimeWait -> s' ≠ TCPStateClosed ->
  exists t', TrackOutbound now uuid order (SrcIP k) (DstIP k) (SrcPort k) (DstPort k)
      flags sz t = Some (t', 0%Z) /\
    holds t' k u s' /\ flowLog t' = flowLog t /\ isNil t' = isNil t.
Proof.
  intros (c & Hm & Hs & Ht & Hd & Hu) Hrev Hntw Hv Hr Hn H1 H2 H3.
  unfold TrackOutbound, updateIfExists. fold (reverse_key k).
  rewrite Hm, lookup_singleton_ne by done.
  unfold track, updateIfExists. replace (mkKey _ _ _ _) with k by (by destruct k).
  rewrite Hm, lookup_singleton_eq. unfold IsSupersededBy. rewrite Ht, Hs.
  rewrite (bool_decide_eq_false_2 (s = _)), andb_false_r by done. simpl negb. cbv iota.
  eexists. split; [done|]. by eapply update_holds.
Qed.

Lemma first_syn now uuid src dst sp dp orig sz :
  state (updateState now (fresh_conn uuid Egress src dst sp dp orig) TCPSyn Egress sz).1
  = TCPStateSynSent.
Proof. reflexivity. Qed.

Lemma open_step now uuid k sz tmo fw cw la mx :
  exists t, TrackOutbound now uuid [] (SrcIP k) (DstIP k) (SrcPort k) (DstPort k)
      TCPSyn sz (NewTCPTracker tmo fw cw la mx) = Some (t, 0%Z) /\
    holds t k uuid TCPStateSynSent /\ isNil t = false /\
    started (flowLog t) = [uuid] /\ ended (flowLog t) = [].
Proof.
  unfold TrackOutbound, updateIfExists.
  cbn [connections NewTCPTracker]. rewrite lookup_empty.
  unfold track, updateIfExists. cbn [connections NewTCPTracker].
  rewrite lookup_empty. change (has TCPSyn TCPSyn) with true.
  change (isValidFlagCombination TCPSyn) with true. cbn [negb orb].
  replace (mkKey (SrcIP k) (DstIP k) (SrcPort k) (DstPort k)) with k by (by destruct k).
  fold (fresh_conn uuid Egress (SrcIP k) (DstIP k) (SrcPort k) (DstPort k) 0).
  destruct (fresh_update now uuid Egress (SrcIP k) (DstIP k) (SrcPort k) (DstPort k)
    TCPSyn 0 sz) as (c & Hupd & Hsame & Hwf & _); [done|].
  pose proof (first_syn now uuid (SrcIP k) (DstIP k) (SrcPort k) (DstPort k) 0 sz) as Hst.
  rewrite Hupd in *. cbn [fst] in Hst. cbn [maxEntries store_events NewTCPTracker connections].
  rewrite map_size_empty.
  assert (bool_decide (0 < mx)%Z && bool_decide (mx <= Z.of_nat 0)%Z = false) as ->.
  { do 2 case_bool_decide; done || lia. }
  cbn. eexists. split; [done|].
  destruct Hsame as (Hf & Hd & _). split_and!; [|done|simpl; by rewrite Hf|done].
  exists c. cbn. rewrite insert_empty. split_and!; try done.
  destruct (tombstone c) eqn:E; [|done]. apply Hwf in E. congruence.
Qed.

(** The last segment of a session: the peer's ACK of our FIN. *)
Lemma close_step now k u sz t :
  holds t k u TCPStateLastAck ->
  exists t', IsValidInbound now (DstIP k) (SrcIP k) (DstPort k) (SrcPort k) TCPAck sz t
    = (t', true) /\ ended (flowLog t') = ended (flowLog t) ++ [u] /\
    started (flowLog t') = started (flowLog t) /\
    forall now' flags sz',
      IsValidInbound now' (DstIP k) (SrcIP k) (DstPort k) (SrcPort k) flags sz' t'
      = (t', false).
Proof.
  intros (c & Hm & Hs & Ht & Hd & Hu).
  assert (Hst : state (updateState now c TCPAck Ingress sz).1 = TCPStateClosed).
  { unfold updateState, nextState, GetState, stateTable, CompareAndSwapState.
    cbn -[UpdateCounters UpdateLastSeen]. rewrite Hs. cbn -[UpdateCounters UpdateLastSeen].
    rewrite bool_decide_eq_false_2; [done|].
    pose proof (proj1 (proj2 (with_base_counters Ingress sz c))) as Hdir.
    change (Ingress ≠ BDirection (base (with_base (UpdateCounters Ingress sz) c))).
    by rewrite Hdir, Hd. }
  assert (Hwf : conn_wf c) by (unfold conn_wf; rewrite Ht, Hs; done).
  destruct (updateState now c TCPAck Ingress sz) as [c' evs] eqn:Hupd.
  destruct (updateState_spec _ _ _ _ _ _ _ Ht Hwf Hupd) as (Hsm & Hwf' & He & Hc & _).
  cbn [fst] in Hst. assert (Ht' : tombstone c' = true) by (by apply Hwf').
  unfold contrib, conn_active, conn_fid in Hc. rewrite Ht, Ht', Hs, Hu, app_nil_r in Hc.
  exists (update_tracked now k c TCPAck Ingress sz t). split_and!.
  - unfold IsValidInbound. replace (mkKey _ _ _ _) with k by (by destruct k).
    rewrite Hm, lookup_singleton_eq. unfold IsSupersededBy, GetState. by rewrite Ht, Hs.
  - unfold update_tracked. rewrite Hupd. simpl. by rewrite ended_app, <- Hc.
  - unfold update_tracked. rewrite Hupd. simpl. by rewrite started_app, He, app_nil_r.
  - intros now' flags sz'. unfold IsValidInbound.
    replace (mkKey _ _ _ _) with k by (by destruct k).
    unfold update_tracked. rewrite Hupd. cbn [connections store_events with_connections].
    rewrite lookup_insert_eq. unfold IsSupersededBy. by rewrite Ht'.
Qed.

(** legitimate sessions are admitted end to end.  From a fresh tracker, an
    outbound connection on any four-tuple whose two endpoints differ goes
    through the handshake and a close by the peer: our SYN, the SYN+ACK, our
    ACK-carrying FIN answering the peer's FIN+ACK, and the last ACK are all
    admitted, exactly one start and one end of the flow are reported, and
    afterwards every inbound packet of the four-tuple is refused. *)
Theorem tcp_session_admitted (k : ConnKey) (u : UUID) (tmo fw cw la mx : Z)
    (now sz : Z) (order : list (ConnKey * TCPConnTrack)) :
  reverse_key k ≠ k ->
  let inbound f t :=
    IsValidInbound now (DstIP k) (SrcIP k) (DstPort k) (SrcPort k) f sz t in
  let outbound u f t :=
    TrackOutbound now u order (SrcIP k) (DstIP k) (SrcPort k) (DstPort k) f sz t in
  exists t1 t2 t3 t4 t5,
    TrackOutbound now u [] (SrcIP k) (DstIP k) (SrcPort k) (DstPort k) TCPSyn sz
      (NewTCPTracker tmo fw cw la mx) = Some (t1, 0%Z) /\
    inbound (Z.lor TCPSyn TCPAck) t1 = (t2, true) /\
    inbound (Z.lor TCPFin TCPAck) t2 = (t3, true) /\
    outbound u (Z.lor TCPFin TCPAck) t3 = Some (t4, 0%Z) /\
    inbound TCPAck t4 = (t5, true) /\
    started (flowLog t5) = [u] /\ ended (flowLog t5) = [u] /\
    forall f, inbound f t5 = (t5, false).
Proof.
  intros Hrev inbound outbound.
  destruct (open_step now u k sz tmo fw cw la mx) as (t1 & E1 & H1 & N1 & S1 & D1).
  destruct (inbound_step now k u _ TCPStateEstablished (Z.lor TCPSyn TCPAck) sz t1 H1)
    as (t2 & E2 & H2 & L2 & N2); try done.
  destruct (inbound_step now k u _ TCPStateCloseWait (Z.lor TCPFin TCPAck) sz t2 H2)
    as (t3 & E3 & H3 & L3 & N3); try done.
  destruct (outbound_step now u order k u _ TCPStateLastAck (Z.lor TCPFin TCPAck) sz t3 H3)
    as (t4 & E4 & H4 & L4 & N4); try done.
  destruct (close_step now k u sz t4 H4) as (t5 & E5 & En5 & St5 & Hrej).
  exists t1, t2, t3, t4, t5.
  rewrite En5, St5, L4, L3, L2, S1, D1. split_and!; try done.
  intros f. apply Hrej.
Qed.

(** ** Witnesses *)
Definition wit_t0 : TCPTracker := NewTCPTracker 0 FinWaitTimeout CloseWaitTimeout LastAckTimeout 2.
Definition wit_op : tcp_op :=
  OpTrackOutbound 5 7%Z [] (Addr4 1) (Addr4 2) 1000 80 TCPSyn 60.
Definition wit_t1 : TCPTracker := default wit_t0 (run_op wit_t0 wit_op).

Lemma wit_reach : tcp_reach [wit_op] wit_t1.
Proof.
  apply (tcp_reach_step [] wit_t0).
  - apply tcp_reach_new.
  - split; [done|]. apply not_elem_of_nil.
  - vm_compute. reflexivity.
Qed.

Lemma tcp_flow_accounting_witness :
  isNil wit_t1 = false /\ NoDup (ended (flowLog wit_t1)).
Proof.
  split; [vm_compute; reflexivity|].
  apply (tcp_flow_accounting [wit_op] wit_t1 wit_reach). vm_compute. reflexivity.
Defined.

(** ** Findings *)

(** A reset that was looked up before another operation ended the flow
    reports the end again: after a cleanup took the entry out of the table,
    because the state of the connection is as before; and after another reset,
    because the swap from Closed to Closed succeeds. *)
Theorem overlapping_reset_ends_twice : exists k c,
  let rst := Z.lor TCPRst TCPAck in
  let late := (5 + 2 * TCPHandshakeTimeout)%Z in
  connections wit_t1 !! k = Some c /\ IsSupersededBy c rst = false /\
  ended (flowLog (cleanup late (map_to_list (connections wit_t1)) wit_t1)) = [conn_fid c] /\
  ended (updateState late c rst Ingress 60).2 = [conn_fid c] /\
  ended (updateState late (updateState late c rst Ingress 60).1 rst Ingress 60).2 = [conn_fid c].
Proof.
  exists (mkKey (Addr4 1) (Addr4 2) 1000 80).
  destruct (connections wit_t1 !! mkKey (Addr4 1) (Addr4 2) 1000 80) as [c|] eqn:Hc; [|by vm_compute in Hc].
  exists c. cbv zeta. vm_compute in Hc. injection Hc as <-. split_and!; vm_compute; reflexivity.
Qed.

Lemma tcp_no_unsolicited_inbound_witness :
  exists op, op ∈ [wit_op] /\ op_opens op = Some (mkKey (Addr4 1) (Addr4 2) 1000 80).
Proof.
  refine (proj1 (proj2 (tcp_no_unsolicited_inbound [wit_op] wit_t1
    (IsValidInbound 6 (Addr4 2) (Addr4 1) 80 1000 18 60 wit_t1).1
    6 (Addr4 2) (Addr4 1) 80 1000 18 60 wit_reach _))).
  vm_compute. reflexivity.
Defined.

Lemma tcp_table_bounded_witness :
  (Z.of_nat (size (connections wit_t1)) <= maxEntries wit_t1)%Z.
Proof. apply (tcp_table_bounded [wit_op] wit_t1 wit_reach). vm_compute. reflexivity. Defined.

Lemma tcp_connection_progress_witness :
  exists c' evs,
    updateState 9 (fresh_conn 7%Z Egress (Addr4 1) (Addr4 2) 1000 80 0) TCPSyn Egress 60
      = (c', evs) /\
    same_conn (fresh_conn 7%Z Egress (Addr4 1) (Addr4 2) 1000 80 0) c'.
Proof.
  eexists _, _. split; [reflexivity|].
  eapply (tcp_connection_progress 9 _ _ TCPSyn Egress 60); [reflexivity| |reflexivity].
  discriminate.
Defined.

Lemma tcp_cleanup_exact_witness :
  size (connections wit_t1) = 1 /\
  map_Forall (fun k c =>
    connections (cleanup 8 (map_to_list (connections wit_t1)) wit_t1) !! k = Some c)
    (connections wit_t1).
Proof.
  split; [vm_compute; reflexivity|]. intros k c Hk.
  apply (tcp_cleanup_exact [wit_op] wit_t1 8 _ wit_reach); [reflexivity|].
  split; [done|].
  assert (Hall : map_Forall (fun _ c => tombstone c = false /\
    (time_since 8 (lastSeen (base c)) <= stateTimeout wit_t1 (state c))%Z) (connections wit_t1))
    by by_decide.
  exact (Hall k c Hk).
Defined.

Lemma tcp_forged_segments_inert_witness :
  isValidFlagCombination (Z.lor TCPSyn TCPFin) = false /\
  IsValidInbound 9 (Addr4 2) (Addr4 1) 80 1000 (Z.lor TCPSyn TCPFin) 60 wit_t1
    = (wit_t1, false).
Proof.
  split; [reflexivity|].
  refine (proj2 (proj2 (proj2 (proj2 (proj1 (tcp_forged_segments_inert 9
    (fresh_conn 7%Z Egress (Addr4 1) (Addr4 2) 1000 80 0) _ (Z.lor TCPSyn TCPFin) Egress 60
    _ wit_t1 (Addr4 2) (Addr4 1) 80 1000 eq_refl) eq_refl))))).
Defined.

Lemma tcp_session_admitted_witness :
  exists t1, TrackOutbound 5 7%Z [] (Addr4 1) (Addr4 2) 1000 80 TCPSyn 60 wit_t0 = Some (t1, 0%Z).
Proof.
  destruct (tcp_session_admitted (mkKey (Addr4 1) (Addr4 2) 1000 80) 7%Z 0
    FinWaitTimeout CloseWaitTimeout LastAckTimeout 2 5 60 []) as (t1 & _ & _ & _ & _ & E & _).
  - discriminate.
  - exists t1. exact E.
Defined.
