(* ===== verification/ConntrackUDP.v ===== *)
(** * UDP connection tracking
      (client/firewall/uspfilter/conntrack/udp.go)

    UDP flows have no states: an entry is created by the first packet, kept
    alive by traffic in either direction, and removed by the cleanup or by an
    eviction, which both report its end. *)

From Stdlib Require Import ZArith Lia.
From stdpp Require Import base gmap strings numbers countable sorting list.
From S2P Require Import Prelude Netip ConntrackCommon.

Definition DefaultUDPTimeout : Z := 30 * 10 ^ 9.
Definition DefaultMaxUDPEntries : Z := 16384.

Record UDPConnTrack : Type := mkUDPConn {
  ubase : BaseConnTrack;
  USourcePort : Z;
  UDestPort : Z
}.

Definition uwith_base (f : BaseConnTrack -> BaseConnTrack) (c : UDPConnTrack) : UDPConnTrack :=
  mkUDPConn (f (ubase c)) (USourcePort c) (UDestPort c).

(** [uisNil] is set by [Close], which assigns a nil map. *)
Record UDPTracker : Type := mkUDPTracker {
  uconnections : gmap ConnKey UDPConnTrack;
  uisNil : bool;
  utimeout : Z;
  umaxEntries : Z;
  uflowLog : list EventFields
}.

Definition uset (m : gmap ConnKey UDPConnTrack) (evs : list EventFields) (t : UDPTracker)
    : UDPTracker :=
  mkUDPTracker m (uisNil t) (utimeout t) (umaxEntries t) (uflowLog t ++ evs).

(** [max] is what [envInt] returns. *)
Definition NewUDPTracker (timeout max : Z) : UDPTracker :=
  let timeout := if decide (timeout = 0)%Z then DefaultUDPTimeout else timeout in
  mkUDPTracker ∅ false timeout max [].

Definition usendEvent (typ : EventType) (c : UDPConnTrack) (ruleID : list Z) : EventFields :=
  mkEvent (FlowId (ubase c)) typ ruleID (BDirection (ubase c)) UDP
    (SourceIP (ubase c)) (DestIP (ubase c)) (USourcePort c) (UDestPort c) 0 0
    (PacketsRx (ubase c)) (PacketsTx (ubase c)) (BytesRx (ubase c)) (BytesTx (ubase c)).

(** A packet of a tracked flow: timestamp, then counters, in place. *)
Definition utouch (now : Z) (dir : Direction) (size_ : Z) (c : UDPConnTrack) : UDPConnTrack :=
  uwith_base (UpdateCounters dir size_) (uwith_base (UpdateLastSeen now) c).

Definition uupdateIfExists (now : Z) (srcIP dstIP : Addr) (srcPort dstPort : Z)
    (direction : Direction) (size_ : Z) (t : UDPTracker)
    : UDPTracker * (ConnKey * Z * bool) :=
  let key := mkKey srcIP dstIP srcPort dstPort in
  match uconnections t !! key with
  | Some conn =>
      let conn := utouch now direction size_ conn in
      (uset (<[key := conn]> (uconnections t)) [] t,
       (key, u16 (DNATOrigPort (ubase conn)), true))
  | None => (t, (key, 0%Z, false))
  end.

Definition uevictOneLocked (order : list (ConnKey * UDPConnTrack)) (t : UDPTracker)
    : UDPTracker :=
  match evict_scan (fun _ => false) (fun c => lastSeen (ubase c)) order None 0 with
  | ScanOldest k =>
      let evs := match uconnections t !! k with
                 | Some evicted => [usendEvent TypeEnd evicted []]
                 | None => []
                 end in
      uset (delete k (uconnections t)) evs t
  | ScanTombstone _ | ScanNothing => t
  end.

(** [None] is the panic of an assignment to the nil map left by [Close]. *)
Definition utrack (now : Z) (uuid : UUID) (order : list (ConnKey * UDPConnTrack))
    (srcIP dstIP : Addr) (srcPort dstPort : Z) (direction : Direction)
    (ruleID : list Z) (size_ origPort : Z) (t : UDPTracker) : option UDPTracker :=
  let '(t, (key, _, exists_)) :=
    uupdateIfExists now srcIP dstIP srcPort dstPort direction size_ t in
  if exists_ then Some t
  else
    let conn := mkUDPConn
      (mkBase uuid direction srcIP dstIP 0 0 0 0 0 (u32 origPort)) srcPort dstPort in
    let conn := utouch now direction size_ conn in
    let t := if bool_decide (0 < umaxEntries t)%Z &&
                bool_decide (umaxEntries t <= Z.of_nat (size (uconnections t)))%Z
             then uevictOneLocked order t else t in
    if uisNil t then None
    else Some (uset (<[key := conn]> (uconnections t)) [usendEvent TypeStart conn ruleID] t).

Definition UTrackOutbound (now : Z) (uuid : UUID) (order : list (ConnKey * UDPConnTrack))
    (srcIP dstIP : Addr) (srcPort dstPort size_ : Z) (t : UDPTracker)
    : option (UDPTracker * Z) :=
  let '(t, (_, origPort, exists_)) :=
    uupdateIfExists now dstIP srcIP dstPort srcPort Egress size_ t in
  if exists_ then Some (t, origPort)
  else
    t ← utrack now uuid order srcIP dstIP srcPort dstPort Egress [] size_ 0 t;
    Some (t, 0%Z).

Definition UTrackInbound (now : Z) (uuid : UUID) (order : list (ConnKey * UDPConnTrack))
    (srcIP dstIP : Addr) (srcPort dstPort : Z) (ruleID : list Z)
    (size_ dnatOrigPort : Z) (t : UDPTracker) : option UDPTracker :=
  utrack now uuid order srcIP dstIP srcPort dstPort Ingress ruleID size_ dnatOrigPort t.

Definition UIsValidInbound (now : Z) (srcIP dstIP : Addr) (srcPort dstPort size_ : Z)
    (t : UDPTracker) : UDPTracker * bool :=
  let key := mkKey dstIP srcIP dstPort srcPort in
  match uconnections t !! key with
  | None => (t, false)
  | Some conn =>
      if timeoutExceeded now (utimeout t) (ubase conn) then (t, false)
      else (uset (<[key := utouch now Ingress size_ conn]> (uconnections t)) [] t, true)
  end.

(** The body of the cleanup loop. *)
Definition ucleanup_entry (now : Z) (t : UDPTracker) (e : ConnKey * UDPConnTrack)
    : UDPTracker :=
  let '(key, conn) := e in
  if timeoutExceeded now (utimeout t) (ubase conn)
  then uset (delete key (uconnections t)) [usendEvent TypeEnd conn []] t
  else t.

Definition ucleanup (now : Z) (order : list (ConnKey * UDPConnTrack)) (t : UDPTracker)
    : UDPTracker :=
  foldl (ucleanup_entry now) t order.

Definition UGetConnection (srcIP : Addr) (srcPort : Z) (dstIP : Addr) (dstPort : Z)
    (t : UDPTracker) : option UDPConnTrack :=
  uconnections t !! mkKey srcIP dstIP srcPort dstPort.

Definition UTimeout (t : UDPTracker) : Z := utimeout t.

Definition UClose (t : UDPTracker) : UDPTracker :=
  mkUDPTracker ∅ true (utimeout t) (umaxEntries t) (uflowLog t).

(** ** The invariant *)
Definition ufid (c : UDPConnTrack) : UUID := FlowId (ubase c).
Definition uactive (_ : UDPConnTrack) : bool := true.

Definition uconn_at (k : ConnKey) (c : UDPConnTrack) : Prop :=
  k = mkKey (SourceIP (ubase c)) (DestIP (ubase c)) (USourcePort c) (UDestPort c).

Record udp_inv (opened : ConnKey -> Prop) (t : UDPTracker) : Prop := {
  uinv_conn : forall k c, uconnections t !! k = Some c -> uconn_at k c /\ opened k;
  uinv_nil : uisNil t = true -> uconnections t = ∅;
  uinv_balanced : uisNil t = false ->
    balanced ufid uactive (uflowLog t) (uconnections t);
  uinv_fresh : NoDup (started (uflowLog t));
  uinv_capacity : (0 < umaxEntries t)%Z ->
    (Z.of_nat (size (uconnections t)) <= umaxEntries t)%Z
}.

Lemma udp_inv_mono (P Q : ConnKey -> Prop) t :
  (forall k, P k -> Q k) -> udp_inv P t -> udp_inv Q t.
Proof.
  intros HPQ [H1 H2 H3 H4 H5]. split; [|done..].
  intros k c Hk. destruct (H1 k c Hk). auto.
Qed.

Lemma NewUDPTracker_inv opened a b : udp_inv opened (NewUDPTracker a b).
Proof.
  split; try done.
  - intros _. unfold balanced. cbn [uconnections uflowLog NewUDPTracker].
    by rewrite pending_empty.
  - constructor.
  - intros. cbn [uconnections umaxEntries NewUDPTracker] in *. rewrite map_size_empty. lia.
Qed.

Lemma utouch_same now dir sz c :
  ufid (utouch now dir sz c) = ufid c /\ (forall k, uconn_at k (utouch now dir sz c) <-> uconn_at k c).
Proof. unfold utouch, uwith_base, UpdateCounters, ufid, uconn_at. by case_decide. Qed.

Lemma utouch_inv opened now dir sz t k c :
  udp_inv opened t -> uconnections t !! k = Some c ->
  udp_inv opened (uset (<[k := utouch now dir sz c]> (uconnections t)) [] t).
Proof.
  intros Hinv Hk. destruct (utouch_same now dir sz c) as [Hf Hat].
  split; simpl.
  - intros k' c' [[<- <-]|[_ Hk']]%lookup_insert_Some; [|by apply (uinv_conn _ _ Hinv)].
    rewrite Hat. by apply (uinv_conn _ _ Hinv).
  - intros Hnil. apply (uinv_nil _ _ Hinv) in Hnil. by rewrite Hnil in Hk.
  - intros Hnil. rewrite app_nil_r. unfold balanced.
    rewrite (uinv_balanced _ _ Hinv Hnil). f_equiv.
    pose proof (pending_replace ufid uactive (uconnections t) k c (utouch now dir sz c) Hk) as Hp.
    unfold contrib, uactive in Hp. rewrite Hf in Hp. simpl in Hp.
    by apply Permutation_cons_inv in Hp.
  - rewrite app_nil_r. apply (uinv_fresh _ _ Hinv).
  - intros Hm. rewrite map_size_insert_Some by (by eexists).
    by apply (uinv_capacity _ _ Hinv).
Qed.

Lemma uremove_inv opened t k c :
  udp_inv opened t -> uconnections t !! k = Some c ->
  udp_inv opened (uset (delete k (uconnections t)) [usendEvent TypeEnd c []] t).
Proof.
  intros Hinv Hk. split; simpl.
  - intros k' c' [_ Hk']%lookup_delete_Some. by apply (uinv_conn _ _ Hinv).
  - intros Hnil. apply (uinv_nil _ _ Hinv) in Hnil. by rewrite Hnil in Hk.
  - intros Hnil. unfold balanced. rewrite started_app, ended_app. simpl.
    rewrite app_nil_r, (uinv_balanced _ _ Hinv Hnil).
    rewrite (pending_delete ufid uactive _ k c Hk). by rewrite <- app_assoc.
  - rewrite started_app. simpl. rewrite app_nil_r. apply (uinv_fresh _ _ Hinv).
  - intros Hm. pose proof (uinv_capacity _ _ Hinv Hm).
    rewrite map_size_delete_Some by (by eexists). lia.
Qed.

Lemma uupdate_cases now src dst sp dp dir sz t t' r :
  uupdateIfExists now src dst sp dp dir sz t = (t', r) ->
  let k := mkKey src dst sp dp in
  (exists c, uconnections t !! k = Some c /\
     t' = uset (<[k := utouch now dir sz c]> (uconnections t)) [] t /\
     exists p, r = (k, p, true)) \/
  (t' = t /\ r = (k, 0%Z, false) /\ uconnections t !! k = None).
Proof.
  unfold uupdateIfExists. cbv zeta.
  destruct (uconnections t !! _) as [c|] eqn:Hk; intros [= <- <-]; eauto 10.
Qed.

Lemma uupdate_inv opened now src dst sp dp dir sz t t' r :
  udp_inv opened t -> uupdateIfExists now src dst sp dp dir sz t = (t', r) ->
  udp_inv opened t'.
Proof.
  intros Hinv [(c & Hk & -> & _)|(-> & _)]%uupdate_cases; [|done].
  by apply utouch_inv.
Qed.

Lemma uevict_spec opened order t :
  udp_inv opened t -> order ≡ₚ map_to_list (uconnections t) ->
  (0 < size (uconnections t)) ->
  exists k c, uconnections t !! k = Some c /\
    uevictOneLocked order t = uset (delete k (uconnections t)) [usendEvent TypeEnd c []] t.
Proof.
  intros Hinv Hord Hsz. unfold uevictOneLocked.
  pose proof (evict_scan_spec (fun _ : UDPConnTrack => false)
    (fun c => lastSeen (ubase c)) order None 0) as Hscan.
  destruct (evict_scan _ _ order None 0) as [k|k|].
  - by destruct Hscan as (c & _ & ?).
  - destruct Hscan as [[s ?]|(c & Hkc & _)]; [done|].
    rewrite Hord, elem_of_map_to_list in Hkc. exists k, c. by rewrite Hkc.
  - destruct Hscan as [_ ->]. apply Permutation_nil_l, eq_sym, map_to_list_empty_iff in Hord.
    rewrite Hord, map_size_empty in Hsz. lia.
Qed.

Lemma uinsert_inv (opened : ConnKey -> Prop) t k c rule :
  udp_inv opened t -> uisNil t = false -> uconnections t !! k = None ->
  uconn_at k c -> opened k -> ufid c ∉ started (uflowLog t) ->
  ((0 < umaxEntries t)%Z -> (Z.of_nat (size (uconnections t)) < umaxEntries t)%Z) ->
  udp_inv opened (uset (<[k := c]> (uconnections t)) [usendEvent TypeStart c rule] t).
Proof.
  intros Hinv Hnil Hk Hat Hop Hfr Hcap. split; simpl.
  - intros k' c' [[<- <-]|[_ Hk']]%lookup_insert_Some; [done|].
    by apply (uinv_conn _ _ Hinv).
  - congruence.
  - intros _. unfold balanced. rewrite started_app, ended_app. simpl. rewrite app_nil_r.
    rewrite (pending_insert ufid uactive) by done.
    rewrite (uinv_balanced _ _ Hinv Hnil). unfold contrib. simpl. solve_Permutation.
  - rewrite started_app. simpl. apply NoDup_app. split_and!.
    + apply (uinv_fresh _ _ Hinv).
    + intros g Hg Hg'. apply list_elem_of_singleton in Hg' as ->. done.
    + apply NoDup_singleton.
  - intros Hm. specialize (Hcap Hm). rewrite map_size_insert_None by done. lia.
Qed.

Lemma utrack_inv (opened : ConnKey -> Prop) now uuid order src dst sp dp dir rule sz orig t t' :
  udp_inv opened t -> order ≡ₚ map_to_list (uconnections t) ->
  uuid ∉ started (uflowLog t) -> opened (mkKey src dst sp dp) ->
  utrack now uuid order src dst sp dp dir rule sz orig t = Some t' ->
  udp_inv opened t'.
Proof.
  intros Hinv Hord Hfresh Hopen. unfold utrack.
  destruct (uupdateIfExists now src dst sp dp dir sz t) as [t1 [[k p] b]] eqn:Hu.
  pose proof (uupdate_inv _ _ _ _ _ _ _ _ _ _ _ Hinv Hu) as Hinv1.
  destruct b; [by intros [= <-]|].
  apply uupdate_cases in Hu as [(? & _ & _ & ? & ?)|(-> & Hr & Hk)]; [done|].
  assert (k = mkKey src dst sp dp) as -> by (by simplify_eq).
  cbv zeta. set (conn := utouch now dir sz _).
  assert (Hat : uconn_at (mkKey src dst sp dp) conn) by (by apply utouch_same).
  assert (Hf : ufid conn = uuid) by (by apply utouch_same). clearbody conn. subst uuid.
  destruct (bool_decide (0 < umaxEntries t)%Z && _) eqn:Hfull.
  - apply andb_true_iff in Hfull as [Hpos%bool_decide_eq_true Hle%bool_decide_eq_true].
    destruct (uevict_spec opened order t Hinv Hord) as (k' & c' & Hk' & ->); [lia|].
    pose proof (uremove_inv _ _ _ _ Hinv Hk') as Hrm. simpl.
    destruct (uisNil t) eqn:Hnil; [done|]. intros [= <-].
    apply (uinsert_inv _ _ _ _ _ Hrm); simpl; try done.
    + rewrite lookup_delete_None. auto.
    + by rewrite started_app, app_nil_r.
    + intros _. pose proof (uinv_capacity _ _ Hinv Hpos).
      rewrite map_size_delete_Some by (by eexists).
      assert (0 < size (uconnections t)) by lia. lia.
  - destruct (uisNil t) eqn:Hnil; [done|]. intros [= <-].
    apply (uinsert_inv _ _ _ _ _ Hinv); try done.
    intros Hpos. rewrite bool_decide_eq_true_2 in Hfull by done. simpl in Hfull.
    apply bool_decide_eq_false in Hfull. lia.
Qed.

(** ** Cleanup *)
Lemma ucleanup_fold opened now order : forall t,
  udp_inv opened t -> NoDup order.*1 ->
  (forall k c, (k, c) ∈ order -> uconnections t !! k = Some c) ->
  let t' := foldl (ucleanup_entry now) t order in
  udp_inv opened t' /\ utimeout t' = utimeout t /\
  forall k, uconnections t' !! k =
    (c ← uconnections t !! k;
     if decide (k ∈ order.*1)
     then if timeoutExceeded now (utimeout t) (ubase c) then None else Some c
     else Some c).
Proof.
  induction order as [|[k c] order IH]; intros t Hinv Hnd Hin;
    cbn [foldl fmap list_fmap fst].
  - split_and!; [done..|]. intros k. by destruct (uconnections t !! k).
  - apply NoDup_cons in Hnd as [Hnin Hnd].
    pose proof (Hin k c ltac:(set_solver)) as Hk.
    set (b := timeoutExceeded now (utimeout t) (ubase c)).
    set (t1 := ucleanup_entry now t (k, c)).
    assert (udp_inv opened t1 /\ utimeout t1 = utimeout t /\
      uconnections t1 = if b then delete k (uconnections t) else uconnections t)
      as (Hi & Hto & Hc).
    { subst t1 b. unfold ucleanup_entry.
      destruct (timeoutExceeded _ _ _); [|done]. by split; [apply uremove_inv|]. }
    assert (Hne : forall k', k' ≠ k -> uconnections t1 !! k' = uconnections t !! k').
    { intros k' ?. rewrite Hc. destruct b; [by rewrite lookup_delete_ne|done]. }
    destruct (IH t1 Hi Hnd) as (Hi' & Hto' & Hl).
    { intros k' c' Hkc. rewrite Hne; [apply Hin; set_solver|].
      intros ->. apply Hnin. apply list_elem_of_fmap. by exists (k, c'). }
    split_and!; [done|congruence|]. intros k'. rewrite Hl, Hto. clear Hl.
    destruct (decide (k' = k)) as [->|Hk'].
    + rewrite Hk, Hc. destruct b eqn:Hb; subst b.
      * rewrite lookup_delete_eq. cbn [mbind option_bind].
        rewrite decide_True by set_solver. by rewrite Hb.
      * rewrite Hk. cbn [mbind option_bind].
        rewrite decide_False by done. rewrite decide_True by set_solver. by rewrite Hb.
    + rewrite Hne by done. destruct (uconnections t !! k') as [c'|]; [|done].
      cbn [mbind option_bind].
      rewrite (decide_ext (k' ∈ order.*1) (k' ∈ ((k, c) :: order).*1)); [done|set_solver].
Qed.

Lemma ucleanup_spec opened now order t :
  udp_inv opened t -> order ≡ₚ map_to_list (uconnections t) ->
  udp_inv opened (ucleanup now order t) /\
  forall k, uconnections (ucleanup now order t) !! k =
    (c ← uconnections t !! k;
     if timeoutExceeded now (utimeout t) (ubase c) then None else Some c).
Proof.
  intros Hinv Hord.
  assert (Hin : forall k c, (k, c) ∈ order <-> uconnections t !! k = Some c)
    by (intros; by rewrite Hord, elem_of_map_to_list).
  destruct (ucleanup_fold opened now order t Hinv) as (Hi & _ & Hl).
  { rewrite Hord. apply NoDup_fst_map_to_list. }
  { intros k c. apply Hin. }
  split; [done|]. intros k. unfold ucleanup. rewrite Hl.
  destruct (uconnections t !! k) as [c|] eqn:Hk; [|done]. cbn [mbind option_bind].
  rewrite decide_True; [done|]. apply list_elem_of_fmap. exists (k, c).
  split; [done|]. by apply Hin.
Qed.

(** ** Traces *)
Inductive udp_op : Type :=
| UOpOutbound (now : Z) (uuid : UUID) (order : list (ConnKey * UDPConnTrack))
    (src dst : Addr) (sp dp sz : Z)
| UOpInbound (now : Z) (uuid : UUID) (order : list (ConnKey * UDPConnTrack))
    (src dst : Addr) (sp dp : Z) (rule : list Z) (sz orig : Z)
| UOpValid (now : Z) (src dst : Addr) (sp dp sz : Z)
| UOpCleanup (now : Z) (order : list (ConnKey * UDPConnTrack))
| UOpClose.

Definition urun_op (t : UDPTracker) (op : udp_op) : option UDPTracker :=
  match op with
  | UOpOutbound now uuid order src dst sp dp sz =>
      fst <$> UTrackOutbound now uuid order src dst sp dp sz t
  | UOpInbound now uuid order src dst sp dp rule sz orig =>
      UTrackInbound now uuid order src dst sp dp rule sz orig t
  | UOpValid now src dst sp dp sz => Some (UIsValidInbound now src dst sp dp sz t).1
  | UOpCleanup now order => Some (ucleanup now order t)
  | UOpClose => Some (UClose t)
  end.

Definition uop_ok (t : UDPTracker) (op : udp_op) : Prop :=
  match op with
  | UOpOutbound _ uuid order _ _ _ _ _ | UOpInbound _ uuid order _ _ _ _ _ _ _ =>
      order ≡ₚ map_to_list (uconnections t) /\ uuid ∉ started (uflowLog t)
  | UOpValid _ _ _ _ _ _ | UOpClose => True
  | UOpCleanup _ order => order ≡ₚ map_to_list (uconnections t)
  end.

Definition uop_opens (op : udp_op) : option ConnKey :=
  match op with
  | UOpOutbound _ _ _ src dst sp dp _ | UOpInbound _ _ _ src dst sp dp _ _ _ =>
      Some (mkKey src dst sp dp)
  | _ => None
  end.

Inductive udp_reach : list udp_op -> UDPTracker -> Prop :=
| udp_reach_new tmo mx : udp_reach [] (NewUDPTracker tmo mx)
| udp_reach_step ops t op t' :
    udp_reach ops t -> uop_ok t op -> urun_op t op = Some t' -> udp_reach (ops ++ [op]) t'.

Definition uopened_in (ops : list udp_op) (k : ConnKey) : Prop :=
  exists op, op ∈ ops /\ uop_opens op = Some k.

Lemma udp_reach_inv ops t : udp_reach ops t -> udp_inv (uopened_in ops) t.
Proof.
  induction 1 as [|ops t op t' Hr IH Hok Hrun]; [apply NewUDPTracker_inv|].
  apply (udp_inv_mono _ (uopened_in (ops ++ [op]))) in IH.
  2:{ intros k (o & Ho & Hk). exists o. set_solver. }
  assert (Hnew : forall k, uop_opens op = Some k -> uopened_in (ops ++ [op]) k).
  { intros k Hk. exists op. set_solver. }
  destruct op as [now uuid order src dst sp dp sz|now uuid order src dst sp dp rule sz orig
    |now src dst sp dp sz|now order|]; simpl in Hok, Hrun.
  - destruct Hok as [Hord Hfr]. unfold UTrackOutbound in Hrun.
    destruct (uupdateIfExists now dst src dp sp Egress sz t) as [t1 [[k p] b]] eqn:Hu.
    pose proof (uupdate_inv _ _ _ _ _ _ _ _ _ _ _ IH Hu) as Hi1.
    destruct b; [by simplify_eq/=|].
    apply uupdate_cases in Hu as [(? & _ & _ & ? & ?)|(-> & _ & _)]; [done|].
    destruct (utrack _ _ _ _ _ _ _ _ _ _ _ _) as [t2|] eqn:Htr; simplify_eq/=.
    eapply utrack_inv; [..|exact Htr]; try done. by apply Hnew.
  - destruct Hok as [Hord Hfr]. eapply utrack_inv; [..|exact Hrun]; try done. by apply Hnew.
  - simplify_eq. unfold UIsValidInbound.
    destruct (uconnections t !! _) as [c|] eqn:Hk; [|done].
    case_match; [done|]. by apply utouch_inv.
  - simplify_eq. by apply ucleanup_spec.
  - simplify_eq. split; simpl; try done.
    + apply (uinv_fresh _ _ IH).
    + intros. rewrite map_size_empty. lia.
Qed.

#[export] Program Instance UDPTracker_flows : FlowTracker UDPTracker := {|
  ft_log := uflowLog;
  ft_pending t := pending ufid uactive (uconnections t);
  ft_reach t := uisNil t = false /\ exists ops, udp_reach ops t
|}.
Next Obligation. intros t [_ [ops Hr]]. apply (uinv_fresh _ _ (udp_reach_inv _ _ Hr)). Qed.
Next Obligation.
  intros t [Hnil [ops Hr]]. apply (uinv_balanced _ _ (udp_reach_inv _ _ Hr) Hnil).
Qed.

(** ** The theorems *)

(** UDP flow accounting is exact and the table is bounded.  In every
    reachable state no flow is reported as ended twice or without having been
    started, the flows started and not ended are exactly those of the table,
    and the table does not exceed the configured maximum. *)
Theorem udp_flow_accounting (ops : list udp_op) (t : UDPTracker) :
  udp_reach ops t -> uisNil t = false ->
  NoDup (ended (uflowLog t)) /\
  (forall f, f ∈ ended (uflowLog t) -> f ∈ started (uflowLog t)) /\
  (forall f, f ∈ started (uflowLog t) /\ f ∉ ended (uflowLog t) <->
     exists k c, uconnections t !! k = Some c /\ FlowId (ubase c) = f) /\
  ((0 < umaxEntries t)%Z -> (Z.of_nat (size (uconnections t)) <= umaxEntries t)%Z).
Proof.
  intros Hr Hnil. assert (Hft : ft_reach t) by (split; [done|by exists ops]).
  destruct (flow_end_once t Hft) as (H1 & H2 & H3 & H4). simpl in *.
  split_and!; [done..| |apply (uinv_capacity _ _ (udp_reach_inv _ _ Hr))].
  assert (Hp : forall f, f ∈ pending ufid uactive (uconnections t) <->
    exists k c, uconnections t !! k = Some c /\ FlowId (ubase c) = f).
  { intros f. rewrite elem_of_pending. split; intros (k & c & ?); exists k, c; naive_solver. }
  intros f. rewrite <- Hp. split; [intros [??]; auto|].
  intros Hf. split; [|by apply H4].
  pose proof (ft_balanced t Hft) as Hb. simpl in Hb. rewrite Hb. set_solver.
Qed.

(** no unsolicited or stale inbound UDP traffic.  An inbound datagram is
    admitted without an ACL check only if the flow of the opposite direction
    was tracked before and traffic was seen on it within the timeout. *)
Theorem udp_no_unsolicited_inbound (ops : list udp_op) (t t' : UDPTracker)
    (now : Z) (src dst : Addr) (sp dp sz : Z) :
  udp_reach ops t -> UIsValidInbound now src dst sp dp sz t = (t', true) ->
  (exists op, op ∈ ops /\ uop_opens op = Some (mkKey dst src dp sp)) /\
  exists c, uconnections t !! mkKey dst src dp sp = Some c /\
    (time_since now (lastSeen (ubase c)) <= utimeout t)%Z /\
    exists c', uconnections t' !! mkKey dst src dp sp = Some c' /\
      lastSeen (ubase c') = now /\ FlowId (ubase c') = FlowId (ubase c).
Proof.
  intros Hr%udp_reach_inv. unfold UIsValidInbound.
  destruct (uconnections t !! mkKey dst src dp sp) as [c|] eqn:Hk; [|done].
  unfold timeoutExceeded. case_bool_decide as Hto; [done|]. intros [= <-].
  split; [by apply (uinv_conn _ _ Hr _ _ Hk)|]. exists c. split_and!; [done|lia|].
  eexists. split; [apply lookup_insert_eq|].
  unfold utouch, uwith_base, UpdateCounters. by case_decide.
Qed.

(** the UDP cleanup keeps exactly the flows seen within the timeout. *)
Theorem udp_cleanup_exact (ops : list udp_op) (t : UDPTracker) (now : Z)
    (order : list (ConnKey * UDPConnTrack)) :
  udp_reach ops t -> order ≡ₚ map_to_list (uconnections t) ->
  forall k c, uconnections (ucleanup now order t) !! k = Some c <->
    uconnections t !! k = Some c /\ (time_since now (lastSeen (ubase c)) <= utimeout t)%Z.
Proof.
  intros Hr Hord k c.
  destruct (ucleanup_spec _ now order t (udp_reach_inv _ _ Hr) Hord) as [_ ->].
  destruct (uconnections t !! k) as [c0|]; cbn [mbind option_bind];
    [|split; [done|by intros [? _]]].
  unfold timeoutExceeded. case_bool_decide as Hto; split.
  - done.
  - intros ([= ->] & ?). lia.
  - intros [= ->]. split; [done|lia].
  - by intros ([= ->] & _).
Qed.

(** ** Witnesses *)
Definition uwit_t0 : UDPTracker := NewUDPTracker 0 2.
Definition uwit_op : udp_op := UOpOutbound 5 7%Z [] (Addr4 1) (Addr4 2) 1000 53 60.
Definition uwit_t1 : UDPTracker := default uwit_t0 (urun_op uwit_t0 uwit_op).

Lemma uwit_reach : udp_reach [uwit_op] uwit_t1.
Proof.
  apply (udp_reach_step [] uwit_t0).
  - apply udp_reach_new.
  - split; [done|]. apply not_elem_of_nil.
  - vm_compute. reflexivity.
Qed.

Lemma udp_flow_accounting_witness :
  uisNil uwit_t1 = false /\ NoDup (ended (uflowLog uwit_t1)).
Proof.
  split; [vm_compute; reflexivity|].
  apply (udp_flow_accounting [uwit_op] uwit_t1 uwit_reach). vm_compute. reflexivity.
Defined.

Lemma udp_no_unsolicited_inbound_witness :
  exists op, op ∈ [uwit_op] /\ uop_opens op = Some (mkKey (Addr4 1) (Addr4 2) 1000 53).
Proof.
  refine (proj1 (udp_no_unsolicited_inbound [uwit_op] uwit_t1
    (UIsValidInbound 6 (Addr4 2) (Addr4 1) 53 1000 60 uwit_t1).1
    6 (Addr4 2) (Addr4 1) 53 1000 60 uwit_reach _)).
  vm_compute. reflexivity.
Defined.

Lemma udp_cleanup_exact_witness :
  size (uconnections uwit_t1) = 1 /\
  map_Forall (fun k c =>
    uconnections (ucleanup 8 (map_to_list (uconnections uwit_t1)) uwit_t1) !! k = Some c)
    (uconnections uwit_t1).
Proof.
  split; [vm_compute; reflexivity|]. intros k c Hk.
  apply (udp_cleanup_exact [uwit_op] uwit_t1 8 _ uwit_reach); [reflexivity|].
  split; [done|].
  assert (Hall : map_Forall (fun _ c =>
    (time_since 8 (lastSeen (ubase c)) <= utimeout uwit_t1)%Z) (uconnections uwit_t1))
    by by_decide.
  exact (Hall k c Hk).
Defined.
