(* ===== verification/ConntrackICMP.v ===== *)
(** * ICMP connection tracking
      (client/firewall/uspfilter/conntrack/icmp.go)

    Only echo requests open a tracked flow; every other ICMP packet is
    reported once as a start event and leaves no entry.  An inbound packet is
    admitted by the tracker only if it is an echo reply to a tracked request
    of the opposite direction.  The packet excerpt the code keeps for its log
    messages has no effect on the state and is left out. *)

From Stdlib Require Import ZArith Lia.
From stdpp Require Import base gmap strings numbers countable sorting list.
From S2P Require Import Prelude Netip ConntrackCommon.

Definition DefaultICMPTimeout : Z := 30 * 10 ^ 9.
Definition DefaultMaxICMPEntries : Z := 2048.

Definition ICMPv4TypeEchoReply : Z := 0.
Definition ICMPv4TypeEchoRequest : Z := 8.
Definition ICMPv6TypeEchoReply : Z := 129.

(** [ICMPv4TypeCode] packs the type in the upper and the code in the lower
    byte. *)
Definition tc_Type (tc : Z) : Z := u8 (Z.shiftr tc 8).
Definition tc_Code (tc : Z) : Z := u8 tc.

Record ICMPConnKey : Type := mkIKey { ISrcIP : Addr; IDstIP : Addr; IID : Z }.

#[global] Instance ICMPConnKey_eq_dec : EqDecision ICMPConnKey.
Proof. solve_decision. Defined.

#[global] Instance ICMPConnKey_countable : Countable ICMPConnKey.
Proof.
  refine (inj_countable' (fun k => (ISrcIP k, IDstIP k, IID k))
    (fun '(a, b, c) => mkIKey a b c) _).
  by intros [].
Defined.

Record ICMPConnTrack : Type := mkICMPConn {
  ibase : BaseConnTrack;
  ICMPType : Z;
  ICMPCode : Z
}.

Definition iwith_base (f : BaseConnTrack -> BaseConnTrack) (c : ICMPConnTrack) : ICMPConnTrack :=
  mkICMPConn (f (ibase c)) (ICMPType c) (ICMPCode c).

Record ICMPTracker : Type := mkICMPTracker {
  iconnections : gmap ICMPConnKey ICMPConnTrack;
  iisNil : bool;
  itimeout : Z;
  imaxEntries : Z;
  iflowLog : list EventFields
}.

Definition iset (m : gmap ICMPConnKey ICMPConnTrack) (evs : list EventFields)
    (t : ICMPTracker) : ICMPTracker :=
  mkICMPTracker m (iisNil t) (itimeout t) (imaxEntries t) (iflowLog t ++ evs).

Definition NewICMPTracker (timeout max : Z) : ICMPTracker :=
  let timeout := if decide (timeout = 0)%Z then DefaultICMPTimeout else timeout in
  mkICMPTracker ∅ false timeout max [].

Definition icmpProtocolForAddr (ip : Addr) : Z := if Is6 ip then ICMPv6 else ICMP.

Definition isendEvent (typ : EventType) (c : ICMPConnTrack) (ruleID : list Z) : EventFields :=
  mkEvent (FlowId (ibase c)) typ ruleID (BDirection (ibase c))
    (icmpProtocolForAddr (SourceIP (ibase c))) (SourceIP (ibase c)) (DestIP (ibase c)) 0 0
    (ICMPType c) (ICMPCode c)
    (PacketsRx (ibase c)) (PacketsTx (ibase c)) (BytesRx (ibase c)) (BytesTx (ibase c)).

Definition sendStartEvent (uuid : UUID) (direction : Direction) (srcIP dstIP : Addr)
    (typ code : Z) (ruleID : list Z) (size_ : Z) : EventFields :=
  let ingress := bool_decide (direction = Ingress) in
  mkEvent uuid TypeStart ruleID direction (icmpProtocolForAddr srcIP) srcIP dstIP 0 0
    typ code
    (if ingress then 1 else 0) (if ingress then 0 else 1)
    (if ingress then u64 size_ else 0) (if ingress then 0 else u64 size_).

Definition itouch (now : Z) (dir : Direction) (size_ : Z) (c : ICMPConnTrack) : ICMPConnTrack :=
  iwith_base (UpdateCounters dir size_) (iwith_base (UpdateLastSeen now) c).

Definition iupdateIfExists (now : Z) (srcIP dstIP : Addr) (id : Z) (direction : Direction)
    (size_ : Z) (t : ICMPTracker) : ICMPTracker * (ICMPConnKey * bool) :=
  let key := mkIKey srcIP dstIP id in
  match iconnections t !! key with
  | Some conn =>
      (iset (<[key := itouch now direction size_ conn]> (iconnections t)) [] t, (key, true))
  | None => (t, (key, false))
  end.

Definition ievictOneLocked (order : list (ICMPConnKey * ICMPConnTrack)) (t : ICMPTracker)
    : ICMPTracker :=
  match evict_scan (fun _ => false) (fun c => lastSeen (ibase c)) order None 0 with
  | ScanOldest k =>
      let evs := match iconnections t !! k with
                 | Some evicted => [isendEvent TypeEnd evicted []]
                 | None => []
                 end in
      iset (delete k (iconnections t)) evs t
  | ScanTombstone _ | ScanNothing => t
  end.

(** [None] is the panic of an assignment to the nil map left by [Close]. *)
Definition itrack (now : Z) (uuid : UUID) (order : list (ICMPConnKey * ICMPConnTrack))
    (srcIP dstIP : Addr) (id typecode : Z) (direction : Direction) (ruleId : list Z)
    (size_ : Z) (t : ICMPTracker) : option ICMPTracker :=
  let '(t, (key, exists_)) := iupdateIfExists now srcIP dstIP id direction size_ t in
  if exists_ then Some t
  else
    let typ := tc_Type typecode in
    let code := tc_Code typecode in
    if bool_decide (typ ≠ ICMPv4TypeEchoRequest) then
      Some (iset (iconnections t)
        [sendStartEvent uuid direction srcIP dstIP typ code ruleId size_] t)
    else
      let conn := mkICMPConn (mkBase uuid direction srcIP dstIP 0 0 0 0 0 0) typ code in
      let conn := itouch now direction size_ conn in
      let t := if bool_decide (0 < imaxEntries t)%Z &&
                  bool_decide (imaxEntries t <= Z.of_nat (size (iconnections t)))%Z
               then ievictOneLocked order t else t in
      if iisNil t then None
      else Some (iset (<[key := conn]> (iconnections t))
        [isendEvent TypeStart conn ruleId] t).

Definition ITrackOutbound (now : Z) (uuid : UUID) (order : list (ICMPConnKey * ICMPConnTrack))
    (srcIP dstIP : Addr) (id typecode size_ : Z) (t : ICMPTracker) : option ICMPTracker :=
  let '(t, (_, exists_)) := iupdateIfExists now dstIP srcIP id Egress size_ t in
  if exists_ then Some t
  else itrack now uuid order srcIP dstIP id typecode Egress [] size_ t.

Definition ITrackInbound (now : Z) (uuid : UUID) (order : list (ICMPConnKey * ICMPConnTrack))
    (srcIP dstIP : Addr) (id typecode : Z) (ruleId : list Z) (size_ : Z) (t : ICMPTracker)
    : option ICMPTracker :=
  itrack now uuid order srcIP dstIP id typecode Ingress ruleId size_ t.

Definition IIsValidInbound (now : Z) (srcIP dstIP : Addr) (id icmpType size_ : Z)
    (t : ICMPTracker) : ICMPTracker * bool :=
  if bool_decide (icmpType ≠ ICMPv4TypeEchoReply) && bool_decide (icmpType ≠ ICMPv6TypeEchoReply)
  then (t, false)
  else
    let key := mkIKey dstIP srcIP id in
    match iconnections t !! key with
    | None => (t, false)
    | Some conn =>
        if timeoutExceeded now (itimeout t) (ibase conn) then (t, false)
        else (iset (<[key := itouch now Ingress size_ conn]> (iconnections t)) [] t, true)
    end.

Definition icleanup_entry (now : Z) (t : ICMPTracker) (e : ICMPConnKey * ICMPConnTrack)
    : ICMPTracker :=
  let '(key, conn) := e in
  if timeoutExceeded now (itimeout t) (ibase conn)
  then iset (delete key (iconnections t)) [isendEvent TypeEnd conn []] t
  else t.

Definition icleanup (now : Z) (order : list (ICMPConnKey * ICMPConnTrack)) (t : ICMPTracker)
    : ICMPTracker :=
  foldl (icleanup_entry now) t order.

Definition IClose (t : ICMPTracker) : ICMPTracker :=
  mkICMPTracker ∅ true (itimeout t) (imaxEntries t) (iflowLog t).

(** ** The invariant

    The accounting is over echo events: only echo requests open a flow that
    will be ended. *)
Definition is_echo (e : EventFields) : Prop := EvICMPType e = ICMPv4TypeEchoRequest.

#[global] Instance is_echo_dec e : Decision (is_echo e).
Proof. unfold is_echo. apply _. Defined.

Definition echo_log (t : ICMPTracker) : list EventFields := filter is_echo (iflowLog t).

Definition ifid (c : ICMPConnTrack) : UUID := FlowId (ibase c).
Definition iactive (_ : ICMPConnTrack) : bool := true.

Record icmp_inv (opened : ICMPConnKey -> Prop) (t : ICMPTracker) : Prop := {
  iinv_conn : forall k c, iconnections t !! k = Some c ->
    k = mkIKey (SourceIP (ibase c)) (DestIP (ibase c)) (IID k) /\
    ICMPType c = ICMPv4TypeEchoRequest /\ opened k;
  iinv_nil : iisNil t = true -> iconnections t = ∅;
  iinv_balanced : iisNil t = false ->
    balanced ifid iactive (echo_log t) (iconnections t);
  iinv_fresh : NoDup (started (iflowLog t));
  iinv_capacity : (0 < imaxEntries t)%Z ->
    (Z.of_nat (size (iconnections t)) <= imaxEntries t)%Z
}.

Lemma icmp_inv_mono (P Q : ICMPConnKey -> Prop) t :
  (forall k, P k -> Q k) -> icmp_inv P t -> icmp_inv Q t.
Proof.
  intros HPQ [H1 H2 H3 H4 H5]. split; [|done..].
  intros k c Hk. destruct (H1 k c Hk) as (? & ? & ?). auto.
Qed.

Lemma NewICMPTracker_inv opened a b : icmp_inv opened (NewICMPTracker a b).
Proof.
  split; try done.
  - intros _. unfold balanced. cbn [iconnections NewICMPTracker].
    by rewrite pending_empty.
  - constructor.
  - intros. cbn [iconnections imaxEntries NewICMPTracker] in *. rewrite map_size_empty. lia.
Qed.

Lemma echo_log_set m evs t : echo_log (iset m evs t) = echo_log t ++ filter is_echo evs.
Proof. unfold echo_log. simpl. apply filter_app. Qed.

Lemma itouch_same now dir sz c :
  ifid (itouch now dir sz c) = ifid c /\ ICMPType (itouch now dir sz c) = ICMPType c /\
  SourceIP (ibase (itouch now dir sz c)) = SourceIP (ibase c) /\
  DestIP (ibase (itouch now dir sz c)) = DestIP (ibase c).
Proof. unfold itouch, iwith_base, UpdateCounters, ifid. by case_decide. Qed.

Lemma itouch_inv opened now dir sz t k c :
  icmp_inv opened t -> iconnections t !! k = Some c ->
  icmp_inv opened (iset (<[k := itouch now dir sz c]> (iconnections t)) [] t).
Proof.
  intros Hinv Hk. destruct (itouch_same now dir sz c) as (Hf & Hty & Hsrc & Hdst).
  split; simpl.
  - intros k' c' [[<- <-]|[_ Hk']]%lookup_insert_Some; [|by apply (iinv_conn _ _ Hinv)].
    rewrite Hty, Hsrc, Hdst. by apply (iinv_conn _ _ Hinv).
  - intros Hnil. apply (iinv_nil _ _ Hinv) in Hnil. by rewrite Hnil in Hk.
  - intros Hnil. rewrite echo_log_set, app_nil_r. unfold balanced.
    rewrite (iinv_balanced _ _ Hinv Hnil). f_equiv.
    pose proof (pending_replace ifid iactive (iconnections t) k c (itouch now dir sz c) Hk) as Hp.
    unfold contrib, iactive in Hp. rewrite Hf in Hp. simpl in Hp.
    by apply Permutation_cons_inv in Hp.
  - rewrite app_nil_r. apply (iinv_fresh _ _ Hinv).
  - intros Hm. rewrite map_size_insert_Some by (by eexists).
    by apply (iinv_capacity _ _ Hinv).
Qed.

Lemma iremove_inv opened t k c :
  icmp_inv opened t -> iconnections t !! k = Some c ->
  icmp_inv opened (iset (delete k (iconnections t)) [isendEvent TypeEnd c []] t).
Proof.
  intros Hinv Hk. split; simpl.
  - intros k' c' [_ Hk']%lookup_delete_Some. by apply (iinv_conn _ _ Hinv).
  - intros Hnil. apply (iinv_nil _ _ Hinv) in Hnil. by rewrite Hnil in Hk.
  - intros Hnil. unfold balanced. rewrite echo_log_set, filter_cons_True.
    2:{ by apply (iinv_conn _ _ Hinv _ _ Hk). }
    rewrite started_app, ended_app. simpl.
    rewrite app_nil_r, (iinv_balanced _ _ Hinv Hnil).
    rewrite (pending_delete ifid iactive _ k c Hk). by rewrite <- app_assoc.
  - rewrite started_app. simpl. rewrite app_nil_r. apply (iinv_fresh _ _ Hinv).
  - intros Hm. pose proof (iinv_capacity _ _ Hinv Hm).
    rewrite map_size_delete_Some by (by eexists). lia.
Qed.

Lemma iupdate_cases now src dst id dir sz t t' r :
  iupdateIfExists now src dst id dir sz t = (t', r) ->
  let k := mkIKey src dst id in
  (exists c, iconnections t !! k = Some c /\
     t' = iset (<[k := itouch now dir sz c]> (iconnections t)) [] t /\ r = (k, true)) \/
  (t' = t /\ r = (k, false) /\ iconnections t !! k = None).
Proof.
  unfold iupdateIfExists. cbv zeta.
  destruct (iconnections t !! _) as [c|] eqn:Hk; intros [= <- <-]; eauto 10.
Qed.

Lemma iupdate_inv opened now src dst id dir sz t t' r :
  icmp_inv opened t -> iupdateIfExists now src dst id dir sz t = (t', r) ->
  icmp_inv opened t'.
Proof.
  intros Hinv [(c & Hk & -> & _)|(-> & _)]%iupdate_cases; [|done].
  by apply itouch_inv.
Qed.

Lemma ievict_spec opened order t :
  icmp_inv opened t -> order ≡ₚ map_to_list (iconnections t) ->
  0 < size (iconnections t) ->
  exists k c, iconnections t !! k = Some c /\
    ievictOneLocked order t = iset (delete k (iconnections t)) [isendEvent TypeEnd c []] t.
Proof.
  intros Hinv Hord Hsz. unfold ievictOneLocked.
  pose proof (evict_scan_spec (fun _ : ICMPConnTrack => false)
    (fun c => lastSeen (ibase c)) order None 0) as Hscan.
  destruct (evict_scan _ _ order None 0) as [k|k|].
  - by destruct Hscan as (c & _ & ?).
  - destruct Hscan as [[s ?]|(c & Hkc & _)]; [done|].
    rewrite Hord, elem_of_map_to_list in Hkc. exists k, c. by rewrite Hkc.
  - destruct Hscan as [_ ->]. apply Permutation_nil_l, eq_sym, map_to_list_empty_iff in Hord.
    rewrite Hord, map_size_empty in Hsz. lia.
Qed.

Lemma fresh_started log f : NoDup (started log) -> f ∉ started log ->
  NoDup (started log ++ [f]).
Proof.
  intros Hnd Hf. apply NoDup_app. split_and!; [done| |apply NoDup_singleton].
  intros g Hg Hg'. apply list_elem_of_singleton in Hg' as ->. done.
Qed.

Lemma iinsert_inv (opened : ICMPConnKey -> Prop) t k c rule :
  icmp_inv opened t -> iisNil t = false -> iconnections t !! k = None ->
  k = mkIKey (SourceIP (ibase c)) (DestIP (ibase c)) (IID k) ->
  ICMPType c = ICMPv4TypeEchoRequest -> opened k ->
  ifid c ∉ started (iflowLog t) ->
  ((0 < imaxEntries t)%Z -> (Z.of_nat (size (iconnections t)) < imaxEntries t)%Z) ->
  icmp_inv opened (iset (<[k := c]> (iconnections t)) [isendEvent TypeStart c rule] t).
Proof.
  intros Hinv Hnil Hk Hat Hty Hop Hfr Hcap. split; simpl.
  - intros k' c' [[<- <-]|[_ Hk']]%lookup_insert_Some; [done|].
    by apply (iinv_conn _ _ Hinv).
  - congruence.
  - intros _. unfold balanced. rewrite echo_log_set, filter_cons_True by done.
    rewrite started_app, ended_app. simpl. rewrite app_nil_r.
    rewrite (pending_insert ifid iactive) by done.
    rewrite (iinv_balanced _ _ Hinv Hnil). unfold contrib. simpl. solve_Permutation.
  - rewrite started_app. simpl. apply fresh_started; [apply (iinv_fresh _ _ Hinv)|done].
  - intros Hm. specialize (Hcap Hm). rewrite map_size_insert_None by done. lia.
Qed.

(** Reporting a packet that opens no flow. *)
Lemma ireport_inv opened t uuid dir src dst typ code rule sz :
  icmp_inv opened t -> typ ≠ ICMPv4TypeEchoRequest -> uuid ∉ started (iflowLog t) ->
  icmp_inv opened (iset (iconnections t)
    [sendStartEvent uuid dir src dst typ code rule sz] t).
Proof.
  intros Hinv Hty Hfr. split; simpl; try apply Hinv.
  - intros Hnil. rewrite echo_log_set, filter_cons_False by done. rewrite app_nil_r.
    by apply (iinv_balanced _ _ Hinv).
  - rewrite started_app. simpl. apply fresh_started; [apply (iinv_fresh _ _ Hinv)|done].
Qed.

Lemma itrack_inv (opened : ICMPConnKey -> Prop) now uuid order src dst id tc dir rule sz t t' :
  icmp_inv opened t -> order ≡ₚ map_to_list (iconnections t) ->
  uuid ∉ started (iflowLog t) ->
  (tc_Type tc = ICMPv4TypeEchoRequest -> opened (mkIKey src dst id)) ->
  itrack now uuid order src dst id tc dir rule sz t = Some t' ->
  icmp_inv opened t'.
Proof.
  intros Hinv Hord Hfresh Hopen. unfold itrack.
  destruct (iupdateIfExists now src dst id dir sz t) as [t1 [k b]] eqn:Hu.
  pose proof (iupdate_inv _ _ _ _ _ _ _ _ _ _ Hinv Hu) as Hinv1.
  destruct b; [by intros [= <-]|].
  apply iupdate_cases in Hu as [(? & _ & _ & ?)|(-> & Hr & Hk)]; [done|].
  assert (k = mkIKey src dst id) as -> by (by simplify_eq). cbv zeta.
  case_bool_decide as Hty; [intros [= <-]; by apply ireport_inv|].
  assert (Ht : tc_Type tc = ICMPv4TypeEchoRequest)
    by (by destruct (decide (tc_Type tc = ICMPv4TypeEchoRequest))).
  set (conn := itouch now dir sz _).
  pose proof (itouch_same now dir sz
    (mkICMPConn (mkBase uuid dir src dst 0 0 0 0 0 0) (tc_Type tc) (tc_Code tc)))
    as (Hf & Hty' & Hsrc & Hdst).
  fold conn in Hf, Hty', Hsrc, Hdst. clearbody conn.
  cbn [ifid ibase FlowId SourceIP DestIP ICMPType] in Hf, Hty', Hsrc, Hdst.
  destruct (bool_decide (0 < imaxEntries t)%Z && _) eqn:Hfull.
  - apply andb_true_iff in Hfull as [Hpos%bool_decide_eq_true Hle%bool_decide_eq_true].
    destruct (ievict_spec opened order t Hinv Hord) as (k' & c' & Hk' & ->); [lia|].
    pose proof (iremove_inv _ _ _ _ Hinv Hk') as Hrm. simpl.
    destruct (iisNil t) eqn:Hnil; [done|]. intros [= <-].
    apply (iinsert_inv _ _ _ _ _ Hrm); simpl; try done.
    + rewrite lookup_delete_None. auto.
    + by rewrite Hsrc, Hdst.
    + congruence.
    + auto.
    + rewrite started_app, app_nil_r. by rewrite Hf.
    + intros _. pose proof (iinv_capacity _ _ Hinv Hpos).
      rewrite map_size_delete_Some by (by eexists).
      assert (0 < size (iconnections t)) by lia. lia.
  - destruct (iisNil t) eqn:Hnil; [done|]. intros [= <-].
    apply (iinsert_inv _ _ _ _ _ Hinv); try done.
    + simpl. by rewrite Hsrc, Hdst.
    + congruence.
    + auto.
    + by rewrite Hf.
    + intros Hpos. rewrite bool_decide_eq_true_2 in Hfull by done. simpl in Hfull.
      apply bool_decide_eq_false in Hfull. lia.
Qed.

(** ** Cleanup *)
Lemma icleanup_fold opened now order : forall t,
  icmp_inv opened t -> NoDup order.*1 ->
  (forall k c, (k, c) ∈ order -> iconnections t !! k = Some c) ->
  icmp_inv opened (foldl (icleanup_entry now) t order).
Proof.
  induction order as [|[k c] order IH]; intros t Hinv Hnd Hin;
    cbn [foldl fmap list_fmap fst]; [done|].
  apply NoDup_cons in Hnd as [Hnin Hnd].
  pose proof (Hin k c ltac:(set_solver)) as Hk.
  unfold icleanup_entry at 2. destruct (timeoutExceeded _ _ _).
  - apply IH; [by apply iremove_inv|done|].
    intros k' c' Hkc. simpl. rewrite lookup_delete_ne; [apply Hin; set_solver|].
    intros <-. apply Hnin. apply list_elem_of_fmap. by exists (k, c').
  - apply IH; [done..|]. intros k' c' Hkc. apply Hin. set_solver.
Qed.

Lemma icleanup_inv opened now order t :
  icmp_inv opened t -> order ≡ₚ map_to_list (iconnections t) ->
  icmp_inv opened (icleanup now order t).
Proof.
  intros Hinv Hord. apply icleanup_fold; [done|..].
  - rewrite Hord. apply NoDup_fst_map_to_list.
  - intros k c. by rewrite Hord, elem_of_map_to_list.
Qed.

(** ** Traces *)
Inductive icmp_op : Type :=
| IOpOutbound (now : Z) (uuid : UUID) (order : list (ICMPConnKey * ICMPConnTrack))
    (src dst : Addr) (id tc sz : Z)
| IOpInbound (now : Z) (uuid : UUID) (order : list (ICMPConnKey * ICMPConnTrack))
    (src dst : Addr) (id tc : Z) (rule : list Z) (sz : Z)
| IOpValid (now : Z) (src dst : Addr) (id typ sz : Z)
| IOpCleanup (now : Z) (order : list (ICMPConnKey * ICMPConnTrack))
| IOpClose.

Definition irun_op (t : ICMPTracker) (op : icmp_op) : option ICMPTracker :=
  match op with
  | IOpOutbound now uuid order src dst id tc sz =>
      ITrackOutbound now uuid order src dst id tc sz t
  | IOpInbound now uuid order src dst id tc rule sz =>
      ITrackInbound now uuid order src dst id tc rule sz t
  | IOpValid now src dst id typ sz => Some (IIsValidInbound now src dst id typ sz t).1
  | IOpCleanup now order => Some (icleanup now order t)
  | IOpClose => Some (IClose t)
  end.

Definition iop_ok (t : ICMPTracker) (op : icmp_op) : Prop :=
  match op with
  | IOpOutbound _ uuid order _ _ _ _ _ | IOpInbound _ uuid order _ _ _ _ _ _ =>
      order ≡ₚ map_to_list (iconnections t) /\ uuid ∉ started (iflowLog t)
  | IOpValid _ _ _ _ _ _ | IOpClose => True
  | IOpCleanup _ order => order ≡ₚ map_to_list (iconnections t)
  end.

(** The flow an operation may open: that of an echo request. *)
Definition iop_opens (op : icmp_op) : option ICMPConnKey :=
  match op with
  | IOpOutbound _ _ _ src dst id tc _ | IOpInbound _ _ _ src dst id tc _ _ =>
      if decide (tc_Type tc = ICMPv4TypeEchoRequest) then Some (mkIKey src dst id) else None
  | _ => None
  end.

Inductive icmp_reach : list icmp_op -> ICMPTracker -> Prop :=
| icmp_reach_new tmo mx : icmp_reach [] (NewICMPTracker tmo mx)
| icmp_reach_step ops t op t' :
    icmp_reach ops t -> iop_ok t op -> irun_op t op = Some t' ->
    icmp_reach (ops ++ [op]) t'.

Definition iopened_in (ops : list icmp_op) (k : ICMPConnKey) : Prop :=
  exists op, op ∈ ops /\ iop_opens op = Some k.

Lemma icmp_reach_inv ops t : icmp_reach ops t -> icmp_inv (iopened_in ops) t.
Proof.
  induction 1 as [|ops t op t' Hr IH Hok Hrun]; [apply NewICMPTracker_inv|].
  apply (icmp_inv_mono _ (iopened_in (ops ++ [op]))) in IH.
  2:{ intros k (o & Ho & Hk). exists o. set_solver. }
  assert (Hnew : forall k, iop_opens op = Some k -> iopened_in (ops ++ [op]) k).
  { intros k Hk. exists op. set_solver. }
  destruct op as [now uuid order src dst id tc sz|now uuid order src dst id tc rule sz
    |now src dst id typ sz|now order|]; simpl in Hok, Hrun.
  - destruct Hok as [Hord Hfr]. unfold ITrackOutbound in Hrun.
    destruct (iupdateIfExists now dst src id Egress sz t) as [t1 [k b]] eqn:Hu.
    pose proof (iupdate_inv _ _ _ _ _ _ _ _ _ _ IH Hu) as Hi1.
    destruct b; [by simplify_eq/=|].
    apply iupdate_cases in Hu as [(? & _ & _ & ?)|(-> & _ & _)]; [done|].
    eapply itrack_inv; [..|exact Hrun]; try done.
    intros Ht. apply Hnew. simpl. by rewrite decide_True.
  - destruct Hok as [Hord Hfr]. eapply itrack_inv; [..|exact Hrun]; try done.
    intros Ht. apply Hnew. simpl. by rewrite decide_True.
  - simplify_eq. unfold IIsValidInbound. case_match; [done|].
    destruct (iconnections t !! _) as [c|] eqn:Hk; [|done].
    case_match; [done|]. by apply itouch_inv.
  - simplify_eq. by apply icleanup_inv.
  - simplify_eq. split; simpl; try done.
    + apply (iinv_fresh _ _ IH).
    + intros. rewrite map_size_empty. lia.
Qed.

(** The echo flows of the log keep the promise of a flow tracker. *)
Lemma started_filter_sub log f : f ∈ started (filter is_echo log) -> f ∈ started log.
Proof.
  unfold started. rewrite !list_elem_of_omap. intros (e & He & Hf).
  apply list_elem_of_filter in He as [_ He]. eauto.
Qed.

Lemma started_filter_nodup log : NoDup (started log) -> NoDup (started (filter is_echo log)).
Proof.
  induction log as [|e log IH]; [done|]. rewrite filter_cons.
  assert (Hc : forall l, started (e :: l) =
    (if decide (EvType e = TypeStart) then [EvFlowID e] else []) ++ started l).
  { intros l. unfold started. simpl. by case_decide. }
  intros Hnd. rewrite Hc in Hnd. apply NoDup_app in Hnd as (H1 & H2 & H3).
  destruct (decide (is_echo e)); [|by apply IH].
  rewrite Hc. apply NoDup_app. split_and!; [done| |by apply IH].
  intros f Hf Hf'. by apply (H2 f Hf), started_filter_sub.
Qed.

#[export] Program Instance ICMPTracker_flows : FlowTracker ICMPTracker := {|
  ft_log := echo_log;
  ft_pending t := pending ifid iactive (iconnections t);
  ft_reach t := iisNil t = false /\ exists ops, icmp_reach ops t
|}.
Next Obligation.
  intros t [_ [ops Hr]]. apply started_filter_nodup, (iinv_fresh _ _ (icmp_reach_inv _ _ Hr)).
Qed.
Next Obligation.
  intros t [Hnil [ops Hr]]. apply (iinv_balanced _ _ (icmp_reach_inv _ _ Hr) Hnil).
Qed.

(** ** The theorems *)

(** ICMP flow accounting is exact and the table is bounded.  In every
    reachable state every tracked flow is an echo flow; no echo flow is
    reported as ended twice or without having been started; the echo flows
    started and not ended are exactly those of the table; and the table does
    not exceed the configured maximum. *)
Theorem icmp_flow_accounting (ops : list icmp_op) (t : ICMPTracker) :
  icmp_reach ops t -> iisNil t = false ->
  NoDup (ended (echo_log t)) /\
  (forall f, f ∈ ended (echo_log t) -> f ∈ started (echo_log t)) /\
  (forall f, f ∈ started (echo_log t) /\ f ∉ ended (echo_log t) <->
     exists k c, iconnections t !! k = Some c /\ FlowId (ibase c) = f) /\
  (forall k c, iconnections t !! k = Some c -> ICMPType c = ICMPv4TypeEchoRequest) /\
  ((0 < imaxEntries t)%Z -> (Z.of_nat (size (iconnections t)) <= imaxEntries t)%Z).
Proof.
  intros Hr Hnil. assert (Hft : ft_reach t) by (split; [done|by exists ops]).
  destruct (flow_end_once t Hft) as (H1 & H2 & H3 & H4). simpl in *.
  pose proof (icmp_reach_inv _ _ Hr) as Hinv.
  split_and!; [done..| | |apply (iinv_capacity _ _ Hinv)].
  - assert (Hp : forall f, f ∈ pending ifid iactive (iconnections t) <->
      exists k c, iconnections t !! k = Some c /\ FlowId (ibase c) = f).
    { intros f. rewrite elem_of_pending. split; intros (k & c & ?); exists k, c; naive_solver. }
    intros f. rewrite <- Hp. split; [intros [??]; auto|].
    intros Hf. split; [|by apply H4].
    pose proof (ft_balanced t Hft) as Hb. simpl in Hb. rewrite Hb. set_solver.
  - intros k c Hk. by destruct (iinv_conn _ _ Hinv k c Hk) as (_ & ? & _).
Qed.

(** no unsolicited inbound ICMP.  An inbound ICMP packet is admitted
    without an ACL check only if it is an echo reply whose echo request, of
    the opposite direction and with the same identifier, was tracked before
    and seen within the timeout. *)
Theorem icmp_no_unsolicited_inbound (ops : list icmp_op) (t t' : ICMPTracker)
    (now : Z) (src dst : Addr) (id typ sz : Z) :
  icmp_reach ops t -> IIsValidInbound now src dst id typ sz t = (t', true) ->
  (typ = 0 \/ typ = 129)%Z /\
  (exists op, op ∈ ops /\ iop_opens op = Some (mkIKey dst src id)) /\
  exists c, iconnections t !! mkIKey dst src id = Some c /\
    (time_since now (lastSeen (ibase c)) <= itimeout t)%Z.
Proof.
  intros Hr%icmp_reach_inv. unfold IIsValidInbound.
  destruct (bool_decide _ && bool_decide _) eqn:Hty; [done|].
  destruct (iconnections t !! mkIKey dst src id) as [c|] eqn:Hk; [|done].
  destruct (timeoutExceeded _ _ _) eqn:Hto; [done|]. apply bool_decide_eq_false in Hto.
  intros _. split_and!.
  - apply andb_false_iff in Hty as [H|H]; apply bool_decide_eq_false in H;
      apply dec_stable in H; [by left|by right].
  - by destruct (iinv_conn _ _ Hr _ _ Hk) as (_ & _ & ?).
  - exists c. split; [done|lia].
Qed.

(** ** Witnesses *)
Definition iwit_t0 : ICMPTracker := NewICMPTracker 0 2.
Definition iwit_op : icmp_op := IOpOutbound 5 7%Z [] (Addr4 1) (Addr4 2) 77 2048 84.
Definition iwit_t1 : ICMPTracker := default iwit_t0 (irun_op iwit_t0 iwit_op).

Lemma iwit_reach : icmp_reach [iwit_op] iwit_t1.
Proof.
  apply (icmp_reach_step [] iwit_t0).
  - apply icmp_reach_new.
  - split; [done|]. apply not_elem_of_nil.
  - vm_compute. reflexivity.
Qed.

Lemma icmp_flow_accounting_witness :
  iisNil iwit_t1 = false /\ NoDup (ended (echo_log iwit_t1)) /\ size (iconnections iwit_t1) = 1.
Proof.
  split; [vm_compute; reflexivity|]. split; [|vm_compute; reflexivity].
  apply (icmp_flow_accounting [iwit_op] iwit_t1 iwit_reach). vm_compute. reflexivity.
Defined.

Lemma icmp_no_unsolicited_inbound_witness :
  exists op, op ∈ [iwit_op] /\ iop_opens op = Some (mkIKey (Addr4 1) (Addr4 2) 77).
Proof.
  refine (proj1 (proj2 (icmp_no_unsolicited_inbound [iwit_op] iwit_t1
    (IIsValidInbound 6 (Addr4 2) (Addr4 1) 77 0 84 iwit_t1).1
    6 (Addr4 2) (Addr4 1) 77 0 84 iwit_reach _))).
  vm_compute. reflexivity.
Defined.
