(* ===== verification/Checksum.v ===== *)
(** * Internet checksums
      (client/firewall/uspfilter/nat.go, client/firewall/uspfilter/filter.go)

    The checksum routines of the userspace NAT: the unrolled IPv4 header
    checksum, the ICMP checksum with four accumulators, the RFC 1624
    incremental update, and the full TCP recalculation used after MSS
    clamping.  They are compared with one reference definition, the
    ones'-complement sum of the 16-bit words of a byte string (RFC 1071). *)

From Stdlib Require Import ZArith Lia.
From stdpp Require Import base gmap strings numbers countable sorting list.
From S2P Require Import Prelude.

(** ** The code *)

(** [binary.BigEndian.Uint16] of two bytes; [^x] on a [uint16] and a
    [uint8]. *)
Definition Uint16 (b0 b1 : Z) : Z := Z.lor (Z.shiftl b0 8) b1.
Definition not16 (x : Z) : Z := u16 (Z.lnot x).
Definition not8 (x : Z) : Z := u8 (Z.lnot x).

(** The two bytes [binary.BigEndian.PutUint16] writes. *)
Definition Uint16_bytes (v : Z) : list Z := [u8 (Z.shiftr v 8); u8 v].

(** The word at [b[i:i+2]], where the code has checked the length. *)
Definition word_at (b : list Z) (i : nat) : Z := Uint16 (b !!! i) (b !!! (i + 1)).

(** [for i < len(b)-1 { sum += word(b, i); i += 2 }] on what is left of the
    slice, and the trailing byte of an odd-length slice. *)
Fixpoint sum_pairs (b : list Z) (sum : Z) : Z :=
  match b with
  | b0 :: b1 :: rest => sum_pairs rest (u32 (sum + Uint16 b0 b1))
  | _ => sum
  end.

Definition sum_odd (b : list Z) (sum : Z) : Z :=
  if Nat.odd (length b) then u32 (sum + u32 (Z.shiftl (b !!! (length b - 1)) 8)) else sum.

(** The carry fold at the end of the three routines of nat.go. *)
Definition fold_carry (sum : Z) : Z :=
  let sum := u32 (Z.land sum 65535 + Z.shiftr sum 16) in
  let sum := if (65535 <? sum)%Z then u32 (sum + 1) else sum in
  not16 (u16 sum).

Definition ipv4Checksum (header : list Z) : Z :=
  if decide (length header < 20) then 0
  else
    let sum1 := u32 (0 + word_at header 0) in
    let sum2 := u32 (0 + word_at header 2) in
    let sum1 := u32 (sum1 + word_at header 4) in
    let sum2 := u32 (sum2 + word_at header 6) in
    let sum1 := u32 (sum1 + word_at header 8) in
    let sum2 := u32 (sum2 + word_at header 12) in
    let sum1 := u32 (sum1 + word_at header 14) in
    let sum2 := u32 (sum2 + word_at header 16) in
    let sum1 := u32 (sum1 + word_at header 18) in
    let sum := u32 (sum1 + sum2) in
    let sum := sum_pairs (drop 20 header) sum in
    let sum := sum_odd header sum in
    fold_carry sum.

(** The four accumulators over blocks of 16 bytes; what is left of the slice
    is returned with them. *)
Fixpoint icmp_blocks (data : list Z) (s1 s2 s3 s4 : Z) : list Z * (Z * Z * Z * Z) :=
  match data with
  | a0 :: a1 :: a2 :: a3 :: a4 :: a5 :: a6 :: a7 ::
    a8 :: a9 :: a10 :: a11 :: a12 :: a13 :: a14 :: a15 :: rest =>
      icmp_blocks rest
        (u32 (u32 (s1 + Uint16 a0 a1) + Uint16 a8 a9))
        (u32 (u32 (s2 + Uint16 a2 a3) + Uint16 a10 a11))
        (u32 (u32 (s3 + Uint16 a4 a5) + Uint16 a12 a13))
        (u32 (u32 (s4 + Uint16 a6 a7) + Uint16 a14 a15))
  | _ => (data, (s1, s2, s3, s4))
  end.

Definition icmpChecksum (data : list Z) : Z :=
  let '(rest, (sum1, sum2, sum3, sum4)) := icmp_blocks data 0 0 0 0 in
  let sum := u32 (u32 (u32 (sum1 + sum2) + sum3) + sum4) in
  let sum := sum_pairs rest sum in
  let sum := sum_odd data sum in
  fold_carry sum.

(** The complemented old words of [incrementalUpdate]. *)
Fixpoint sum_not_pairs (b : list Z) (sum : Z) : Z :=
  match b with
  | b0 :: b1 :: rest => sum_not_pairs rest (u32 (sum + not16 (Uint16 b0 b1)))
  | _ => sum
  end.

Definition sum_not_odd (b : list Z) (sum : Z) : Z :=
  if Nat.odd (length b)
  then u32 (sum + u32 (Z.shiftl (not8 (b !!! (length b - 1))) 8)) else sum.

Definition incrementalUpdate (oldChecksum : Z) (oldBytes newBytes : list Z) : Z :=
  let sum := not16 oldChecksum in
  let sum :=
    if decide (length oldBytes = 4 /\ length newBytes = 4) then
      let sum := u32 (sum + not16 (word_at oldBytes 0)) in
      let sum := u32 (sum + not16 (word_at oldBytes 2)) in
      let sum := u32 (sum + word_at newBytes 0) in
      u32 (sum + word_at newBytes 2)
    else
      let sum := sum_not_pairs oldBytes sum in
      let sum := sum_not_odd oldBytes sum in
      let sum := sum_pairs newBytes sum in
      sum_odd newBytes sum in
  fold_carry sum.

(** ** The reference *)
Definition byte (b : Z) : Prop := (0 <= b < 256)%Z.

Fixpoint wsum (l : list Z) : Z :=
  match l with
  | x :: y :: rest => 256 * x + y + wsum rest
  | [x] => 256 * x
  | [] => 0
  end.

(** The ones'-complement representative of a sum in [0, 0xFFFF]. *)
Definition norm16 (s : Z) : Z := if (s =? 0)%Z then 0 else ((s - 1) mod 65535 + 1)%Z.

Definition rfc1071 (l : list Z) : Z := 65535 - norm16 (wsum l).

(** A byte string whose checksum field is filled in verifies when its
    ones'-complement sum is zero, that is a multiple of 0xFFFF. *)
Definition verifies (l : list Z) : Prop := (wsum l mod 65535 = 0)%Z.

(** ** Arithmetic *)
Lemma Uint16_eq b0 b1 : byte b1 -> Uint16 b0 b1 = (256 * b0 + b1)%Z.
Proof. intros H. unfold Uint16. rewrite lor_shiftl_add by (unfold byte in H; lia). lia. Qed.

Lemma Uint16_bytes_eq v : (0 <= v < 65536)%Z ->
  exists b0 b1, Uint16_bytes v = [b0; b1] /\ byte b0 /\ byte b1 /\ v = (256 * b0 + b1)%Z.
Proof.
  intros Hv. eexists _, _. split; [reflexivity|]. unfold byte.
  rewrite Z.shiftr_div_pow2 by lia. unfold u8. change (2 ^ 8)%Z with 256%Z.
  split_and!; try apply Z.mod_pos_bound; try lia.
  rewrite (Z.mod_small (v / 256)); Z.div_mod_to_equations; lia.
Qed.

Lemma not16_eq x : (0 <= x < 65536)%Z -> not16 x = (65535 - x)%Z.
Proof.
  intros H. unfold not16, u16. unfold Z.lnot. change (2 ^ 16)%Z with 65536%Z.
  symmetry. apply (Z.mod_unique _ _ (-1)); unfold Z.pred; lia.
Qed.

Lemma u32_add_l a b : u32 (u32 a + b) = u32 (a + b).
Proof. unfold u32. apply Z.add_mod_idemp_l. lia. Qed.

Lemma u32_add_r a b : u32 (a + u32 b) = u32 (a + b).
Proof. unfold u32. apply Z.add_mod_idemp_r. lia. Qed.

Lemma u32_small a : (0 <= a < 2 ^ 32)%Z -> u32 a = a.
Proof. apply Z.mod_small. Qed.

Lemma fold_carry_eq s : (0 <= s < 2 ^ 32)%Z -> fold_carry s = (65535 - norm16 s)%Z.
Proof.
  intros Hs. unfold fold_carry. cbv zeta.
  replace (Z.land s 65535) with (s mod 65536)%Z by (symmetry; by apply (Z.land_ones s 16)).
  rewrite Z.shiftr_div_pow2 by lia.
  change (2 ^ 16)%Z with 65536%Z. change (2 ^ 32)%Z with 4294967296%Z in *.
  set (q := (s / 65536)%Z). set (r := (s mod 65536)%Z).
  assert (Hqr : s = (65536 * q + r)%Z /\ (0 <= r < 65536)%Z /\ (0 <= q < 65536)%Z).
  { subst q r. Z.div_mod_to_equations. lia. }
  clearbody q r. destruct Hqr as (-> & Hr & Hq).
  rewrite u32_small by lia.
  assert (Hn : norm16 (65536 * q + r) =
    if (65535 <? r + q)%Z then (r + q - 65535)%Z else (r + q)%Z).
  { unfold norm16. destruct (Z.eqb_spec (65536 * q + r) 0).
    - assert (q = 0 /\ r = 0)%Z as [-> ->] by lia. done.
    - destruct (Z.ltb_spec 65535 (r + q)).
      + rewrite <- (Z.mod_unique _ 65535 (q + 1) (r + q - 65536)); lia.
      + rewrite <- (Z.mod_unique _ 65535 q (r + q - 1)); lia. }
  rewrite Hn. destruct (Z.ltb_spec 65535 (r + q)).
  - rewrite u32_small by lia. unfold u16. change (2 ^ 16)%Z with 65536%Z.
    rewrite <- (Z.mod_unique _ 65536 1 (r + q + 1 - 65536)) by lia.
    rewrite not16_eq by lia. lia.
  - unfold u16. rewrite Z.mod_small by (change (2 ^ 16)%Z with 65536%Z; lia).
    apply not16_eq. lia.
Qed.

Lemma norm16_range s : (0 <= s)%Z -> (0 <= norm16 s <= 65535)%Z.
Proof.
  intros H. unfold norm16. destruct (Z.eqb_spec s 0); [lia|].
  pose proof (Z.mod_pos_bound (s - 1) 65535). lia.
Qed.

Lemma norm16_mod s : (norm16 s mod 65535 = s mod 65535)%Z.
Proof.
  unfold norm16. destruct (Z.eqb_spec s 0) as [->|]; [done|].
  rewrite Z.add_mod_idemp_l by lia. f_equal. lia.
Qed.

(** ** Sums over byte strings *)
Lemma list_ind2 {A} (P : list A -> Prop) :
  P [] -> (forall x, P [x]) -> (forall x y l, P l -> P (x :: y :: l)) -> forall l, P l.
Proof.
  intros H0 H1 H2 l. assert (P l /\ forall x, P (x :: l)) as [? _]; [|done].
  induction l as [|x l [IH1 IH2]]; auto.
Qed.

Lemma wsum_bounds l : Forall byte l -> (0 <= wsum l <= 65535 * Z.of_nat (length l))%Z.
Proof.
  induction l as [|x|x y l IH] using list_ind2; intros Hb.
  - simpl. lia.
  - apply Forall_cons in Hb as [Hx _]. unfold byte in Hx. simpl. lia.
  - apply Forall_cons in Hb as [Hx Hb]. apply Forall_cons in Hb as [Hy Hb].
    specialize (IH Hb). unfold byte in *. cbn [wsum length]. lia.
Qed.

Lemma wsum_app a b : Nat.even (length a) = true -> wsum (a ++ b) = (wsum a + wsum b)%Z.
Proof.
  induction a as [|x|x y a IH] using list_ind2; intros He; [done|done|].
  cbn [app wsum]. rewrite IH by done. lia.
Qed.

Lemma odd_len2 {A} (x y : A) l : Nat.odd (length (x :: y :: l)) = Nat.odd (length l).
Proof. done. Qed.

Lemma last_cons2 (x y : Z) l : 0 < length l ->
  (x :: y :: l) !!! (length (x :: y :: l) - 1) = l !!! (length l - 1).
Proof. destruct l as [|z l]; simpl; [lia|]. intros _. by rewrite Nat.sub_0_r. Qed.

(** The pair loop and the odd tail together add the word sum. *)
Lemma sum_pairs_odd l s : Forall byte l ->
  sum_odd l (sum_pairs l (u32 s)) = u32 (s + wsum l).
Proof.
  revert s. induction l as [|x|x y l IH] using list_ind2; intros s Hb.
  - simpl. by rewrite Z.add_0_r.
  - unfold sum_odd. simpl. rewrite u32_add_l, u32_add_r. f_equal.
    rewrite Z.shiftl_mul_pow2 by lia. lia.
  - apply Forall_cons in Hb as [Hx Hb]. apply Forall_cons in Hb as [Hy Hb].
    cbn [sum_pairs]. rewrite u32_add_l, Uint16_eq by done.
    transitivity (sum_odd l (sum_pairs l (u32 (s + (256 * x + y))))).
    + unfold sum_odd. rewrite odd_len2. destruct l as [|z l]; [done|].
      by rewrite last_cons2 by (simpl; lia).
    + rewrite IH by done. f_equal. cbn [wsum]. lia.
Qed.

Lemma sum_odd_suffix a l s : Nat.even (length a) = true ->
  sum_odd (a ++ l) s = sum_odd l s.
Proof.
  intros He. unfold sum_odd. rewrite length_app, Nat.odd_add, <- Nat.negb_even, He.
  change (negb true) with false. rewrite xorb_false_l. destruct (Nat.odd (length l)) eqn:Ho; [|done].
  assert (0 < length l) by (destruct l; [done|simpl; lia]).
  rewrite !list_lookup_total_alt, lookup_app_r by lia.
  replace (length a + length l - 1 - length a) with (length l - 1) by lia. done.
Qed.

Lemma byte_lookup l i : Forall byte l -> byte (l !!! i).
Proof.
  intros Hb. destruct (l !! i) as [b|] eqn:Hi.
  - rewrite (list_lookup_total_correct _ _ _ Hi). by apply (Forall_lookup_1 _ _ _ _ Hb Hi).
  - rewrite list_lookup_total_alt, Hi. done.
Qed.

Lemma word_at_eq l i : Forall byte l ->
  word_at l i = (256 * (l !!! i) + l !!! (i + 1)%nat)%Z.
Proof. intros Hb. apply Uint16_eq, byte_lookup, Hb. Qed.

(** ** The routines against the reference *)
(** An IP packet: bytes, and at most 65535 of them, so that no 32-bit
    accumulator overflows. *)
Definition packet (l : list Z) : Prop := Forall byte l /\ (Z.of_nat (length l) <= 65535)%Z.

Lemma wsum_u32 l : packet l -> u32 (wsum l) = wsum l.
Proof. intros [Hb Hl]. pose proof (wsum_bounds l Hb). apply u32_small. lia. Qed.

Lemma fold_carry_wsum l : packet l -> fold_carry (u32 (wsum l)) = rfc1071 l.
Proof.
  intros Hp. rewrite wsum_u32 by done. destruct Hp as [Hb Hl].
  pose proof (wsum_bounds l Hb). apply fold_carry_eq. lia.
Qed.

Lemma list_split20 (l : list Z) : 20 <= length l ->
  exists a0 a1 a2 a3 a4 a5 a6 a7 a8 a9 a10 a11 a12 a13 a14 a15 a16 a17 a18 a19 r,
    l = [a0; a1; a2; a3; a4; a5; a6; a7; a8; a9; a10; a11; a12; a13; a14; a15; a16; a17;
         a18; a19] ++ r.
Proof.
  intros H. do 20 (destruct l as [|? l]; [simpl in H; lia|]). by repeat eexists.
Qed.

Lemma u32_ex a : exists k, u32 a = (a + k * 2 ^ 32)%Z.
Proof. exists (- (a / 2 ^ 32))%Z. unfold u32. pose proof (Z.div_mod a (2 ^ 32)). lia. Qed.

Lemma u32_cong a b k : a = (b + k * 2 ^ 32)%Z -> u32 a = u32 b.
Proof. intros ->. apply Z.mod_add. lia. Qed.

(** Drop the wrap-arounds under an outer [u32], innermost first. *)
Ltac u32_flatten :=
  repeat match goal with
  | |- context [u32 (u32 ?a + ?b)] =>
      lazymatch a with context [u32 _] => fail | _ => rewrite (u32_add_l a b) end
  | |- context [u32 (?a + u32 ?b)] =>
      lazymatch b with context [u32 _] => fail | _ => rewrite (u32_add_r a b) end
  end.

Lemma icmp_step s1 s2 s3 s4 a1 a2 a3 a4 b1 b2 b3 b4 w :
  u32 (u32 (u32 (s1 + a1) + b1) + u32 (u32 (s2 + a2) + b2) +
       u32 (u32 (s3 + a3) + b3) + u32 (u32 (s4 + a4) + b4) + w) =
  u32 (s1 + s2 + s3 + s4 + (a1 + a2 + a3 + a4 + b1 + b2 + b3 + b4 + w)).
Proof.
  rewrite !u32_add_l.
  destruct (u32_ex (s1 + a1 + b1)) as [k1 ->], (u32_ex (s2 + a2 + b2)) as [k2 ->],
    (u32_ex (s3 + a3 + b3)) as [k3 ->], (u32_ex (s4 + a4 + b4)) as [k4 ->].
  apply (u32_cong _ _ (k1 + k2 + k3 + k4)). lia.
Qed.

Lemma icmp_blocks_spec n : forall data s1 s2 s3 s4 rest t1 t2 t3 t4,
  length data <= n ->
  Forall byte data -> icmp_blocks data s1 s2 s3 s4 = (rest, (t1, t2, t3, t4)) ->
  exists blocks, data = blocks ++ rest /\ Nat.even (length blocks) = true /\
    u32 (t1 + t2 + t3 + t4) = u32 (s1 + s2 + s3 + s4 + wsum blocks).
Proof.
  induction n as [|n IH]; intros data s1 s2 s3 s4 rest t1 t2 t3 t4 Hn Hb Heq.
  { destruct data; [|simpl in Hn; lia]. simpl in Heq. simplify_eq.
    exists []. by rewrite Z.add_0_r. }
  do 16 (destruct data as [|? data];
    [simpl in Heq; simplify_eq; exists []; rewrite Z.add_0_r; done|]).
  cbn [icmp_blocks] in Heq.
  do 16 (apply Forall_cons in Hb as [? Hb]). rewrite !Uint16_eq in Heq by done.
  apply IH in Heq as (blocks & -> & He & Hs); [|simpl in Hn; lia|done].
  eexists (_ :: _ :: _ :: _ :: _ :: _ :: _ :: _ :: _ :: _ :: _ :: _ :: _ :: _ :: _ :: _ :: blocks).
  split; [reflexivity|]. split; [done|]. rewrite Hs, icmp_step. cbn [wsum].
  f_equal. lia.
Qed.

Lemma icmpChecksum_eq data : packet data -> icmpChecksum data = rfc1071 data.
Proof.
  intros Hp. pose proof Hp as [Hb _]. unfold icmpChecksum.
  destruct (icmp_blocks data 0 0 0 0) as [rest [[[t1 t2] t3] t4]] eqn:Hbl.
  pose proof (icmp_blocks_spec _ _ _ _ _ _ _ _ _ _ _ (le_n _) Hb Hbl)
    as (blocks & Hd & He & Hs).
  cbv zeta. u32_flatten. rewrite Hs. rewrite Hd at 1. rewrite sum_odd_suffix by done.
  rewrite sum_pairs_odd; [|rewrite Hd, Forall_app in Hb; apply Hb].
  rewrite <- fold_carry_wsum by done. do 2 f_equal. rewrite Hd, wsum_app by done. lia.
Qed.

(** The header with its checksum field cleared. *)
Definition clear_checksum (h : list Z) : list Z := take 10 h ++ [0; 0]%Z ++ drop 12 h.

Lemma ipv4Checksum_eq h : packet h -> 20 <= length h ->
  ipv4Checksum h = rfc1071 (clear_checksum h).
Proof.
  intros [Hb Hl] H20. unfold ipv4Checksum. rewrite decide_False by lia.
  rewrite !word_at_eq by done.
  destruct (list_split20 h H20) as (a0 & a1 & a2 & a3 & a4 & a5 & a6 & a7 & a8 & a9 & a10 &
    a11 & a12 & a13 & a14 & a15 & a16 & a17 & a18 & a19 & r & ->).
  cbv zeta. rewrite sum_odd_suffix by done.
  change (drop 20 _) with r. cbn [lookup_total list_lookup_total app Nat.add].
  u32_flatten.
  set (s := (_ + _)%Z) at 1. rewrite Forall_app in Hb. destruct Hb as [Ha Hr].
  rewrite sum_pairs_odd by done.
  set (h' := clear_checksum _).
  assert (Hh' : packet h').
  { split.
    - subst h'. unfold clear_checksum. cbn [app take drop].
      repeat (apply Forall_cons in Ha as [? Ha]).
      repeat (apply Forall_cons; split; [done|]). done.
    - subst h'. unfold clear_checksum. cbn [app take drop length] in *. lia. }
  rewrite <- fold_carry_wsum by done. do 2 f_equal. subst s h'. clear.
  unfold clear_checksum. cbn [app take drop wsum]. lia.
Qed.

(** ** The incremental update *)
Lemma sum_not_pairs_eq l s : Forall byte l -> Nat.even (length l) = true ->
  sum_not_pairs l (u32 s) = u32 (s + (65535 * Z.of_nat (Nat.div2 (length l)) - wsum l)).
Proof.
  revert s. induction l as [|x|x y l IH] using list_ind2; intros s Hb He; [|done|].
  - simpl. f_equal. lia.
  - apply Forall_cons in Hb as [Hx Hb]. apply Forall_cons in Hb as [Hy Hb].
    cbn [sum_not_pairs]. rewrite Uint16_eq by done. unfold byte in Hx, Hy.
    rewrite not16_eq by lia.
    rewrite u32_add_l, IH by done. f_equal. cbn [length Nat.div2 wsum]. lia.
Qed.

Lemma even_not_odd n : Nat.even n = true -> Nat.odd n = false.
Proof. intros H. by rewrite <- Nat.negb_even, H. Qed.

(** Both paths of the routine fold the same sum. *)
Lemma incrementalUpdate_sum c old new :
  (0 <= c < 65536)%Z -> Forall byte old -> Forall byte new ->
  Nat.even (length old) = true -> Nat.even (length new) = true ->
  incrementalUpdate c old new =
  fold_carry (u32 (65535 - c + (65535 * Z.of_nat (Nat.div2 (length old)) - wsum old) + wsum new)).
Proof.
  intros Hc Ho Hn Eo En. unfold incrementalUpdate. cbv zeta. f_equal.
  rewrite not16_eq by done. case_decide as H4.
  - destruct H4 as [L4 L4'].
    destruct old as [|o0 [|o1 [|o2 [|o3 [|]]]]]; try done.
    destruct new as [|n0 [|n1 [|n2 [|n3 [|]]]]]; try done.
    rewrite !word_at_eq by done. cbn [lookup_total list_lookup_total Nat.add].
    do 4 (apply Forall_cons in Ho as [? Ho]; apply Forall_cons in Hn as [? Hn]).
    unfold byte in *. rewrite !not16_eq by lia. u32_flatten.
    f_equal. cbn [length Nat.div2 wsum]. lia.
  - rewrite <- (u32_small (65535 - c)) by lia.
    rewrite sum_not_pairs_eq by done. unfold sum_not_odd.
    rewrite (even_not_odd (length old)) by done.
    rewrite sum_pairs_odd by done. u32_flatten. rewrite (u32_small (65535 - c)) by lia. done.
Qed.

Lemma wsum_even_bound l : Forall byte l -> Nat.even (length l) = true ->
  (wsum l <= 65535 * Z.of_nat (Nat.div2 (length l)))%Z /\
  2 * Nat.div2 (length l) = length l.
Proof.
  induction l as [|x|x y l IH] using list_ind2; intros Hb He; [done|done|].
  apply Forall_cons in Hb as [Hx Hb]. apply Forall_cons in Hb as [Hy Hb].
  destruct (IH Hb He) as [IH1 IH2]. unfold byte in *. cbn [length Nat.div2 wsum].
  revert IH1 IH2. generalize (Nat.div2 (length l)). lia.
Qed.

Lemma incrementalUpdate_mod c old new :
  (0 <= c < 65536)%Z -> packet old -> packet new ->
  Nat.even (length old) = true -> length new = length old ->
  (0 <= incrementalUpdate c old new < 65536)%Z /\
  ((incrementalUpdate c old new + wsum new) mod 65535 = (c + wsum old) mod 65535)%Z.
Proof.
  intros Hc [Ho Lo] [Hn Ln] Eo En. rewrite incrementalUpdate_sum by (rewrite ?En; done).
  pose proof (wsum_even_bound old Ho Eo) as [Bo Bk].
  pose proof (wsum_even_bound new Hn ltac:(by rewrite En)) as [Bn _]. rewrite En in Bn.
  pose proof (wsum_bounds new Hn) as [Pn _]. pose proof (wsum_bounds old Ho) as [Po _].
  revert Bo Bk Bn. generalize (Nat.div2 (length old)) as d. intros d Bo Bk Bn.
  set (k := Z.of_nat d) in *.
  assert (0 <= k <= 32767)%Z by lia.
  clearbody k.
  rewrite u32_small by lia. rewrite fold_carry_eq by lia.
  set (S := (65535 - c + (65535 * k - wsum old) + wsum new)%Z).
  pose proof (norm16_range S ltac:(lia)). split; [lia|].
  transitivity ((- norm16 S + wsum new) mod 65535)%Z.
  { replace (65535 - norm16 S + wsum new)%Z with (- norm16 S + wsum new + 1 * 65535)%Z by lia.
    apply Z.mod_add. lia. }
  pose proof (norm16_mod S) as Hm.
  assert (exists q, norm16 S = S + q * 65535)%Z as [q ->].
  { exists (norm16 S / 65535 - S / 65535)%Z.
    pose proof (Z.div_mod (norm16 S) 65535). pose proof (Z.div_mod S 65535). lia. }
  subst S. replace (- _ + wsum new)%Z with (c + wsum old + (- q - 1 - k) * 65535)%Z by lia.
  apply Z.mod_add. lia.
Qed.

(** ** The theorems *)

(** C36: the optimised checksum routines compute the Internet checksum.  For
    every packet the unrolled IPv4 header checksum (which skips the checksum
    field) and the four-accumulator ICMP checksum equal the RFC 1071
    ones'-complement checksum: no accumulator wraps and the single carry fold
    is always enough. *)
Theorem checksums_match_rfc1071 (l : list Z) :
  packet l ->
  icmpChecksum l = rfc1071 l /\
  (20 <= length l -> ipv4Checksum l = rfc1071 (clear_checksum l)).
Proof. intros Hp. split; [by apply icmpChecksum_eq|]. by apply ipv4Checksum_eq. Qed.

(** the incremental update is sound.  Replacing an even-length part of a
    packet and its checksum by the new bytes and the updated checksum leaves
    the ones'-complement sum of the whole unchanged, so a packet that
    verified before verifies after, whatever else it contains. *)
Theorem incremental_update_sound (c : Z) (old new before after : list Z) :
  (0 <= c < 65536)%Z -> packet old -> packet new ->
  Nat.even (length old) = true -> length new = length old ->
  Nat.even (length before) = true -> Nat.even (length after) = true ->
  verifies (before ++ old ++ after ++ Uint16_bytes c) ->
  verifies (before ++ new ++ after ++ Uint16_bytes (incrementalUpdate c old new)).
Proof.
  intros Hc Ho Hn Eo En Eb Ea. unfold verifies.
  destruct (incrementalUpdate_mod c old new) as [Hr Hm]; [done..|].
  assert (W : forall x y, (0 <= y < 65536)%Z -> Nat.even (length x) = true ->
    wsum (before ++ x ++ after ++ Uint16_bytes y) =
    (wsum before + wsum after + (y + wsum x))%Z).
  { intros x y Hy Ex. destruct (Uint16_bytes_eq y Hy) as (b0 & b1 & -> & _ & _ & Ey).
    rewrite !wsum_app by done. cbn [wsum]. lia. }
  rewrite !W by (rewrite ?En; done). rewrite <- !(Z.add_mod_idemp_r _ (_ + wsum _)) by lia.
  by rewrite Hm.
Qed.

(** ** Witnesses *)
Definition wit_icmp : list Z := [8; 0; 0; 0; 18; 52; 0; 1; 97; 98; 99]%Z.

Lemma checksums_match_rfc1071_witness :
  icmpChecksum wit_icmp = rfc1071 wit_icmp /\ rfc1071 wit_icmp = 8552%Z.
Proof.
  split; [|vm_compute; reflexivity].
  apply (checksums_match_rfc1071 wit_icmp). split; [by_decide|vm_compute; congruence].
Defined.

Lemma incremental_update_sound_witness :
  verifies ([18; 52] ++ [10; 0; 0; 1] ++ [] ++ Uint16_bytes (65535 - 4660 - 2561))%Z /\
  verifies ([18; 52] ++ [10; 0; 9; 9] ++ [] ++
    Uint16_bytes (incrementalUpdate (65535 - 4660 - 2561) [10; 0; 0; 1] [10; 0; 9; 9]))%Z.
Proof.
  split; [vm_compute; reflexivity|].
  apply (incremental_update_sound _ [10; 0; 0; 1]%Z [10; 0; 9; 9]%Z [18; 52]%Z []);
    try done; try (split; [by_decide|vm_compute; congruence]); vm_compute; congruence.
Defined.
