(* ===== verification/UspPacket.v ===== *)
(** * Decoded packets of the userspace firewall
      (client/firewall/uspfilter: filter.go, localip.go, common/hooks.go)

    What the filter reads of a packet after gopacket has decoded it, the
    helpers that classify it, the set of local addresses and the packet hooks.
    The layers are those of gopacket's [DecodingLayerParser]; the parsers
    themselves are parameters of the filter. *)

From Stdlib Require Import ZArith Lia.
From stdpp Require Import base gmap strings numbers countable sorting list.
From S2P Require Import Prelude Netip Checksum ConntrackCommon ConntrackTCP ConntrackICMP.

(** ** Layers *)
Inductive LayerType : Type :=
| LayerTypeZero
| LayerTypeIPv4 | LayerTypeIPv6
| LayerTypeTCP | LayerTypeUDP | LayerTypeICMPv4 | LayerTypeICMPv6
| layerTypeAll
| LayerTypeOther (n : Z).

#[global] Instance LayerType_eq_dec : EqDecision LayerType.
Proof. solve_decision. Defined.

#[global] Instance LayerType_countable : Countable LayerType.
Proof.
  refine (inj_countable'
    (fun l => match l with
              | LayerTypeZero => inl 0%Z | LayerTypeIPv4 => inl 1%Z | LayerTypeIPv6 => inl 2%Z
              | LayerTypeTCP => inl 3%Z | LayerTypeUDP => inl 4%Z
              | LayerTypeICMPv4 => inl 5%Z | LayerTypeICMPv6 => inl 6%Z
              | layerTypeAll => inl 7%Z | LayerTypeOther n => inr n
              end)
    (fun s => match s with
              | inl 0%Z => LayerTypeZero | inl 1%Z => LayerTypeIPv4 | inl 2%Z => LayerTypeIPv6
              | inl 3%Z => LayerTypeTCP | inl 4%Z => LayerTypeUDP
              | inl 5%Z => LayerTypeICMPv4 | inl 6%Z => LayerTypeICMPv6
              | inl _ => layerTypeAll | inr n => LayerTypeOther n
              end) _).
  by intros [].
Defined.

Record TCPLayer : Type := mkTCPLayer {
  tcp_SrcPort : Z;
  tcp_DstPort : Z;
  tcp_SYN : bool; tcp_ACK : bool; tcp_FIN : bool; tcp_RST : bool; tcp_PSH : bool; tcp_URG : bool;
  tcp_Options : list (Z * list Z)
}.

Record Layers : Type := mkLayers {
  decoded : list LayerType;
  ip4_SrcIP : list Z;
  ip4_DstIP : list Z;
  ip4_IHL : Z;
  ip4_Protocol : Z;
  ip4_Flags : Z;
  ip4_FragOffset : Z;
  ip6_SrcIP : list Z;
  ip6_DstIP : list Z;
  ip6_NextHeader : Z;
  tcp : TCPLayer;
  udp_SrcPort : Z;
  udp_DstPort : Z;
  icmp4_Id : Z;
  icmp4_TypeCode : Z;
  icmp6_TypeCode : Z;
  icmp6_Payload : list Z
}.

(** A pooled decoder: the layers of the last packet, and the port a port
    DNAT rule replaced. *)
Record decoder : Type := mkDecoder { layers_ : Layers; dnatOrigPort : Z }.

(** ** Errors of the package *)
Inductive usp_error : Type :=
| ErrDecode
| ErrEmptyPacket
| ErrUnknownIPVersion (v : Z)
| ErrInvalidIPHeaderLength
| ErrUnknownIPLayer
| ErrFamilyMismatch
| ErrPacketTooShort
| ErrInvalidOriginalIP
| ErrInvalidTranslatedIP
| ErrMapToLocalIP
| ErrMappingNotFound
| ErrUnsupportedProtocol
| ErrNatNotSupported
| ErrInvalidIP
| ErrRuleNotFound
| ErrRuleNotFoundInSlice
| ErrSetNotFound
| ErrForwardingNotSupported
| ErrCreateForwarder
| ErrNative.

#[global] Instance usp_error_eq_dec : EqDecision usp_error.
Proof. solve_decision. Defined.

Notation M := (res usp_error).

(** [d.decoded[i]] *)
Definition layer_at (d : Layers) (i : nat) : M LayerType := go_index (decoded d) i.

(** ** Decoding

    [parser4] and [parser6] are gopacket's parsers: they overwrite the layers
    of the decoder and report whether they failed. *)
Definition decodePacket (parser4 parser6 : list Z -> Layers -> Layers * bool)
    (data : list Z) (d : decoder) : decoder * option usp_error :=
  match data with
  | [] => (d, Some ErrEmptyPacket)
  | b0 :: _ =>
      let version := Z.shiftr b0 4 in
      let run p := let '(l, ok) := p data (layers_ d) in
                   (mkDecoder l (dnatOrigPort d),
                    if ok : bool then None else Some ErrDecode) in
      if (version =? 4)%Z then run parser4
      else if (version =? 6)%Z then run parser6
      else (d, Some (ErrUnknownIPVersion version))
  end.

Definition extractIPs (d : Layers) : M (Addr * Addr) :=
  l0 ← layer_at d 0;
  match l0 with
  | LayerTypeIPv4 => Ok (AddrFromSlice (ip4_SrcIP d), AddrFromSlice (ip4_DstIP d))
  | LayerTypeIPv6 => Ok (AddrFromSlice (ip6_SrcIP d), AddrFromSlice (ip6_DstIP d))
  | _ => Ok (AddrInvalid, AddrInvalid)
  end.

Definition getTCPFlags (t : TCPLayer) : Z :=
  let flags := 0%Z in
  let flags := if tcp_SYN t then Z.lor flags TCPSyn else flags in
  let flags := if tcp_ACK t then Z.lor flags TCPAck else flags in
  let flags := if tcp_FIN t then Z.lor flags TCPFin else flags in
  let flags := if tcp_RST t then Z.lor flags TCPRst else flags in
  let flags := if tcp_PSH t then Z.lor flags TCPPush else flags in
  if tcp_URG t then Z.lor flags TCPUrg else flags.

(** ** Protocol constants of the layers package *)
Definition IPv4MoreFragments : Z := 1.
Definition IPProtocolIPv6Fragment : Z := 44.
Definition IPProtocolTCP : Z := 6.
Definition ICMPv4TypeDestinationUnreachable : Z := 3.
Definition ICMPv4TypeTimeExceeded : Z := 11.
Definition ICMPv6TypeDestinationUnreachable : Z := 1.
Definition ICMPv6TypePacketTooBig : Z := 2.
Definition ICMPv6TypeTimeExceeded : Z := 3.
Definition ICMPv6TypeParameterProblem : Z := 4.
Definition ICMPv6TypeEchoRequest : Z := 128.
Definition TCPOptionKindEndList : Z := 0.
Definition TCPOptionKindNop : Z := 1.
Definition TCPOptionKindMSS : Z := 2.
Definition CreateICMPv4TypeCode (typ code : Z) : Z := Z.lor (Z.shiftl typ 8) code.

(** The echo identifier and the ICMPv4 type code an ICMPv6 packet is tracked
    under. *)
Definition icmpv6EchoFields (d : Layers) : Z * Z :=
  let id := match icmp6_Payload d with
            | b0 :: b1 :: _ => Uint16 b0 b1
            | _ => 0%Z
            end in
  let typ := tc_Type (icmp6_TypeCode d) in
  let tc := if (typ =? ICMPv6TypeEchoRequest)%Z then
              CreateICMPv4TypeCode ICMPv4TypeEchoRequest 0
            else if (typ =? ICMPv6TypeEchoReply)%Z then
              CreateICMPv4TypeCode ICMPv4TypeEchoReply 0
            else CreateICMPv4TypeCode typ (tc_Code (icmp6_TypeCode d)) in
  (id, tc).

Definition getProtocolFromPacket (d : Layers) : M Z :=
  l1 ← layer_at d 1;
  Ok match l1 with
     | LayerTypeTCP => TCP
     | LayerTypeUDP => UDP
     | LayerTypeICMPv4 => ICMP
     | LayerTypeICMPv6 => ICMPv6
     | _ => 0%Z
     end.

Definition getPortsFromPacket (d : Layers) : M (Z * Z) :=
  l1 ← layer_at d 1;
  Ok match l1 with
     | LayerTypeTCP => (tcp_SrcPort (tcp d), tcp_DstPort (tcp d))
     | LayerTypeUDP => (udp_SrcPort d, udp_DstPort d)
     | _ => (0, 0)%Z
     end.

(** Valid, and a fragment. *)
Definition isValidPacket (parser4 parser6 : list Z -> Layers -> Layers * bool)
    (d : decoder) (packetData : list Z) : decoder * (bool * bool) :=
  let '(d, err) := decodePacket parser4 parser6 packetData d in
  match err with
  | Some _ => (d, (false, false))
  | None =>
      let l := layers_ d in
      match decoded l with
      | _ :: _ :: _ => (d, (true, false))
      | [LayerTypeIPv4] =>
          if negb (Z.land (ip4_Flags l) IPv4MoreFragments =? 0)%Z ||
             negb (ip4_FragOffset l =? 0)%Z
          then (d, (true, true)) else (d, (false, false))
      | [LayerTypeIPv6] =>
          if (ip6_NextHeader l =? IPProtocolIPv6Fragment)%Z
          then (d, (true, true)) else (d, (false, false))
      | _ => (d, (false, false))
      end
  end.

Definition isSpecialICMP (d : Layers) : M bool :=
  l1 ← layer_at d 1;
  Ok match l1 with
     | LayerTypeICMPv4 =>
         let icmpType := tc_Type (icmp4_TypeCode d) in
         (icmpType =? ICMPv4TypeDestinationUnreachable)%Z ||
         (icmpType =? ICMPv4TypeTimeExceeded)%Z
     | LayerTypeICMPv6 =>
         let icmpType := tc_Type (icmp6_TypeCode d) in
         (icmpType =? ICMPv6TypeDestinationUnreachable)%Z ||
         (icmpType =? ICMPv6TypePacketTooBig)%Z ||
         (icmpType =? ICMPv6TypeTimeExceeded)%Z ||
         (icmpType =? ICMPv6TypeParameterProblem)%Z
     | _ => false
     end.

(** ** Local addresses (localip.go)

    What the operating system reports of an interface: nothing, when
    [iface.Addrs] fails, or its addresses; an address that is neither an
    [*net.IPNet] nor an [*net.IPAddr] is skipped. *)
Inductive ifaddr : Type :=
| IPNetAddr (ip : list Z)
| IPAddrAddr (ip : list Z)
| OtherAddr.

Definition process_addr (ips : gset Addr) (a : ifaddr) : gset Addr :=
  match a with
  | IPNetAddr ip | IPAddrAddr ip =>
      let parsed := AddrFromSlice ip in
      if IsValid parsed then {[ Unmap parsed ]} ∪ ips else ips
  | OtherAddr => ips
  end.

Definition processInterface (ips : gset Addr) (addrs : option (list ifaddr)) : gset Addr :=
  match addrs with
  | None => ips
  | Some l => foldl process_addr ips l
  end.

Definition loopback4 : Addr := AddrFrom4 [127; 0; 0; 1]%Z.
Definition loopback6 : Addr := Addr6 1 EmptyString.

(** [iface] is the WireGuard interface's pair of addresses, if there is one;
    [interfaces] is [net.Interfaces()]. *)
Definition UpdateLocalIPs (iface : option (Addr * Addr))
    (interfaces : option (list (option (list ifaddr)))) : gset Addr :=
  let ips := {[ loopback6 ]} ∪ {[ loopback4 ]} in
  let ips := match iface with
             | None => ips
             | Some (ip, v6) =>
                 let ips := {[ ip ]} ∪ ips in
                 if IsValid v6 then {[ v6 ]} ∪ ips else ips
             end in
  match interfaces with
  | None => ips
  | Some l => foldl processInterface ips l
  end.

Definition IsLocalIP (ips : gset Addr) (ip : Addr) : bool :=
  match ip with
  | Addr4 v => if (u8 (Z.shiftr v 24) =? 127)%Z then true else bool_decide (ip ∈ ips)
  | _ => bool_decide (ip ∈ ips)
  end.

(** ** Packet hooks (common/hooks.go) *)
Record PacketHook : Type := mkHook {
  HookIP : Addr;
  HookPort : Z;
  HookFn : list Z -> bool
}.

Definition HookMatches (h : option PacketHook) (dstIP : Addr) (dport : Z)
    (packetData : list Z) : bool :=
  match h with
  | None => false
  | Some h =>
      if bool_decide (HookIP h = dstIP) && (HookPort h =? dport)%Z
      then HookFn h packetData else false
  end.

Definition SetHook (ip : Addr) (dPort : Z) (hook : option (list Z -> bool))
    : option PacketHook :=
  match hook with
  | None => None
  | Some f => Some (mkHook ip dPort f)
  end.
