(* ===== verification/UspNat.v ===== *)
(** * Packet rewriting and NAT of the userspace firewall
      (client/firewall/uspfilter/nat.go)

    The 1:1 DNAT maps, the port redirection rules, and the in-place rewriting
    of addresses and ports with the repair of the IPv4, TCP, UDP and ICMP
    checksums.  A packet is a list of bytes; a function that mutates
    [packetData] returns the new packet.  Out-of-range accesses are panics. *)

From Stdlib Require Import ZArith Lia.
From stdpp Require Import base gmap strings numbers countable sorting list.
From S2P Require Import Prelude Netip Checksum UspPacket.

Definition sourcePortOffset : nat := 0.
Definition destinationPortOffset : nat := 2.
Definition ipv4SrcOffset : nat := 12.
Definition ipv4DstOffset : nat := 16.
Definition ipv6SrcOffset : nat := 8.
Definition ipv6DstOffset : nat := 24.
Definition ipv6HeaderLen : nat := 40.

(** [binary.BigEndian.Uint16(p[o:o+2])], [binary.BigEndian.PutUint16(p[o:o+2], v)] *)
Definition get16 (p : list Z) (o : nat) : M Z :=
  if decide (o + 2 <= length p) then Ok (word_at p o) else Panic.

Definition put16 (p : list Z) (o : nat) (v : Z) : M (list Z) :=
  if decide (o + 2 <= length p) then Ok (copy_into p o (Uint16_bytes v)) else Panic.

Definition ipHeaderLen (d : Layers) : M nat :=
  l0 ← layer_at d 0;
  match l0 with
  | LayerTypeIPv4 =>
      let n := (ip4_IHL d * 4)%Z in
      if (n <? 20)%Z then Err ErrInvalidIPHeaderLength else Ok (Z.to_nat n)
  | LayerTypeIPv6 => Ok ipv6HeaderLen
  | _ => Err ErrUnknownIPLayer
  end.

(** ** Checksum repair *)
Definition updateTCPChecksum (p : list Z) (hdr : nat) (oldIP newIP : list Z) : M (list Z) :=
  if decide (length p < hdr + 18) then Ok p
  else
    oldChecksum ← get16 p (hdr + 16);
    put16 p (hdr + 16) (incrementalUpdate oldChecksum oldIP newIP).

Definition updateUDPChecksum (p : list Z) (hdr : nat) (oldIP newIP : list Z) : M (list Z) :=
  if decide (length p < hdr + 8) then Ok p
  else
    oldChecksum ← get16 p (hdr + 6);
    if (oldChecksum =? 0)%Z then Ok p
    else put16 p (hdr + 6) (incrementalUpdate oldChecksum oldIP newIP).

Definition updateICMPChecksum (p : list Z) (hdr : nat) : M (list Z) :=
  if decide (length p < hdr + 8) then Ok p
  else
    p ← put16 p (hdr + 2) 0;
    let checksum := icmpChecksum (drop hdr p) in
    put16 p (hdr + 2) checksum.

Definition updateICMPv6Checksum (p : list Z) (hdr : nat) (oldIP newIP : list Z) : M (list Z) :=
  if decide (length p < hdr + 4) then Ok p
  else
    oldChecksum ← get16 p (hdr + 2);
    put16 p (hdr + 2) (incrementalUpdate oldChecksum oldIP newIP).

(** ** Address rewriting *)
Definition rewriteIPv4 (p : list Z) (d : Layers) (newIP : Addr) (hdr : nat) (isSource : bool)
    : M (list Z) :=
  if negb (Is4 newIP) then Err ErrFamilyMismatch
  else
    let offset := if isSource then ipv4SrcOffset else ipv4DstOffset in
    oldIP ← go_slice p offset (offset + 4);
    let newIPBytes := AsSlice newIP in
    let p := copy_into p offset newIPBytes in
    p ← put16 p 10 0;
    header ← go_slice p 0 hdr;
    p ← put16 p 10 (ipv4Checksum header);
    match decoded d !! 1 with
    | Some LayerTypeTCP => updateTCPChecksum p hdr oldIP newIPBytes
    | Some LayerTypeUDP => updateUDPChecksum p hdr oldIP newIPBytes
    | Some LayerTypeICMPv4 => updateICMPChecksum p hdr
    | _ => Ok p
    end.

Definition rewriteIPv6 (p : list Z) (d : Layers) (newIP : Addr) (hdr : nat) (isSource : bool)
    : M (list Z) :=
  if negb (Is6 newIP) then Err ErrFamilyMismatch
  else
    let offset := if isSource then ipv6SrcOffset else ipv6DstOffset in
    oldIP ← go_slice p offset (offset + 16);
    let newIPBytes := AsSlice newIP in
    let p := copy_into p offset newIPBytes in
    match decoded d !! 1 with
    | Some LayerTypeTCP => updateTCPChecksum p hdr oldIP newIPBytes
    | Some LayerTypeUDP => updateUDPChecksum p hdr oldIP newIPBytes
    | Some LayerTypeICMPv6 => updateICMPv6Checksum p hdr oldIP newIPBytes
    | _ => Ok p
    end.

Definition rewritePacketIP (p : list Z) (d : Layers) (newIP : Addr) (isSource : bool)
    : M (list Z) :=
  hdrLen ← ipHeaderLen d;
  l0 ← layer_at d 0;
  match l0 with
  | LayerTypeIPv4 => rewriteIPv4 p d newIP hdrLen isSource
  | LayerTypeIPv6 => rewriteIPv6 p d newIP hdrLen isSource
  | _ => Err ErrUnknownIPLayer
  end.

Definition extractPacketIPs (p : list Z) (d : Layers) : M (Addr * Addr) :=
  l0 ← layer_at d 0;
  match l0 with
  | LayerTypeIPv4 =>
      src ← go_slice p ipv4SrcOffset (ipv4SrcOffset + 4);
      dst ← go_slice p ipv4DstOffset (ipv4DstOffset + 4);
      Ok (AddrFrom4 src, AddrFrom4 dst)
  | LayerTypeIPv6 =>
      src ← go_slice p ipv6SrcOffset (ipv6SrcOffset + 16);
      dst ← go_slice p ipv6DstOffset (ipv6DstOffset + 16);
      Ok (AddrFrom16 src, AddrFrom16 dst)
  | _ => Ok (AddrInvalid, AddrInvalid)
  end.

(** ** Port rewriting *)
Definition rewriteTCPPort (p : list Z) (d : Layers) (newPort : Z) (portOffset : nat)
    : M (list Z) :=
  tcpStart ← ipHeaderLen d;
  if decide (length p < tcpStart + 4) then Err ErrPacketTooShort
  else
    let portStart := tcpStart + portOffset in
    oldPort ← get16 p portStart;
    p ← put16 p portStart newPort;
    if decide (tcpStart + 18 <= length p) then
      oldChecksum ← get16 p (tcpStart + 16);
      put16 p (tcpStart + 16)
        (incrementalUpdate oldChecksum (Uint16_bytes oldPort) (Uint16_bytes newPort))
    else Ok p.

Definition rewriteUDPPort (p : list Z) (d : Layers) (newPort : Z) (portOffset : nat)
    : M (list Z) :=
  udpStart ← ipHeaderLen d;
  if decide (length p < udpStart + 8) then Err ErrPacketTooShort
  else
    let portStart := udpStart + portOffset in
    oldPort ← get16 p portStart;
    p ← put16 p portStart newPort;
    if decide (udpStart + 8 <= length p) then
      oldChecksum ← get16 p (udpStart + 6);
      if negb (oldChecksum =? 0)%Z then
        put16 p (udpStart + 6)
          (incrementalUpdate oldChecksum (Uint16_bytes oldPort) (Uint16_bytes newPort))
      else Ok p
    else Ok p.

(** ** NAT state *)
Record biDNATMap : Type := mkBi { forward : gmap Addr Addr; reverse_ : gmap Addr Addr }.

Definition newBiDNATMap : biDNATMap := mkBi ∅ ∅.

Definition bi_set (original translated : Addr) (b : biDNATMap) : biDNATMap :=
  mkBi (<[original := translated]> (forward b)) (<[translated := original]> (reverse_ b)).

Definition bi_delete (original : Addr) (b : biDNATMap) : biDNATMap :=
  match forward b !! original with
  | Some translated => mkBi (delete original (forward b)) (delete translated (reverse_ b))
  | None => b
  end.

Definition getTranslated (original : Addr) (b : biDNATMap) : option Addr :=
  forward b !! original.

Definition getOriginal (translated : Addr) (b : biDNATMap) : option Addr :=
  reverse_ b !! translated.

Record portDNATRule : Type := mkPortRule {
  pr_protocol : LayerType;
  pr_origPort : Z;
  pr_targetPort : Z;
  pr_targetIP : Addr
}.

#[global] Instance portDNATRule_eq_dec : EqDecision portDNATRule.
Proof. solve_decision. Defined.

Record NatState : Type := mkNat {
  dnatEnabled : bool;
  dnatMappings : gmap Addr Addr;
  dnatBiMap : option biDNATMap;
  portDNATEnabled : bool;
  portDNATRules : list portDNATRule
}.

(** The fields as [create] leaves them. *)
Definition NewNat : NatState := mkNat false ∅ None false [].

(** [local] is [m.localipmanager.IsLocalIP]. *)
Definition AddInternalDNATMapping (local : Addr -> bool) (originalAddr translatedAddr : Addr)
    (s : NatState) : M NatState :=
  if negb (IsValid originalAddr) then Err ErrInvalidOriginalIP
  else if negb (IsValid translatedAddr) then Err ErrInvalidTranslatedIP
  else if local translatedAddr then Err ErrMapToLocalIP
  else
    let '(mappings, bi) := match dnatBiMap s with
                           | None => (∅, newBiDNATMap)
                           | Some bi => (dnatMappings s, bi)
                           end in
    let mappings := <[originalAddr := translatedAddr]> mappings in
    let bi := bi_set originalAddr translatedAddr bi in
    let enabled := if decide (size mappings = 1) then true else dnatEnabled s in
    Ok (mkNat enabled mappings (Some bi) (portDNATEnabled s) (portDNATRules s)).

Definition RemoveInternalDNATMapping (originalAddr : Addr) (s : NatState) : M NatState :=
  match dnatMappings s !! originalAddr with
  | None => Err ErrMappingNotFound
  | Some _ =>
      match dnatBiMap s with
      | None => Panic
      | Some bi =>
          let mappings := delete originalAddr (dnatMappings s) in
          let enabled := if decide (size mappings = 0) then false else dnatEnabled s in
          Ok (mkNat enabled mappings (Some (bi_delete originalAddr bi))
                (portDNATEnabled s) (portDNATRules s))
      end
  end.

Definition getDNATTranslation (addr : Addr) (s : NatState) : M (option Addr) :=
  if negb (dnatEnabled s) then Ok None
  else match dnatBiMap s with
       | None => Panic
       | Some bi => Ok (getTranslated addr bi)
       end.

Definition findReverseDNATMapping (translatedAddr : Addr) (s : NatState) : M (option Addr) :=
  if negb (dnatEnabled s) then Ok None
  else match dnatBiMap s with
       | None => Panic
       | Some bi => Ok (getOriginal translatedAddr bi)
       end.

(** A failed rewrite is logged and reported as "not translated"; the packet
    is returned as the rewrite left it, which on an error is unchanged. *)
Definition translated_or_not (p : list Z) (m : M (list Z)) : M (list Z * bool) :=
  match m with
  | Ok p' => Ok (p', true)
  | Err _ => Ok (p, false)
  | Panic => Panic
  end.

Definition translateOutboundDNAT (p : list Z) (d : Layers) (s : NatState) : M (list Z * bool) :=
  if negb (dnatEnabled s) then Ok (p, false)
  else
    '(_, dstIP) ← extractPacketIPs p d;
    r ← getDNATTranslation dstIP s;
    match r with
    | None => Ok (p, false)
    | Some translatedIP => translated_or_not p (rewritePacketIP p d translatedIP false)
    end.

Definition translateInboundReverse (p : list Z) (d : Layers) (s : NatState)
    : M (list Z * bool) :=
  if negb (dnatEnabled s) then Ok (p, false)
  else
    '(srcIP, _) ← extractPacketIPs p d;
    r ← findReverseDNATMapping srcIP s;
    match r with
    | None => Ok (p, false)
    | Some originalIP => translated_or_not p (rewritePacketIP p d originalIP true)
    end.

(** ** Port redirection *)
Inductive Protocol : Type :=
| ProtocolTCP | ProtocolUDP | ProtocolICMP | ProtocolALL | ProtocolUnknown.

#[global] Instance Protocol_eq_dec : EqDecision Protocol.
Proof. solve_decision. Defined.

Definition addPortRedirection (targetIP : Addr) (protocol : LayerType)
    (originalPort translatedPort : Z) (s : NatState) : NatState :=
  mkNat (dnatEnabled s) (dnatMappings s) (dnatBiMap s) true
    (portDNATRules s ++ [mkPortRule protocol originalPort translatedPort targetIP]).

Definition AddInboundDNAT (localAddr : Addr) (protocol : Protocol)
    (originalPort translatedPort : Z) (s : NatState) : M NatState :=
  match protocol with
  | ProtocolTCP => Ok (addPortRedirection localAddr LayerTypeTCP originalPort translatedPort s)
  | ProtocolUDP => Ok (addPortRedirection localAddr LayerTypeUDP originalPort translatedPort s)
  | _ => Err ErrUnsupportedProtocol
  end.

Definition removePortRedirection (targetIP : Addr) (protocol : LayerType)
    (originalPort translatedPort : Z) (s : NatState) : NatState :=
  let rules := filter (fun r => r ≠ mkPortRule protocol originalPort translatedPort targetIP)
                 (portDNATRules s) in
  mkNat (dnatEnabled s) (dnatMappings s) (dnatBiMap s)
    (if decide (rules = []) then false else portDNATEnabled s) rules.

Definition RemoveInboundDNAT (localAddr : Addr) (protocol : Protocol)
    (originalPort translatedPort : Z) (s : NatState) : M NatState :=
  match protocol with
  | ProtocolTCP => Ok (removePortRedirection localAddr LayerTypeTCP originalPort translatedPort s)
  | ProtocolUDP => Ok (removePortRedirection localAddr LayerTypeUDP originalPort translatedPort s)
  | _ => Err ErrUnsupportedProtocol
  end.

Fixpoint applyPortRule_loop (rules : list portDNATRule) (p : list Z) (d : decoder)
    (srcIP dstIP : Addr) (port : Z) (protocol : LayerType)
    (rewriteFn : list Z -> Layers -> Z -> nat -> M (list Z)) : M (list Z * decoder * bool) :=
  match rules with
  | [] => Ok (p, d, false)
  | rule :: rest =>
      if bool_decide (pr_protocol rule ≠ protocol) || bool_decide (pr_targetIP rule ≠ dstIP)
      then applyPortRule_loop rest p d srcIP dstIP port protocol rewriteFn
      else if (pr_targetPort rule =? port)%Z && bool_decide (pr_targetIP rule = srcIP)
      then Ok (p, d, false)
      else if negb (pr_origPort rule =? port)%Z
      then applyPortRule_loop rest p d srcIP dstIP port protocol rewriteFn
      else match rewriteFn p (layers_ d) (pr_targetPort rule) destinationPortOffset with
           | Ok p' => Ok (p', mkDecoder (layers_ d) (pr_origPort rule), true)
           | Err _ => Ok (p, d, false)
           | Panic => Panic
           end
  end.

Definition applyPortRule (p : list Z) (d : decoder) (srcIP dstIP : Addr) (port : Z)
    (protocol : LayerType) (rewriteFn : list Z -> Layers -> Z -> nat -> M (list Z))
    (s : NatState) : M (list Z * decoder * bool) :=
  applyPortRule_loop (portDNATRules s) p d srcIP dstIP port protocol rewriteFn.

Definition translateInboundPortDNAT (p : list Z) (d : decoder) (srcIP dstIP : Addr)
    (s : NatState) : M (list Z * decoder * bool) :=
  if negb (portDNATEnabled s) then Ok (p, d, false)
  else
    l1 ← layer_at (layers_ d) 1;
    match l1 with
    | LayerTypeTCP =>
        applyPortRule p d srcIP dstIP (tcp_DstPort (tcp (layers_ d))) LayerTypeTCP
          rewriteTCPPort s
    | LayerTypeUDP =>
        applyPortRule p d AddrInvalid dstIP (udp_DstPort (layers_ d)) LayerTypeUDP
          rewriteUDPPort s
    | _ => Ok (p, d, false)
    end.

(** ** Rewriting parts of a packet *)
Lemma copy_into_split {A} (l w : list A) off : off + length w <= length l ->
  exists a b c, l = a ++ b ++ c /\ length a = off /\ length b = length w /\
    copy_into l off w = a ++ w ++ c.
Proof.
  intros H. exists (take off l), (take (length w) (drop off l)), (drop (off + length w) l).
  split_and!.
  - by rewrite <- (drop_drop l), take_drop, take_drop.
  - rewrite length_take. lia.
  - rewrite length_take, length_drop. lia.
  - unfold copy_into. by rewrite (take_ge w) by lia.
Qed.

Lemma copy_into_bytes l off w : Forall byte l -> Forall byte w -> Forall byte (copy_into l off w).
Proof.
  intros Hl Hw. unfold copy_into. rewrite !Forall_app.
  split_and!; [by apply Forall_take|by apply Forall_take|by apply Forall_drop].
Qed.

Lemma lookup_copy_ne {A} (l w : list A) off i : off + length w <= length l ->
  i < off \/ off + length w <= i -> copy_into l off w !! i = l !! i.
Proof.
  intros H Hi. destruct (copy_into_split l w off H) as (a & b & c & -> & <- & Hb & ->).
  destruct Hi as [Hi|Hi]; [by rewrite !lookup_app_l by lia|].
  rewrite !(lookup_app_r a) by lia. rewrite !lookup_app_r by lia. by rewrite Hb.
Qed.

Lemma slice_copy_eq {A} (l w : list A) off : off + length w <= length l ->
  take (length w) (drop off (copy_into l off w)) = w.
Proof.
  intros H. destruct (copy_into_split l w off H) as (a & b & c & -> & <- & Hb & ->).
  by rewrite drop_app_length, take_app_length.
Qed.

(** A slice that does not meet the written range. *)
Lemma slice_copy_ne {A} (l w : list A) off i n : off + length w <= length l ->
  i + n <= off \/ off + length w <= i ->
  take n (drop i (copy_into l off w)) = take n (drop i l).
Proof.
  intros H Hi. apply list_eq. intros j. destruct (decide (j < n)) as [Hj|Hj].
  - rewrite !lookup_take_lt, !lookup_drop by lia. apply lookup_copy_ne; lia.
  - rewrite !lookup_take_ge by lia. done.
Qed.

Lemma drop_copy {A} (l w : list A) off h : h <= off -> off + length w <= length l ->
  drop h (copy_into l off w) = copy_into (drop h l) (off - h) w.
Proof.
  intros Hh H. unfold copy_into.
  rewrite drop_app_le by (rewrite length_take; lia).
  rewrite take_drop_commute, length_drop, drop_drop.
  replace (h + (off - h)) with off by lia.
  replace (length l - h - (off - h)) with (length l - off) by lia.
  replace (h + (off - h + length w)) with (off + length w) by lia. done.
Qed.

Lemma take_copy {A} (l w : list A) off h : off + length w <= h -> h <= length l ->
  take h (copy_into l off w) = copy_into (take h l) off w.
Proof.
  intros H Hh. apply list_eq. intros j. destruct (decide (j < h)) as [Hj|Hj].
  - rewrite lookup_take_lt by lia.
    destruct (decide (off <= j < off + length w)) as [Hin|Hout].
    + destruct (copy_into_split l w off) as (a & b & c & -> & <- & Hb & ->); [lia|].
      destruct (copy_into_split (take h (a ++ b ++ c)) w (length a))
        as (a' & b' & c' & _ & Ha' & _ & ->); [rewrite length_take; lia|].
      rewrite (lookup_app_r a), (lookup_app_r a') by lia. rewrite Ha'.
      by rewrite !lookup_app_l by lia.
    + rewrite !lookup_copy_ne by (rewrite ?length_take; lia). by rewrite lookup_take_lt.
  - rewrite lookup_take_ge by lia. symmetry. apply lookup_ge_None.
    rewrite copy_into_length by (rewrite length_take; lia). rewrite length_take. lia.
Qed.

Lemma wsum_copy l w off : Nat.even off = true -> Nat.even (length w) = true ->
  off + length w <= length l ->
  wsum (copy_into l off w) = (wsum l - wsum (take (length w) (drop off l)) + wsum w)%Z.
Proof.
  intros Eo Ew H. destruct (copy_into_split l w off H) as (a & b & c & -> & <- & Hb & ->).
  rewrite drop_app_length, <- Hb, take_app_length.
  rewrite !wsum_app by (rewrite ?Hb; done). lia.
Qed.

Lemma word_at_slice l o : Forall byte l -> o + 2 <= length l ->
  word_at l o = wsum (take 2 (drop o l)) /\ (0 <= word_at l o < 65536)%Z.
Proof.
  intros Hb H. rewrite word_at_eq by done.
  pose proof (byte_lookup l o Hb) as B0. pose proof (byte_lookup l (o + 1) Hb) as B1.
  destruct (lookup_lt_is_Some_2 l o) as [x Hx]; [lia|].
  destruct (lookup_lt_is_Some_2 l (o + 1)) as [y Hy]; [lia|].
  rewrite (list_lookup_total_correct _ _ _ Hx), (list_lookup_total_correct _ _ _ Hy) in *.
  rewrite (drop_S l x o) by done. rewrite (drop_S l y (S o)) by (by rewrite <- Nat.add_1_r).
  cbn [take wsum]. rewrite Z.add_0_r. unfold byte in *. lia.
Qed.

Lemma Uint16_bytes_wsum v : (0 <= v < 65536)%Z ->
  wsum (Uint16_bytes v) = v /\ packet (Uint16_bytes v).
Proof.
  intros Hv. destruct (Uint16_bytes_eq v Hv) as (b0 & b1 & -> & ? & ? & ->).
  cbn [wsum]. split; [lia|]. split; [|simpl; lia]. by repeat (apply Forall_cons; split; [done|]).
Qed.

Lemma get16_ok p o : o + 2 <= length p -> get16 p o = Ok (word_at p o).
Proof. intros H. unfold get16. by rewrite decide_True. Qed.

Lemma put16_ok p o v : o + 2 <= length p -> put16 p o v = Ok (copy_into p o (Uint16_bytes v)).
Proof. intros H. unfold put16. by rewrite decide_True. Qed.

(** The number of bytes a packet's IP header claims is even and does not
    exceed the packet: what gopacket has checked before it reports the
    layer. *)
Definition layers_ok (d : Layers) (p : list Z) : Prop :=
  match decoded d !! 0 with
  | Some LayerTypeIPv4 =>
      (5 <= ip4_IHL d <= 15)%Z /\ (4 * ip4_IHL d <= Z.of_nat (length p))%Z
  | Some LayerTypeIPv6 => 40 <= length p
  | _ => True
  end.

Lemma ipHeaderLen_ok d p : layers_ok d p ->
  match ipHeaderLen d with
  | Ok h => Nat.even h = true /\ 20 <= h <= length p /\
      (decoded d !! 0 = Some LayerTypeIPv6 -> h = 40)
  | Err _ => decoded d !! 0 ≠ Some LayerTypeIPv4 /\ decoded d !! 0 ≠ Some LayerTypeIPv6
  | Panic => decoded d = []
  end.
Proof.
  unfold layers_ok, ipHeaderLen, layer_at, go_index.
  destruct (decoded d) as [|l0 ds]; [done|]. cbn [lookup list_lookup mbind res_bind].
  destruct l0; try done.
  - intros [H1 H2]. destruct (Z.ltb_spec (ip4_IHL d * 4) 20); [lia|].
    split; [|split; [lia|done]].
    replace (Z.to_nat (ip4_IHL d * 4)) with (2 * (Z.to_nat (ip4_IHL d) * 2)) by lia.
    apply Nat.even_mul.
  - intros H. split_and!; [done|unfold ipv6HeaderLen; lia..|done].
Qed.

(** ** Incremental repair of a checksum field *)
Lemma repair_mod (seg : list Z) (co : nat) (old new : list Z) :
  Forall byte seg -> co + 2 <= length seg -> Nat.even co = true ->
  packet old -> packet new -> Nat.even (length old) = true -> length new = length old ->
  let seg' := copy_into seg co (Uint16_bytes (incrementalUpdate (word_at seg co) old new)) in
  Forall byte seg' /\ length seg' = length seg /\
  ((wsum seg' + wsum new) mod 65535 = (wsum seg + wsum old) mod 65535)%Z.
Proof.
  intros Hb Hl Ec Ho Hn Eo En seg'. subst seg'.
  destruct (word_at_slice seg co Hb Hl) as [Hw Hr].
  destruct (incrementalUpdate_mod (word_at seg co) old new) as [Hi Hm]; [done..|].
  destruct (Uint16_bytes_wsum _ Hi) as [Hwc [Hpc _]].
  split_and!; [by apply copy_into_bytes|apply copy_into_length; lia|].
  rewrite wsum_copy by (try done; simpl; lia). rewrite Hwc.
  change (length (Uint16_bytes _)) with 2. rewrite <- Hw.
  transitivity ((wsum seg - word_at seg co +
    (incrementalUpdate (word_at seg co) old new + wsum new)) mod 65535)%Z; [f_equal; lia|].
  rewrite <- Z.add_mod_idemp_r, Hm, Z.add_mod_idemp_r by lia. f_equal. lia.
Qed.

Lemma mod_cancel a b n m : (m ≠ 0)%Z -> ((a + n) mod m = (b + n) mod m)%Z -> (a mod m = b mod m)%Z.
Proof.
  intros Hm H. replace a with (a + n - n)%Z by lia. replace b with (b + n - n)%Z by lia.
  rewrite Zminus_mod, H, <- Zminus_mod. done.
Qed.

Lemma word_at_drop p h o : word_at (drop h p) o = word_at p (h + o).
Proof.
  unfold word_at. rewrite !list_lookup_total_alt, !lookup_drop. by rewrite Nat.add_assoc.
Qed.

Lemma word_at_copy_eq p o v : (0 <= v < 65536)%Z -> Forall byte p -> o + 2 <= length p ->
  word_at (copy_into p o (Uint16_bytes v)) o = v.
Proof.
  intros Hv Hb H. destruct (Uint16_bytes_wsum v Hv) as [Hw [Hp _]].
  destruct (word_at_slice (copy_into p o (Uint16_bytes v)) o) as [-> _].
  - by apply copy_into_bytes.
  - rewrite copy_into_length by lia. done.
  - change 2 with (length (Uint16_bytes v)). by rewrite slice_copy_eq.
Qed.

Lemma word_at_copy_ne p o v i : o + 2 <= length p -> i + 2 <= o \/ o + 2 <= i ->
  word_at (copy_into p o (Uint16_bytes v)) i = word_at p i.
Proof.
  intros H Hi. unfold word_at.
  rewrite !list_lookup_total_alt, !lookup_copy_ne by (simpl; lia). done.
Qed.

(** What rewriting a port in the header at [h] and repairing the checksum at
    offset [co] of that header does to the packet. *)
Definition port_rewritten (h po co : nat) (newPort : Z) (p p' : list Z) : Prop :=
  Forall byte p' /\ length p' = length p /\
  word_at p' (h + po) = newPort /\
  (forall i, (i < h + po \/ h + po + 2 <= i) -> (i < h + co \/ h + co + 2 <= i) ->
     p' !! i = p !! i) /\
  (wsum (drop h p') mod 65535 = wsum (drop h p) mod 65535)%Z.

Lemma port_repair p h po co newPort :
  Forall byte p -> (0 <= newPort < 65536)%Z ->
  Nat.even po = true -> Nat.even co = true -> po + 2 <= co -> h + co + 2 <= length p ->
  let p1 := copy_into p (h + po) (Uint16_bytes newPort) in
  port_rewritten h po co newPort p
    (copy_into p1 (h + co) (Uint16_bytes (incrementalUpdate (word_at p1 (h + co))
       (Uint16_bytes (word_at p (h + po))) (Uint16_bytes newPort)))).
Proof.
  intros Hb Hv Ep Ec Hpc Hl p1.
  destruct (Uint16_bytes_wsum newPort Hv) as [Hwn Hpn].
  destruct (word_at_slice p (h + po) Hb ltac:(lia)) as [Hwo Hro].
  destruct (Uint16_bytes_wsum _ Hro) as [Hwo' Hpo].
  assert (Hb1 : Forall byte p1) by (apply copy_into_bytes; [done|apply Hpn]).
  assert (Hl1 : length p1 = length p) by (apply copy_into_length; lia).
  destruct (repair_mod (drop h p1) co (Uint16_bytes (word_at p (h + po)))
    (Uint16_bytes newPort)) as (Hb2 & Hl2 & Hm); try done.
  { by apply Forall_drop. }
  { rewrite length_drop. lia. }
  rewrite word_at_drop in Hb2, Hl2, Hm. unfold port_rewritten.
  set (c := incrementalUpdate _ _ _) in *.
  assert (Hdrop : drop h (copy_into p1 (h + co) (Uint16_bytes c)) =
    copy_into (drop h p1) co (Uint16_bytes c)).
  { rewrite drop_copy by (try lia; simpl; lia). f_equal. lia. }
  split_and!.
  - apply copy_into_bytes; [done|]. unfold Uint16_bytes.
    repeat (apply Forall_cons; split; [apply u8_range|]). constructor.
  - rewrite copy_into_length by lia. done.
  - rewrite word_at_copy_ne by lia. apply word_at_copy_eq; [done..|lia].
  - intros i Hi1 Hi2. rewrite lookup_copy_ne by (simpl; lia).
    apply lookup_copy_ne; simpl; lia.
  - apply (mod_cancel _ _ newPort); [lia|]. rewrite Hdrop.
    rewrite Hwn in Hm. rewrite Hm, Hwo'. f_equal. subst p1.
    rewrite drop_copy by (try lia; simpl; lia).
    rewrite wsum_copy; [|by replace (h + po - h) with po by lia|done|
      rewrite length_drop; simpl; lia].
    rewrite Hwn, drop_drop. replace (h + (h + po - h)) with (h + po) by lia.
    change (length (Uint16_bytes newPort)) with 2. rewrite <- Hwo. lia.
Qed.

(** ** Rewriting an address *)
Lemma drop_copy_lt {A} (l w : list A) off h : off + length w <= h -> off + length w <= length l ->
  drop h (copy_into l off w) = drop h l.
Proof.
  intros H Hl. apply list_eq. intros i. rewrite !lookup_drop. apply lookup_copy_ne; lia.
Qed.

Lemma take_copy_ge {A} (l w : list A) off h : h <= off -> off + length w <= length l ->
  take h (copy_into l off w) = take h l.
Proof.
  intros H Hl. apply list_eq. intros i. destruct (decide (i < h)).
  - rewrite !lookup_take_lt by done. apply lookup_copy_ne; lia.
  - by rewrite !lookup_take_ge by lia.
Qed.

Lemma slice_take {A} (l : list A) n a b : a + n <= b ->
  take n (drop a (take b l)) = take n (drop a l).
Proof.
  intros H. apply list_eq. intros i. destruct (decide (i < n)).
  - rewrite !lookup_take_lt, !lookup_drop by done. by rewrite lookup_take_lt by lia.
  - by rewrite !lookup_take_ge by lia.
Qed.

Lemma clear_checksum_copy l : 12 <= length l -> clear_checksum l = copy_into l 10 [0; 0]%Z.
Proof.
  intros H. unfold clear_checksum, copy_into. by rewrite (take_ge [0; 0]%Z) by (simpl; lia).
Qed.

(** A header carrying its own RFC 1071 checksum verifies. *)
Lemma header_verifies hdr : packet hdr -> 20 <= length hdr ->
  verifies (copy_into hdr 10 (Uint16_bytes (ipv4Checksum hdr))).
Proof.
  intros Hp Hl. rewrite ipv4Checksum_eq by done. pose proof Hp as [Hb _].
  unfold verifies, rfc1071. rewrite clear_checksum_copy by lia.
  set (w := copy_into hdr 10 [0; 0]%Z).
  assert (Hw : wsum w = (wsum hdr - wsum (take 2 (drop 10 hdr)))%Z).
  { subst w. rewrite wsum_copy by (done || simpl; lia). cbn [length wsum]. lia. }
  assert (Hwb : Forall byte w) by (apply copy_into_bytes; [done|by repeat constructor]).
  pose proof (wsum_bounds w Hwb) as [Hpos _]. pose proof (norm16_range _ Hpos) as Hr.
  destruct (Uint16_bytes_wsum (65535 - norm16 (wsum w))) as [Hu _]; [lia|].
  rewrite wsum_copy by (done || simpl; lia). rewrite Hu.
  change (length (Uint16_bytes _)) with 2. rewrite <- Hw.
  replace (wsum w + (65535 - norm16 (wsum w)))%Z
    with (wsum w - norm16 (wsum w) + 1 * 65535)%Z by lia.
  rewrite Z.mod_add by lia. rewrite Zminus_mod, norm16_mod, Z.sub_diag. done.
Qed.

(** The sum a transport checksum covers, up to the parts no rewrite changes:
    the addresses at [ao .. ao+al) and the segment behind the header. *)
Definition pseudo_sum (ao al h : nat) (p : list Z) : Z :=
  wsum (take al (drop ao p)) + wsum (drop h p).

Lemma address_region p w off ao al :
  Nat.even ao = true -> Nat.even off = true -> Nat.even (length w) = true ->
  ao <= off -> off + length w <= ao + al -> ao + al <= length p ->
  (wsum (take al (drop ao (copy_into p off w))) =
   wsum (take al (drop ao p)) - wsum (take (length w) (drop off p)) + wsum w)%Z.
Proof.
  intros Ea Eo Ew H1 H2 H3. rewrite drop_copy by lia.
  rewrite take_copy by (rewrite ?length_drop; lia).
  rewrite wsum_copy; [|rewrite Nat.even_sub, Eo, Ea by lia; done|done|
    rewrite length_take, length_drop; lia].
  rewrite slice_take, drop_drop by lia. by replace (ao + (off - ao)) with off by lia.
Qed.

(** Repairing the transport checksum restores the covered sum: [p3] is the
    packet with the address written (and the IPv4 header checksum redone). *)
Lemma transport_repair p p3 w off ao al h co :
  Forall byte p -> packet w -> length p3 = length p -> Forall byte p3 ->
  take al (drop ao p3) = take al (drop ao (copy_into p off w)) -> drop h p3 = drop h p ->
  Nat.even ao = true -> Nat.even off = true -> Nat.even (length w) = true ->
  ao <= off -> off + length w <= ao + al -> ao + al <= h -> Nat.even co = true ->
  h + co + 2 <= length p ->
  let p4 := copy_into p3 (h + co) (Uint16_bytes (incrementalUpdate (word_at p3 (h + co))
              (take (length w) (drop off p)) w)) in
  Forall byte p4 /\ length p4 = length p /\ take h p4 = take h p3 /\
  (pseudo_sum ao al h p4 mod 65535 = pseudo_sum ao al h p mod 65535)%Z.
Proof.
  intros Hb Hw Hl3 Hb3 Hreg Hd3 Ea Eo Ew H1 H2 H3 Ec H4 p4.
  set (old := take (length w) (drop off p)) in *.
  assert (packet old /\ length old = length w) as [Ho Hlo].
  { subst old. rewrite length_take, length_drop.
    split; [split; [by apply Forall_take, Forall_drop|]|lia].
    rewrite length_take, length_drop. destruct Hw as [_ Hw]. lia. }
  destruct (repair_mod (drop h p3) co old w) as (Hb' & Hl' & Hm); try done.
  { by apply Forall_drop. }
  { rewrite length_drop. lia. }
  { by rewrite Hlo. }
  rewrite word_at_drop in Hb', Hl', Hm.
  assert (Hdrop : drop h p4 = copy_into (drop h p3) co
    (Uint16_bytes (incrementalUpdate (word_at p3 (h + co)) old w))).
  { subst p4. rewrite drop_copy by (simpl; lia). f_equal. lia. }
  assert (Htake : take h p4 = take h p3) by (apply take_copy_ge; simpl; lia).
  split_and!.
  - apply copy_into_bytes; [done|]. unfold Uint16_bytes.
    repeat (apply Forall_cons; split; [apply u8_range|]). constructor.
  - subst p4. rewrite copy_into_length by lia. done.
  - done.
  - unfold pseudo_sum. rewrite Hdrop.
    assert (take al (drop ao p4) = take al (drop ao p3)) as ->.
    { subst p4. apply slice_copy_ne; simpl; lia. }
    rewrite Hreg, address_region by lia || done.
    apply (mod_cancel _ _ 0); [lia|].
    replace (wsum (take al (drop ao p)) - wsum (take (length w) (drop off p)) + wsum w +
      wsum (copy_into (drop h p3) co (Uint16_bytes
        (incrementalUpdate (word_at p3 (h + co)) old w))) + 0)%Z
      with (wsum (take al (drop ao p)) - wsum old +
        (wsum (copy_into (drop h p3) co (Uint16_bytes
          (incrementalUpdate (word_at p3 (h + co)) old w))) + wsum w))%Z
      by (subst old; lia).
    rewrite <- Z.add_mod_idemp_r, Hm, Z.add_mod_idemp_r by lia. rewrite Hd3. f_equal. lia.
Qed.

Lemma be_bytes_byte n v : Forall byte (be_bytes n v).
Proof.
  revert v. induction n as [|n IH]; intros v; [constructor|]. cbn [be_bytes].
  rewrite Forall_app. split; [apply IH|]. repeat constructor; apply u8_range.
Qed.

Lemma be_bytes_packet n v : n <= 16 -> packet (be_bytes n v).
Proof. intros H. split; [apply be_bytes_byte|]. rewrite be_bytes_length. lia. Qed.

Lemma Uint16_bytes_byte v : Forall byte (Uint16_bytes v).
Proof. unfold Uint16_bytes. repeat (apply Forall_cons; split; [apply u8_range|]). constructor. Qed.

Definition ip_off (v6 isSource : bool) : nat :=
  match v6, isSource with
  | false, true => ipv4SrcOffset | false, false => ipv4DstOffset
  | true, true => ipv6SrcOffset | true, false => ipv6DstOffset
  end.

(** The packet after the address and the header checksum of an IPv4 packet
    are written. *)
Definition v4_written (p : list Z) (h : nat) (v : Z) (isSource : bool) : list Z :=
  let p2 := copy_into (copy_into p (ip_off false isSource) (be_bytes 4 v)) 10 (Uint16_bytes 0) in
  copy_into p2 10 (Uint16_bytes (ipv4Checksum (take h p2))).

Lemma v4_written_spec p h v isSource :
  packet p -> 20 <= h <= length p ->
  let p3 := v4_written p h v isSource in
  let off := ip_off false isSource in
  Forall byte p3 /\ length p3 = length p /\ drop h p3 = drop h p /\
  take 8 (drop 12 p3) = take 8 (drop 12 (copy_into p off (be_bytes 4 v))) /\
  verifies (take h p3) /\
  take 4 (drop off p3) = be_bytes 4 v /\
  take 4 (drop (ip_off false (negb isSource)) p3) = take 4 (drop (ip_off false (negb isSource)) p) /\
  (forall i, ~ (off <= i < off + 4) -> ~ (10 <= i < 12) -> p3 !! i = p !! i).
Proof.
  intros [Hb Hlen] Hh p3 off.
  assert (Hoff : off = 12 \/ off = 16) by (destruct isSource; auto).
  assert (Hoff' : ip_off false (negb isSource) = 28 - off) by (by destruct isSource).
  pose proof (be_bytes_length 4 v) as L4.
  set (p1 := copy_into p off (be_bytes 4 v)).
  assert (L1 : length p1 = length p) by (apply copy_into_length; lia).
  set (p2 := copy_into p1 10 (Uint16_bytes 0)).
  assert (L2 : length p2 = length p) by (unfold p2; rewrite copy_into_length; lia).
  assert (B1 : Forall byte p1) by (apply copy_into_bytes; [done|apply be_bytes_byte]).
  assert (B2 : Forall byte p2) by (apply copy_into_bytes; [done|apply Uint16_bytes_byte]).
  change p3 with (copy_into p2 10 (Uint16_bytes (ipv4Checksum (take h p2)))).
  split_and!.
  - apply copy_into_bytes; [done|apply Uint16_bytes_byte].
  - rewrite copy_into_length by lia. done.
  - rewrite drop_copy_lt by (simpl; lia). unfold p2. rewrite drop_copy_lt by (simpl; lia).
    apply drop_copy_lt; lia.
  - rewrite slice_copy_ne by (simpl; lia). apply slice_copy_ne; simpl; lia.
  - rewrite take_copy by (simpl; lia). apply header_verifies.
    + split; [by apply Forall_take|]. rewrite length_take. lia.
    + rewrite length_take. lia.
  - rewrite slice_copy_ne by (simpl; lia). unfold p2. rewrite slice_copy_ne by (simpl; lia).
    rewrite <- L4 at 1. apply slice_copy_eq. lia.
  - rewrite Hoff', slice_copy_ne by (simpl; lia). unfold p2.
    rewrite slice_copy_ne by (simpl; lia). apply slice_copy_ne; lia.
  - intros i Hi1 Hi2. rewrite lookup_copy_ne by (simpl; lia). unfold p2.
    rewrite lookup_copy_ne by (simpl; lia). apply lookup_copy_ne; lia.
Qed.

(** The transport checksum field that an address change rewrites, and the
    least length of the segment for which it does. *)
Definition checksum_field (v6 : bool) (l1 : LayerType) : option (nat * nat) :=
  match l1, v6 with
  | LayerTypeTCP, _ => Some (16, 18)
  | LayerTypeUDP, _ => Some (6, 8)
  | LayerTypeICMPv4, false => Some (2, 8)
  | LayerTypeICMPv6, true => Some (2, 4)
  | _, _ => None
  end.

Definition in_checksum (v6 : bool) (l1 : LayerType) (h i : nat) : Prop :=
  exists co n, checksum_field v6 l1 = Some (co, n) /\ h + co <= i < h + co + 2.

Definition v6_written (p : list Z) (v : Z) (isSource : bool) : list Z :=
  copy_into p (ip_off true isSource) (be_bytes 16 v).

Lemma rewriteIPv4_unfold p d v h isSource : 20 <= h <= length p ->
  rewriteIPv4 p d (Addr4 v) h isSource =
  let p3 := v4_written p h v isSource in
  let old := take 4 (drop (ip_off false isSource) p) in
  match decoded d !! 1 with
  | Some LayerTypeTCP => updateTCPChecksum p3 h old (be_bytes 4 v)
  | Some LayerTypeUDP => updateUDPChecksum p3 h old (be_bytes 4 v)
  | Some LayerTypeICMPv4 => updateICMPChecksum p3 h
  | _ => Ok p3
  end.
Proof.
  intros Hh. unfold rewriteIPv4, v4_written. cbn [Is4 negb AsSlice].
  assert (Hoff : (if isSource then ipv4SrcOffset else ipv4DstOffset) = ip_off false isSource)
    by (by destruct isSource).
  rewrite Hoff. assert (Hoff2 : ip_off false isSource <= 16)
    by (destruct isSource; simpl; unfold ipv4SrcOffset, ipv4DstOffset; lia).
  cbv zeta. rewrite go_slice_returns by lia. mred.
  pose proof (be_bytes_length 4 v) as L4.
  rewrite put16_ok by (rewrite copy_into_length; lia). mred.
  rewrite go_slice_returns by (rewrite !copy_into_length by (rewrite ?copy_into_length; lia); lia).
  mred. rewrite drop_0, Nat.sub_0_r.
  rewrite put16_ok by (rewrite !copy_into_length by (rewrite ?copy_into_length; lia); lia).
  mred. by replace (ip_off false isSource + 4 - ip_off false isSource) with 4 by lia.
Qed.

Lemma rewriteIPv6_unfold p d v z h isSource : 40 <= length p ->
  rewriteIPv6 p d (Addr6 v z) h isSource =
  let p3 := v6_written p v isSource in
  let old := take 16 (drop (ip_off true isSource) p) in
  match decoded d !! 1 with
  | Some LayerTypeTCP => updateTCPChecksum p3 h old (be_bytes 16 v)
  | Some LayerTypeUDP => updateUDPChecksum p3 h old (be_bytes 16 v)
  | Some LayerTypeICMPv6 => updateICMPv6Checksum p3 h old (be_bytes 16 v)
  | _ => Ok p3
  end.
Proof.
  intros Hh. unfold rewriteIPv6, v6_written. cbn [Is6 negb AsSlice].
  assert (Hoff : (if isSource then ipv6SrcOffset else ipv6DstOffset) = ip_off true isSource)
    by (by destruct isSource).
  rewrite Hoff. assert (Hoff2 : ip_off true isSource <= 24)
    by (destruct isSource; simpl; unfold ipv6SrcOffset, ipv6DstOffset; lia).
  cbv zeta. rewrite go_slice_returns by lia. mred.
  by replace (ip_off true isSource + 16 - ip_off true isSource) with 16 by lia.
Qed.

(** The transports whose checksum covers the addresses, in a packet that is
    long enough to have one: UDP only when the datagram carries a checksum. *)
Definition covered (v6 : bool) (l1 : LayerType) (h : nat) (p : list Z) : Prop :=
  (l1 = LayerTypeTCP /\ h + 18 <= length p) \/
  (l1 = LayerTypeUDP /\ h + 8 <= length p /\ word_at p (h + 6) ≠ 0%Z) \/
  (l1 = LayerTypeICMPv6 /\ v6 = true /\ h + 4 <= length p).

(** An ICMPv4 message, whose checksum covers itself only. *)
Definition covers_itself (v6 : bool) (l1 : LayerType) (h : nat) (p : list Z) : Prop :=
  l1 = LayerTypeICMPv4 /\ v6 = false /\ h + 8 <= length p.

Definition addr_start (v6 : bool) : nat := if v6 then 8 else 12.
Definition addr_len (v6 : bool) : nat := if v6 then 32 else 8.

Definition transport_update (v6 : bool) (l1 : LayerType) (p : list Z) (h : nat)
    (old new : list Z) : M (list Z) :=
  match l1, v6 with
  | LayerTypeTCP, _ => updateTCPChecksum p h old new
  | LayerTypeUDP, _ => updateUDPChecksum p h old new
  | LayerTypeICMPv4, false => updateICMPChecksum p h
  | LayerTypeICMPv6, true => updateICMPv6Checksum p h old new
  | _, _ => Ok p
  end.

Lemma covered_update v6 l1 h p old new : covered v6 l1 h p ->
  exists co n, checksum_field v6 l1 = Some (co, n) /\ Nat.even co = true /\ h + co + 2 <= length p /\
    transport_update v6 l1 p h old new =
    Ok (copy_into p (h + co) (Uint16_bytes (incrementalUpdate (word_at p (h + co)) old new))).
Proof.
  intros [[-> Hl]|[(-> & Hl & Hz)|(-> & -> & Hl)]]; simpl.
  - exists 16, 18. split_and!; [done..|lia|]. unfold updateTCPChecksum. rewrite decide_False by lia.
    rewrite get16_ok by lia. mred. by rewrite put16_ok by lia.
  - exists 6, 8. split_and!; [done..|lia|]. unfold updateUDPChecksum. rewrite decide_False by lia.
    rewrite get16_ok by lia. mred. rewrite (proj2 (Z.eqb_neq _ _) Hz). by rewrite put16_ok by lia.
  - exists 2, 4. split_and!; [done..|lia|]. unfold updateICMPv6Checksum. rewrite decide_False by lia.
    rewrite get16_ok by lia. mred. by rewrite put16_ok by lia.
Qed.

(** Without a checksum to repair the packet stays as it is. *)
Lemma uncovered_update v6 l1 h p old new : ~ covered v6 l1 h p -> ~ covers_itself v6 l1 h p ->
  transport_update v6 l1 p h old new = Ok p.
Proof.
  unfold covered, covers_itself. intros H1 H2. destruct l1; simpl; try done.
  - unfold updateTCPChecksum. case_decide; [done|]. destruct H1. left. split; [done|lia].
  - unfold updateUDPChecksum. case_decide; [done|]. rewrite get16_ok by lia. mred.
    destruct (Z.eqb_spec (word_at p (h + 6)) 0); [done|]. destruct H1. right. left. split_and!; [done|lia|done].
  - destruct v6; [done|]. unfold updateICMPChecksum. case_decide; [done|]. destruct H2. split_and!; [done..|lia].
  - destruct v6; [|done]. unfold updateICMPv6Checksum. case_decide; [done|].
    destruct H1. right. right. split_and!; [done..|lia].
Qed.

Lemma icmp_update p h : packet p -> Nat.even h = true -> h + 8 <= length p ->
  exists p', updateICMPChecksum p h = Ok p' /\ length p' = length p /\
    take h p' = take h p /\ (forall i, i < h + 2 \/ h + 4 <= i -> p' !! i = p !! i) /\ verifies (drop h p').
Proof.
  intros [Hb Hlen] Eh Hl. unfold updateICMPChecksum. rewrite decide_False by lia.
  rewrite put16_ok by lia. mred. cbv zeta. set (p1 := copy_into p (h + 2) _).
  assert (L1 : length p1 = length p) by (apply copy_into_length; lia).
  assert (B1 : Forall byte p1) by (apply copy_into_bytes; [done|apply Uint16_bytes_byte]).
  rewrite put16_ok by lia. eexists. split; [reflexivity|].
  assert (Hp : packet (drop h p1))
    by (split; [by apply Forall_drop|rewrite length_drop; lia]).
  rewrite icmpChecksum_eq by done. unfold rfc1071. set (s := wsum (drop h p1)).
  pose proof (wsum_bounds _ (proj1 Hp)) as [Hpos _]. pose proof (norm16_range s Hpos) as Hr.
  destruct (Uint16_bytes_wsum (65535 - norm16 s)) as [Hu _]; [lia|].
  split_and!; [rewrite copy_into_length; lia|rewrite take_copy_ge by (simpl; lia);
    apply take_copy_ge; simpl; lia| |].
  { intros i Hi. rewrite lookup_copy_ne by (rewrite ?L1; simpl; lia). apply lookup_copy_ne; simpl; lia. }
  unfold verifies. rewrite drop_copy by (simpl; lia).
  replace (h + 2 - h) with 2 by lia.
  rewrite wsum_copy by (done || rewrite length_drop; simpl; lia). rewrite Hu. fold s.
  change (length (Uint16_bytes _)) with 2. rewrite drop_drop.
  assert (take 2 (drop (h + 2) p1) = Uint16_bytes 0) as ->
    by (apply (slice_copy_eq p (Uint16_bytes 0)); simpl; lia).
  change (wsum (Uint16_bytes 0)) with 0%Z.
  replace (s - 0 + (65535 - norm16 s))%Z with (s - norm16 s + 1 * 65535)%Z by lia.
  rewrite Z.mod_add by lia. rewrite Zminus_mod, norm16_mod, Z.sub_diag. done.
Qed.

(** Every transport: the rewrite returns, changes nothing but the checksum
    field and repairs what covers the addresses. *)
Lemma transport_step v6 l1 p p3 w off h :
  packet p -> packet w -> Forall byte p3 -> length p3 = length p ->
  take (addr_len v6) (drop (addr_start v6) p3) =
    take (addr_len v6) (drop (addr_start v6) (copy_into p off w)) ->
  drop h p3 = drop h p -> Nat.even off = true -> Nat.even (length w) = true ->
  Nat.even h = true -> addr_start v6 <= off -> off + length w <= addr_start v6 + addr_len v6 ->
  addr_start v6 + addr_len v6 <= h ->
  exists p', transport_update v6 l1 p3 h (take (length w) (drop off p)) w = Ok p' /\
    length p' = length p /\ take h p' = take h p3 /\
    (forall i, ~ in_checksum v6 l1 h i -> p' !! i = p3 !! i) /\
    (covered v6 l1 h p -> pseudo_sum (addr_start v6) (addr_len v6) h p' mod 65535 =
                          pseudo_sum (addr_start v6) (addr_len v6) h p mod 65535)%Z /\
    (covers_itself v6 l1 h p -> verifies (drop h p')) /\
    (~ covered v6 l1 h p -> ~ covers_itself v6 l1 h p -> p' = p3).
Proof.
  intros [Hb Hlen] Hw B3 L3 Hreg Hd3 Eo Ew Eh H1 H2 H3.
  assert (Hz : word_at p3 (h + 6) = word_at p (h + 6)).
  { by rewrite <- !word_at_drop, Hd3. }
  assert (Hcov : covered v6 l1 h p3 <-> covered v6 l1 h p) by (unfold covered; by rewrite Hz, L3).
  assert (Hits : covers_itself v6 l1 h p3 <-> covers_itself v6 l1 h p) by (unfold covers_itself; by rewrite L3).
  assert (Hex : covered v6 l1 h p3 -> ~ covers_itself v6 l1 h p3).
  { intros [[-> _]|[[-> _]|[-> _]]] [? _]; done. }
  setoid_rewrite <- Hcov; setoid_rewrite <- Hits.
  assert (Decision (covered v6 l1 h p3)) as [Hc|Hc] by (unfold covered; apply _).
  - destruct (covered_update v6 l1 h p3 (take (length w) (drop off p)) w Hc) as (co & n & Hf & Ec & Hco & ->).
    destruct (transport_repair p p3 w off (addr_start v6) (addr_len v6) h co)
      as (_ & Hl4 & Ht & Hm); try done; try lia; [by destruct v6|].
    eexists. split_and!; [reflexivity|done..| |done|by intros ?%Hex|done].
    intros i Hi. apply lookup_copy_ne; [simpl; lia|]. simpl.
    destruct (decide (i < h + co)); [lia|]. destruct (decide (h + co + 2 <= i)); [lia|].
    destruct Hi. exists co, n. split; [done|lia].
  - assert (Decision (covers_itself v6 l1 h p3)) as [Hi|Hi] by (unfold covers_itself; apply _).
    + destruct Hi as (-> & -> & Hl). destruct (icmp_update p3 h) as (p' & Hp' & Hl' & Ht' & Hn' & Hv');
        [split; [done|lia]|done|lia|].
      exists p'. split_and!; [done|lia|done| |done..|]; [|by intros _ []].
      intros i Hi. apply Hn'. destruct (decide (i < h + 2)); [by left|]. destruct (decide (h + 4 <= i)); [by right|].
      destruct Hi. exists 2, 8. split; [done|lia].
    + rewrite uncovered_update by done. exists p3. by split_and!.
Qed.

Lemma extract_v4 p d ds : decoded d = LayerTypeIPv4 :: ds -> 20 <= length p ->
  extractPacketIPs p d = Ok (AddrFrom4 (take 4 (drop 12 p)), AddrFrom4 (take 4 (drop 16 p))).
Proof.
  intros Hd Hl. unfold extractPacketIPs, layer_at, go_index. rewrite Hd.
  cbn [lookup list_lookup mbind res_bind]. unfold ipv4SrcOffset, ipv4DstOffset.
  rewrite !go_slice_returns by lia. by mred.
Qed.

Lemma extract_v6 p d ds : decoded d = LayerTypeIPv6 :: ds -> 40 <= length p ->
  extractPacketIPs p d = Ok (AddrFrom16 (take 16 (drop 8 p)), AddrFrom16 (take 16 (drop 24 p))).
Proof.
  intros Hd Hl. unfold extractPacketIPs, layer_at, go_index. rewrite Hd.
  cbn [lookup list_lookup mbind res_bind]. unfold ipv6SrcOffset, ipv6DstOffset.
  rewrite !go_slice_returns by lia. by mred.
Qed.

Lemma slice_of_take {A} (l l' : list A) i n h : i + n <= h -> take h l = take h l' ->
  take n (drop i l) = take n (drop i l').
Proof. intros H E. rewrite <- (slice_take l n i h), <- (slice_take l' n i h) by lia. by rewrite E. Qed.

(** The bytes that an address rewrite may change: the address, the checksum of
    an IPv4 header and the checksum of the transport. *)
Definition rewritable (v6 : bool) (l1 : LayerType) (h : nat) (isSource : bool) (i : nat) : Prop :=
  (ip_off v6 isSource <= i < ip_off v6 isSource + (if v6 then 16 else 4)) \/
  (v6 = false /\ 10 <= i < 12) \/ in_checksum v6 l1 h i.

(** What a correct address rewrite of [p] into [p'] is. *)
Record address_rewritten (v6 : bool) (d : Layers) (l1 : LayerType) (h : nat)
    (newIP : Addr) (isSource : bool) (p p' : list Z) : Prop := {
  ar_length : length p' = length p;
  ar_frame : forall i, ~ rewritable v6 l1 h isSource i -> p' !! i = p !! i;
  ar_address : exists src dst, extractPacketIPs p d = Ok (src, dst) /\
    extractPacketIPs p' d = Ok (if isSource then (newIP, dst) else (src, newIP));
  ar_header : v6 = false -> verifies (take h p');
  ar_covered : covered v6 l1 h p -> (pseudo_sum (addr_start v6) (addr_len v6) h p' mod 65535 =
                 pseudo_sum (addr_start v6) (addr_len v6) h p mod 65535)%Z;
  ar_icmp : covers_itself v6 l1 h p -> verifies (drop h p');
  ar_other : ~ covered v6 l1 h p -> ~ covers_itself v6 l1 h p -> drop h p' = drop h p }.

Lemma rewrite_v4 p d ds l1 v h isSource :
  packet p -> decoded d = LayerTypeIPv4 :: l1 :: ds -> (0 <= v < 2 ^ 32)%Z ->
  Nat.even h = true -> 20 <= h -> h <= length p ->
  exists p', rewriteIPv4 p d (Addr4 v) h isSource = Ok p' /\
    address_rewritten false d l1 h (Addr4 v) isSource p p'.
Proof.
  intros Hp Hd Hv Eh H20 Hl. rewrite rewriteIPv4_unfold by lia. cbv zeta.
  destruct (v4_written_spec p h v isSource Hp ltac:(lia))
    as (B3 & L3 & D3 & R3 & V3 & S3 & O3 & F3).
  set (p3 := v4_written p h v isSource) in *. set (off := ip_off false isSource) in *.
  assert (Hoff : off = 12 \/ off = 16) by (destruct isSource; auto).
  destruct (transport_step false l1 p p3 (be_bytes 4 v) off h)
    as (p' & Hup & L' & T' & F' & C' & I' & U'); try done; try (rewrite be_bytes_length; simpl; lia);
    [by apply be_bytes_packet; lia|by destruct Hoff as [-> | ->]|simpl; lia..|].
  rewrite be_bytes_length in Hup. rewrite Hd. cbn [lookup list_lookup].
  exists p'. split.
  { rewrite <- Hup. by destruct l1. }
  assert (Haddr : AddrFrom4 (be_bytes 4 v) = Addr4 v)
    by (unfold AddrFrom4; by rewrite be_value_bytes).
  split; [lia| | | |done..|].
  - intros i Hi. unfold rewritable in Hi. fold off in Hi. rewrite F' by tauto. apply F3; intros ?; apply Hi; auto.
  - do 2 eexists. split; [by apply (extract_v4 _ _ _ Hd); lia|].
    rewrite (extract_v4 _ _ _ Hd) by lia. f_equal. subst off.
    rewrite (slice_of_take p' p3 12 4 h), (slice_of_take p' p3 16 4 h) by (done || lia).
    destruct isSource; cbn [ip_off negb] in *; unfold ipv4SrcOffset, ipv4DstOffset in *;
      by rewrite S3, O3, Haddr.
  - intros _. by rewrite T'.
  - intros H1 H2. by rewrite U'.
Qed.

Lemma rewrite_v6 p d ds l1 v z isSource :
  packet p -> decoded d = LayerTypeIPv6 :: l1 :: ds -> (0 <= v < 2 ^ 128)%Z ->
  40 <= length p ->
  exists p', rewriteIPv6 p d (Addr6 v z) 40 isSource = Ok p' /\
    address_rewritten true d l1 40 (Addr6 v EmptyString) isSource p p'.
Proof.
  intros Hp Hd Hv Hl. pose proof Hp as [Hb _]. rewrite rewriteIPv6_unfold by lia. cbv zeta.
  set (p3 := v6_written p v isSource). set (off := ip_off true isSource).
  assert (Hoff : off = 8 \/ off = 24) by (destruct isSource; auto).
  pose proof (be_bytes_length 16 v) as L16.
  assert (L3 : length p3 = length p) by (apply copy_into_length; fold off; lia).
  assert (D3 : drop 40 p3 = drop 40 p) by (apply drop_copy_lt; fold off; lia).
  destruct (transport_step true l1 p p3 (be_bytes 16 v) off 40)
    as (p' & Hup & L' & T' & F' & C' & I' & U'); try done; try (rewrite L16; simpl; lia).
  { by apply be_bytes_packet; lia. }
  { apply copy_into_bytes; [done|apply be_bytes_byte]. }
  { by destruct Hoff as [-> | ->]. }
  { simpl. lia. }
  rewrite L16 in Hup. rewrite Hd. cbn [lookup list_lookup].
  exists p'. split.
  { rewrite <- Hup. by destruct l1. }
  assert (Haddr : AddrFrom16 (be_bytes 16 v) = Addr6 v EmptyString)
    by (unfold AddrFrom16; by rewrite be_value_bytes).
  assert (S3 : take 16 (drop off p3) = be_bytes 16 v)
    by (rewrite <- L16 at 1; apply slice_copy_eq; fold off; lia).
  assert (O3 : take 16 (drop (32 - off) p3) = take 16 (drop (32 - off) p))
    by (apply slice_copy_ne; fold off; lia).
  split; [lia| | |done..|].
  - intros i Hi. unfold rewritable in Hi. fold off in Hi. rewrite F' by tauto.
    apply lookup_copy_ne; fold off; [lia|]. rewrite L16. destruct (decide (i < off)); [by left|right].
    destruct (decide (off + 16 <= i)); [done|]. destruct Hi. left. lia.
  - do 2 eexists. split; [by apply (extract_v6 _ _ _ Hd); lia|].
    rewrite (extract_v6 _ _ _ Hd) by lia. f_equal. subst off.
    rewrite (slice_of_take p' p3 8 16 40), (slice_of_take p' p3 24 16 40) by (done || lia).
    destruct isSource; cbn [ip_off] in *; unfold ipv6SrcOffset, ipv6DstOffset in *;
      cbn [Nat.sub] in O3; by rewrite S3, O3, Haddr.
  - intros H1 H2. by rewrite U'.
Qed.

(** ** The NAT tables as a state machine *)
Inductive nat_op : Type :=
| NatAdd (original translated : Addr)
| NatRemove (original : Addr)
| NatAddPort (target : Addr) (proto : Protocol) (orig trans : Z)
| NatRemovePort (target : Addr) (proto : Protocol) (orig trans : Z).

Definition run_nat (local : Addr -> bool) (op : nat_op) (s : NatState) : M NatState :=
  match op with
  | NatAdd o t => AddInternalDNATMapping local o t s
  | NatRemove o => RemoveInternalDNATMapping o s
  | NatAddPort a p o t => AddInboundDNAT a p o t s
  | NatRemovePort a p o t => RemoveInboundDNAT a p o t s
  end.

(** The mapping is one to one: neither end is in use already. *)
Definition nat_op_fresh (s : NatState) (op : nat_op) : Prop :=
  match op with
  | NatAdd o t => dnatMappings s !! o = None /\ forall o', dnatMappings s !! o' ≠ Some t
  | _ => True
  end.

(** [one_to_one] asks every added mapping to be fresh.  A failed call leaves
    the state as it was. *)
Inductive nat_reach (local : Addr -> bool) (one_to_one : bool) : NatState -> Prop :=
| nat_reach_new : nat_reach local one_to_one NewNat
| nat_reach_ok s op s' :
    nat_reach local one_to_one s -> (one_to_one = true -> nat_op_fresh s op) ->
    run_nat local op s = Ok s' -> nat_reach local one_to_one s'.

Record nat_inv (s : NatState) : Prop := {
  ninv_nil : dnatBiMap s = None -> dnatMappings s = ∅;
  ninv_forward : forall bi, dnatBiMap s = Some bi -> forward bi = dnatMappings s;
  ninv_enabled : dnatEnabled s = true <-> dnatMappings s ≠ ∅;
  ninv_port : portDNATEnabled s = true <-> portDNATRules s ≠ []
}.

Lemma NewNat_inv : nat_inv NewNat.
Proof. split; done. Qed.

Lemma add_mapping_inv local o t s s' :
  nat_inv s -> AddInternalDNATMapping local o t s = Ok s' -> nat_inv s'.
Proof.
  intros [Hn Hf He Hp]. unfold AddInternalDNATMapping.
  destruct (negb (IsValid o)); [done|]. destruct (negb (IsValid t)); [done|].
  destruct (local t); [done|].
  destruct (dnatBiMap s) as [bi|] eqn:Hbi; cbv zeta; intros [= <-];
    (split; cbn [dnatBiMap dnatMappings dnatEnabled portDNATEnabled portDNATRules];
     [done| | |done]).
  - intros ? [= <-]. simpl. by rewrite (Hf bi).
  - split; [intros _; apply insert_non_empty|]. intros _. case_decide as Hs; [done|].
    apply He. intros Hm. apply Hs. by rewrite Hm, insert_empty, map_size_singleton.
  - intros ? [= <-]. simpl. done.
  - split; [intros _; apply insert_non_empty|]. intros _. rewrite decide_True; [done|].
    by rewrite insert_empty, map_size_singleton.
Qed.

Lemma remove_mapping_inv o s s' :
  nat_inv s -> RemoveInternalDNATMapping o s = Ok s' -> nat_inv s'.
Proof.
  intros [Hn Hf He Hp]. unfold RemoveInternalDNATMapping.
  destruct (dnatMappings s !! o) as [t|] eqn:Ho; [|done].
  destruct (dnatBiMap s) as [bi|] eqn:Hbi; [|done]. intros [= <-].
  split; cbn [dnatBiMap dnatMappings dnatEnabled portDNATEnabled portDNATRules].
  - done.
  - intros ? [= <-]. unfold bi_delete. by rewrite (Hf bi), Ho by done.
  - case_decide as Hs.
    + apply map_size_empty_inv in Hs. rewrite Hs. done.
    + split; [|intros _; apply He; intros Hm; by rewrite Hm in Ho].
      intros _ Hm. apply Hs. by rewrite Hm.
  - done.
Qed.

Lemma nat_reach_inv local b s : nat_reach local b s -> nat_inv s.
Proof.
  induction 1 as [|s op s' _ IH _ Hrun]; [apply NewNat_inv|].
  destruct op as [o t|o|a p o t|a p o t]; simpl in Hrun.
  - by apply (add_mapping_inv local o t s).
  - by apply (remove_mapping_inv o s).
  - destruct IH as [Hn Hf He Hp].
    destruct p; simplify_eq/=; split; simpl; try done; split; try done;
      intros _ ?%app_nil; naive_solver.
  - destruct IH as [Hn Hf He Hp].
    destruct p; simplify_eq/=; split; simpl; try done; case_decide as Hd; split; try done;
      intros _; apply Hp; intros Hnil; apply Hd; by rewrite Hnil.
Qed.

(** With one-to-one mappings the two maps are inverse to each other. *)
Definition inverse_maps (s : NatState) : Prop :=
  forall bi, dnatBiMap s = Some bi ->
  forall o t, forward bi !! o = Some t <-> reverse_ bi !! t = Some o.

Lemma add_inverse bi o t :
  (forall o t, forward bi !! o = Some t <-> reverse_ bi !! t = Some o) ->
  forward bi !! o = None -> (forall o', forward bi !! o' ≠ Some t) ->
  forall o' t', forward (bi_set o t bi) !! o' = Some t' <-> reverse_ (bi_set o t bi) !! t' = Some o'.
Proof.
  intros Hi Ho Ht o' t'. simpl. rewrite !lookup_insert_Some. split.
  - intros [[<- <-]|[Hne Hf]]; [by left|]. right. split; [|by apply Hi].
    intros ->. by apply (Ht o').
  - intros [[<- <-]|[Hne Hr]]; [by left|]. right. apply Hi in Hr. split; [|done].
    intros ->. congruence.
Qed.

Lemma remove_inverse bi o :
  (forall o t, forward bi !! o = Some t <-> reverse_ bi !! t = Some o) ->
  forall o' t', forward (bi_delete o bi) !! o' = Some t' <->
                reverse_ (bi_delete o bi) !! t' = Some o'.
Proof.
  intros Hi o' t'. unfold bi_delete. destruct (forward bi !! o) as [t|] eqn:Ho; [|done].
  simpl. rewrite !lookup_delete_Some. split.
  - intros [Hne Hf]. split; [|by apply Hi]. intros <-.
    apply Hi in Hf. apply Hi in Ho. congruence.
  - intros [Hne Hr]. apply Hi in Hr. split; [|done]. intros <-. congruence.
Qed.

Lemma nat_reach_inverse local s : nat_reach local true s -> inverse_maps s.
Proof.
  induction 1 as [|s op s' Hr IH Hfr Hrun]; [done|]. specialize (Hfr eq_refl).
  pose proof (nat_reach_inv _ _ _ Hr) as Hinv.
  destruct op as [o t|o|a p o t|a p o t]; simpl in Hrun, Hfr.
  - destruct Hfr as [Ho Ht]. unfold AddInternalDNATMapping in Hrun.
    destruct (negb (IsValid o)); [done|]. destruct (negb (IsValid t)); [done|].
    destruct (local t); [done|]. destruct (dnatBiMap s) as [bi|] eqn:Hbi;
      cbv zeta in Hrun; injection Hrun as <-; intros ? [= <-].
    + pose proof (ninv_forward _ Hinv bi Hbi) as Hf. rewrite <- Hf in Ho, Ht.
      by apply add_inverse; [apply IH|..].
    + by apply add_inverse.
  - unfold RemoveInternalDNATMapping in Hrun. destruct (dnatMappings s !! o); [|done].
    destruct (dnatBiMap s) as [bi|] eqn:Hbi; [|done]. injection Hrun as <-.
    intros ? [= <-]. by apply remove_inverse, IH.
  - destruct p; simplify_eq/=; exact IH.
  - destruct p; simplify_eq/=; exact IH.
Qed.

(** ** The theorems *)

(** A packet as the decoder describes it: bytes with an IPv4 or IPv6 header
    of [h] bytes in front; the transport may be cut off. *)
Definition wf_packet (v6 : bool) (d : Layers) (l1 : LayerType) (h : nat) (p : list Z) : Prop :=
  packet p /\ h <= length p /\ ipHeaderLen d = Ok h /\
  exists ds, decoded d = (if v6 then LayerTypeIPv6 else LayerTypeIPv4) :: l1 :: ds.

Lemma wf_packet_header v6 d l1 h p : wf_packet v6 d l1 h p ->
  Nat.even h = true /\ 20 <= h /\ (v6 = true -> h = 40).
Proof.
  intros (_ & Hl & Hh & ds & Hd). unfold ipHeaderLen, layer_at, go_index in Hh. rewrite Hd in Hh.
  cbn [lookup list_lookup mbind res_bind] in Hh. destruct v6; cbv iota in Hh.
  - injection Hh as <-. unfold ipv6HeaderLen. split_and!; [done|lia|done].
  - destruct (Z.ltb_spec (ip4_IHL d * 4) 20) as [|H20]; [done|]. injection Hh as <-.
    split_and!; [|lia|done].
    replace (Z.to_nat (ip4_IHL d * 4)) with (2 * (Z.to_nat (ip4_IHL d) * 2)) by lia.
    apply Nat.even_mul.
Qed.

Lemma rewritePacketIP_sound v6 d l1 h p newIP isSource :
  wf_packet v6 d l1 h p -> addr_wf newIP -> hasZone newIP = false ->
  (if v6 then Is6 newIP else Is4 newIP) = true ->
  exists p', rewritePacketIP p d newIP isSource = Ok p' /\
    address_rewritten v6 d l1 h newIP isSource p p'.
Proof.
  intros Hwf Ha Hz Hfam. destruct (wf_packet_header _ _ _ _ _ Hwf) as (Eh & H20 & H40).
  destruct Hwf as (Hp & Hl & Hh & ds & Hd). unfold rewritePacketIP. rewrite Hh. mred.
  unfold layer_at, go_index. rewrite Hd. cbn [lookup list_lookup mbind res_bind].
  destruct v6, newIP as [|v|v z]; try done; cbv iota.
  - rewrite (H40 eq_refl) in *. cbn [hasZone] in Hz.
    apply negb_false_iff, bool_decide_eq_true in Hz as ->. by eapply rewrite_v6; try done; lia.
  - by eapply rewrite_v4.
Qed.

(** C34: address rewriting keeps packets valid.  For every packet with a
    complete IPv4 or IPv6 header and every address of its family the rewrite
    succeeds and leaves every byte as it is, except those of the chosen
    address, of the IPv4 header checksum and of the transport checksum.  The
    addresses read back are the new one and the other one as before; an IPv4
    header checksum verifies; the ones'-complement sum of addresses and segment
    is unchanged for TCP, for UDP with a checksum and for ICMPv6; an ICMPv4
    checksum verifies; and a segment without one of these checksums (or too
    short for it) is unchanged. *)
Theorem address_rewrite_sound (v6 : bool) (d : Layers) (l1 : LayerType) (h : nat)
    (p : list Z) (newIP : Addr) (isSource : bool) :
  wf_packet v6 d l1 h p -> addr_wf newIP -> hasZone newIP = false ->
  (if v6 then Is6 newIP else Is4 newIP) = true ->
  exists p', rewritePacketIP p d newIP isSource = Ok p' /\
    address_rewritten v6 d l1 h newIP isSource p p'.
Proof. apply rewritePacketIP_sound. Qed.

(** port rewriting keeps packets valid.  Rewriting the source or the
    destination port of a complete packet succeeds, stores the new port,
    changes nothing but the port and the checksum field, and leaves the
    ones'-complement sum of the segment unchanged (for UDP: if the datagram
    carries a checksum; otherwise none is added). *)
Theorem port_rewrite_sound (v6 : bool) (d : Layers) (l1 : LayerType) (h po : nat)
    (p : list Z) (newPort : Z) :
  wf_packet v6 d l1 h p -> h + 20 <= length p -> (0 <= newPort < 65536)%Z -> po = 0 \/ po = 2 ->
  (exists p', rewriteTCPPort p d newPort po = Ok p' /\ port_rewritten h po 16 newPort p p') /\
  (exists p', rewriteUDPPort p d newPort po = Ok p' /\
     (word_at p (h + 6) ≠ 0%Z -> port_rewritten h po 6 newPort p p') /\
     (word_at p (h + 6) = 0%Z -> p' = copy_into p (h + po) (Uint16_bytes newPort))).
Proof.
  intros Hwf Hl Hv Hpo. destruct (wf_packet_header _ _ _ _ _ Hwf) as (Eh & H20 & _).
  destruct Hwf as ([Hb _] & _ & Hh & _). unfold rewriteTCPPort, rewriteUDPPort. rewrite Hh. mred.
  assert (Ep : Nat.even po = true) by (by destruct Hpo as [-> | ->]).
  rewrite !decide_False by lia. cbv zeta. rewrite !get16_ok, !put16_ok by lia. mred.
  set (p1 := copy_into p (h + po) _).
  assert (L1 : length p1 = length p) by (apply copy_into_length; lia).
  rewrite !decide_True by lia. rewrite !get16_ok by lia. mred. rewrite !put16_ok by lia. split.
  - eexists. split; [reflexivity|]. by apply port_repair; try done; lia.
  - assert (Hz : word_at p1 (h + 6) = word_at p (h + 6)) by (apply word_at_copy_ne; lia).
    rewrite Hz. destruct (Z.eqb_spec (word_at p (h + 6)) 0) as [H0|H0]; simpl.
    + exists p1. split_and!; done.
    + eexists. split_and!; [reflexivity| |done]. intros _. rewrite <- Hz.
      by apply port_repair; try done; lia.
Qed.

(** DNAT replies are mapped back.  In every state reached by one-to-one
    mappings, an outbound packet to a mapped address leaves with the
    translated destination, and an inbound packet from the translated address
    arrives with the original source; the source of the first and the
    destination of the second are untouched, and no other address is
    translated to or from the pair. *)
Theorem dnat_reply_restored (local : Addr -> bool) (s : NatState) (o t : Addr) :
  nat_reach local true s -> getDNATTranslation o s = Ok (Some t) ->
  findReverseDNATMapping t s = Ok (Some o) /\
  (forall o', getDNATTranslation o' s = Ok (Some t) -> o' = o) /\
  forall v6 d l1 h p src dst,
    wf_packet v6 d l1 h p -> addr_wf o -> addr_wf t ->
    hasZone o = false -> hasZone t = false ->
    (if v6 then Is6 o && Is6 t else Is4 o && Is4 t) = true ->
    extractPacketIPs p d = Ok (src, dst) ->
    (dst = o -> exists p', translateOutboundDNAT p d s = Ok (p', true) /\
       extractPacketIPs p' d = Ok (src, t)) /\
    (src = t -> exists p', translateInboundReverse p d s = Ok (p', true) /\
       extractPacketIPs p' d = Ok (o, dst)).
Proof.
  intros Hr Ht. pose proof (nat_reach_inverse _ _ Hr) as Hinv.
  unfold getDNATTranslation, findReverseDNATMapping in *.
  destruct (dnatEnabled s) eqn:He; simpl in *; [|done].
  destruct (dnatBiMap s) as [bi|] eqn:Hbi; [|done].
  assert (Hf : forward bi !! o = Some t) by (injection Ht as <-; done).
  specialize (Hinv bi Hbi). pose proof (proj1 (Hinv o t) Hf) as Hrev.
  split; [unfold getOriginal; by rewrite Hrev|]. split.
  { intros o' [= Ho']. apply Hinv in Ho'. congruence. }
  intros v6 d l1 h p src dst Hwf Wo Wt Zo Zt Hfam Hext.
  split; intros ->; [unfold translateOutboundDNAT|unfold translateInboundReverse];
    rewrite He, Hext; cbn [negb mbind res_bind];
    unfold getDNATTranslation, findReverseDNATMapping, getTranslated, getOriginal;
    rewrite He, Hbi, ?Hf, ?Hrev; cbn [negb mbind res_bind].
  - destruct (rewritePacketIP_sound v6 d l1 h p t false Hwf Wt Zt) as (p' & -> & Ha).
    { by destruct v6, (andb_prop _ _ Hfam). }
    exists p'. split; [done|]. destruct (ar_address _ _ _ _ _ _ _ _ Ha) as (src' & dst' & E1 & ->).
    rewrite Hext in E1. by simplify_eq.
  - destruct (rewritePacketIP_sound v6 d l1 h p o true Hwf Wo Zo) as (p' & -> & Ha).
    { by destruct v6, (andb_prop _ _ Hfam). }
    exists p'. split; [done|]. destruct (ar_address _ _ _ _ _ _ _ _ Ha) as (src' & dst' & E1 & ->).
    rewrite Hext in E1. by simplify_eq.
Qed.

(** remapping an address leaves a stale reverse entry.  If an address is
    mapped again while it is mapped, the forward map follows but inbound
    packets from the first target are still rewritten to the address, and
    they are even after the mapping is removed, as long as another mapping
    keeps DNAT enabled. *)
Theorem dnat_remap_leaves_stale_reverse (local : Addr -> bool) (s s1 s2 s3 : NatState)
    (o t1 t2 : Addr) :
  nat_reach local false s ->
  AddInternalDNATMapping local o t1 s = Ok s1 ->
  AddInternalDNATMapping local o t2 s1 = Ok s2 -> t1 ≠ t2 ->
  RemoveInternalDNATMapping o s2 = Ok s3 ->
  getDNATTranslation o s2 = Ok (Some t2) /\
  findReverseDNATMapping t1 s2 = Ok (Some o) /\
  (dnatMappings s3 ≠ ∅ -> getDNATTranslation o s3 = Ok None /\
                          findReverseDNATMapping t1 s3 = Ok (Some o)).
Proof.
  intros Hr%nat_reach_inv H1 H2 Hne H3.
  pose proof (add_mapping_inv _ _ _ _ _ Hr H1) as Hi1.
  pose proof (add_mapping_inv _ _ _ _ _ Hi1 H2) as Hi2.
  pose proof (remove_mapping_inv _ _ _ Hi2 H3) as Hi3.
  assert (Hadd : forall t s s', AddInternalDNATMapping local o t s = Ok s' ->
    exists m bi, dnatBiMap s' = Some (bi_set o t bi) /\ dnatMappings s' = <[o := t]> m /\
      (forall b, dnatBiMap s = Some b -> bi = b)).
  { clear. intros t s s'. unfold AddInternalDNATMapping.
    destruct (negb (IsValid o)); [done|]. destruct (negb (IsValid t)); [done|].
    destruct (local t); [done|]. destruct (dnatBiMap s); intros [= <-];
      do 2 eexists; split_and!; try reflexivity; naive_solver. }
  destruct (Hadd _ _ _ H1) as (m1 & b1 & B1 & M1 & _).
  destruct (Hadd _ _ _ H2) as (m2 & b2 & B2 & M2 & Hb2). rewrite (Hb2 _ B1) in B2.
  unfold RemoveInternalDNATMapping in H3. rewrite B2, M2, lookup_insert_eq in H3.
  assert (B3 : dnatBiMap s3 = Some (bi_delete o (bi_set o t2 (bi_set o t1 b1))))
    by (by injection H3 as <-). clear H3.
  unfold getDNATTranslation, findReverseDNATMapping.
  rewrite (proj2 (ninv_enabled _ Hi2)) by (rewrite M2; apply insert_non_empty). rewrite B2.
  unfold getTranslated, getOriginal. cbn [negb]. split_and!.
  - simpl. by rewrite lookup_insert_eq.
  - simpl. by rewrite lookup_insert_ne, lookup_insert_eq.
  - intros Hm. rewrite (proj2 (ninv_enabled _ Hi3) Hm), B3. cbn [negb].
    unfold bi_delete. cbn [forward bi_set]. rewrite lookup_insert_eq. cbn [forward reverse_ bi_set].
    rewrite lookup_delete_eq, lookup_delete_ne by done.
    by rewrite lookup_insert_ne, lookup_insert_eq.
Qed.

(** ** Witnesses *)
Definition wit_packet : list Z :=
  [69; 0; 0; 40; 0; 0; 64; 0; 64; 6; 38; 206; 10; 0; 0; 1; 10; 0; 0; 2;
   4; 210; 0; 80; 0; 0; 0; 1; 0; 0; 0; 0; 80; 2; 250; 240; 161; 178; 0; 0]%Z.

Definition wit_layers : Layers :=
  mkLayers [LayerTypeIPv4; LayerTypeTCP] [10; 0; 0; 1]%Z [10; 0; 0; 2]%Z 5 6 2 0 [] [] 0
    (mkTCPLayer 1234 80 true false false false false false []) 0 0 0 0 0 [].

Definition wit_orig : Addr := Addr4 167772162.
Definition wit_target : Addr := Addr4 3232235777.
Definition wit_other : Addr := Addr4 3232235778.
Definition wit_local : Addr -> bool := fun _ => false.

Lemma wit_wf : wf_packet false wit_layers LayerTypeTCP 20 wit_packet.
Proof.
  split_and!; [split; [by_decide|vm_compute; congruence]|vm_compute; lia|done|].
  by exists [].
Qed.

Lemma address_rewrite_sound_witness :
  exists p', rewritePacketIP wit_packet wit_layers wit_target false = Ok p' /\
    address_rewritten false wit_layers LayerTypeTCP 20 wit_target false wit_packet p'.
Proof.
  apply (address_rewrite_sound false wit_layers LayerTypeTCP 20 wit_packet wit_target false
    wit_wf); vm_compute; intuition congruence.
Defined.

Lemma port_rewrite_sound_witness :
  exists p', rewriteTCPPort wit_packet wit_layers 8080 2 = Ok p' /\
    port_rewritten 20 2 16 8080 wit_packet p'.
Proof.
  refine (proj1 (port_rewrite_sound false wit_layers LayerTypeTCP 20 2 wit_packet 8080
    wit_wf _ _ _)); [vm_compute; lia|vm_compute; intuition congruence|by right].
Defined.

Definition wit_nat : NatState :=
  match AddInternalDNATMapping wit_local wit_orig wit_target NewNat with
  | Ok s => s | _ => NewNat
  end.

Lemma dnat_reply_restored_witness :
  findReverseDNATMapping wit_target wit_nat = Ok (Some wit_orig).
Proof.
  refine (proj1 (dnat_reply_restored wit_local wit_nat wit_orig wit_target _ _));
    [|vm_compute; reflexivity].
  apply (nat_reach_ok wit_local true NewNat (NatAdd wit_orig wit_target)).
  - apply nat_reach_new.
  - intros _. split; [done|]. intros o'. cbn [dnatMappings NewNat]. by rewrite lookup_empty.
  - vm_compute. reflexivity.
Defined.

Definition wit_nat2 : NatState :=
  match AddInternalDNATMapping wit_local wit_orig wit_other wit_nat with
  | Ok s => s | _ => NewNat
  end.

Definition wit_nat3 : NatState :=
  match RemoveInternalDNATMapping wit_orig wit_nat2 with Ok s => s | _ => NewNat end.

Lemma dnat_remap_leaves_stale_reverse_witness :
  getDNATTranslation wit_orig wit_nat2 = Ok (Some wit_other) /\
  findReverseDNATMapping wit_target wit_nat2 = Ok (Some wit_orig).
Proof.
  destruct (dnat_remap_leaves_stale_reverse wit_local NewNat wit_nat wit_nat2 wit_nat3
    wit_orig wit_target wit_other) as (H1 & H2 & _); [..|by split].
  - apply nat_reach_new.
  - vm_compute. reflexivity.
  - vm_compute. reflexivity.
  - done.
  - vm_compute. reflexivity.
Defined.
