(* ===== verification/UspRules.v ===== *)
(** * Rule tables of the userspace firewall
      (client/firewall/manager; client/internal/acl/id;
       client/firewall/uspfilter: filter.go, rule.go)

    Peer rules are kept per source address in two maps, deny and accept;
    route rules are heap objects shared by the sorted slice [routeRules] and
    the index [routeRulesMap], so that an update of a rule's destinations is
    seen through both.  Go's iteration order over a map is an argument
    ([ord]): any permutation of the entries is possible. *)

From Stdlib Require Import ZArith Lia.
From Stdlib Require OrderedTypeEx.
From stdpp Require Import base gmap strings numbers countable sorting pretty list.
From S2P Require Import Prelude Netip Checksum UspPacket UspNat.

(** ** Stable sorting ([slices.SortStableFunc]) *)
Section sort.
Context {A : Type} (cmp : A -> A -> Z).

Fixpoint insert_stable (x : A) (l : list A) : list A :=
  match l with
  | [] => [x]
  | y :: rest => if (cmp x y <=? 0)%Z then x :: l else y :: insert_stable x rest
  end.

Definition sort_stable (l : list A) : list A := foldr insert_stable [] l.

End sort.

(** [slices.Compact] *)
Fixpoint Compact {A} `{EqDecision A} (l : list A) : list A :=
  match l with
  | x :: (y :: _) as rest => if decide (x = y) then Compact rest else x :: Compact rest
  | _ => l
  end.

(** ** client/firewall/manager *)
Inductive Action : Type := ActionAccept | ActionDrop.

#[global] Instance Action_eq_dec : EqDecision Action.
Proof. solve_decision. Defined.

Definition Action_num (a : Action) : Z := match a with ActionAccept => 0 | ActionDrop => 1 end.

Record Port : Type := mkPort { IsRange : bool; Values : list Z }.

#[global] Instance Port_eq_dec : EqDecision Port.
Proof. solve_decision. Defined.

Inductive port_error : Type := ErrNoPort | ErrInvalidPort (port : Z).

Definition NewPort (ports : list Z) : res port_error Port :=
  match ports with
  | [] => Err ErrNoPort
  | _ =>
      match list_find (fun port => port < 1 \/ 65535 < port)%Z ports with
      | Some (_, port) => Err (ErrInvalidPort port)
      | None => Ok (mkPort (bool_decide (1 < length ports)) ports)
      end
  end.

Fixpoint join_ports (acc : string) (ports : list Z) : string :=
  match ports with
  | [] => acc
  | port :: rest =>
      let acc := if decide (acc = EmptyString) then acc else (acc +:+ ",")%string in
      join_ports (acc +:+ pretty port) rest
  end.

Definition Port_String (p : Port) : string :=
  let ports := join_ports EmptyString (Values p) in
  if IsRange p then ("range:" +:+ ports)%string else ports.

Record FSet : Type := mkSet { set_hash : list Z; set_comment : string }.

#[global] Instance FSet_eq_dec : EqDecision FSet.
Proof. solve_decision. Defined.

Definition EmptySet_ : FSet := mkSet [0; 0; 0; 0]%Z EmptyString.

Record Network : Type := mkNetwork { NSet : FSet; NPrefix : Prefix }.

Definition IsSet (n : Network) : bool := bool_decide (NSet n ≠ EmptySet_).
Definition IsPrefix (n : Network) : bool := PIsValid (NPrefix n).

(** [hex] and [prefix_string] are [hex.EncodeToString] and
    [netip.Prefix.String]. *)
Definition HashedName (hex : list Z -> string) (s : FSet) : string :=
  ("nb-" +:+ hex (set_hash s))%string.

Definition Network_String (hex : list Z -> string) (prefix_string : Prefix -> string)
    (n : Network) : string :=
  if PIsValid (NPrefix n) then prefix_string (NPrefix n)
  else if IsSet n then HashedName hex (NSet n)
  else "<invalid network>".

(** [SortPrefixes]: by address, longer prefixes first. *)
Definition sort_prefix_cmp (a b : Prefix) : Z :=
  let c := addr_compare (PAddr a) (PAddr b) in
  if (c =? 0)%Z then PBits b - PBits a else c.

Definition SortPrefixes (l : list Prefix) : list Prefix := sort_stable sort_prefix_cmp l.

(** [MergeIPRanges]: [merged] is kept with its last element in front. *)
Definition merge_step (merged : list Prefix) (prefix : Prefix) : list Prefix :=
  match merged with
  | [] => [prefix]
  | last :: before =>
      if Contains last (PAddr prefix) then merged
      else if Contains prefix (PAddr last) then prefix :: before
      else prefix :: merged
  end.

Definition MergeIPRanges (prefixes : list Prefix) : list Prefix :=
  match prefixes with
  | [] => prefixes
  | p :: rest => reverse (foldl merge_step [p] rest)
  end.

Definition Protocol_string (p : Protocol) : string :=
  match p with
  | ProtocolTCP => "tcp" | ProtocolUDP => "udp" | ProtocolICMP => "icmp"
  | ProtocolALL => "all" | ProtocolUnknown => EmptyString
  end.

(** ** client/internal/acl/id *)
Definition opt_port_string (p : option Port) : string :=
  match p with Some p => Port_String p | None => "<nil>" end.

Section keys.
Context (sha256hex : string -> string) (hex : list Z -> string)
  (prefix_string : Prefix -> string).

(** What is hashed, for sources already sorted. *)
Definition rule_preimage (sources : list Prefix) (destination : Network) (proto : Protocol)
    (sPort dPort : option Port) (action : Action) : string :=
  ("sources:" +:+
   foldr (fun s acc => prefix_string s +:+ "," +:+ acc) EmptyString sources +:+
   "destination:" +:+ Network_String hex prefix_string destination +:+
   "proto:" +:+ Protocol_string proto +:+
   "sPort:" +:+ opt_port_string sPort +:+
   "dPort:" +:+ opt_port_string dPort +:+
   "action:" +:+ pretty (Action_num action))%string.

Definition GenerateRouteRuleKey (sources : list Prefix) (destination : Network)
    (proto : Protocol) (sPort dPort : option Port) (action : Action) : string :=
  let sources := SortPrefixes sources in
  let hash := sha256hex (rule_preimage sources destination proto sPort dPort action) in
  (Network_String hex prefix_string destination +:+ "-" +:+ String.substring 0 16 hash)%string.
End keys.

(** ** Rules (rule.go) *)
Record PeerRule : Type := mkPeerRule {
  pr_id : string;
  pr_mgmtId : list Z;
  pr_ip : Addr;
  pr_ipLayer : LayerType;
  pr_matchByIP : bool;
  pr_protoLayer : LayerType;
  pr_sPort : option Port;
  pr_dPort : option Port;
  pr_drop : bool
}.

Record RouteRule : Type := mkRouteRule {
  rr_id : string;
  rr_mgmtId : list Z;
  rr_sources : list Prefix;
  rr_dstSet : FSet;
  rr_destinations : list Prefix;
  rr_protoLayer : LayerType;
  rr_srcPort : option Port;
  rr_dstPort : option Port;
  rr_action : Action
}.

#[global] Instance RouteRule_inhabited : Inhabited RouteRule :=
  populate (mkRouteRule EmptyString [] [] EmptySet_ [] LayerTypeZero None None ActionAccept).

(** ** The tables *)
Definition loc : Type := nat.

Record RuleTables : Type := mkTables {
  incomingDenyRules : gmap Addr (gmap string PeerRule);
  incomingRules : gmap Addr (gmap string PeerRule);
  rr_heap : gmap loc RouteRule;
  rr_next : loc;
  routeRules : list loc;
  routeRulesMap : gmap string loc
}.

Definition NewTables : RuleTables := mkTables ∅ ∅ ∅ 0 [] ∅.

(** The order of [RouteRules.Sort]: deny rules first, then by identifier. *)
Definition route_cmp (a b : RouteRule) : Z :=
  if bool_decide (rr_action a = ActionDrop) && bool_decide (rr_action b ≠ ActionDrop) then -1
  else if bool_decide (rr_action a ≠ ActionDrop) && bool_decide (rr_action b = ActionDrop) then 1
  else cmpZ (String.compare (rr_id a) (rr_id b)).

Definition RouteRules_Sort (heap : gmap loc RouteRule) (l : list loc) : list loc :=
  sort_stable (fun a b => route_cmp (heap !!! a) (heap !!! b)) l.

Definition ipLayerFromPrefix (p : Prefix) : LayerType :=
  if Is6 (PAddr p) then LayerTypeIPv6 else LayerTypeIPv4.

Definition protoToLayer (proto : Protocol) (ipLayer : LayerType) : LayerType :=
  match proto with
  | ProtocolTCP => LayerTypeTCP
  | ProtocolUDP => LayerTypeUDP
  | ProtocolICMP => if decide (ipLayer = LayerTypeIPv6) then LayerTypeICMPv6 else LayerTypeICMPv4
  | ProtocolALL => layerTypeAll
  | ProtocolUnknown => LayerTypeZero
  end.

Definition protoLayerMatches (ruleLayer packetLayer : LayerType) : bool :=
  bool_decide (ruleLayer = packetLayer) ||
  bool_decide (ruleLayer = LayerTypeICMPv4 /\ packetLayer = LayerTypeICMPv6) ||
  bool_decide (ruleLayer = LayerTypeICMPv6 /\ packetLayer = LayerTypeICMPv4).

Definition portsMatch (rulePort : option Port) (packetPort : Z) : M bool :=
  match rulePort with
  | None => Ok true
  | Some port =>
      if IsRange port then
        v0 ← go_index (Values port) 0;
        if (v0 <=? packetPort)%Z then
          v1 ← go_index (Values port) 1;
          Ok (packetPort <=? v1)%Z
        else Ok false
      else Ok (bool_decide (packetPort ∈ Values port))
  end.

(** [a && b] where evaluating either may panic. *)
Definition andM (a b : M bool) : M bool := x ← a; if (x : bool) then b else Ok false.

Definition IPv4Unspecified : Addr := Addr4 0.
Definition IPv6Unspecified : Addr := Addr6 0 EmptyString.

(** [id] is the fresh [uuid.New().String()]. *)
Definition AddPeerFiltering (uuid : string) (mgmtId ip : list Z) (proto : Protocol)
    (sPort dPort : option Port) (action : Action) (t : RuleTables)
    : M (RuleTables * PeerRule) :=
  let i := AddrFromSlice ip in
  if negb (IsValid i) then Err ErrInvalidIP
  else
    let i := Unmap i in
    let ipLayer := if Is4 i then LayerTypeIPv4 else LayerTypeIPv6 in
    let matchByIP := negb (bool_decide (i = IPv4Unspecified) || bool_decide (i = IPv6Unspecified)) in
    let drop_ := bool_decide (action = ActionDrop) in
    let r := mkPeerRule uuid mgmtId i ipLayer matchByIP (protoToLayer proto ipLayer)
               sPort dPort drop_ in
    let add (m : gmap Addr (gmap string PeerRule)) : gmap Addr (gmap string PeerRule) :=
      <[i := <[uuid := r]> (default ∅ (m !! i))]> m in
    Ok (if drop_
        then mkTables (add (incomingDenyRules t)) (incomingRules t) (rr_heap t) (rr_next t)
               (routeRules t) (routeRulesMap t)
        else mkTables (incomingDenyRules t) (add (incomingRules t)) (rr_heap t) (rr_next t)
               (routeRules t) (routeRulesMap t), r).

Definition delete_from (m : gmap Addr (gmap string PeerRule)) (r : PeerRule)
    : M (gmap Addr (gmap string PeerRule)) :=
  match m !! pr_ip r with
  | None => Err ErrRuleNotFound
  | Some ruleset =>
      match ruleset !! pr_id r with
      | None => Err ErrRuleNotFound
      | Some _ =>
          let ruleset := delete (pr_id r) ruleset in
          Ok (if decide (size ruleset = 0) then delete (pr_ip r) m
              else <[pr_ip r := ruleset]> m)
      end
  end.

Definition DeletePeerRule (r : PeerRule) (t : RuleTables) : M RuleTables :=
  if pr_drop r then
    m ← delete_from (incomingDenyRules t) r;
    Ok (mkTables m (incomingRules t) (rr_heap t) (rr_next t) (routeRules t) (routeRulesMap t))
  else
    m ← delete_from (incomingRules t) r;
    Ok (mkTables (incomingDenyRules t) m (rr_heap t) (rr_next t) (routeRules t)
          (routeRulesMap t)).

(** [ruleKey] is [GenerateRouteRuleKey] with its hash functions.  The sources
    are sorted in place by it, so the rule stores the sorted slice.  The
    result is the pointer to the rule. *)
Definition addRouteFiltering
    (ruleKey : list Prefix -> Network -> Protocol -> option Port -> option Port -> Action -> string)
    (mgmtId : list Z) (sources : list Prefix) (destination : Network) (proto : Protocol)
    (sPort dPort : option Port) (action : Action) (t : RuleTables) : RuleTables * loc :=
  let key := ruleKey sources destination proto sPort dPort action in
  match routeRulesMap t !! key with
  | Some existing => (t, existing)
  | None =>
      let rule := mkRouteRule key mgmtId (SortPrefixes sources) (NSet destination)
                    (if IsPrefix destination then [NPrefix destination] else [])
                    (protoToLayer proto (ipLayerFromPrefix (NPrefix destination)))
                    sPort dPort action in
      let l := rr_next t in
      let heap := <[l := rule]> (rr_heap t) in
      (mkTables (incomingDenyRules t) (incomingRules t) heap (S l)
         (RouteRules_Sort heap (routeRules t ++ [l]))
         (<[key := l]> (routeRulesMap t)), l)
  end.

Definition deleteRouteRule (ruleID : string) (t : RuleTables) : M RuleTables :=
  match routeRulesMap t !! ruleID with
  | None => Err ErrRuleNotFound
  | Some _ =>
      match list_find (fun l => rr_id (rr_heap t !!! l) = ruleID) (routeRules t) with
      | None => Err ErrRuleNotFoundInSlice
      | Some (idx, _) =>
          Ok (mkTables (incomingDenyRules t) (incomingRules t) (rr_heap t) (rr_next t)
                (delete idx (routeRules t)) (delete ruleID (routeRulesMap t)))
      end
  end.

(** The order of the merged destinations. *)
Definition dest_cmp (a b : Prefix) : Z :=
  let c := addr_compare (PAddr a) (PAddr b) in
  if (c =? 0)%Z then PBits a - PBits b else c.

Definition with_destinations (ds : list Prefix) (r : RouteRule) : RouteRule :=
  mkRouteRule (rr_id r) (rr_mgmtId r) (rr_sources r) (rr_dstSet r) ds (rr_protoLayer r)
    (rr_srcPort r) (rr_dstPort r) (rr_action r).

Definition set_matches (t : RuleTables) (set : FSet) : list loc :=
  filter (fun l => rr_dstSet (rr_heap t !!! l) = set) (routeRules t).

Definition UpdateSet (set : FSet) (prefixes : list Prefix) (t : RuleTables) : M RuleTables :=
  match set_matches t set with
  | [] => Err ErrSetNotFound
  | (first :: _) as matches =>
      let destinations := rr_destinations (rr_heap t !!! first) ++ prefixes in
      let destinations := Compact (sort_stable dest_cmp destinations) in
      let heap := foldl (fun h l => <[l := with_destinations destinations (h !!! l)]> h)
                    (rr_heap t) matches in
      Ok (mkTables (incomingDenyRules t) (incomingRules t) heap (rr_next t) (routeRules t)
            (routeRulesMap t))
  end.

(** ** Matching *)
Fixpoint validateRule_loop (ip : Addr) (rules : list PeerRule) (d : Layers)
    (payloadLayer : LayerType) : M (option (list Z * bool)) :=
  match rules with
  | [] => Ok None
  | rule :: rest =>
      let hit := Ok (Some (pr_mgmtId rule, pr_drop rule)) in
      let next := validateRule_loop ip rest d payloadLayer in
      if pr_matchByIP rule && bool_decide (ip ≠ pr_ip rule) then next
      else if decide (pr_protoLayer rule = layerTypeAll) then hit
      else if negb (protoLayerMatches (pr_protoLayer rule) payloadLayer) then next
      else match payloadLayer with
           | LayerTypeTCP =>
               b ← andM (portsMatch (pr_sPort rule) (tcp_SrcPort (tcp d)))
                        (portsMatch (pr_dPort rule) (tcp_DstPort (tcp d)));
               if (b : bool) then hit else next
           | LayerTypeUDP =>
               b ← andM (portsMatch (pr_sPort rule) (udp_SrcPort d))
                        (portsMatch (pr_dPort rule) (udp_DstPort d));
               if (b : bool) then hit else next
           | LayerTypeICMPv4 | LayerTypeICMPv6 => hit
           | _ => next
           end
  end.

Definition validateRule (ord : list PeerRule -> list PeerRule) (ip : Addr)
    (rules : option (gmap string PeerRule)) (d : Layers) : M (option (list Z * bool)) :=
  payloadLayer ← layer_at d 1;
  validateRule_loop ip (ord (map_to_list (default ∅ rules)).*2) d payloadLayer.

(** The rule identifier and whether the packet is blocked. *)
Definition peerACLsBlock (ord : list PeerRule -> list PeerRule) (srcIP : Addr) (d : Layers)
    (t : RuleTables) : M (list Z * bool) :=
  special ← isSpecialICMP d;
  if (special : bool) then Ok ([], false)
  else
    r ← validateRule ord srcIP (incomingDenyRules t !! srcIP) d;
    match r with Some v => Ok v | None =>
    r ← validateRule ord srcIP (incomingRules t !! srcIP) d;
    match r with Some v => Ok v | None =>
    r ← validateRule ord srcIP (incomingRules t !! IPv4Unspecified) d;
    match r with Some v => Ok v | None =>
    r ← validateRule ord srcIP (incomingRules t !! IPv6Unspecified) d;
    match r with Some v => Ok v | None => Ok ([], true) end end end end.

Definition ruleMatches (rule : RouteRule) (srcAddr dstAddr : Addr) (protoLayer : LayerType)
    (srcPort dstPort : Z) : M bool :=
  if negb (bool_decide (rr_protoLayer rule = layerTypeAll)) &&
     negb (protoLayerMatches (rr_protoLayer rule) protoLayer) then Ok false
  else
    ports ← (if bool_decide (protoLayer = LayerTypeTCP) || bool_decide (protoLayer = LayerTypeUDP)
             then andM (portsMatch (rr_srcPort rule) srcPort) (portsMatch (rr_dstPort rule) dstPort)
             else Ok true);
    if negb ports then Ok false
    else if negb (existsb (fun dst => Contains dst dstAddr) (rr_destinations rule)) then Ok false
    else Ok (existsb (fun src => Contains src srcAddr) (rr_sources rule)).

Fixpoint routeACLs_loop (rules : list RouteRule) (srcIP dstIP : Addr) (protoLayer : LayerType)
    (srcPort dstPort : Z) : M (list Z * bool) :=
  match rules with
  | [] => Ok ([], false)
  | rule :: rest =>
      m ← ruleMatches rule srcIP dstIP protoLayer srcPort dstPort;
      if (m : bool) then Ok (rr_mgmtId rule, bool_decide (rr_action rule = ActionAccept))
      else routeACLs_loop rest srcIP dstIP protoLayer srcPort dstPort
  end.

(** The rules in the order of the slice. *)
Definition route_view (t : RuleTables) : list RouteRule :=
  (fun l => rr_heap t !!! l) <$> routeRules t.

Definition routeACLsPass (srcIP dstIP : Addr) (protoLayer : LayerType) (srcPort dstPort : Z)
    (t : RuleTables) : M (list Z * bool) :=
  routeACLs_loop (route_view t) srcIP dstIP protoLayer srcPort dstPort.

(** ** Sorting facts *)
Section sort_facts.
Context {A : Type} (cmp : A -> A -> Z).
Notation le := (fun x y => cmp x y <= 0)%Z.

Lemma insert_stable_perm x l : insert_stable cmp x l ≡ₚ x :: l.
Proof.
  induction l as [|y l IH]; simpl; [done|]. destruct (_ <=? _)%Z; [done|].
  rewrite IH. apply Permutation_swap.
Qed.

Lemma sort_stable_perm l : sort_stable cmp l ≡ₚ l.
Proof. induction l as [|x l IH]; simpl; [done|]. by rewrite insert_stable_perm, IH. Qed.

Lemma insert_stable_sorted x l :
  (forall a b, a ∈ x :: l -> b ∈ x :: l -> le a b \/ le b a) ->
  (forall a b c, a ∈ x :: l -> b ∈ x :: l -> c ∈ x :: l -> le a b -> le b c -> le a c) ->
  StronglySorted le l -> StronglySorted le (insert_stable cmp x l).
Proof.
  intros Htot Htr Hs. induction Hs as [|y l Hs IH Hall]; simpl; [repeat constructor|].
  destruct (Z.leb_spec (cmp x y) 0) as [Hle|Hgt].
  - constructor; [by constructor|]. apply Forall_cons. split; [done|].
    rewrite Forall_forall in Hall |- *. intros z Hz.
    apply (Htr x y z); [set_solver..|done|by apply Hall].
  - constructor.
    + apply IH; [intros ????; apply Htot; set_solver|intros ??????; apply Htr; set_solver].
    + rewrite insert_stable_perm. apply Forall_cons. split; [|done].
      destruct (Htot x y) as [?|?]; [set_solver..|lia|done].
Qed.

Lemma sort_stable_sorted l :
  (forall a b, a ∈ l -> b ∈ l -> le a b \/ le b a) ->
  (forall a b c, a ∈ l -> b ∈ l -> c ∈ l -> le a b -> le b c -> le a c) ->
  StronglySorted le (sort_stable cmp l).
Proof.
  induction l as [|x l IH]; intros Htot Htr; simpl; [constructor|].
  apply insert_stable_sorted.
  - intros a b. rewrite sort_stable_perm. apply Htot.
  - intros a b c. rewrite sort_stable_perm. apply Htr.
  - apply IH; [intros; apply Htot; set_solver|intros a b c ???; apply Htr; set_solver].
Qed.

Lemma sorted_delete_idx l i : StronglySorted le l -> StronglySorted le (delete i l).
Proof.
  intros Hs. revert i. induction Hs as [|y l Hs IH Hall]; intros i; [constructor|].
  destruct i as [|i]; [done|]. simpl. constructor; [apply IH|].
  rewrite Forall_forall in Hall |- *. intros z Hz.
  by apply Hall, (list_elem_of_delete_inv z i).
Qed.
End sort_facts.

Lemma cmpZ_le c : (cmpZ c <= 0)%Z <-> c ≠ Gt.
Proof. destruct c; simpl; split; try done; lia. Qed.

Lemma string_compare_refl s : String.compare s s = Eq.
Proof. apply OrderedTypeEx.String_as_OT.cmp_eq. done. Qed.

Lemma string_compare_trans a b c :
  String.compare a b ≠ Gt -> String.compare b c ≠ Gt -> String.compare a c ≠ Gt.
Proof.
  intros H1 H2. destruct (String.compare a b) eqn:E1; [|..|done].
  - apply String.compare_eq_iff in E1 as ->. done.
  - destruct (String.compare b c) eqn:E2; [|..|done].
    + apply String.compare_eq_iff in E2 as <-. by rewrite E1.
    + apply OrderedTypeEx.String_as_OT.cmp_lt in E1, E2.
      pose proof (OrderedTypeEx.String_as_OT.lt_trans _ _ _ E1 E2) as E3.
      apply OrderedTypeEx.String_as_OT.cmp_lt in E3.
      unfold OrderedTypeEx.String_as_OT.cmp in E3. by rewrite E3.
Qed.

Lemma string_compare_total a b : String.compare a b ≠ Gt \/ String.compare b a ≠ Gt.
Proof. rewrite (String.compare_antisym b a). destruct (String.compare a b); simpl; auto. Qed.

Lemma route_cmp_total a b : (route_cmp a b <= 0)%Z \/ (route_cmp b a <= 0)%Z.
Proof.
  unfold route_cmp. destruct (rr_action a), (rr_action b); simpl; try lia;
    rewrite !cmpZ_le; apply string_compare_total.
Qed.

Lemma route_cmp_trans a b c :
  (route_cmp a b <= 0)%Z -> (route_cmp b c <= 0)%Z -> (route_cmp a c <= 0)%Z.
Proof.
  unfold route_cmp. destruct (rr_action a), (rr_action b), (rr_action c); simpl; try lia;
    rewrite !cmpZ_le; apply string_compare_trans.
Qed.

Lemma route_cmp_antisym a b :
  (route_cmp a b <= 0)%Z -> (route_cmp b a <= 0)%Z -> rr_id a = rr_id b.
Proof.
  unfold route_cmp. destruct (rr_action a), (rr_action b); simpl; try lia;
    rewrite !cmpZ_le, (String.compare_antisym (rr_id b)); intros H1 H2;
    apply String.compare_eq_iff; destruct (String.compare _ _); done.
Qed.

(** ** The invariant of the tables *)
Definition port_wf (p : option Port) : Prop :=
  match p with Some p => IsRange p = true -> 2 <= length (Values p) | None => True end.

(** The entries of one of the peer tables: stored under their own address and
    identifier, all of the table's kind. *)
Definition peer_table_ok (drop_ : bool) (m : gmap Addr (gmap string PeerRule)) : Prop :=
  forall a rs, m !! a = Some rs -> rs ≠ ∅ /\
  forall id r, rs !! id = Some r ->
    pr_id r = id /\ pr_ip r = a /\ pr_drop r = drop_ /\
    port_wf (pr_sPort r) /\ port_wf (pr_dPort r) /\
    pr_matchByIP r = negb (bool_decide (a = IPv4Unspecified) || bool_decide (a = IPv6Unspecified)).

Definition heap_le (h : gmap loc RouteRule) (a b : loc) : Prop :=
  (route_cmp (h !!! a) (h !!! b) <= 0)%Z.

Record tables_inv (t : RuleTables) : Prop := {
  ti_heap : forall l, l ∈ routeRules t -> is_Some (rr_heap t !! l);
  ti_next : forall l, is_Some (rr_heap t !! l) -> l < rr_next t;
  ti_nodup : NoDup (routeRules t);
  ti_index : forall key l, routeRulesMap t !! key = Some l <->
    l ∈ routeRules t /\ rr_id (rr_heap t !!! l) = key;
  ti_sorted : StronglySorted (heap_le (rr_heap t)) (routeRules t);
  ti_ports : forall l, l ∈ routeRules t ->
    port_wf (rr_srcPort (rr_heap t !!! l)) /\ port_wf (rr_dstPort (rr_heap t !!! l));
  ti_deny : peer_table_ok true (incomingDenyRules t);
  ti_accept : peer_table_ok false (incomingRules t)
}.

Lemma NewTables_inv : tables_inv NewTables.
Proof.
  split; cbn [rr_heap rr_next routeRules routeRulesMap incomingDenyRules incomingRules NewTables].
  - intros l. set_solver.
  - intros l [? Hl]. by rewrite lookup_empty in Hl.
  - constructor.
  - intros key l. rewrite lookup_empty. set_solver.
  - constructor.
  - intros l. set_solver.
  - intros a rs Ha. by rewrite lookup_empty in Ha.
  - intros a rs Ha. by rewrite lookup_empty in Ha.
Qed.

(** Sorting by a heap gives a sorted permutation. *)
Lemma RouteRules_Sort_spec h l :
  RouteRules_Sort h l ≡ₚ l /\ StronglySorted (heap_le h) (RouteRules_Sort h l).
Proof.
  split; [apply sort_stable_perm|]. apply sort_stable_sorted.
  - intros a b _ _. apply route_cmp_total.
  - intros a b c _ _ _. apply route_cmp_trans.
Qed.

Lemma heap_le_ext h h' l : (forall x, x ∈ l -> h !!! x = h' !!! x) ->
  StronglySorted (heap_le h) l -> StronglySorted (heap_le h') l.
Proof.
  intros He Hs. induction Hs as [|x l Hs IH Hall]; [constructor|]. constructor.
  - apply IH. intros y Hy. apply He. set_solver.
  - rewrite Forall_forall in Hall |- *. intros y Hy. unfold heap_le in *.
    rewrite <- (He x), <- (He y) by set_solver. by apply Hall.
Qed.

Section reach.
Context (ruleKey : list Prefix -> Network -> Protocol -> option Port -> option Port ->
  Action -> string).

Lemma addRouteFiltering_inv mgmt src dst proto sp dp act t t' l :
  tables_inv t -> port_wf sp -> port_wf dp ->
  addRouteFiltering ruleKey mgmt src dst proto sp dp act t = (t', l) -> tables_inv t'.
Proof.
  intros Hinv Hsp Hdp. unfold addRouteFiltering. cbv zeta.
  set (key := ruleKey src dst proto sp dp act).
  destruct (routeRulesMap t !! key) as [l0|] eqn:Hk; intros [= <- <-]; [done|].
  set (rule := mkRouteRule key _ _ _ _ _ _ _ _). set (n := rr_next t).
  set (h := <[n := rule]> (rr_heap t)).
  assert (Hn : n ∉ routeRules t).
  { intros Hin%(ti_heap _ Hinv)%(ti_next _ Hinv). unfold n in Hin. lia. }
  assert (Hnew : h !!! n = rule) by (unfold h; by rewrite lookup_total_insert_eq).
  assert (Hold : forall x, x ∈ routeRules t -> h !!! x = rr_heap t !!! x).
  { intros x Hx. unfold h. rewrite lookup_total_insert_ne; [done|]. by intros <-. }
  destruct (RouteRules_Sort_spec h (routeRules t ++ [n])) as [Hperm Hsorted].
  split; cbn [rr_heap rr_next routeRules routeRulesMap incomingDenyRules incomingRules].
  - intros x. rewrite Hperm, elem_of_app, list_elem_of_singleton. intros [Hx| ->].
    + unfold h. rewrite lookup_insert_is_Some'. right. by apply (ti_heap _ Hinv).
    + unfold h. rewrite lookup_insert_eq. eauto.
  - intros x. unfold h. rewrite lookup_insert_is_Some'. intros [<-|Hx]; [lia|].
    apply (ti_next _ Hinv) in Hx. fold n in Hx. lia.
  - rewrite Hperm. apply NoDup_app. split_and!; [apply (ti_nodup _ Hinv)| |apply NoDup_singleton].
    intros x Hx ->%list_elem_of_singleton. done.
  - intros key' x. rewrite Hperm, elem_of_app, list_elem_of_singleton, lookup_insert_Some.
    split.
    + intros [[<- <-]|[Hne Hx]]; [rewrite Hnew; auto|].
      apply (ti_index _ Hinv) in Hx as [Hx Hid]. rewrite Hold by done. auto.
    + intros [[Hx| ->] Hid]; [|rewrite Hnew in Hid; auto].
      rewrite Hold in Hid by done. right.
      assert (Hx' : routeRulesMap t !! key' = Some x) by (by apply (ti_index _ Hinv)).
      split; [|done]. intros ->. by rewrite Hk in Hx'.
  - done.
  - intros x. rewrite Hperm, elem_of_app, list_elem_of_singleton. intros [Hx| ->].
    + rewrite Hold by done. by apply (ti_ports _ Hinv).
    + rewrite Hnew. done.
  - apply (ti_deny _ Hinv).
  - apply (ti_accept _ Hinv).
Qed.

Lemma deleteRouteRule_cases id t t' :
  deleteRouteRule id t = Ok t' ->
  exists i l, routeRules t !! i = Some l /\ rr_id (rr_heap t !!! l) = id /\
    t' = mkTables (incomingDenyRules t) (incomingRules t) (rr_heap t) (rr_next t)
           (delete i (routeRules t)) (delete id (routeRulesMap t)).
Proof.
  unfold deleteRouteRule. destruct (routeRulesMap t !! id) as [l0|]; [|done].
  destruct (list_find _ _) as [[i l]|] eqn:Hf; [|done]. intros [= <-].
  apply list_find_Some in Hf as (Hi & Hid & _). eauto.
Qed.

Lemma deleteRouteRule_inv id t t' :
  tables_inv t -> deleteRouteRule id t = Ok t' -> tables_inv t'.
Proof.
  intros Hinv (i & l & Hi & Hid & ->)%deleteRouteRule_cases.
  pose proof (delete_Permutation _ _ _ Hi) as Hp.
  pose proof (ti_nodup _ Hinv) as Hnd. rewrite Hp in Hnd. apply NoDup_cons in Hnd as [Hnin Hnd].
  assert (Hsub : forall x, x ∈ delete i (routeRules t) -> x ∈ routeRules t)
    by (intros x; apply list_elem_of_delete_inv).
  split; cbn [rr_heap rr_next routeRules routeRulesMap incomingDenyRules incomingRules].
  - intros x Hx. by apply (ti_heap _ Hinv), Hsub.
  - apply (ti_next _ Hinv).
  - done.
  - intros key x. rewrite lookup_delete_Some, (ti_index _ Hinv). split.
    + intros [Hne [Hx Hk]]. split; [|done]. rewrite Hp in Hx.
      apply elem_of_cons in Hx as [->|?]; [by rewrite Hid in Hk|done].
    + intros [Hx Hk]. split; [|by split; [apply Hsub|]]. intros <-.
      assert (Hxl : routeRulesMap t !! id = Some x)
        by (apply (ti_index _ Hinv); by split; [apply Hsub|]).
      assert (Hll : routeRulesMap t !! id = Some l).
      { apply (ti_index _ Hinv). split; [|done]. by eapply list_elem_of_lookup_2. }
      rewrite Hxl in Hll. simplify_eq. done.
  - apply sorted_delete_idx, (ti_sorted _ Hinv).
  - intros x Hx. by apply (ti_ports _ Hinv), Hsub.
  - apply (ti_deny _ Hinv).
  - apply (ti_accept _ Hinv).
Qed.
End reach.

(** ** Updating a set *)
Lemma update_heap_spec (ds : list Prefix) (ls : list loc) : forall h : gmap loc RouteRule,
  let h' := foldl (fun h l => <[l := with_destinations ds (h !!! l)]> h) h ls in
  NoDup ls ->
  (forall x, h' !!! x = if decide (x ∈ ls) then with_destinations ds (h !!! x) else h !!! x) /\
  (forall x, is_Some (h' !! x) <-> x ∈ ls \/ is_Some (h !! x)).
Proof.
  induction ls as [|l ls IH]; intros h; cbn [foldl]; intros Hnd.
  - split; intros x; [by rewrite decide_False by set_solver|set_solver].
  - apply NoDup_cons in Hnd as [Hl Hnd].
    destruct (IH (<[l := with_destinations ds (h !!! l)]> h) Hnd) as [H1 H2]. split; intros x.
    + rewrite H1. destruct (decide (x = l)) as [->|Hx].
      * rewrite decide_False, decide_True by (done || set_solver).
        by rewrite lookup_total_insert_eq.
      * rewrite !lookup_total_insert_ne by done.
        destruct (decide (x ∈ ls)) as [Hin|Hin].
        -- by rewrite decide_True by set_solver.
        -- by rewrite decide_False by set_solver.
    + rewrite H2, lookup_insert_is_Some', elem_of_cons. naive_solver.
Qed.

Lemma set_matches_spec t set l :
  l ∈ set_matches t set <-> l ∈ routeRules t /\ rr_dstSet (rr_heap t !!! l) = set.
Proof. unfold set_matches. rewrite list_elem_of_filter. naive_solver. Qed.

(** The rules of the set get the destinations of the first of them merged
    with the new prefixes; all other rules and all other fields are kept. *)
Lemma UpdateSet_spec set ps t t' : tables_inv t -> UpdateSet set ps t = Ok t' ->
  exists first rest ds, set_matches t set = first :: rest /\
    ds = Compact (sort_stable dest_cmp (rr_destinations (rr_heap t !!! first) ++ ps)) /\
    incomingDenyRules t' = incomingDenyRules t /\ incomingRules t' = incomingRules t /\
    rr_next t' = rr_next t /\ routeRules t' = routeRules t /\ routeRulesMap t' = routeRulesMap t /\
    (forall l, rr_heap t' !!! l =
       if decide (l ∈ set_matches t set) then with_destinations ds (rr_heap t !!! l)
       else rr_heap t !!! l) /\
    (forall l, is_Some (rr_heap t' !! l) <-> l ∈ set_matches t set \/ is_Some (rr_heap t !! l)).
Proof.
  intros Hinv. unfold UpdateSet. destruct (set_matches t set) as [|first rest] eqn:Hm; [done|].
  intros [= <-]. exists first, rest. eexists. split; [done|]. split; [reflexivity|].
  do 5 (split; [done|]). apply (update_heap_spec _ (first :: rest)). rewrite <- Hm.
  apply NoDup_filter, (ti_nodup _ Hinv).
Qed.

Lemma with_destinations_cmp ds ds' a b :
  route_cmp (with_destinations ds a) (with_destinations ds' b) = route_cmp a b.
Proof. done. Qed.

(** Two heaps whose rules differ in their destinations only. *)
Lemma same_but_destinations t t' :
  tables_inv t ->
  incomingDenyRules t' = incomingDenyRules t -> incomingRules t' = incomingRules t ->
  rr_next t' = rr_next t -> routeRules t' = routeRules t -> routeRulesMap t' = routeRulesMap t ->
  (forall l, exists ds, rr_heap t' !!! l = with_destinations ds (rr_heap t !!! l)) ->
  (forall l, is_Some (rr_heap t' !! l) <-> is_Some (rr_heap t !! l)) ->
  tables_inv t'.
Proof.
  intros Hinv E1 E2 E3 E4 E5 Hh Hd. split; rewrite ?E1, ?E2, ?E3, ?E4, ?E5.
  - intros l Hl. by apply Hd, (ti_heap _ Hinv).
  - intros l Hl. by apply (ti_next _ Hinv), Hd.
  - apply (ti_nodup _ Hinv).
  - intros key l. destruct (Hh l) as [ds ->]. apply (ti_index _ Hinv).
  - pose proof (ti_sorted _ Hinv) as Hs. clear -Hs Hh.
    induction Hs as [|x l Hs IH Hall]; [constructor|]. constructor; [done|].
    rewrite Forall_forall in Hall |- *. intros y Hy. unfold heap_le.
    destruct (Hh x) as [ds ->], (Hh y) as [ds' ->]. by apply Hall.
  - intros l Hl. destruct (Hh l) as [ds ->]. by apply (ti_ports _ Hinv).
  - apply (ti_deny _ Hinv).
  - apply (ti_accept _ Hinv).
Qed.

Lemma with_destinations_self r : r = with_destinations (rr_destinations r) r.
Proof. by destruct r. Qed.

Lemma UpdateSet_inv set ps t t' : tables_inv t -> UpdateSet set ps t = Ok t' -> tables_inv t'.
Proof.
  intros Hinv Hu. destruct (UpdateSet_spec _ _ _ _ Hinv Hu)
    as (first & rest & ds & _ & _ & E1 & E2 & E3 & E4 & E5 & Hh & Hd).
  apply (same_but_destinations t); try done.
  - intros l. rewrite Hh. case_decide; [by eexists|]. eexists. apply with_destinations_self.
  - intros l. rewrite Hd, set_matches_spec. split; [|by right].
    intros [[Hl _]|?]; [by apply (ti_heap _ Hinv)|done].
Qed.

(** ** Peer tables *)
Lemma AddPeerFiltering_cases uuid mgmt ip proto sp dp act t t' r :
  AddPeerFiltering uuid mgmt ip proto sp dp act t = Ok (t', r) ->
  let a := Unmap (AddrFromSlice ip) in
  IsValid (AddrFromSlice ip) = true /\
  pr_id r = uuid /\ pr_ip r = a /\ pr_drop r = bool_decide (act = ActionDrop) /\
  pr_sPort r = sp /\ pr_dPort r = dp /\
  pr_matchByIP r = negb (bool_decide (a = IPv4Unspecified) || bool_decide (a = IPv6Unspecified)) /\
  let add m := <[a := <[uuid := r]> (default ∅ (m !! a))]> m in
  t' = if pr_drop r
       then mkTables (add (incomingDenyRules t)) (incomingRules t) (rr_heap t) (rr_next t)
              (routeRules t) (routeRulesMap t)
       else mkTables (incomingDenyRules t) (add (incomingRules t)) (rr_heap t) (rr_next t)
              (routeRules t) (routeRulesMap t).
Proof.
  unfold AddPeerFiltering. cbv zeta. destruct (IsValid (AddrFromSlice ip)) eqn:Hv; [|done].
  intros [= <- <-]. split_and!; done.
Qed.

Lemma peer_table_add b m (a : Addr) r :
  peer_table_ok b m -> pr_ip r = a -> pr_drop r = b ->
  port_wf (pr_sPort r) -> port_wf (pr_dPort r) ->
  pr_matchByIP r = negb (bool_decide (a = IPv4Unspecified) || bool_decide (a = IPv6Unspecified)) ->
  peer_table_ok b (<[a := <[pr_id r := r]> (default ∅ (m !! a))]> m).
Proof.
  intros Hm Ha Hb Hs Hd Hby a' rs [[<- <-]|[Hne Hrs]]%lookup_insert_Some; [|by apply Hm].
  split; [apply insert_non_empty|]. intros id r' [[<- <-]|[Hid Hr']]%lookup_insert_Some; [done|].
  destruct (m !! a) as [rs0|] eqn:Hma; simpl in Hr'; [by apply (Hm a rs0)|].
  by rewrite lookup_empty in Hr'.
Qed.

Lemma delete_from_spec m r m' : delete_from m r = Ok m' ->
  exists rs, m !! pr_ip r = Some rs /\ is_Some (rs !! pr_id r) /\
    m' = (if decide (delete (pr_id r) rs = ∅) then delete (pr_ip r) m
          else <[pr_ip r := delete (pr_id r) rs]> m).
Proof.
  unfold delete_from. destruct (m !! pr_ip r) as [rs|]; [|done].
  destruct (rs !! pr_id r) as [r0|] eqn:Hr; [|done]. cbv zeta. intros [= <-].
  exists rs. split_and!; [done|eauto|].
  destruct (decide (delete (pr_id r) rs = ∅)) as [He|He].
  - by rewrite He, map_size_empty, decide_True.
  - rewrite decide_False; [done|]. by intros ?%map_size_empty_inv.
Qed.

Lemma peer_table_delete b m r m' :
  peer_table_ok b m -> delete_from m r = Ok m' -> peer_table_ok b m'.
Proof.
  intros Hm (rs & Hrs & _ & ->)%delete_from_spec. case_decide as He.
  - intros a rs' [_ Ha]%lookup_delete_Some. by apply Hm.
  - intros a rs' [[<- <-]|[_ Ha]]%lookup_insert_Some; [|by apply Hm].
    split; [done|]. intros id r' [_ Hr']%lookup_delete_Some. by apply (Hm _ rs).
Qed.

Lemma tables_inv_peers t deny accept :
  tables_inv t -> peer_table_ok true deny -> peer_table_ok false accept ->
  tables_inv (mkTables deny accept (rr_heap t) (rr_next t) (routeRules t) (routeRulesMap t)).
Proof. intros [????????] Hd Ha. by split. Qed.

(** ** Reachable tables *)
Inductive table_op : Type :=
| TAddPeer (uuid : string) (mgmt ip : list Z) (proto : Protocol) (sp dp : option Port) (act : Action)
| TDeletePeer (r : PeerRule)
| TAddRoute (mgmt : list Z) (src : list Prefix) (dst : Network) (proto : Protocol)
    (sp dp : option Port) (act : Action)
| TDeleteRoute (id : string)
| TUpdateSet (set : FSet) (ps : list Prefix).

Definition table_op_ok (op : table_op) : Prop :=
  match op with
  | TAddPeer _ _ _ _ sp dp _ | TAddRoute _ _ _ _ sp dp _ => port_wf sp /\ port_wf dp
  | _ => True
  end.

Definition run_table
    (ruleKey : list Prefix -> Network -> Protocol -> option Port -> option Port -> Action -> string)
    (op : table_op) (t : RuleTables) : M RuleTables :=
  match op with
  | TAddPeer uuid mgmt ip proto sp dp act =>
      res_map fst (AddPeerFiltering uuid mgmt ip proto sp dp act t)
  | TDeletePeer r => DeletePeerRule r t
  | TAddRoute mgmt src dst proto sp dp act =>
      Ok (addRouteFiltering ruleKey mgmt src dst proto sp dp act t).1
  | TDeleteRoute id => deleteRouteRule id t
  | TUpdateSet set ps => UpdateSet set ps t
  end.

Inductive table_reach
    (ruleKey : list Prefix -> Network -> Protocol -> option Port -> option Port -> Action -> string)
    : RuleTables -> Prop :=
| table_reach_new : table_reach ruleKey NewTables
| table_reach_step t op t' :
    table_reach ruleKey t -> table_op_ok op -> run_table ruleKey op t = Ok t' ->
    table_reach ruleKey t'.

Lemma table_reach_inv ruleKey t : table_reach ruleKey t -> tables_inv t.
Proof.
  induction 1 as [|t op t' _ IH Hok Hrun]; [apply NewTables_inv|].
  destruct op as [uuid mgmt ip proto sp dp act|r|mgmt src dst proto sp dp act|id|set ps];
    simpl in Hok, Hrun.
  - destruct (AddPeerFiltering _ _ _ _ _ _ _ t) as [[t1 r]| |] eqn:Ha; simplify_eq/=.
    apply AddPeerFiltering_cases in Ha as (_ & Hid & Hip & Hdr & <- & <- & Hby & ->).
    subst uuid. destruct Hok as [Hs Hdp]. destruct (pr_drop r) eqn:Hd.
    + apply tables_inv_peers; [done| |apply (ti_accept _ IH)].
      by apply (peer_table_add true _ _ _ (ti_deny _ IH)).
    + apply tables_inv_peers; [done|apply (ti_deny _ IH)|].
      by apply (peer_table_add false _ _ _ (ti_accept _ IH)).
  - unfold DeletePeerRule in Hrun. destruct (pr_drop r).
    + destruct (delete_from _ r) as [m| |] eqn:Hd; simplify_eq/=.
      apply tables_inv_peers; [done| |apply (ti_accept _ IH)].
      by eapply peer_table_delete; [apply (ti_deny _ IH)|].
    + destruct (delete_from _ r) as [m| |] eqn:Hd; simplify_eq/=.
      apply tables_inv_peers; [done|apply (ti_deny _ IH)|].
      by eapply peer_table_delete; [apply (ti_accept _ IH)|].
  - simplify_eq. destruct Hok as [Hs Hd].
    destruct (addRouteFiltering _ _ _ _ _ _ _ _ t) as [t1 l] eqn:Ha. simpl.
    by apply (addRouteFiltering_inv _ _ _ _ _ _ _ _ _ _ _ IH Hs Hd Ha).
  - by eapply deleteRouteRule_inv.
  - by eapply UpdateSet_inv.
Qed.

(** ** What a rule matches

    The matching of the code with ports as a total predicate; equal to the
    code's on well-formed ports. *)
Definition port_in (p : option Port) (x : Z) : bool :=
  match p with
  | None => true
  | Some p => if IsRange p then (Values p !!! 0%nat <=? x)%Z && (x <=? Values p !!! 1%nat)%Z
              else bool_decide (x ∈ Values p)
  end.

Lemma portsMatch_eq p x : port_wf p -> portsMatch p x = Ok (port_in p x).
Proof.
  destruct p as [[rng vs]|]; [|done]. simpl. destruct rng; [|done]. intros H.
  specialize (H eq_refl). destruct vs as [|v0 [|v1 vs]]; simpl in H; try lia.
  unfold portsMatch. cbn [IsRange Values]. unfold go_index.
  cbn [lookup list_lookup lookup_total list_lookup_total]. mred.
  by destruct (v0 <=? x)%Z.
Qed.

Definition peer_match (ip : Addr) (d : Layers) (l1 : LayerType) (r : PeerRule) : bool :=
  negb (pr_matchByIP r && bool_decide (ip ≠ pr_ip r)) &&
  (bool_decide (pr_protoLayer r = layerTypeAll) ||
   protoLayerMatches (pr_protoLayer r) l1 &&
   match l1 with
   | LayerTypeTCP => port_in (pr_sPort r) (tcp_SrcPort (tcp d)) &&
                     port_in (pr_dPort r) (tcp_DstPort (tcp d))
   | LayerTypeUDP => port_in (pr_sPort r) (udp_SrcPort d) && port_in (pr_dPort r) (udp_DstPort d)
   | LayerTypeICMPv4 | LayerTypeICMPv6 => true
   | _ => false
   end).

Definition route_match (r : RouteRule) (src dst : Addr) (l1 : LayerType) (sp dp : Z) : bool :=
  (bool_decide (rr_protoLayer r = layerTypeAll) || protoLayerMatches (rr_protoLayer r) l1) &&
  (negb (bool_decide (l1 = LayerTypeTCP) || bool_decide (l1 = LayerTypeUDP)) ||
   port_in (rr_srcPort r) sp && port_in (rr_dstPort r) dp) &&
  existsb (fun p => Contains p dst) (rr_destinations r) &&
  existsb (fun p => Contains p src) (rr_sources r).

Lemma andM_ok a b : andM (Ok a) (Ok b) = Ok (a && b).
Proof. by destruct a. Qed.

Lemma validateRule_loop_eq ip d l1 rules :
  Forall (fun r => port_wf (pr_sPort r) /\ port_wf (pr_dPort r)) rules ->
  validateRule_loop ip rules d l1 =
  Ok ((fun ir => (pr_mgmtId ir.2, pr_drop ir.2)) <$> list_find (peer_match ip d l1) rules).
Proof.
  induction rules as [|r rules IH]; intros Hwf; [done|].
  apply Forall_cons in Hwf as [[Hs Hd] Hwf]. specialize (IH Hwf).
  assert (Hf : list_find (peer_match ip d l1) (r :: rules) =
    if peer_match ip d l1 r then Some (0, r)
    else prod_map S id <$> list_find (peer_match ip d l1) rules).
  { cbn [list_find]. destruct (peer_match ip d l1 r) eqn:E; case_decide as H; simpl in *; done. }
  assert (Hn : Ok ((fun ir : nat * PeerRule => (pr_mgmtId ir.2, pr_drop ir.2)) <$>
      (prod_map S id <$> list_find (peer_match ip d l1) rules)) =
    validateRule_loop ip rules d l1).
  { rewrite IH. by destruct (list_find _ rules) as [[??]|]. }
  rewrite Hf. cbn [validateRule_loop]. rewrite !portsMatch_eq by done. rewrite !andM_ok. mred.
  unfold peer_match. destruct (pr_matchByIP r && bool_decide (ip ≠ pr_ip r)); cbn [negb andb].
  { by rewrite <- Hn. }
  destruct (decide (pr_protoLayer r = layerTypeAll)) as [Ha|Ha].
  { by rewrite bool_decide_eq_true_2. }
  rewrite bool_decide_eq_false_2 by done. cbn [orb].
  destruct (protoLayerMatches (pr_protoLayer r) l1); cbn [negb andb]; [|by rewrite <- Hn].
  destruct l1; try (by rewrite <- Hn); try done; rewrite <- Hn; by destruct (_ && _).
Qed.

Lemma ruleMatches_eq r src dst l1 sp dp :
  port_wf (rr_srcPort r) -> port_wf (rr_dstPort r) ->
  ruleMatches r src dst l1 sp dp = Ok (route_match r src dst l1 sp dp).
Proof.
  intros Hs Hd. unfold ruleMatches, route_match. rewrite !portsMatch_eq, andM_ok by done.
  destruct (bool_decide (rr_protoLayer r = layerTypeAll));
    destruct (protoLayerMatches (rr_protoLayer r) l1); cbn [negb andb orb]; try done;
    destruct (bool_decide (l1 = LayerTypeTCP) || bool_decide (l1 = LayerTypeUDP)); mred;
    cbn [negb andb orb]; try destruct (port_in _ sp && port_in _ dp); cbn [negb andb];
    try done; by destruct (existsb _ (rr_destinations r)).
Qed.

Lemma routeACLs_loop_eq rules src dst l1 sp dp :
  Forall (fun r => port_wf (rr_srcPort r) /\ port_wf (rr_dstPort r)) rules ->
  routeACLs_loop rules src dst l1 sp dp =
  Ok match list_find (fun r => route_match r src dst l1 sp dp) rules with
     | Some (_, r) => (rr_mgmtId r, bool_decide (rr_action r = ActionAccept))
     | None => ([], false)
     end.
Proof.
  induction rules as [|r rules IH]; intros Hwf; [done|].
  apply Forall_cons in Hwf as [[Hs Hd] Hwf]. cbn [routeACLs_loop list_find].
  rewrite ruleMatches_eq by done. mred. rewrite (IH Hwf).
  destruct (route_match r src dst l1 sp dp) eqn:E; case_decide as H; simpl in *; try done.
  by destruct (list_find _ rules) as [[??]|].
Qed.

(** ** Route ACLs *)
Lemma route_view_ports t : tables_inv t ->
  Forall (fun r => port_wf (rr_srcPort r) /\ port_wf (rr_dstPort r)) (route_view t).
Proof.
  intros Hinv. unfold route_view. apply Forall_fmap, Forall_forall. intros l Hl.
  by apply (ti_ports _ Hinv).
Qed.

(** In a sorted slice no accept rule precedes a deny rule. *)
Lemma sorted_deny_first t i j ri rj :
  tables_inv t -> route_view t !! i = Some ri -> route_view t !! j = Some rj ->
  rr_action ri = ActionAccept -> rr_action rj = ActionDrop -> j < i.
Proof.
  intros Hinv Hi Hj Ai Aj. destruct (decide (j < i)) as [|Hge]; [done|exfalso].
  unfold route_view in Hi, Hj. rewrite list_lookup_fmap_Some in Hi, Hj.
  destruct Hi as (li & -> & Hi), Hj as (lj & -> & Hj).
  destruct (decide (i = j)) as [->|Hne]; [rewrite Hi in Hj; simplify_eq; congruence|].
  pose proof (ti_sorted _ Hinv) as Hs.
  assert (Hle : heap_le (rr_heap t) li lj).
  { clear -Hs Hi Hj Hge Hne. revert i j Hi Hj Hge Hne.
    induction Hs as [|x l Hs IH Hall]; intros i j Hi Hj Hge Hne; [done|].
    destruct j as [|j]; [lia|]. destruct i as [|i]; simpl in *.
    - simplify_eq. rewrite Forall_forall in Hall. by eapply Hall, list_elem_of_lookup_2.
    - apply (IH i j); [done..|lia|lia]. }
  unfold heap_le, route_cmp in Hle. rewrite Ai, Aj in Hle. simpl in Hle. lia.
Qed.

Lemma routeACLsPass_spec (t : RuleTables) (src dst : Addr) (l1 : LayerType) (sp dp : Z) :
  tables_inv t ->
  exists id pass, routeACLsPass src dst l1 sp dp t = Ok (id, pass) /\
    (pass = true <->
     (exists r, r ∈ route_view t /\ rr_action r = ActionAccept /\
        route_match r src dst l1 sp dp = true) /\
     (forall r, r ∈ route_view t -> rr_action r = ActionDrop ->
        route_match r src dst l1 sp dp = false)).
Proof.
  intros Hinv. unfold routeACLsPass.
  rewrite routeACLs_loop_eq by (by apply route_view_ports).
  destruct (list_find _ (route_view t)) as [[i r]|] eqn:Hf.
  - apply list_find_Some in Hf as (Hi & Hm%Is_true_true & Hbefore).
    eexists _, _. split; [reflexivity|]. rewrite bool_decide_eq_true. split.
    + intros Ha. split; [exists r; split; [by eapply list_elem_of_lookup_2|done]|].
      intros r' [j Hj]%list_elem_of_lookup Ad.
      pose proof (sorted_deny_first t i j r r' Hinv Hi Hj Ha Ad) as Hlt.
      specialize (Hbefore j r' Hj Hlt). by apply Is_true_false.
    + intros [_ Hno]. destruct (rr_action r) eqn:Ha; [done|].
      rewrite (Hno r) in Hm; [done|by eapply list_elem_of_lookup_2|done].
  - apply list_find_None in Hf. eexists _, _. split; [reflexivity|]. split; [done|].
    intros [(r & Hr & _ & Hm) _]. rewrite Forall_forall in Hf.
    by destruct (Hf r Hr); apply Is_true_true.
Qed.

(** C15: route ACLs: deny overrides accept, and the default is deny.  For
    every reachable rule table the check terminates without a panic, and a
    routed packet passes exactly if some accept rule matches it and no deny
    rule does, whatever the order in which the rules were added. *)
Theorem route_acl_deny_overrides ruleKey (t : RuleTables) (src dst : Addr) (l1 : LayerType)
    (sp dp : Z) :
  table_reach ruleKey t ->
  exists id pass, routeACLsPass src dst l1 sp dp t = Ok (id, pass) /\
    (pass = true <->
     (exists r, r ∈ route_view t /\ rr_action r = ActionAccept /\
        route_match r src dst l1 sp dp = true) /\
     (forall r, r ∈ route_view t -> rr_action r = ActionDrop ->
        route_match r src dst l1 sp dp = false)).
Proof. intros Hinv%table_reach_inv. by apply routeACLsPass_spec. Qed.

(** Removing from the sorted slice the rule that was appended to it. *)
Lemma sorted_remove_new h rules x i :
  (forall a b, a ∈ rules ++ [x] -> b ∈ rules ++ [x] ->
     rr_id (h !!! a) = rr_id (h !!! b) -> a = b) ->
  StronglySorted (heap_le h) rules ->
  RouteRules_Sort h (rules ++ [x]) !! i = Some x ->
  delete i (RouteRules_Sort h (rules ++ [x])) = rules.
Proof.
  intros Hinj Hs Hi. destruct (RouteRules_Sort_spec h (rules ++ [x])) as [Hperm Hsorted].
  apply (StronglySorted_unique_strong (heap_le h)); [|by apply sorted_delete_idx|done|].
  - intros a b Ha%list_elem_of_delete_inv Hb Hab Hba. rewrite Hperm in Ha.
    apply Hinj; [done|set_solver|]. by apply route_cmp_antisym.
  - apply (Permutation_cons_inv (a := x)). rewrite <- (delete_Permutation _ _ _ Hi), Hperm.
    by rewrite Permutation_app_comm.
Qed.

(** adding a route rule and deleting it restores the table.  A rule that
    was not there before is found by the delete, and afterwards the slice,
    the index and every rule of the slice are what they were, so every
    verdict is. *)
Theorem route_rule_add_delete ruleKey (t t1 : RuleTables) mgmt srcs dst proto sp dp act (l : loc) :
  table_reach ruleKey t -> port_wf sp -> port_wf dp ->
  routeRulesMap t !! ruleKey srcs dst proto sp dp act = None ->
  addRouteFiltering ruleKey mgmt srcs dst proto sp dp act t = (t1, l) ->
  exists t2, deleteRouteRule (rr_id (rr_heap t1 !!! l)) t1 = Ok t2 /\
    routeRules t2 = routeRules t /\ routeRulesMap t2 = routeRulesMap t /\
    route_view t2 = route_view t /\
    incomingDenyRules t2 = incomingDenyRules t /\ incomingRules t2 = incomingRules t.
Proof.
  intros Hinv%table_reach_inv Hsp Hdp Hk Ha.
  pose proof (addRouteFiltering_inv _ _ _ _ _ _ _ _ _ _ _ Hinv Hsp Hdp Ha) as Hinv1.
  unfold addRouteFiltering in Ha. cbv zeta in Ha. rewrite Hk in Ha.
  set (key := ruleKey srcs dst proto sp dp act) in *. set (rule := mkRouteRule key _ _ _ _ _ _ _ _) in *.
  set (h := <[rr_next t := rule]> (rr_heap t)) in *.
  assert (El : l = rr_next t) by (by simplify_eq).
  assert (Hn : l ∉ routeRules t).
  { intros Hin%(ti_heap _ Hinv)%(ti_next _ Hinv). lia. }
  assert (Et1 : t1 = mkTables (incomingDenyRules t) (incomingRules t) h (S (rr_next t))
    (RouteRules_Sort h (routeRules t ++ [l])) (<[key := l]> (routeRulesMap t)))
    by (by rewrite El; simplify_eq).
  clear Ha. assert (Hhl : h !!! l = rule) by (subst l h; by rewrite lookup_total_insert_eq).
  assert (Hho : forall x, x ∈ routeRules t -> h !!! x = rr_heap t !!! x).
  { intros x Hx. subst h. rewrite lookup_total_insert_ne; [done|]. rewrite <- El. by intros <-. }
  destruct (RouteRules_Sort_spec h (routeRules t ++ [l])) as [Hperm Hsorted].
  assert (Hmap : routeRulesMap t1 !! key = Some l) by (subst t1; apply lookup_insert_eq).
  pose proof (proj1 (ti_index _ Hinv1 key l) Hmap) as [Hin1 Hid1].
  rewrite Hid1. unfold deleteRouteRule. rewrite Hmap.
  destruct (list_find_elem_of (fun x => rr_id (rr_heap t1 !!! x) = key) _ _ Hin1 Hid1)
    as [[i l'] Hfind]. rewrite Hfind.
  apply list_find_Some in Hfind as (Hi & Hid & _).
  assert (l' = l) as ->.
  { assert (Hl' : routeRulesMap t1 !! key = Some l')
      by (apply (ti_index _ Hinv1); split; [by eapply list_elem_of_lookup_2|done]).
    congruence. }
  eexists. split; [reflexivity|].
  assert (Hrules : delete i (routeRules t1) = routeRules t).
  { subst t1. apply (sorted_remove_new h _ l); [| |done].
    2:{ eapply heap_le_ext; [|apply (ti_sorted _ Hinv)]. intros x Hx. by rewrite Hho. }
    intros x y Hx Hy Hids. assert (E : forall z, z ∈ routeRules t ++ [l] ->
      rr_id (h !!! z) = rr_id (h !!! y) ->
      <[key := l]> (routeRulesMap t) !! rr_id (h !!! y) = Some z).
    { intros z Hz Ez. apply (ti_index _ Hinv1). simpl. by rewrite Hperm. }
    pose proof (E x Hx Hids). pose proof (E y Hy eq_refl). congruence. }
  cbn [routeRules routeRulesMap incomingDenyRules incomingRules].
  split_and!; [done|subst t1; simpl; by rewrite delete_insert_id| |by subst t1|by subst t1].
  unfold route_view. cbn [rr_heap routeRules]. rewrite Hrules.
  apply list_fmap_ext. intros ? x Hx. subst t1. simpl. apply Hho.
  by eapply list_elem_of_lookup_2.
Qed.

(** ** Peer ACLs *)
Definition peer_in (m : gmap Addr (gmap string PeerRule)) (a : Addr) (r : PeerRule) : Prop :=
  exists rs id, m !! a = Some rs /\ rs !! id = Some r.

Lemma validateRule_verdict drop_ m a (ord : list PeerRule -> list PeerRule) ip d l1 :
  (forall l, ord l ≡ₚ l) -> peer_table_ok drop_ m -> layer_at d 1 = Ok l1 ->
  exists o, validateRule ord ip (m !! a) d = Ok o /\
    match o with
    | Some (_, b) => b = drop_ /\ exists r, peer_in m a r /\ peer_match ip d l1 r = true
    | None => forall r, peer_in m a r -> peer_match ip d l1 r = false
    end.
Proof.
  intros Hord Hm Hl. unfold validateRule. rewrite Hl. mred.
  set (rules := ord (map_to_list (default ∅ (m !! a))).*2).
  assert (Hin : forall r, r ∈ rules <-> peer_in m a r).
  { intros r. unfold rules. rewrite Hord, list_elem_of_fmap. unfold peer_in. split.
    - intros ([id r'] & -> & Hr%elem_of_map_to_list). simpl.
      destruct (m !! a) as [rs|]; simpl in Hr; [eauto|by rewrite lookup_empty in Hr].
    - intros (rs & id & Ha & Hr). exists (id, r). split; [done|].
      apply elem_of_map_to_list. by rewrite Ha. }
  rewrite validateRule_loop_eq.
  2:{ apply Forall_forall. intros r (rs & id & Ha & Hr)%Hin.
      by destruct (proj2 (Hm a rs Ha) id r Hr) as (_ & _ & _ & ? & ? & _). }
  eexists. split; [reflexivity|].
  destruct (list_find (peer_match ip d l1) rules) as [[i r]|] eqn:Hf; simpl.
  - apply list_find_Some in Hf as (Hi & Hr%Is_true_true & _).
    apply list_elem_of_lookup_2, Hin in Hi. split; [|eauto].
    destruct Hi as (rs & id & Ha & Hid).
    by destruct (proj2 (Hm a rs Ha) id r Hid) as (_ & _ & ? & _).
  - apply list_find_None in Hf. intros r Hr%Hin. rewrite Forall_forall in Hf.
    apply Is_true_false. by apply Hf.
Qed.

Lemma peerACLsBlock_spec (t : RuleTables) (ord : list PeerRule -> list PeerRule)
    (src : Addr) (d : Layers) (l1 : LayerType) :
  tables_inv t -> (forall l, ord l ≡ₚ l) -> layer_at d 1 = Ok l1 ->
  exists id blocked special, isSpecialICMP d = Ok special /\
    peerACLsBlock ord src d t = Ok (id, blocked) /\
    (blocked = false <->
     special = true \/
     (forall r, peer_in (incomingDenyRules t) src r -> peer_match src d l1 r = false) /\
     (exists a r, a ∈ [src; IPv4Unspecified; IPv6Unspecified] /\
        peer_in (incomingRules t) a r /\ peer_match src d l1 r = true)).
Proof.
  intros Hinv Hord Hl. unfold peerACLsBlock.
  assert (exists sp, isSpecialICMP d = Ok sp) as [sp Hsp].
  { unfold isSpecialICMP. rewrite Hl. mred. eauto. }
  rewrite Hsp. mred. destruct sp.
  { eexists _, _, _. split_and!; [reflexivity..|]. naive_solver. }
  pose proof (fun a => validateRule_verdict false (incomingRules t) a ord src d l1 Hord
    (ti_accept _ Hinv) Hl) as Hacc.
  destruct (validateRule_verdict true (incomingDenyRules t) src ord src d l1 Hord
    (ti_deny _ Hinv) Hl) as (o & -> & Ho). mred. destruct o as [[id b]|].
  { destruct Ho as (-> & r & Hr & Hm). eexists _, _, _. split_and!; [reflexivity..|].
    split; [done|]. intros [?|[Hno _]]; [done|]. by rewrite (Hno r Hr) in Hm. }
  destruct (Hacc src) as (o1 & -> & Ho1). mred. destruct o1 as [[id b]|].
  { destruct Ho1 as (-> & r & Hr & Hm). eexists _, _, _. split_and!; [reflexivity..|].
    split; [|done]. intros _. right. split; [done|]. exists src, r. set_solver. }
  destruct (Hacc IPv4Unspecified) as (o2 & -> & Ho2). mred. destruct o2 as [[id b]|].
  { destruct Ho2 as (-> & r & Hr & Hm). eexists _, _, _. split_and!; [reflexivity..|].
    split; [|done]. intros _. right. split; [done|]. exists IPv4Unspecified, r. set_solver. }
  destruct (Hacc IPv6Unspecified) as (o3 & -> & Ho3). mred. destruct o3 as [[id b]|].
  { destruct Ho3 as (-> & r & Hr & Hm). eexists _, _, _. split_and!; [reflexivity..|].
    split; [|done]. intros _. right. split; [done|]. exists IPv6Unspecified, r. set_solver. }
  eexists _, _, _. split_and!; [reflexivity..|]. split; [done|].
  intros [?|[_ (a & r & Ha & Hr & Hm)]]; [done|].
  rewrite !elem_of_cons in Ha. destruct Ha as [->|[->|[->|Ha]]]; [..|set_solver].
  - by rewrite (Ho1 r Hr) in Hm.
  - by rewrite (Ho2 r Hr) in Hm.
  - by rewrite (Ho3 r Hr) in Hm.
Qed.

(** C14: the exact verdict of the peer ACLs.  For every reachable table and
    every iteration order of Go's maps the check returns, and the packet is let
    in if and only if it is one of the special ICMP errors, which pass
    whatever the rules are, or no deny rule stored for exactly its source
    address matches it and some accept rule stored for that address or for a
    wildcard address does.  Deny rules for a wildcard address play no part. *)
Theorem peer_acl_verdict ruleKey (t : RuleTables) (ord : list PeerRule -> list PeerRule)
    (src : Addr) (d : Layers) (l1 : LayerType) :
  table_reach ruleKey t -> (forall l, ord l ≡ₚ l) -> layer_at d 1 = Ok l1 ->
  exists id blocked special, isSpecialICMP d = Ok special /\
    peerACLsBlock ord src d t = Ok (id, blocked) /\
    (blocked = false <->
     special = true \/
     (forall r, peer_in (incomingDenyRules t) src r -> peer_match src d l1 r = false) /\
     (exists a r, a ∈ [src; IPv4Unspecified; IPv6Unspecified] /\
        peer_in (incomingRules t) a r /\ peer_match src d l1 r = true)).
Proof. intros Hinv%table_reach_inv. by apply peerACLsBlock_spec. Qed.

(** a wildcard deny rule has no effect.  A drop rule added for 0.0.0.0 or
    :: is accepted and stored, but no packet from any specified address is
    treated differently than before: the deny table is consulted for the
    packet's own source address only. *)
Theorem wildcard_deny_not_enforced (t t' : RuleTables) (uuid : string) (mgmt ip : list Z)
    (proto : Protocol) (sp dp : option Port) (r : PeerRule)
    (ord : list PeerRule -> list PeerRule) (src : Addr) (d : Layers) :
  AddPeerFiltering uuid mgmt ip proto sp dp ActionDrop t = Ok (t', r) ->
  pr_ip r = IPv4Unspecified \/ pr_ip r = IPv6Unspecified ->
  src ≠ IPv4Unspecified -> src ≠ IPv6Unspecified ->
  peer_in (incomingDenyRules t') (pr_ip r) r /\
  peerACLsBlock ord src d t' = peerACLsBlock ord src d t.
Proof.
  intros (_ & Hid & Hip & Hdr & _ & _ & _ & ->)%AddPeerFiltering_cases Hw H4 H6.
  rewrite Hdr, <- Hip. cbn [bool_decide decide_rel Action_eq_dec]. split.
  - simpl. eexists _, _. by rewrite lookup_insert_eq, lookup_insert_eq.
  - unfold peerACLsBlock. simpl. rewrite lookup_insert_ne; [done|].
    intros Heq. destruct Hw as [Hw|Hw]; congruence.
Qed.

(** adding a peer rule and deleting it restores the tables, if the fresh
    identifier was not in use for that address. *)
Theorem peer_rule_add_delete ruleKey (t t' : RuleTables) (uuid : string) (mgmt ip : list Z)
    (proto : Protocol) (sp dp : option Port) (act : Action) (r : PeerRule) :
  table_reach ruleKey t ->
  AddPeerFiltering uuid mgmt ip proto sp dp act t = Ok (t', r) ->
  (forall m rs, m ∈ [incomingDenyRules t; incomingRules t] ->
     m !! Unmap (AddrFromSlice ip) = Some rs -> rs !! uuid = None) ->
  DeletePeerRule r t' = Ok t.
Proof.
  intros Hinv%table_reach_inv (_ & Hid & Hip & Hdr & _ & _ & _ & ->)%AddPeerFiltering_cases Hfr.
  assert (Hdel : forall b m, m ∈ [incomingDenyRules t; incomingRules t] -> peer_table_ok b m ->
    delete_from (<[pr_ip r := <[uuid := r]> (default ∅ (m !! pr_ip r))]> m) r = Ok m).
  { intros b m Hm Hok. unfold delete_from. rewrite lookup_insert_eq. rewrite Hid, lookup_insert_eq.
    cbv zeta. f_equal. rewrite <- Hip in Hfr. specialize (Hfr m).
    destruct (m !! pr_ip r) as [rs|] eqn:Hma; simpl.
    - rewrite delete_insert_id by (by apply (Hfr rs)).
      rewrite decide_False; [|by intros ?%map_size_empty_inv; eapply Hok].
      rewrite insert_insert_eq. by apply insert_id.
    - rewrite insert_empty, delete_singleton_eq, map_size_empty, decide_True by done.
      by apply delete_insert_id. }
  rewrite <- Hip. unfold DeletePeerRule. destruct (pr_drop r) eqn:Hd; simpl.
  - rewrite (Hdel true) by (set_solver || apply (ti_deny _ Hinv)). by destruct t.
  - rewrite (Hdel false) by (set_solver || apply (ti_accept _ Hinv)). by destruct t.
Qed.

(** ** Sets *)
Lemma Compact_elem (l : list Prefix) x : x ∈ Compact l <-> x ∈ l.
Proof.
  induction l as [|y [|z l] IH]; [done|done|]. cbn [Compact]. cbn [Compact] in IH.
  case_decide as H; [subst z|]; set_solver.
Qed.

(** updating a set gives all its rules the same destinations: those of
    the first of its rules in the slice together with the new prefixes.
    Prefixes of the other rules of the set are not merged: when the first
    rule is a new one without destinations, the prefixes resolved so far are
    lost for every rule of the set. *)
Theorem update_set_uses_first_rule ruleKey (t t' : RuleTables) (set : FSet) (ps : list Prefix) :
  table_reach ruleKey t -> UpdateSet set ps t = Ok t' ->
  exists first rest, set_matches t set = first :: rest /\ routeRules t' = routeRules t /\
    forall l, l ∈ routeRules t ->
      (rr_dstSet (rr_heap t !!! l) = set ->
       forall p, p ∈ rr_destinations (rr_heap t' !!! l) <->
         p ∈ rr_destinations (rr_heap t !!! first) \/ p ∈ ps) /\
      (rr_dstSet (rr_heap t !!! l) ≠ set -> rr_heap t' !!! l = rr_heap t !!! l).
Proof.
  intros Hinv%table_reach_inv Hu. destruct (UpdateSet_spec _ _ _ _ Hinv Hu)
    as (first & rest & ds & Hm & -> & _ & _ & _ & Hr & _ & Hh & _).
  exists first, rest. split_and!; [done|done|]. intros l Hl. split; intros Hs.
  - intros p. rewrite Hh, decide_True by (by apply set_matches_spec). simpl.
    by rewrite Compact_elem, sort_stable_perm, elem_of_app.
  - rewrite Hh, decide_False; [done|]. rewrite set_matches_spec. naive_solver.
Qed.

(** ** Merging source ranges *)
Lemma addr_compare_refl a : addr_compare a a = 0%Z.
Proof. unfold addr_compare. by rewrite !Z.compare_refl, string_compare_refl. Qed.

Lemma sort_two_prefixes a b1 b2 : (b1 < b2)%Z ->
  SortPrefixes [mkPrefix a b1; mkPrefix a b2] = [mkPrefix a b2; mkPrefix a b1].
Proof.
  intros H. unfold SortPrefixes, sort_stable. cbn [foldr insert_stable].
  unfold sort_prefix_cmp. cbn [PAddr PBits]. rewrite addr_compare_refl. simpl.
  by rewrite (proj2 (Z.leb_gt _ 0)) by lia.
Qed.

(** An address of the wider of two nested prefixes that is not in the
    narrower one. *)
Lemma outside_narrower a b1 b2 :
  prefix_wf (mkPrefix a b1) -> prefix_wf (mkPrefix a b2) -> (b1 < b2)%Z ->
  exists ip, Contains (mkPrefix a b1) ip = true /\ Contains (mkPrefix a b2) ip = false.
Proof.
  intros (_ & Hz & Hb1 & Hv) (_ & _ & Hb2 & _) Hlt. cbn [PAddr PBits] in *.
  set (flip v := Z.lxor v (2 ^ (BitLen a - b2))).
  set (ip := match a with AddrInvalid => AddrInvalid | Addr4 v => Addr4 (flip v)
             | Addr6 v z => Addr6 (flip v) z end).
  assert (HL : BitLen ip = BitLen a) by (by destruct a).
  assert (Hbits : addr_bits ip = flip (addr_bits a)) by (by destruct a).
  assert (Hvi : IsValid ip = true) by (by destruct a).
  assert (Hzi : hasZone ip = false) by (by destruct a).
  exists ip. unfold Contains, PIsValid. cbn [PAddr PBits].
  rewrite HL, Hvi, Hzi, Hbits, !Z.eqb_refl, !(proj2 (Z.leb_le 0 _)) by lia.
  cbn [negb andb]. unfold flip. rewrite !Z.shiftr_lxor. split.
  - apply Z.eqb_eq. rewrite (Z.shiftr_div_pow2 (2 ^ _)) by lia.
    rewrite Z.div_small; [by rewrite Z.lxor_0_r|]. split; [apply Z.pow_nonneg; lia|].
    apply Z.pow_lt_mono_r; lia.
  - apply Z.eqb_neq. rewrite (Z.shiftr_div_pow2 (2 ^ _)), Z.div_same by (try lia; apply Z.pow_nonzero; lia).
    intros Heq. apply (f_equal (Z.lxor (Z.shiftr (addr_bits a) (BitLen a - b2)))) in Heq.
    by rewrite Z.lxor_nilpotent, <- Z.lxor_assoc, Z.lxor_nilpotent in Heq.
Qed.

(** merging sorted source ranges loses addresses.  [SortPrefixes] puts the
    longer prefix of an address first, and [MergeIPRanges] then skips the
    shorter one because its address lies in the longer one: of two nested
    prefixes with the same address only the narrower survives, although
    addresses of the wider one are outside it. *)
Theorem merge_after_sort_loses_wider_range (a : Addr) (b1 b2 : Z) :
  prefix_wf (mkPrefix a b1) -> prefix_wf (mkPrefix a b2) -> (b1 < b2)%Z ->
  MergeIPRanges (SortPrefixes [mkPrefix a b1; mkPrefix a b2]) = [mkPrefix a b2] /\
  exists ip, Contains (mkPrefix a b1) ip = true /\ Contains (mkPrefix a b2) ip = false.
Proof.
  intros H1 H2 Hlt. split; [|by apply outside_narrower].
  rewrite sort_two_prefixes by done. unfold MergeIPRanges. cbn [foldl]. unfold merge_step.
  pose proof (Contains_self _ H2) as Hc. cbn [PAddr] in *. by rewrite Hc.
Qed.

(** ** Witnesses *)
Definition wkey (_ : list Prefix) (_ : Network) (proto : Protocol) (_ _ : option Port)
    (act : Action) : string :=
  (Protocol_string proto +:+ pretty (Action_num act))%string.

Definition wnet : Network := mkNetwork EmptySet_ (mkPrefix (Addr4 167772160) 8).
Definition wsrc : list Prefix := [mkPrefix (Addr4 1681915904) 10].
Definition wset : FSet := mkSet [1; 2; 3; 4]%Z EmptyString.
Definition wset_net : Network := mkNetwork wset PrefixZero.

Definition wops : list table_op :=
  [TAddRoute [] wsrc wnet ProtocolTCP None (Some (mkPort false [80]%Z)) ActionAccept;
   TAddRoute [] wsrc wnet ProtocolUDP None None ActionDrop;
   TAddRoute [] wsrc wset_net ProtocolALL None None ActionAccept;
   TAddPeer "a" [7]%Z [100; 64; 0; 2]%Z ProtocolTCP None (Some (mkPort true [22; 80]%Z)) ActionAccept].

Fixpoint wrun (ops : list table_op) (t : RuleTables) : RuleTables :=
  match ops with
  | [] => t
  | op :: ops => match run_table wkey op t with Ok t' => wrun ops t' | _ => t end
  end.

Definition wtables : RuleTables := wrun wops NewTables.

Lemma wrun_reach ops t : table_reach wkey t -> Forall table_op_ok ops -> table_reach wkey (wrun ops t).
Proof.
  revert t. induction ops as [|op ops IH]; intros t Ht Hok; simpl; [done|].
  apply Forall_cons in Hok as [Hop Hok].
  destruct (run_table wkey op t) as [t'| |] eqn:Hr; [|done..].
  apply IH; [|done]. by apply (table_reach_step wkey t op).
Qed.

Lemma wtables_reach : table_reach wkey wtables.
Proof.
  apply wrun_reach; [apply table_reach_new|].
  repeat (apply Forall_cons; split); try constructor; simpl; lia || done.
Qed.

Definition wpeer : Addr := Addr4 1681915906.
Definition wdst : Addr := Addr4 167772170.
Definition wlayers : Layers :=
  mkLayers [LayerTypeIPv4; LayerTypeTCP] [100; 64; 0; 2]%Z [10; 0; 0; 10]%Z 5 6 2 0 [] [] 0
    (mkTCPLayer 40000 80 true false false false false false []) 0 0 0 0 0 [].

Lemma route_acl_deny_overrides_witness :
  exists id pass, routeACLsPass wpeer wdst LayerTypeTCP 40000 80 wtables = Ok (id, pass) /\
    pass = true.
Proof.
  destruct (route_acl_deny_overrides wkey wtables wpeer wdst LayerTypeTCP 40000 80 wtables_reach)
    as (id & pass & H1 & H2).
  exists id, pass. split; [exact H1|]. vm_compute in H1. by injection H1 as _ <-.
Defined.

Lemma route_rule_add_delete_witness :
  exists t2, deleteRouteRule "icmp0" (wrun [TAddRoute [] wsrc wnet ProtocolICMP None None
    ActionAccept] wtables) = Ok t2 /\ route_view t2 = route_view wtables.
Proof.
  destruct (route_rule_add_delete wkey wtables
    (wrun [TAddRoute [] wsrc wnet ProtocolICMP None None ActionAccept] wtables)
    [] wsrc wnet ProtocolICMP None None ActionAccept 3 wtables_reach)
    as (t2 & Hd & _ & _ & Hv & _); [done|done|vm_compute; reflexivity..|].
  exists t2. split; [|exact Hv]. exact Hd.
Defined.

Lemma peer_acl_verdict_witness :
  exists id blocked, peerACLsBlock (fun l => l) wpeer wlayers wtables = Ok (id, blocked) /\
    blocked = false.
Proof.
  destruct (peer_acl_verdict wkey wtables (fun l => l) wpeer wlayers LayerTypeTCP wtables_reach)
    as (id & blocked & special & _ & H1 & _); [done|done|].
  exists id, blocked. split; [exact H1|]. vm_compute in H1. by injection H1 as _ <-.
Defined.

Definition wadd_wild : M (RuleTables * PeerRule) :=
  AddPeerFiltering "w" [] [0; 0; 0; 0]%Z ProtocolALL None None ActionDrop wtables.

Lemma wildcard_deny_not_enforced_witness :
  exists t' r, wadd_wild = Ok (t', r) /\ peer_in (incomingDenyRules t') (pr_ip r) r /\
    peerACLsBlock (fun l => l) wpeer wlayers t' = peerACLsBlock (fun l => l) wpeer wlayers wtables.
Proof.
  destruct wadd_wild as [[t' r]| |] eqn:E; [|vm_compute in E; discriminate..].
  exists t', r. split; [reflexivity|].
  apply (wildcard_deny_not_enforced wtables t' "w" [] [0; 0; 0; 0]%Z ProtocolALL None None r
    (fun l => l) wpeer wlayers E); [|done|done].
  left. vm_compute in E. by injection E as _ <-.
Defined.

Lemma peer_rule_add_delete_witness :
  exists t' r, wadd_wild = Ok (t', r) /\ DeletePeerRule r t' = Ok wtables.
Proof.
  destruct wadd_wild as [[t' r]| |] eqn:E; [|vm_compute in E; discriminate..].
  exists t', r. split; [reflexivity|].
  apply (peer_rule_add_delete wkey wtables t' "w" [] [0; 0; 0; 0]%Z ProtocolALL None None
    ActionDrop r wtables_reach E).
  intros m rs Hm. rewrite !elem_of_cons in Hm.
  destruct Hm as [->|[->|Hm]]; [vm_compute; discriminate..|set_solver].
Defined.

Lemma update_set_uses_first_rule_witness :
  exists t', UpdateSet wset [mkPrefix (Addr4 134744072) 32] wtables = Ok t' /\
    routeRules t' = routeRules wtables.
Proof.
  destruct (UpdateSet wset [mkPrefix (Addr4 134744072) 32] wtables) as [t'| |] eqn:E;
    [|vm_compute in E; discriminate..].
  exists t'. split; [reflexivity|].
  destruct (update_set_uses_first_rule wkey wtables t' wset [mkPrefix (Addr4 134744072) 32]
    wtables_reach E) as (first & rest & _ & Hr & _). exact Hr.
Defined.

Lemma merge_after_sort_loses_wider_range_witness :
  MergeIPRanges (SortPrefixes [mkPrefix (Addr4 167772160) 8; mkPrefix (Addr4 167772160) 24]) =
  [mkPrefix (Addr4 167772160) 24].
Proof.
  refine (proj1 (merge_after_sort_loses_wider_range (Addr4 167772160) 8 24 _ _ _)); [..|lia];
    (split_and!; [vm_compute; intuition congruence|done|simpl; lia..|done]).
Defined.
