(* ===== verification/UspMss.v ===== *)
(** * TCP MSS clamping (client/firewall/uspfilter/filter.go)

    [clampTCPMSS] lowers the MSS option of outgoing SYN segments in place and
    recomputes the TCP checksum over the pseudo-header and the segment. *)

From Stdlib Require Import ZArith Lia.
From stdpp Require Import base gmap strings numbers countable sorting list.
From S2P Require Import Prelude Netip Checksum UspPacket UspNat.

Definition ipv4TCPHeaderMinSize : Z := 40.
Definition ipv6TCPHeaderMinSize : Z := 60.

(** [for sum > 0xFFFF { sum = (sum & 0xFFFF) + (sum >> 16) }]; two rounds are
    always enough for a 32-bit sum ([fold_loop_eq]). *)
Fixpoint fold_loop (fuel : nat) (sum : Z) : Z :=
  match fuel with
  | O => sum
  | S fuel => if (65535 <? sum)%Z
              then fold_loop fuel (u32 (Z.land sum 65535 + Z.shiftr sum 16)) else sum
  end.

Definition fold_fuel : nat := 2.

(** The two loops over the sixteen bytes of an IPv6 address. *)
Definition sum_addr16 (ip : list Z) (sum : Z) : M Z :=
  if decide (16 <= length ip) then Ok (sum_pairs (take 16 ip) sum) else Panic.

Definition pseudoSum (d : Layers) (tcpLength : nat) : M Z :=
  l0 ← layer_at d 0;
  match l0 with
  | LayerTypeIPv4 =>
      s0 ← get16 (ip4_SrcIP d) 0;
      s1 ← get16 (ip4_SrcIP d) 2;
      d0 ← get16 (ip4_DstIP d) 0;
      d1 ← get16 (ip4_DstIP d) 2;
      Ok (u32 (u32 (u32 (u32 (u32 (u32 (0 + s0) + s1) + d0) + d1) + ip4_Protocol d) +
               u32 (Z.of_nat tcpLength)))
  | LayerTypeIPv6 =>
      sum ← sum_addr16 (ip6_SrcIP d) 0;
      sum ← sum_addr16 (ip6_DstIP d) sum;
      Ok (u32 (u32 (sum + u32 (Z.of_nat tcpLength)) + IPProtocolTCP))
  | _ => Ok 0%Z
  end.

Definition recalculateTCPChecksum (p : list Z) (d : Layers) (tcpHeaderStart : nat)
    : M (list Z) :=
  _ ← go_slice_from p tcpHeaderStart;
  let tcpLength := length p - tcpHeaderStart in
  p ← put16 p (tcpHeaderStart + 16) 0;
  pseudo ← pseudoSum d tcpLength;
  let tcpLayer := drop tcpHeaderStart p in
  let sum := sum_pairs tcpLayer pseudo in
  let sum := sum_odd tcpLayer sum in
  let sum := fold_loop fold_fuel sum in
  put16 p (tcpHeaderStart + 16) (not16 (u16 sum)).

(** The number of bytes an option takes in the header. *)
Definition option_size (o : Z * list Z) : nat :=
  if bool_decide (o.1 = TCPOptionKindEndList) || bool_decide (o.1 = TCPOptionKindNop)
  then 1 else 2 + length o.2.

Definition options_size (os : list (Z * list Z)) : nat :=
  foldl (fun n o => n + option_size o) 0 os.

Definition updateMSSOption (p : list Z) (d : Layers) (mssOptionIndex : nat) (mssClampValue : Z)
    (ipHeaderSize : nat) : M (list Z) :=
  let tcpHeaderStart := ipHeaderSize in
  let tcpOptionsStart := tcpHeaderStart + 20 in
  let optOffset := tcpOptionsStart + options_size (take mssOptionIndex (tcp_Options (tcp d))) in
  let mssValueOffset := optOffset + 2 in
  p ← put16 p mssValueOffset mssClampValue;
  recalculateTCPChecksum p d tcpHeaderStart.

(** An MSS option above the clamp value. *)
Definition mss_above (clamp : Z) (o : Z * list Z) : bool :=
  bool_decide (o.1 = TCPOptionKindMSS) && bool_decide (length o.2 = 2) &&
  (clamp <? word_at o.2 0)%Z.

(** The part of [clampTCPMSS] after the switch on the IP version. *)
Definition clamp_option (mssClampValue : Z) (p : list Z) (d : Layers) (ipHeaderSize : nat)
    : M (list Z * bool) :=
  if (mssClampValue =? 0)%Z then Ok (p, false)
  else match list_find (mss_above mssClampValue) (tcp_Options (tcp d)) with
       | None => Ok (p, false)
       | Some (i, _) =>
           p' ← updateMSSOption p d i mssClampValue ipHeaderSize;
           Ok (p', true)
       end.

(** [mss4] and [mss6] are the manager's clamp values for the two families. *)
Definition clampTCPMSS (mss4 mss6 : Z) (p : list Z) (d : Layers) : M (list Z * bool) :=
  if negb (tcp_SYN (tcp d)) then Ok (p, false)
  else if decide (tcp_Options (tcp d) = []) then Ok (p, false)
  else
    l0 ← layer_at d 0;
    match l0 with
    | LayerTypeIPv4 =>
        let n := (ip4_IHL d * 4)%Z in
        if (n <? 20)%Z then Ok (p, false) else clamp_option mss4 p d (Z.to_nat n)
    | LayerTypeIPv6 => clamp_option mss6 p d 40
    | _ => Ok (p, false)
    end.

(** The values [create] computes from the MTU. *)
Definition mssClampValueIPv4 (mtu : Z) : Z :=
  if (ipv4TCPHeaderMinSize <? mtu)%Z then u16 (mtu - ipv4TCPHeaderMinSize) else 0.
Definition mssClampValueIPv6 (mtu : Z) : Z :=
  if (ipv6TCPHeaderMinSize <? mtu)%Z then u16 (mtu - ipv6TCPHeaderMinSize) else 0.

(** ** Facts *)
Lemma fold_once s : (0 <= s < 2 ^ 32)%Z ->
  u32 (Z.land s 65535 + Z.shiftr s 16) = (s mod 65536 + s / 65536)%Z /\
  (0 <= s mod 65536 + s / 65536 <= 131070)%Z.
Proof.
  intros Hs. replace (Z.land s 65535) with (s mod 65536)%Z by (symmetry; by apply (Z.land_ones s 16)).
  rewrite Z.shiftr_div_pow2 by lia. change (2 ^ 16)%Z with 65536%Z. change (2 ^ 32)%Z with 4294967296%Z in *.
  assert (0 <= s mod 65536 < 65536 /\ 0 <= s / 65536 < 65536)%Z as [H1 H2]
    by (Z.div_mod_to_equations; lia).
  split; [apply u32_small; lia|lia].
Qed.

Lemma fold_loop_eq s : (0 <= s < 2 ^ 32)%Z -> fold_loop fold_fuel s = norm16 s.
Proof.
  intros Hs. destruct (fold_once s Hs) as [E1 B1].
  pose proof (Z.div_mod s 65536 ltac:(lia)) as Hd.
  pose proof (Z.mod_pos_bound s 65536 ltac:(lia)) as Hr.
  set (q := (s / 65536)%Z) in *. set (r := (s mod 65536)%Z) in *.
  unfold fold_fuel. cbn [fold_loop]. rewrite E1. unfold norm16.
  destruct (Z.ltb_spec 65535 s) as [H1|H1].
  - destruct (fold_once (r + q) ltac:(lia)) as [E2 _]. rewrite E2.
    destruct (Z.eqb_spec s 0); [lia|].
    destruct (Z.ltb_spec 65535 (r + q)) as [H2|H2].
    + rewrite <- (Z.mod_unique (r + q) 65536 1 (r + q - 65536)) by lia.
      rewrite <- (Z.div_unique (r + q) 65536 1 (r + q - 65536)) by lia.
      rewrite <- (Z.mod_unique (s - 1) 65535 (q + 1) (r + q - 65536)) by lia. lia.
    + rewrite <- (Z.mod_unique (s - 1) 65535 q (r + q - 1)) by lia. lia.
  - destruct (Z.eqb_spec s 0) as [->|]; [done|].
    rewrite Z.mod_small by lia. lia.
Qed.

(** What the decoder promises about the addresses: their length and that they
    are bytes. *)
Definition addrs_ok (d : Layers) : Prop :=
  match decoded d !! 0 with
  | Some LayerTypeIPv4 =>
      length (ip4_SrcIP d) = 4 /\ length (ip4_DstIP d) = 4 /\
      Forall byte (ip4_SrcIP d) /\ Forall byte (ip4_DstIP d) /\ byte (ip4_Protocol d)
  | Some LayerTypeIPv6 =>
      length (ip6_SrcIP d) = 16 /\ length (ip6_DstIP d) = 16 /\
      Forall byte (ip6_SrcIP d) /\ Forall byte (ip6_DstIP d)
  | _ => False
  end.

(** The sum of the pseudo-header of RFC 793 and RFC 8200. *)
Definition pseudo_header (d : Layers) (n : nat) : Z :=
  match decoded d !! 0 with
  | Some LayerTypeIPv4 => wsum (ip4_SrcIP d) + wsum (ip4_DstIP d) + ip4_Protocol d + Z.of_nat n
  | _ => wsum (ip6_SrcIP d) + wsum (ip6_DstIP d) + IPProtocolTCP + Z.of_nat n
  end.

Lemma sum_pairs_even l s : Forall byte l -> Nat.even (length l) = true ->
  sum_pairs l (u32 s) = u32 (s + wsum l).
Proof.
  intros Hb He. rewrite <- sum_pairs_odd by done. unfold sum_odd.
  by rewrite even_not_odd.
Qed.

Lemma pseudoSum_eq d n : addrs_ok d -> pseudoSum d n = Ok (u32 (pseudo_header d n)).
Proof.
  unfold addrs_ok, pseudoSum, pseudo_header, layer_at, go_index.
  destruct (decoded d !! 0) as [l0|]; [|done]. cbn [mbind res_bind].
  destruct l0; try done.
  - intros (L1 & L2 & B1 & B2 & Bp).
    destruct (ip4_SrcIP d) as [|a0 [|a1 [|a2 [|a3 [|]]]]]; try done.
    destruct (ip4_DstIP d) as [|b0 [|b1 [|b2 [|b3 [|]]]]]; try done.
    rewrite !get16_ok by (simpl; lia). mred. rewrite !word_at_eq by done.
    cbn [lookup_total list_lookup_total Nat.add]. u32_flatten. do 2 f_equal. cbn [wsum]. lia.
  - intros (L1 & L2 & B1 & B2). unfold sum_addr16. rewrite decide_True by lia. mred.
    rewrite !take_ge by lia.
    pose proof (sum_pairs_even (ip6_SrcIP d) 0 B1 ltac:(by rewrite L1)) as E.
    change (u32 0) with 0%Z in E. rewrite E.
    rewrite decide_True by lia. mred. rewrite sum_pairs_even by (done || by rewrite L2).
    u32_flatten. do 2 f_equal. lia.
Qed.

Lemma pseudo_header_range d n : addrs_ok d -> (Z.of_nat n <= 65535)%Z ->
  (0 <= pseudo_header d n <= 4 * 1048560 + 131070)%Z.
Proof.
  unfold addrs_ok, pseudo_header. destruct (decoded d !! 0) as [[]|]; try done.
  - intros (L1 & L2 & B1 & B2 & Bp) Hn. unfold byte in Bp.
    pose proof (wsum_bounds _ B1). pose proof (wsum_bounds _ B2). lia.
  - intros (L1 & L2 & B1 & B2) Hn. unfold IPProtocolTCP.
    pose proof (wsum_bounds _ B1). pose proof (wsum_bounds _ B2). lia.
Qed.

Lemma wsum_even_or_odd_bound l : Forall byte l -> (wsum l <= 32768 * Z.of_nat (length l + 1))%Z.
Proof.
  induction l as [|x|x y l IH] using list_ind2; intros Hb.
  - simpl. lia.
  - apply Forall_cons in Hb as [Hx _]. unfold byte in Hx. simpl. lia.
  - apply Forall_cons in Hb as [Hx Hb]. apply Forall_cons in Hb as [Hy Hb].
    specialize (IH Hb). unfold byte in *. cbn [wsum length]. lia.
Qed.

(** The recomputed checksum makes the segment verify. *)
Lemma recalculate_spec p d h :
  packet p -> addrs_ok d -> Nat.even h = true -> h + 18 <= length p ->
  exists p', recalculateTCPChecksum p d h = Ok p' /\ length p' = length p /\
    (forall i, i < h + 16 \/ h + 18 <= i -> p' !! i = p !! i) /\
    ((pseudo_header d (length p - h) + wsum (drop h p')) mod 65535 = 0)%Z.
Proof.
  intros [Hb Hlen] Ha Eh Hl. unfold recalculateTCPChecksum.
  unfold go_slice_from. rewrite go_slice_returns by lia. mred. cbv zeta.
  rewrite put16_ok by lia. mred. rewrite pseudoSum_eq by done. mred.
  set (p1 := copy_into p (h + 16) (Uint16_bytes 0)). set (n := length p - h).
  assert (L1 : length p1 = length p) by (apply copy_into_length; lia).
  assert (B1 : Forall byte p1) by (apply copy_into_bytes; [done|apply Uint16_bytes_byte]).
  rewrite sum_pairs_odd by (by apply Forall_drop).
  set (seg := drop h p1). set (s := (pseudo_header d n + wsum seg)%Z).
  assert (Hs : (0 <= s < 2 ^ 32)%Z).
  { pose proof (pseudo_header_range d n Ha ltac:(lia)).
    assert (Hbs : Forall byte seg) by (by apply Forall_drop).
    pose proof (wsum_even_or_odd_bound seg Hbs). pose proof (wsum_bounds seg Hbs).
    assert (length seg <= length p) by (unfold seg; rewrite length_drop; lia).
    unfold s. lia. }
  rewrite u32_small, fold_loop_eq by done. pose proof (norm16_range s ltac:(lia)) as Hr.
  unfold u16. rewrite Z.mod_small by (change (2 ^ 16)%Z with 65536%Z; lia).
  rewrite not16_eq by lia. rewrite put16_ok by lia.
  destruct (Uint16_bytes_wsum (65535 - norm16 s)) as [Hu _]; [lia|].
  eexists. split; [reflexivity|]. split_and!.
  - rewrite copy_into_length by lia. done.
  - intros i Hi. rewrite lookup_copy_ne by (simpl; lia). apply lookup_copy_ne; simpl; lia.
  - rewrite drop_copy by (simpl; lia). replace (h + 16 - h) with 16 by lia. fold seg.
    rewrite wsum_copy by (done || unfold seg; rewrite length_drop; simpl; lia). rewrite Hu.
    change (length (Uint16_bytes _)) with 2. unfold seg at 2. rewrite drop_drop.
    assert (take 2 (drop (h + 16) p1) = Uint16_bytes 0) as ->
      by (apply (slice_copy_eq p (Uint16_bytes 0)); simpl; lia).
    change (wsum (Uint16_bytes 0)) with 0%Z.
    replace (pseudo_header d n + (wsum seg - 0 + (65535 - norm16 s)))%Z
      with (s - norm16 s + 1 * 65535)%Z by (unfold s; lia).
    rewrite Z.mod_add by lia. rewrite Zminus_mod, norm16_mod, Z.sub_diag. done.
Qed.

(** ** The option *)
Lemma options_size_app os os' : options_size (os ++ os') = options_size os + options_size os'.
Proof.
  unfold options_size. rewrite foldl_app. generalize (foldl (fun n o => n + option_size o) 0 os).
  induction os' as [|o os' IH] using rev_ind; intros n; simpl; [lia|].
  rewrite !foldl_app. simpl. rewrite IH. lia.
Qed.

Lemma option_offset os i o : os !! i = Some o ->
  options_size (take i os) + option_size o <= options_size os.
Proof.
  intros Hi. rewrite <- (take_drop_middle os i o Hi) at 2. rewrite options_size_app.
  change (o :: drop (S i) os) with ([o] ++ drop (S i) os). rewrite options_size_app.
  unfold options_size at 3. simpl. lia.
Qed.

Lemma mss_above_size clamp o : mss_above clamp o = true -> option_size o = 4.
Proof.
  unfold mss_above, option_size. rewrite !andb_true_iff, !bool_decide_eq_true.
  intros [[-> ->] _]. done.
Qed.

Definition clamp_value (d : Layers) (mss4 mss6 : Z) : Z :=
  match decoded d !! 0 with Some LayerTypeIPv4 => mss4 | _ => mss6 end.

(** What a clamp to [v] of the packet [p] with its TCP header at [h] is. *)
Definition clamped (v : Z) (d : Layers) (h : nat) (p p' : list Z) : Prop :=
  length p' = length p /\
  (exists o, h + 20 <= o /\ word_at p' o = v /\
     forall i, (i < h + 16 \/ h + 18 <= i) -> (i < o \/ o + 2 <= i) -> p' !! i = p !! i) /\
  ((pseudo_header d (length p - h) + wsum (drop h p')) mod 65535 = 0)%Z.

Lemma updateMSSOption_spec v p d h i o :
  packet p -> addrs_ok d -> Nat.even h = true ->
  h + 20 + options_size (tcp_Options (tcp d)) <= length p -> (0 <= v < 65536)%Z ->
  tcp_Options (tcp d) !! i = Some o -> mss_above v o = true ->
  exists p', updateMSSOption p d i v h = Ok p' /\ clamped v d h p p'.
Proof.
  intros [Hb Hlen] Ha Eh Hopt Hv Hi Ho. unfold updateMSSOption. cbv zeta.
  pose proof (option_offset _ _ _ Hi) as Hoff. rewrite (mss_above_size v o Ho) in Hoff.
  set (off := h + 20 + _ + 2). assert (Hoff' : h + 22 <= off /\ off + 2 <= length p) by lia.
  rewrite put16_ok by lia. mred. set (p1 := copy_into p off (Uint16_bytes v)).
  assert (L1 : length p1 = length p) by (apply copy_into_length; lia).
  assert (B1 : Forall byte p1) by (apply copy_into_bytes; [done|apply Uint16_bytes_byte]).
  destruct (recalculate_spec p1 d h) as (p' & Hr & L' & Hsame & Hck); [by split; [|lia]|done|done|lia|].
  exists p'. split; [done|]. split; [lia|]. split; [|by rewrite <- L1].
  exists off. split_and!; [lia| |].
  - rewrite <- (word_at_copy_eq p off v) by (done || lia). fold p1. unfold word_at.
    rewrite !list_lookup_total_alt, !Hsame by lia. done.
  - intros k Hk1 Hk2. rewrite Hsame by done. apply lookup_copy_ne; simpl; lia.
Qed.

Lemma clamp_option_spec v p d h :
  packet p -> addrs_ok d -> Nat.even h = true ->
  h + 20 + options_size (tcp_Options (tcp d)) <= length p -> (0 <= v < 65536)%Z ->
  exists p' b, clamp_option v p d h = Ok (p', b) /\
    (b = true -> clamped v d h p p') /\
    (b = false -> p' = p /\ (v ≠ 0%Z -> forall o, o ∈ tcp_Options (tcp d) -> mss_above v o = false)).
Proof.
  intros Hp Ha Eh Hopt Hv. unfold clamp_option.
  destruct (Z.eqb_spec v 0) as [->|Hne]; [eexists _, _; split; [reflexivity|]; done|].
  destruct (list_find (mss_above v) _) as [[i o]|] eqn:Hf.
  - apply list_find_Some in Hf as (Hi & Ho%Is_true_true & _).
    destruct (updateMSSOption_spec v p d h i o) as (p' & -> & Hc); try done. mred.
    eexists _, _. split; [reflexivity|]. done.
  - apply list_find_None in Hf. eexists _, _. split; [reflexivity|]. split; [done|].
    intros _. split; [done|]. intros _ o Ho. rewrite Forall_forall in Hf.
    by apply Is_true_false, Hf.
Qed.

(** ** The theorem *)

(** MSS clamping terminates, changes nothing it should not, and leaves a
    valid segment.  For a complete TCP packet whose options fit the packet the
    routine returns; if it reports a change, one 16-bit option value now is
    the clamp value, every other byte outside the checksum field is as it
    was, and the TCP checksum verifies over the pseudo-header; otherwise the
    packet is untouched and no MSS option of a SYN exceeds the clamp value. *)
Theorem mss_clamp_sound (mss4 mss6 : Z) (v6 : bool) (d : Layers) (h : nat) (p : list Z) :
  wf_packet v6 d LayerTypeTCP h p -> addrs_ok d ->
  h + 20 + options_size (tcp_Options (tcp d)) <= length p ->
  (0 <= clamp_value d mss4 mss6 < 65536)%Z ->
  exists p' b, clampTCPMSS mss4 mss6 p d = Ok (p', b) /\
    (b = true -> clamped (clamp_value d mss4 mss6) d h p p') /\
    (b = false -> p' = p /\
       (tcp_SYN (tcp d) = true -> clamp_value d mss4 mss6 ≠ 0%Z ->
        forall o, o ∈ tcp_Options (tcp d) -> mss_above (clamp_value d mss4 mss6) o = false)).
Proof.
  intros Hwf Ha Hopt Hv. pose proof (wf_packet_header _ _ _ _ _ Hwf) as (Eh & H20 & H40).
  destruct Hwf as (Hp & Hl & Hh & ds & Hd). unfold clampTCPMSS.
  destruct (tcp_SYN (tcp d)); [|eexists _, _; split; [reflexivity|]; done]. cbn [negb].
  case_decide as Hnil.
  { eexists _, _. split; [reflexivity|]. rewrite Hnil. split; [done|].
    intros _. split; [done|]. intros _ _ o Ho. set_solver. }
  pose proof (clamp_option_spec (clamp_value d mss4 mss6) p d h Hp Ha Eh Hopt Hv)
    as (p' & b & Hc & H1 & H2).
  assert (Hsel : clamp_option (clamp_value d mss4 mss6) p d h =
    match layer_at d 0 with
    | Ok LayerTypeIPv4 => if (ip4_IHL d * 4 <? 20)%Z then Ok (p, false)
                          else clamp_option mss4 p d (Z.to_nat (ip4_IHL d * 4))
    | _ => clamp_option mss6 p d 40
    end).
  { unfold ipHeaderLen, layer_at, go_index, clamp_value in *. rewrite Hd in *.
    cbn [lookup list_lookup mbind res_bind] in *. destruct v6; cbv iota in *.
    - by rewrite (H40 eq_refl).
    - destruct (Z.ltb_spec (ip4_IHL d * 4) 20); [done|]. by injection Hh as <-. }
  exists p', b. split_and!; [|done|by intros ->; split; [apply H2|intros _; apply H2]].
  rewrite <- Hc, Hsel. unfold layer_at, go_index. rewrite Hd.
  cbn [lookup list_lookup mbind res_bind]. by destruct v6.
Qed.

(** ** Witness *)
Definition mss_packet : list Z :=
  [69; 0; 0; 44; 0; 0; 64; 0; 64; 6; 0; 0; 10; 0; 0; 1; 10; 0; 0; 2;
   4; 210; 0; 80; 0; 0; 0; 1; 0; 0; 0; 0; 96; 2; 250; 240; 0; 0; 0; 0; 2; 4; 5; 180]%Z.

Definition mss_layers : Layers :=
  mkLayers [LayerTypeIPv4; LayerTypeTCP] [10; 0; 0; 1]%Z [10; 0; 0; 2]%Z 5 6 2 0 [] [] 0
    (mkTCPLayer 1234 80 true false false false false false [(2, [5; 180])%Z]) 0 0 0 0 0 [].

Lemma mss_clamp_sound_witness :
  exists p' b, clampTCPMSS (mssClampValueIPv4 1280) (mssClampValueIPv6 1280) mss_packet mss_layers
    = Ok (p', b) /\ b = true /\ clamped 1240 mss_layers 20 mss_packet p'.
Proof.
  destruct (mss_clamp_sound (mssClampValueIPv4 1280) (mssClampValueIPv6 1280) false mss_layers 20
    mss_packet) as (p' & b & H1 & H2 & _).
  - split_and!; [split; [by_decide|vm_compute; congruence]|vm_compute; lia|done|by exists []].
  - split_and!; done || by_decide.
  - vm_compute. lia.
  - vm_compute. intuition congruence.
  - exists p', b. split; [exact H1|]. vm_compute in H1.
    assert (Eb : b = true) by (by injection H1 as _ <-). split; [exact Eb|].
    exact (H2 Eb).
Defined.
