(* ===== verification/UspFilter.v ===== *)
(** * The packet pipeline of the userspace firewall
      (client/firewall/uspfilter/filter.go)

    The manager composes the rule tables, the NAT tables and the connection
    trackers.  A packet is filtered with a decoder from the pool, which is
    returned to it: [filterInbound] and [filterOutbound] take and return the
    decoder.  gopacket's parsers, the clock, the identifiers and the iteration
    orders are arguments.  A nil tracker is [None]; calling a method on it
    panics. *)

From Stdlib Require Import ZArith Lia.
From stdpp Require Import base gmap strings numbers countable sorting pretty list.
From S2P Require Import Prelude Netip Checksum ConntrackCommon ConntrackTCP.
From S2P Require Import ConntrackUDP ConntrackICMP UspPacket UspNat UspRules UspMss.

(** What the environment supplies for one packet. *)
Record Env : Type := mkEnv {
  e_now : Z;
  e_uuid : UUID;
  e_tcpOrder : list (ConnKey * TCPConnTrack);
  e_udpOrder : list (ConnKey * UDPConnTrack);
  e_icmpOrder : list (ICMPConnKey * ICMPConnTrack);
  e_ord : list PeerRule -> list PeerRule
}.

(** The WireGuard interface: its addresses and overlay networks, and whether
    it has a userspace device. *)
Record IFace : Type := mkIFace {
  if_IP : Addr;
  if_IPv6 : Addr;
  if_Network : Prefix;
  if_IPv6Net : Prefix;
  if_hasWGDevice : bool
}.

Record Manager : Type := mkManager {
  tables : RuleTables;
  nat_ : NatState;
  tcpTracker : option TCPTracker;
  udpTracker : option UDPTracker;
  icmpTracker : option ICMPTracker;
  stateful : bool;
  disableServerRoutes : bool;
  routingEnabled : bool;
  nativeRouter : bool;
  nativeFirewall : bool;
  netstack : bool;
  localForwarding : bool;
  localIPs : gset Addr;
  wgIface : IFace;
  netstackServices : gset (LayerType * Z);
  forwarder : bool;
  injected : list (list Z);
  mssClampEnabled : bool;
  mtu : Z;
  udpHookOut : option PacketHook;
  tcpHookOut : option PacketHook;
  blockRules : list string;
  dropLog : list EventFields
}.

(** Field updates. *)
Definition set_tables (t : RuleTables) (m : Manager) : Manager :=
  mkManager t (nat_ m) (tcpTracker m) (udpTracker m) (icmpTracker m) (stateful m)
    (disableServerRoutes m) (routingEnabled m) (nativeRouter m) (nativeFirewall m) (netstack m)
    (localForwarding m) (localIPs m) (wgIface m) (netstackServices m) (forwarder m) (injected m)
    (mssClampEnabled m) (mtu m) (udpHookOut m) (tcpHookOut m) (blockRules m) (dropLog m).

Definition set_trackers (t : option TCPTracker) (u : option UDPTracker) (i : option ICMPTracker)
    (m : Manager) : Manager :=
  mkManager (tables m) (nat_ m) t u i (stateful m)
    (disableServerRoutes m) (routingEnabled m) (nativeRouter m) (nativeFirewall m) (netstack m)
    (localForwarding m) (localIPs m) (wgIface m) (netstackServices m) (forwarder m) (injected m)
    (mssClampEnabled m) (mtu m) (udpHookOut m) (tcpHookOut m) (blockRules m) (dropLog m).

Definition set_routing (enabled native : bool) (m : Manager) : Manager :=
  mkManager (tables m) (nat_ m) (tcpTracker m) (udpTracker m) (icmpTracker m) (stateful m)
    (disableServerRoutes m) enabled native (nativeFirewall m) (netstack m)
    (localForwarding m) (localIPs m) (wgIface m) (netstackServices m) (forwarder m) (injected m)
    (mssClampEnabled m) (mtu m) (udpHookOut m) (tcpHookOut m) (blockRules m) (dropLog m).

Definition set_forwarder (f : bool) (m : Manager) : Manager :=
  mkManager (tables m) (nat_ m) (tcpTracker m) (udpTracker m) (icmpTracker m) (stateful m)
    (disableServerRoutes m) (routingEnabled m) (nativeRouter m) (nativeFirewall m) (netstack m)
    (localForwarding m) (localIPs m) (wgIface m) (netstackServices m) f (injected m)
    (mssClampEnabled m) (mtu m) (udpHookOut m) (tcpHookOut m) (blockRules m) (dropLog m).

Definition set_blockRules (r : list string) (m : Manager) : Manager :=
  mkManager (tables m) (nat_ m) (tcpTracker m) (udpTracker m) (icmpTracker m) (stateful m)
    (disableServerRoutes m) (routingEnabled m) (nativeRouter m) (nativeFirewall m) (netstack m)
    (localForwarding m) (localIPs m) (wgIface m) (netstackServices m) (forwarder m) (injected m)
    (mssClampEnabled m) (mtu m) (udpHookOut m) (tcpHookOut m) r (dropLog m).

Definition set_services (s : gset (LayerType * Z)) (m : Manager) : Manager :=
  mkManager (tables m) (nat_ m) (tcpTracker m) (udpTracker m) (icmpTracker m) (stateful m)
    (disableServerRoutes m) (routingEnabled m) (nativeRouter m) (nativeFirewall m) (netstack m)
    (localForwarding m) (localIPs m) (wgIface m) s (forwarder m) (injected m)
    (mssClampEnabled m) (mtu m) (udpHookOut m) (tcpHookOut m) (blockRules m) (dropLog m).

Definition inject (p : list Z) (m : Manager) : Manager :=
  mkManager (tables m) (nat_ m) (tcpTracker m) (udpTracker m) (icmpTracker m) (stateful m)
    (disableServerRoutes m) (routingEnabled m) (nativeRouter m) (nativeFirewall m) (netstack m)
    (localForwarding m) (localIPs m) (wgIface m) (netstackServices m) (forwarder m)
    (injected m ++ [p]) (mssClampEnabled m) (mtu m) (udpHookOut m) (tcpHookOut m)
    (blockRules m) (dropLog m).

Definition log_drop (e : EventFields) (m : Manager) : Manager :=
  mkManager (tables m) (nat_ m) (tcpTracker m) (udpTracker m) (icmpTracker m) (stateful m)
    (disableServerRoutes m) (routingEnabled m) (nativeRouter m) (nativeFirewall m) (netstack m)
    (localForwarding m) (localIPs m) (wgIface m) (netstackServices m) (forwarder m) (injected m)
    (mssClampEnabled m) (mtu m) (udpHookOut m) (tcpHookOut m) (blockRules m)
    (dropLog m ++ [e]).

Definition set_hooks (u t : option PacketHook) (m : Manager) : Manager :=
  mkManager (tables m) (nat_ m) (tcpTracker m) (udpTracker m) (icmpTracker m) (stateful m)
    (disableServerRoutes m) (routingEnabled m) (nativeRouter m) (nativeFirewall m) (netstack m)
    (localForwarding m) (localIPs m) (wgIface m) (netstackServices m) (forwarder m) (injected m)
    (mssClampEnabled m) (mtu m) u t (blockRules m) (dropLog m).

(** ** Connection tracking *)
Definition of_opt {A} (o : option A) : M A :=
  match o with Some a => Ok a | None => Panic end.

(** A method call on a tracker pointer. *)
Definition deref {A} (o : option A) : M A := of_opt o.

(** A rewrite error is logged; the packet stays as it was. *)
Definition or_keep (p : list Z) (r : M (list Z)) : M (list Z) :=
  match r with Ok p' => Ok p' | Err _ => Ok p | Panic => Panic end.

Definition trackOutbound (e : Env) (d : Layers) (srcIP dstIP : Addr) (p : list Z) (size_ : Z)
    (m : Manager) : M (Manager * list Z) :=
  transport ← layer_at d 1;
  match transport with
  | LayerTypeUDP =>
      u ← deref (udpTracker m);
      '(u, origPort) ← of_opt (UTrackOutbound (e_now e) (e_uuid e) (e_udpOrder e) srcIP dstIP
                                 (udp_SrcPort d) (udp_DstPort d) size_ u);
      let m := set_trackers (tcpTracker m) (Some u) (icmpTracker m) m in
      if (origPort =? 0)%Z then Ok (m, p)
      else p ← or_keep p (rewriteUDPPort p d origPort sourcePortOffset); Ok (m, p)
  | LayerTypeTCP =>
      t ← deref (tcpTracker m);
      '(t, origPort) ← of_opt (TrackOutbound (e_now e) (e_uuid e) (e_tcpOrder e) srcIP dstIP
                                 (tcp_SrcPort (tcp d)) (tcp_DstPort (tcp d))
                                 (getTCPFlags (tcp d)) size_ t);
      let m := set_trackers (Some t) (udpTracker m) (icmpTracker m) m in
      if (origPort =? 0)%Z then Ok (m, p)
      else p ← or_keep p (rewriteTCPPort p d origPort sourcePortOffset); Ok (m, p)
  | LayerTypeICMPv4 =>
      i ← deref (icmpTracker m);
      i ← of_opt (ITrackOutbound (e_now e) (e_uuid e) (e_icmpOrder e) srcIP dstIP
                    (icmp4_Id d) (icmp4_TypeCode d) size_ i);
      Ok (set_trackers (tcpTracker m) (udpTracker m) (Some i) m, p)
  | LayerTypeICMPv6 =>
      let '(id, tc) := icmpv6EchoFields d in
      i ← deref (icmpTracker m);
      i ← of_opt (ITrackOutbound (e_now e) (e_uuid e) (e_icmpOrder e) srcIP dstIP id tc size_ i);
      Ok (set_trackers (tcpTracker m) (udpTracker m) (Some i) m, p)
  | _ => Ok (m, p)
  end.

(** Resets the decoder's port after tracking. *)
Definition trackInbound (e : Env) (d : decoder) (srcIP dstIP : Addr) (ruleID : list Z)
    (size_ : Z) (m : Manager) : M (Manager * decoder) :=
  let l := layers_ d in
  transport ← layer_at l 1;
  m ← match transport with
      | LayerTypeUDP =>
          u ← deref (udpTracker m);
          u ← of_opt (UTrackInbound (e_now e) (e_uuid e) (e_udpOrder e) srcIP dstIP
                        (udp_SrcPort l) (udp_DstPort l) ruleID size_ (dnatOrigPort d) u);
          Ok (set_trackers (tcpTracker m) (Some u) (icmpTracker m) m)
      | LayerTypeTCP =>
          t ← deref (tcpTracker m);
          t ← of_opt (TrackInbound (e_now e) (e_uuid e) (e_tcpOrder e) srcIP dstIP
                        (tcp_SrcPort (tcp l)) (tcp_DstPort (tcp l)) (getTCPFlags (tcp l))
                        ruleID size_ (dnatOrigPort d) t);
          Ok (set_trackers (Some t) (udpTracker m) (icmpTracker m) m)
      | LayerTypeICMPv4 =>
          i ← deref (icmpTracker m);
          i ← of_opt (ITrackInbound (e_now e) (e_uuid e) (e_icmpOrder e) srcIP dstIP
                        (icmp4_Id l) (icmp4_TypeCode l) ruleID size_ i);
          Ok (set_trackers (tcpTracker m) (udpTracker m) (Some i) m)
      | LayerTypeICMPv6 =>
          let '(id, tc) := icmpv6EchoFields l in
          i ← deref (icmpTracker m);
          i ← of_opt (ITrackInbound (e_now e) (e_uuid e) (e_icmpOrder e) srcIP dstIP
                        id tc ruleID size_ i);
          Ok (set_trackers (tcpTracker m) (udpTracker m) (Some i) m)
      | _ => Ok m
      end;
  Ok (m, mkDecoder l 0).

Definition isValidTrackedConnection (e : Env) (d : Layers) (srcIP dstIP : Addr) (size_ : Z)
    (m : Manager) : M (Manager * bool) :=
  l1 ← layer_at d 1;
  match l1 with
  | LayerTypeTCP =>
      t ← deref (tcpTracker m);
      let '(t, ok) := IsValidInbound (e_now e) srcIP dstIP (tcp_SrcPort (tcp d))
                        (tcp_DstPort (tcp d)) (getTCPFlags (tcp d)) size_ t in
      Ok (set_trackers (Some t) (udpTracker m) (icmpTracker m) m, ok)
  | LayerTypeUDP =>
      u ← deref (udpTracker m);
      let '(u, ok) := UIsValidInbound (e_now e) srcIP dstIP (udp_SrcPort d) (udp_DstPort d)
                        size_ u in
      Ok (set_trackers (tcpTracker m) (Some u) (icmpTracker m) m, ok)
  | LayerTypeICMPv4 =>
      i ← deref (icmpTracker m);
      let '(i, ok) := IIsValidInbound (e_now e) srcIP dstIP (icmp4_Id d)
                        (tc_Type (icmp4_TypeCode d)) size_ i in
      Ok (set_trackers (tcpTracker m) (udpTracker m) (Some i) m, ok)
  | LayerTypeICMPv6 =>
      i ← deref (icmpTracker m);
      let '(i, ok) := IIsValidInbound (e_now e) srcIP dstIP (icmpv6EchoFields d).1
                        (tc_Type (icmp6_TypeCode d)) size_ i in
      Ok (set_trackers (tcpTracker m) (udpTracker m) (Some i) m, ok)
  | _ => Ok (m, false)
  end.

(** ** Netstack services *)
Definition protocolToLayerType (protocol : Z) : LayerType :=
  if (protocol =? TCP)%Z then LayerTypeTCP
  else if (protocol =? UDP)%Z then LayerTypeUDP
  else if (protocol =? ICMP)%Z then LayerTypeICMPv4
  else LayerTypeZero.

Definition RegisterNetstackService (protocol port : Z) (m : Manager) : Manager :=
  set_services ({[ (protocolToLayerType protocol, port) ]} ∪ netstackServices m) m.

Definition UnregisterNetstackService (protocol port : Z) (m : Manager) : Manager :=
  set_services (netstackServices m ∖ {[ (protocolToLayerType protocol, port) ]}) m.

Definition hasMatchingNetstackService (d : Layers) (m : Manager) : bool :=
  match decoded d with
  | _ :: LayerTypeTCP :: _ =>
      bool_decide ((LayerTypeTCP, tcp_DstPort (tcp d)) ∈ netstackServices m)
  | _ :: LayerTypeUDP :: _ =>
      bool_decide ((LayerTypeUDP, udp_DstPort d) ∈ netstackServices m)
  | _ => false
  end.

Definition shouldForward (d : Layers) (dstIP : Addr) (m : Manager) : bool :=
  if negb (localForwarding m) then false
  else if netstack m then negb (hasMatchingNetstackService d m)
  else bool_decide (dstIP ≠ if_IP (wgIface m)) &&
       (negb (IsValid (if_IPv6 (wgIface m))) || bool_decide (dstIP ≠ if_IPv6 (wgIface m))).

(** ** Local and routed traffic

    [InjectIncomingPacket]'s error is only logged. *)
Definition drop_event (e : Env) (d : Layers) (ruleID : list Z) (srcIP dstIP : Addr) (size_ : Z)
    : M EventFields :=
  pnum ← getProtocolFromPacket d;
  '(srcPort, dstPort) ← getPortsFromPacket d;
  Ok (mkEvent (e_uuid e) TypeDrop ruleID Ingress pnum srcIP dstIP srcPort dstPort 0 0
        1 0 (u64 size_) 0).

Definition handleForwardedLocalTraffic (p : list Z) (m : Manager) : Manager * bool :=
  if negb (forwarder m) then (m, true) else (inject p m, true).

Definition handleLocalTraffic (e : Env) (d : decoder) (srcIP dstIP : Addr) (p : list Z)
    (size_ : Z) (m : Manager) : M (Manager * decoder * bool) :=
  let l := layers_ d in
  '(ruleID, blocked) ← peerACLsBlock (e_ord e) srcIP l (tables m);
  if (blocked : bool) then
    ev ← drop_event e l ruleID srcIP dstIP size_;
    Ok (log_drop ev m, d, true)
  else if shouldForward l dstIP m then
    let '(m, r) := handleForwardedLocalTraffic p m in Ok (m, d, r)
  else
    '(m, d) ← trackInbound e d srcIP dstIP ruleID size_ m;
    Ok (m, d, false).

Definition handleRoutedTraffic (e : Env) (d : decoder) (srcIP dstIP : Addr) (p : list Z)
    (size_ : Z) (m : Manager) : M (Manager * decoder * bool) :=
  let l := layers_ d in
  if negb (routingEnabled m) then Ok (m, d, true)
  else if nativeRouter m then
    '(m, d) ← trackInbound e d srcIP dstIP [] size_ m;
    Ok (m, d, false)
  else
    protoLayer ← layer_at l 1;
    '(srcPort, dstPort) ← getPortsFromPacket l;
    '(ruleID, pass) ← routeACLsPass srcIP dstIP protoLayer srcPort dstPort (tables m);
    if negb pass then
      ev ← drop_event e l ruleID srcIP dstIP size_;
      Ok (log_drop ev m, d, true)
    else if negb (forwarder m) then Ok (m, d, true)
    else Ok (inject p m, d, true).

(** ** The two filters: [true] means that the packet is dropped *)
Section pipeline.
Context (parser4 parser6 : list Z -> Layers -> Layers * bool).

Definition filterOutbound (e : Env) (p : list Z) (size_ : Z) (d : decoder) (m : Manager)
    : M (Manager * decoder * list Z * bool) :=
  let '(d, err) := decodePacket parser4 parser6 p d in
  match err with
  | Some _ => Ok (m, d, p, false)
  | None =>
      let l := layers_ d in
      if decide (length (decoded l) < 2) then Ok (m, d, p, false)
      else
        '(srcIP, dstIP) ← extractIPs l;
        if negb (IsValid srcIP) then Ok (m, d, p, false)
        else
          l1 ← layer_at l 1;
          let continue (p : list Z) : M (Manager * decoder * list Z * bool) :=
            '(m, p) ← trackOutbound e l srcIP dstIP p size_ m;
            '(p, _) ← translateOutboundDNAT p l (nat_ m);
            Ok (m, d, p, false) in
          match l1 with
          | LayerTypeUDP =>
              if HookMatches (udpHookOut m) dstIP (udp_DstPort l) p then Ok (m, d, p, true)
              else continue p
          | LayerTypeTCP =>
              if HookMatches (tcpHookOut m) dstIP (tcp_DstPort (tcp l)) p
              then Ok (m, d, p, true)
              else if mssClampEnabled m then
                '(p, _) ← clampTCPMSS (mssClampValueIPv4 (mtu m)) (mssClampValueIPv6 (mtu m)) p l;
                continue p
              else continue p
          | _ => continue p
          end
  end.

(** The stages after a packet has been found valid and is not a fragment. *)
Definition inbound_verdict (e : Env) (d : decoder) (srcIP dstIP : Addr) (p : list Z) (size_ : Z)
    (m : Manager) : M (Manager * decoder * list Z * bool) :=
  '(m, tracked) ← (if stateful m
                   then isValidTrackedConnection e (layers_ d) srcIP dstIP size_ m
                   else Ok (m, false));
  if (tracked : bool) then Ok (m, d, p, false)
  else if IsLocalIP (localIPs m) dstIP then
    '(m, d, r) ← handleLocalTraffic e d srcIP dstIP p size_ m;
    Ok (m, d, p, r)
  else
    '(m, d, r) ← handleRoutedTraffic e d srcIP dstIP p size_ m;
    Ok (m, d, p, r).

(** Re-decode a translated packet; an error drops it ([None]). *)
Definition redecode (translated : bool) (p : list Z) (d : decoder) (srcIP dstIP : Addr)
    : M (decoder * option (Addr * Addr)) :=
  if negb translated then Ok (d, Some (srcIP, dstIP))
  else
    let '(d, err) := decodePacket parser4 parser6 p d in
    match err with
    | Some _ => Ok (d, None)
    | None => ips ← extractIPs (layers_ d); Ok (d, Some ips)
    end.

Definition filterInbound (e : Env) (p : list Z) (size_ : Z) (d : decoder) (m : Manager)
    : M (Manager * decoder * list Z * bool) :=
  let '(d, (valid, fragment)) := isValidPacket parser4 parser6 d p in
  if negb valid then Ok (m, d, p, true)
  else
    '(srcIP, dstIP) ← extractIPs (layers_ d);
    if negb (IsValid srcIP) then Ok (m, d, p, true)
    else if (fragment : bool) then Ok (m, d, p, false)
    else
      '(p, d, translated) ← translateInboundPortDNAT p d srcIP dstIP (nat_ m);
      '(d, ips) ← redecode translated p d srcIP dstIP;
      match ips with
      | None => Ok (m, d, p, true)
      | Some (srcIP, dstIP) =>
          '(p, translated) ← translateInboundReverse p (layers_ d) (nat_ m);
          '(d, ips) ← redecode translated p d srcIP dstIP;
          match ips with
          | None => Ok (m, d, p, true)
          | Some (srcIP, dstIP) => inbound_verdict e d srcIP dstIP p size_ m
          end
      end.
End pipeline.

(** ** Routing *)
Section routing.
Context (ruleKey : list Prefix -> Network -> Protocol -> option Port -> option Port ->
  Action -> string).

(** The native firewall's answers, when route rules are delegated to it. *)
Context (native_add : list Prefix -> Network -> Action -> M string)
  (native_delete : string -> M unit).

Definition m_addRouteFiltering (mgmtId : list Z) (sources : list Prefix) (destination : Network)
    (proto : Protocol) (sPort dPort : option Port) (action : Action) (m : Manager)
    : M (Manager * string) :=
  if nativeRouter m && nativeFirewall m then
    id ← native_add sources destination action; Ok (m, id)
  else
    let '(t, l) := addRouteFiltering ruleKey mgmtId sources destination proto sPort dPort action
                     (tables m) in
    Ok (set_tables t m, rr_id (rr_heap t !!! l)).

Definition m_deleteRouteRule (id : string) (m : Manager) : M Manager :=
  if nativeRouter m && nativeFirewall m then _ ← native_delete id; Ok m
  else t ← deleteRouteRule id (tables m); Ok (set_tables t m).

(** The rules installed so far are returned also on an error. *)
Definition blockInvalidRouted (m : Manager) : M (Manager * list string * option usp_error) :=
  let v6Net := if_IPv6Net (wgIface m) in
  let sources := PrefixFrom IPv4Unspecified 0 ::
                 (if PIsValid v6Net then [PrefixFrom IPv6Unspecified 0] else []) in
  let add dst m := m_addRouteFiltering [] sources (mkNetwork EmptySet_ dst) ProtocolALL None None
                     ActionDrop m in
  match add (if_Network (wgIface m)) m with
  | Panic => Panic
  | Err e => Ok (m, [], Some e)
  | Ok (m, v4Rule) =>
      if PIsValid v6Net then
        match add v6Net m with
        | Panic => Panic
        | Err e => Ok (m, [v4Rule], Some e)
        | Ok (m, v6Rule) => Ok (m, [v4Rule; v6Rule], None)
        end
      else Ok (m, [v4Rule], None)
  end.

(** [newForwarder]: whether [forwarder.New] succeeds. *)
Definition initForwarder (newForwarder : bool) (m : Manager) : Manager * option usp_error :=
  if forwarder m then (m, None)
  else if negb (if_hasWGDevice (wgIface m)) then
    (set_routing false (nativeRouter m) m, Some ErrForwardingNotSupported)
  else if negb newForwarder then
    (set_routing false (nativeRouter m) m, Some ErrCreateForwarder)
  else (set_forwarder true m, None).

(** The flags are the parsed environment variables. *)
Definition determineRouting (disableUspRouting forceUserspaceRouter newForwarder : bool)
    (m : Manager) : Manager * option usp_error :=
  let m := if disableUspRouting then set_routing false false m
           else if disableServerRoutes m then set_routing true true m
           else if forceUserspaceRouter then set_routing true false m
           else if negb (netstack m) && nativeFirewall m then set_routing true true m
           else set_routing true false m in
  if routingEnabled m && negb (nativeRouter m) then initForwarder newForwarder m
  else (m, None).

Definition EnableRouting (disableUspRouting forceUserspaceRouter newForwarder : bool)
    (m : Manager) : M (Manager * option usp_error) :=
  let '(m, err) := determineRouting disableUspRouting forceUserspaceRouter newForwarder m in
  match err with
  | Some e => Ok (m, Some e)
  | None =>
      if negb (forwarder m) then Ok (m, None)
      else '(m, rules, err) ← blockInvalidRouted m; Ok (set_blockRules rules m, err)
  end.

(** Errors are collected and the loop goes on. *)
Fixpoint delete_block_rules (rules : list string) (m : Manager) : M (Manager * bool) :=
  match rules with
  | [] => Ok (m, false)
  | r :: rules =>
      match m_deleteRouteRule r m with
      | Panic => Panic
      | Err _ => '(m, _) ← delete_block_rules rules m; Ok (m, true)
      | Ok m => delete_block_rules rules m
      end
  end.

(** The result says whether an error was collected. *)
Definition DisableRouting (m : Manager) : M (Manager * bool) :=
  if negb (forwarder m) then Ok (m, false)
  else
    let m := set_routing false false m in
    '(m, failed) ← delete_block_rules (blockRules m) m;
    let m := set_blockRules [] m in
    if netstack m && localForwarding m then Ok (m, failed)
    else Ok (set_forwarder false m, failed).
End routing.

(** [create]: the flags are the parsed environment variables; [setFilter] and
    [newForwarder] say whether [iface.SetFilter] and [forwarder.New] succeed.
    A forwarder that cannot be created is only logged. *)
Definition create (disableConntrack enableLocalForwarding disableMSSClamping : bool)
    (native netstack_ disableServerRoutes_ setFilter newForwarder : bool) (iface : IFace)
    (interfaces : option (list (option (list ifaddr)))) (mtu_ : Z)
    (tcpTimeouts : Z * Z * Z) (maxTCP maxUDP maxICMP : Z) : option Manager :=
  let '(finWait, closeWait, lastAck) := tcpTimeouts in
  let m := mkManager NewTables NewNat
    (if disableConntrack then None
     else Some (NewTCPTracker DefaultTCPTimeout finWait closeWait lastAck maxTCP))
    (if disableConntrack then None else Some (NewUDPTracker DefaultUDPTimeout maxUDP))
    (if disableConntrack then None else Some (NewICMPTracker DefaultICMPTimeout maxICMP))
    (negb disableConntrack) disableServerRoutes_ false false native netstack_
    enableLocalForwarding
    (UpdateLocalIPs (Some (if_IP iface, if_IPv6 iface)) interfaces)
    iface ∅ false [] (negb disableMSSClamping) mtu_ None None [] [] in
  let m := if netstack m && localForwarding m then (initForwarder newForwarder m).1 else m in
  if setFilter then Some m else None.

(** [clear] empties the maps, the slice is cut to length zero, the hooks are
    removed and the trackers closed. *)
Definition resetState (m : Manager) : Manager :=
  let t := tables m in
  let m := set_tables (mkTables ∅ ∅ (rr_heap t) (rr_next t) [] ∅) m in
  let m := set_hooks None None m in
  set_trackers (Close <$> tcpTracker m) (UClose <$> udpTracker m) (IClose <$> icmpTracker m) m.

(** ** Decoding facts *)
Section facts.
Context (parser4 parser6 : list Z -> Layers -> Layers * bool).

(** The layers are those of this packet. *)
Definition decodes (p : list Z) (l : Layers) : Prop :=
  exists d0, decodePacket parser4 parser6 p d0 = (mkDecoder l (dnatOrigPort d0), None).

Lemma decodePacket_port p d d' err :
  decodePacket parser4 parser6 p d = (d', err) -> dnatOrigPort d' = dnatOrigPort d.
Proof.
  unfold decodePacket. destruct p as [|b0 p]; [by intros [= <- _]|].
  repeat case_match; intros; by simplify_eq.
Qed.

Lemma decodePacket_decodes p d d' :
  decodePacket parser4 parser6 p d = (d', None) -> decodes p (layers_ d').
Proof.
  intros H. exists d. rewrite H. f_equal. rewrite <- (decodePacket_port _ _ _ _ H). by destruct d'.
Qed.

Lemma isValidPacket_decodes p d d' fr :
  isValidPacket parser4 parser6 d p = (d', (true, fr)) -> decodes p (layers_ d').
Proof.
  unfold isValidPacket. destruct (decodePacket parser4 parser6 p d) as [d1 [err|]] eqn:Hd; [done|].
  apply decodePacket_decodes in Hd. repeat case_match; intros; by simplify_eq.
Qed.

Lemma applyPortRule_loop_spec rules p d src dst port proto fn p' d' b :
  applyPortRule_loop rules p d src dst port proto fn = Ok (p', d', b) ->
  layers_ d' = layers_ d /\ (b = false -> p' = p /\ d' = d).
Proof.
  induction rules as [|r rules IH]; simpl; [by intros [= <- <- <-]|].
  destruct (_ || _); [done|]. destruct (_ && _); [by intros [= <- <- <-]|].
  destruct (negb _); [done|]. destruct (fn _ _ _ _); [|..|done]; intros [= <- <- <-]; done.
Qed.

Lemma port_dnat_spec p d src dst s p' d' b :
  translateInboundPortDNAT p d src dst s = Ok (p', d', b) ->
  layers_ d' = layers_ d /\ (b = false -> p' = p /\ d' = d).
Proof.
  unfold translateInboundPortDNAT, applyPortRule.
  destruct (negb _); [by intros [= <- <- <-]|].
  destruct (layer_at _ 1) as [l1| |]; cbn [mbind res_bind]; [|done..].
  destruct l1; try (by intros [= <- <- <-]); apply applyPortRule_loop_spec.
Qed.

Lemma reverse_spec p l s p' b :
  translateInboundReverse p l s = Ok (p', b) -> b = false -> p' = p.
Proof.
  unfold translateInboundReverse. destruct (negb _); [by intros [= <- <-]|].
  destruct (extractPacketIPs p l) as [[src dst]| |]; cbn [mbind res_bind]; [|done..].
  destruct (findReverseDNATMapping src s) as [[o|]| |]; cbn [mbind res_bind]; try done;
    [|by intros [= <- <-]].
  unfold translated_or_not. destruct (rewritePacketIP _ _ _ _); intros [= <- <-]; done.
Qed.

(** After a stage that may have translated the packet the layers and the
    addresses are again those of the packet. *)
Lemma redecode_spec (b : bool) p p0 d l0 src dst d' ips :
  decodes p0 l0 -> extractIPs l0 = Ok (src, dst) -> layers_ d = l0 ->
  (b = false -> p = p0) ->
  redecode parser4 parser6 b p d src dst = Ok (d', Some ips) ->
  decodes p (layers_ d') /\ extractIPs (layers_ d') = Ok ips.
Proof.
  intros Hd Hx <- Hb. unfold redecode. destruct b; cbn [negb].
  - destruct (decodePacket parser4 parser6 p d) as [d1 [err|]] eqn:Hdec; [done|].
    destruct (extractIPs (layers_ d1)) as [x| |] eqn:Hx1; cbn [mbind res_bind]; [|done..].
    intros [= <- <-]. split; [by eapply decodePacket_decodes|done].
  - rewrite (Hb eq_refl). intros [= <- <-]. done.
Qed.
End facts.

(** ** Admission of inbound packets *)

(** The packet belongs to a tracked flow of the opposite direction. *)
Definition tracked_reply (now : Z) (l : Layers) (src dst : Addr) (m : Manager) : Prop :=
  match decoded l !! 1 with
  | Some LayerTypeTCP => exists t c, tcpTracker m = Some t /\
      connections t !! mkKey dst src (tcp_DstPort (tcp l)) (tcp_SrcPort (tcp l)) = Some c /\
      IsSupersededBy c (getTCPFlags (tcp l)) = false /\
      isValidStateForFlags (state c) (getTCPFlags (tcp l)) = true
  | Some LayerTypeUDP => exists u c, udpTracker m = Some u /\
      uconnections u !! mkKey dst src (udp_DstPort l) (udp_SrcPort l) = Some c /\
      (time_since now (lastSeen (ubase c)) <= utimeout u)%Z
  | Some LayerTypeICMPv4 => exists i c, icmpTracker m = Some i /\
      iconnections i !! mkIKey dst src (icmp4_Id l) = Some c /\
      tc_Type (icmp4_TypeCode l) ∈ [ICMPv4TypeEchoReply; ICMPv6TypeEchoReply] /\
      (time_since now (lastSeen (ibase c)) <= itimeout i)%Z
  | Some LayerTypeICMPv6 => exists i c, icmpTracker m = Some i /\
      iconnections i !! mkIKey dst src (icmpv6EchoFields l).1 = Some c /\
      tc_Type (icmp6_TypeCode l) ∈ [ICMPv4TypeEchoReply; ICMPv6TypeEchoReply] /\
      (time_since now (lastSeen (ibase c)) <= itimeout i)%Z
  | _ => False
  end.

(** The peer ACLs let the packet in. *)
Definition acl_allows (l : Layers) (src : Addr) (t : RuleTables) : Prop :=
  exists l1, decoded l !! 1 = Some l1 /\
  (isSpecialICMP l = Ok true \/
   (forall r, peer_in (incomingDenyRules t) src r -> peer_match src l l1 r = false) /\
   (exists a r, a ∈ [src; IPv4Unspecified; IPv6Unspecified] /\
      peer_in (incomingRules t) a r /\ peer_match src l l1 r = true)).

Lemma icmp_tracked now src dst id typ sz i i' :
  IIsValidInbound now src dst id typ sz i = (i', true) ->
  exists c, iconnections i !! mkIKey dst src id = Some c /\
    typ ∈ [ICMPv4TypeEchoReply; ICMPv6TypeEchoReply] /\
    (time_since now (lastSeen (ibase c)) <= itimeout i)%Z.
Proof.
  unfold IIsValidInbound. destruct (bool_decide _ && bool_decide _) eqn:Hty; [done|].
  destruct (iconnections i !! mkIKey dst src id) as [c|]; [|done].
  destruct (timeoutExceeded _ _ _) eqn:Hto; [done|]. apply bool_decide_eq_false in Hto.
  intros _. exists c. split_and!; [done| |lia].
  rewrite !elem_of_cons. apply andb_false_iff in Hty as [H|H]; apply bool_decide_eq_false in H;
    apply dec_stable in H; auto.
Qed.

Lemma tracked_spec e l src dst sz m m' :
  isValidTrackedConnection e l src dst sz m = Ok (m', true) ->
  tracked_reply (e_now e) l src dst m.
Proof.
  unfold isValidTrackedConnection, tracked_reply, layer_at, go_index.
  destruct (decoded l !! 1) as [l1|]; cbn [mbind res_bind]; [|done].
  destruct l1; try done; unfold deref, of_opt.
  - destruct (tcpTracker m) as [t|]; cbn [mbind res_bind]; [|done].
    destruct (IsValidInbound _ _ _ _ _ _ _ t) as [t' ok] eqn:Hv. intros [= _ ->].
    unfold IsValidInbound in Hv.
    destruct (connections t !! _) as [c|] eqn:Hc; [|done]. exists t, c.
    destruct (IsSupersededBy c _); [done|].
    destruct (negb (isValidFlagCombination _)); [done|]. cbv zeta in Hv.
    destruct (isValidStateForFlags _ _) eqn:Hs; [done|done].
  - destruct (udpTracker m) as [u|]; cbn [mbind res_bind]; [|done].
    destruct (UIsValidInbound _ _ _ _ _ _ u) as [u' ok] eqn:Hv. intros [= _ ->].
    unfold UIsValidInbound in Hv.
    destruct (uconnections u !! _) as [c|] eqn:Hc; [|done]. exists u, c.
    destruct (timeoutExceeded _ _ _) eqn:Hto; [done|]. apply bool_decide_eq_false in Hto.
    split_and!; [done..|lia].
  - destruct (icmpTracker m) as [i|]; cbn [mbind res_bind]; [|done].
    destruct (IIsValidInbound _ _ _ _ _ _ i) as [i' ok] eqn:Hv. intros [= _ ->].
    apply icmp_tracked in Hv as (c & ?). eauto.
  - destruct (icmpTracker m) as [i|]; cbn [mbind res_bind]; [|done].
    destruct (IIsValidInbound _ _ _ _ _ _ i) as [i' ok] eqn:Hv. intros [= _ ->].
    apply icmp_tracked in Hv as (c & ?). eauto.
Qed.

(** Tracking changes nothing but the trackers. *)
Lemma tracked_frame e l src dst sz m m' b :
  isValidTrackedConnection e l src dst sz m = Ok (m', b) ->
  tables m' = tables m /\ localIPs m' = localIPs m /\ routingEnabled m' = routingEnabled m /\
  nativeRouter m' = nativeRouter m /\ injected m' = injected m.
Proof.
  unfold isValidTrackedConnection, layer_at, go_index, deref, of_opt.
  destruct (decoded l !! 1) as [l1|]; cbn [mbind res_bind]; [|done].
  destruct l1; try (by intros [= <- _]);
    [destruct (tcpTracker m)|destruct (udpTracker m)|destruct (icmpTracker m)..];
    cbn [mbind res_bind]; try done; case_match; by intros [= <- _].
Qed.

Lemma local_admitted e d src dst p sz m m' d' :
  tables_inv (tables m) -> (forall l, e_ord e l ≡ₚ l) ->
  handleLocalTraffic e d src dst p sz m = Ok (m', d', false) ->
  acl_allows (layers_ d) src (tables m).
Proof.
  intros Hinv Hord. unfold handleLocalTraffic, acl_allows.
  destruct (decoded (layers_ d) !! 1) as [l1|] eqn:Hl1.
  - destruct (peerACLsBlock_spec (tables m) (e_ord e) src (layers_ d) l1 Hinv Hord)
      as (id & b & sp & Hsp & -> & Hv).
    { unfold layer_at, go_index. by rewrite Hl1. }
    cbn [mbind res_bind]. destruct b.
    + destruct (drop_event _ _ _ _ _ _); done.
    + intros _. exists l1. split; [done|]. destruct (proj1 Hv eq_refl) as [->|?]; auto.
  - unfold peerACLsBlock, isSpecialICMP, layer_at, go_index. rewrite Hl1. done.
Qed.

Lemma routed_admitted e d src dst p sz m m' d' :
  handleRoutedTraffic e d src dst p sz m = Ok (m', d', false) ->
  routingEnabled m = true /\ nativeRouter m = true.
Proof.
  unfold handleRoutedTraffic. destruct (routingEnabled m); cbn [negb]; [|done].
  destruct (nativeRouter m); [done|].
  destruct (layer_at _ 1); cbn [mbind res_bind]; [|done..].
  destruct (getPortsFromPacket _) as [[sp dp]| |]; cbn [mbind res_bind]; [|done..].
  destruct (routeACLsPass _ _ _ _ _ _) as [[id pass]| |]; cbn [mbind res_bind]; [|done..].
  destruct pass; cbn [negb].
  - by destruct (forwarder m).
  - by destruct (drop_event _ _ _ _ _ _).
Qed.

Lemma inbound_verdict_packet e d src dst p sz m m' d' p' b :
  inbound_verdict e d src dst p sz m = Ok (m', d', p', b) -> p' = p.
Proof.
  unfold inbound_verdict. destruct (if stateful m then _ else _) as [[m1 tr]| |];
    cbn [mbind res_bind]; [|done..].
  destruct tr; [by intros [= _ _ <- _]|]. destruct (IsLocalIP _ _).
  - destruct (handleLocalTraffic _ _ _ _ _ _ _) as [[[? ?] ?]| |]; cbn [mbind res_bind]; [|done..].
    by intros [= _ _ <- _].
  - destruct (handleRoutedTraffic _ _ _ _ _ _ _) as [[[? ?] ?]| |]; cbn [mbind res_bind]; [|done..].
    by intros [= _ _ <- _].
Qed.

Lemma verdict_admitted e d src dst p sz m m' d' p' :
  tables_inv (tables m) -> (forall l, e_ord e l ≡ₚ l) -> nativeRouter m = false ->
  inbound_verdict e d src dst p sz m = Ok (m', d', p', false) ->
  stateful m = true /\ tracked_reply (e_now e) (layers_ d) src dst m \/
  IsLocalIP (localIPs m) dst = true /\ acl_allows (layers_ d) src (tables m).
Proof.
  intros Hinv Hord Hnat. unfold inbound_verdict.
  destruct (if stateful m then _ else _) as [[m1 tracked]| |] eqn:Htr;
    cbn [mbind res_bind]; [|done..].
  assert (tables m1 = tables m /\ localIPs m1 = localIPs m /\ nativeRouter m1 = nativeRouter m /\
    (tracked = true -> stateful m = true /\ tracked_reply (e_now e) (layers_ d) src dst m))
    as (E1 & E2 & E4 & Ht).
  { destruct (stateful m); [|by simplify_eq].
    pose proof (tracked_frame _ _ _ _ _ _ _ _ Htr) as (? & ? & _ & ? & _).
    split_and!; [done..|]. intros ->. split; [done|]. by eapply tracked_spec. }
  destruct tracked; [left; by apply Ht|]. rewrite E2.
  destruct (IsLocalIP (localIPs m) dst).
  - destruct (handleLocalTraffic _ _ _ _ _ _ m1) as [[[m2 d6] r]| |] eqn:Hh;
      cbn [mbind res_bind]; [|done..]. intros [= _ _ _ ->]. right. split; [done|].
    rewrite <- E1 in *. by eapply local_admitted.
  - destruct (handleRoutedTraffic _ _ _ _ _ _ m1) as [[[m2 d6] r]| |] eqn:Hh;
      cbn [mbind res_bind]; [|done..]. intros [= _ _ _ ->].
    apply routed_admitted in Hh as [_ Hn]. congruence.
Qed.

(** ** The theorems *)

(** C1: inbound packets are denied by default.  With userspace routing, a
    packet the inbound filter hands to the local stack is a fragment, or it
    is, judged by the layers and addresses of the packet as delivered (after
    port DNAT and reverse DNAT), either a reply in a tracked flow of the
    opposite direction, with connection tracking on, or addressed to a local
    address and admitted by the peer ACLs.  Everything else is dropped or
    goes to the forwarder. *)
Theorem inbound_denied_by_default (parser4 parser6 : list Z -> Layers -> Layers * bool)
    ruleKey (e : Env) (p : list Z) (sz : Z) (d d' : decoder) (m m' : Manager) (p' : list Z) :
  table_reach ruleKey (tables m) -> (forall l, e_ord e l ≡ₚ l) -> nativeRouter m = false ->
  filterInbound parser4 parser6 e p sz d m = Ok (m', d', p', false) ->
  (isValidPacket parser4 parser6 d p).2 = (true, true) \/
  exists l src dst, decodes parser4 parser6 p' l /\ extractIPs l = Ok (src, dst) /\
    (stateful m = true /\ tracked_reply (e_now e) l src dst m \/
     IsLocalIP (localIPs m) dst = true /\ acl_allows l src (tables m)).
Proof.
  intros Hinv%table_reach_inv Hord Hnat. unfold filterInbound.
  destruct (isValidPacket parser4 parser6 d p) as [d1 [valid fr]] eqn:Hval.
  destruct valid; cbn [negb]; [|done].
  destruct (extractIPs (layers_ d1)) as [[src dst]| |] eqn:Hx; cbn [mbind res_bind]; [|done..].
  destruct (IsValid src); cbn [negb]; [|done]. destruct fr; [by left|].
  apply isValidPacket_decodes in Hval.
  destruct (translateInboundPortDNAT p d1 src dst (nat_ m)) as [[[p2 d2] b2]| |] eqn:Hp;
    cbn [mbind res_bind]; [|done..].
  apply port_dnat_spec in Hp as [Hl2 Hb2].
  destruct (redecode parser4 parser6 b2 p2 d2 src dst) as [[d3 [[src3 dst3]|]]| |] eqn:Hr;
    cbn [mbind res_bind]; [|done..].
  destruct (redecode_spec parser4 parser6 b2 p2 p d2 _ src dst d3 (src3, dst3) Hval Hx Hl2) as [Hd3 Hx3];
    [intros Hb; by apply Hb2|done|].
  destruct (translateInboundReverse p2 (layers_ d3) (nat_ m)) as [[p4 b4]| |] eqn:Hv;
    cbn [mbind res_bind]; [|done..].
  destruct (redecode parser4 parser6 b4 p4 d3 src3 dst3) as [[d5 [[src5 dst5]|]]| |] eqn:Hr5;
    cbn [mbind res_bind]; [|done..].
  destruct (redecode_spec parser4 parser6 b4 p4 p2 d3 _ src3 dst3 d5 (src5, dst5) Hd3 Hx3 eq_refl) as [Hd5 Hx5];
    [by apply (reverse_spec _ _ _ _ _ Hv)|done|].
  intros Hfin. right. pose proof Hfin as Hp'. apply inbound_verdict_packet in Hp' as ->.
  exists (layers_ d5), src5, dst5. split_and!; [done..|]. by eapply verdict_admitted.
Qed.

(** with connection tracking disabled every tracked outbound packet
    panics.  A manager created with NB_DISABLE_CONNTRACK has no trackers, but
    the outbound filter calls them for every TCP, UDP and ICMP packet: for
    each such packet (other than a TCP SYN, whose MSS is clamped first) it
    dereferences a nil tracker. *)
Theorem outbound_panics_without_conntrack (parser4 parser6 : list Z -> Layers -> Layers * bool)
    (fwd noMss native netst nosrv newFwd : bool) iface ifs mtu_ tmo maxT maxU maxI (m : Manager)
    (e : Env) (p : list Z) (sz : Z) (d d1 : decoder) (l0 l1 : LayerType) (ls : list LayerType)
    (src dst : Addr) :
  create true fwd noMss native netst nosrv true newFwd iface ifs mtu_ tmo maxT maxU maxI = Some m ->
  decodePacket parser4 parser6 p d = (d1, None) ->
  decoded (layers_ d1) = l0 :: l1 :: ls ->
  l1 ∈ [LayerTypeTCP; LayerTypeUDP; LayerTypeICMPv4; LayerTypeICMPv6] ->
  extractIPs (layers_ d1) = Ok (src, dst) -> IsValid src = true ->
  tcp_SYN (tcp (layers_ d1)) = false ->
  filterOutbound parser4 parser6 e p sz d m = Panic.
Proof.
  unfold create. destruct tmo as [[fw cw] la]. cbv zeta. cbn [negb]. intros Hm Hdec Hd Hin Hx Hv Hsyn.
  assert (Hnil : tcpTracker m = None /\ udpTracker m = None /\ icmpTracker m = None /\
    udpHookOut m = None /\ tcpHookOut m = None).
  { revert Hm. unfold initForwarder. repeat case_match; by intros [= <-]. }
  destruct Hnil as (Nt & Nu & Ni & Hu & Ht). unfold filterOutbound.
  rewrite Hdec, Hd. rewrite decide_False by (simpl; lia). rewrite Hx. cbn [mbind res_bind].
  rewrite Hv. cbn [negb].
  assert (Hl1 : layer_at (layers_ d1) 1 = Ok l1) by (unfold layer_at, go_index; by rewrite Hd).
  rewrite Hl1. cbn [mbind res_bind].
  assert (Htr : forall q, trackOutbound e (layers_ d1) src dst q sz m = Panic).
  { intros q. unfold trackOutbound. rewrite Hl1. cbn [mbind res_bind]. rewrite Nt, Nu, Ni.
    rewrite !elem_of_cons in Hin.
    destruct Hin as [->|[->|[->|[->|Hin]]]]; [done..|set_solver]. }
  rewrite Hu, Ht, Htr. cbn [HookMatches]. unfold clampTCPMSS. rewrite Hsyn. cbn [negb mbind res_bind].
  rewrite Htr. rewrite !elem_of_cons in Hin.
  destruct Hin as [->|[->|[->|[->|Hin]]]]; [by destruct (mssClampEnabled m)|done..|set_solver].
Qed.

(** ** Routing protects the overlay *)
Lemma addRoute_view ruleKey mgmt src dst proto sp dp act t t' l :
  tables_inv t ->
  routeRulesMap t !! ruleKey src dst proto sp dp act = None ->
  addRouteFiltering ruleKey mgmt src dst proto sp dp act t = (t', l) ->
  let rule := mkRouteRule (ruleKey src dst proto sp dp act) mgmt (SortPrefixes src) (NSet dst)
                (if IsPrefix dst then [NPrefix dst] else [])
                (protoToLayer proto (ipLayerFromPrefix (NPrefix dst))) sp dp act in
  routeRulesMap t' = <[ruleKey src dst proto sp dp act := l]> (routeRulesMap t) /\
  rule ∈ route_view t' /\ forall r, r ∈ route_view t -> r ∈ route_view t'.
Proof.
  intros Hinv Hk Ha rule. unfold addRouteFiltering in Ha. cbv zeta in Ha. rewrite Hk in Ha.
  fold rule in Ha. injection Ha as <- <-. set (h := <[rr_next t := rule]> (rr_heap t)).
  destruct (RouteRules_Sort_spec h (routeRules t ++ [rr_next t])) as [Hp _].
  unfold route_view. cbn [routeRulesMap routeRules rr_heap]. fold h. split_and!; [done|..].
  - apply list_elem_of_fmap. exists (rr_next t). unfold h.
    rewrite lookup_total_insert_eq. split; [done|]. fold h. rewrite Hp. set_solver.
  - intros r. rewrite !list_elem_of_fmap. intros (x & -> & Hx). exists x.
    split; [|rewrite Hp, elem_of_app; by left]. unfold h. rewrite lookup_total_insert_ne; [done|]. intros <-.
    apply (ti_heap _ Hinv), (ti_next _ Hinv) in Hx. lia.
Qed.

Definition overlay_sources (m : Manager) : list Prefix :=
  PrefixFrom IPv4Unspecified 0 ::
  (if PIsValid (if_IPv6Net (wgIface m)) then [PrefixFrom IPv6Unspecified 0] else []).

(** The keys of the two block rules are not in use. *)
Definition overlay_keys_fresh
    (ruleKey : list Prefix -> Network -> Protocol -> option Port -> option Port -> Action -> string)
    (m : Manager) : Prop :=
  let key net := ruleKey (overlay_sources m) (mkNetwork EmptySet_ net) ProtocolALL None None
                   ActionDrop in
  routeRulesMap (tables m) !! key (if_Network (wgIface m)) = None /\
  routeRulesMap (tables m) !! key (if_IPv6Net (wgIface m)) = None /\
  key (if_Network (wgIface m)) ≠ key (if_IPv6Net (wgIface m)).

Lemma determineRouting_frame a b c m m' err :
  determineRouting a b c m = (m', err) -> tables m' = tables m /\ wgIface m' = wgIface m.
Proof.
  unfold determineRouting, initForwarder. cbv zeta. intros H.
  repeat case_match; simplify_eq; done.
Qed.

Lemma block_rules_installed ruleKey native_add m m1 m2 rules net dst :
  tables_inv (tables m) -> overlay_keys_fresh ruleKey m ->
  tables m1 = tables m -> wgIface m1 = wgIface m ->
  blockInvalidRouted ruleKey native_add m1 = Ok (m2, rules, None) ->
  nativeRouter m2 = false ->
  net = if_Network (wgIface m) \/ net = if_IPv6Net (wgIface m) -> Contains net dst = true ->
  tables_inv (tables m2) /\ exists key, mkRouteRule key []
    (SortPrefixes (overlay_sources m)) EmptySet_
    (if IsPrefix (mkNetwork EmptySet_ net) then [net] else []) layerTypeAll None None ActionDrop
    ∈ route_view (tables m2).
Proof.
  intros Hinv (Hk4 & Hk6 & Hk) Et Ew Hb Hnr Hnet Hc.
  unfold blockInvalidRouted in Hb. cbv zeta in Hb. rewrite Ew in Hb. fold (overlay_sources m) in Hb.
  assert (Hv : PIsValid net = true).
  { unfold Contains in Hc. by destruct (PIsValid net). }
  assert (Hn1 : nativeRouter m1 && nativeFirewall m1 = false).
  { destruct (nativeRouter m1 && nativeFirewall m1) eqn:E; [exfalso|done].
    unfold m_addRouteFiltering in Hb. rewrite E in Hb.
    destruct (native_add _ _ _) as [i4| |]; cbn [mbind res_bind] in Hb; [|done..].
    destruct (PIsValid (if_IPv6Net (wgIface m))); [|simplify_eq; by destruct (nativeRouter m2)].
    rewrite E in Hb. destruct (native_add _ _ _) as [i6| |]; cbn [mbind res_bind] in Hb; [|done..].
    simplify_eq. by destruct (nativeRouter m2). }
  unfold m_addRouteFiltering in Hb. rewrite Hn1, Et in Hb.
  destruct (addRouteFiltering ruleKey [] (overlay_sources m)
    (mkNetwork EmptySet_ (if_Network (wgIface m))) _ _ _ _ _) as [t4 l4] eqn:H4.
  pose proof (addRouteFiltering_inv _ _ _ _ _ None None _ _ _ _ Hinv I I H4) as Hi4.
  destruct (addRoute_view _ _ _ _ _ _ _ _ _ _ _ Hinv Hk4 H4) as (M4 & V4 & Old4).
  destruct (PIsValid (if_IPv6Net (wgIface m))) eqn:Hv6.
  - cbn [nativeRouter nativeFirewall set_tables tables] in Hb. rewrite Hn1 in Hb.
    destruct (addRouteFiltering ruleKey [] (overlay_sources m)
      (mkNetwork EmptySet_ (if_IPv6Net (wgIface m))) _ _ _ _ t4) as [t6 l6] eqn:H6.
    assert (Hk6' : routeRulesMap t4 !! ruleKey (overlay_sources m)
      (mkNetwork EmptySet_ (if_IPv6Net (wgIface m))) ProtocolALL None None ActionDrop = None)
      by (by rewrite M4, lookup_insert_ne).
    pose proof (addRouteFiltering_inv _ _ _ _ _ None None _ _ _ _ Hi4 I I H6) as Hi6.
    destruct (addRoute_view _ _ _ _ _ _ _ _ _ _ _ Hi4 Hk6' H6) as (_ & V6 & Old6).
    simplify_eq/=. split; [done|].
    destruct Hnet as [->| ->]; eexists; [by apply Old6, V4|exact V6].
  - simplify_eq/=. split; [done|]. destruct Hnet as [->| ->]; [eexists; exact V4|congruence].
Qed.

Lemma block_rule_matches m net src dst l1 sp dp key :
  net = if_Network (wgIface m) \/ net = if_IPv6Net (wgIface m) ->
  Contains net dst = true -> addr_wf src -> hasZone src = false ->
  Is4 src = true \/ Is6 src = true /\ PIsValid (if_IPv6Net (wgIface m)) = true ->
  route_match (mkRouteRule key [] (SortPrefixes (overlay_sources m)) EmptySet_
    (if IsPrefix (mkNetwork EmptySet_ net) then [net] else []) layerTypeAll None None ActionDrop)
    src dst l1 sp dp = true.
Proof.
  intros Hnet Hc Hw Hz Hfam. unfold route_match. cbn [rr_protoLayer rr_srcPort rr_dstPort port_in
    rr_destinations rr_sources].
  assert (PIsValid net = true) as Hv.
  { unfold Contains in Hc. by destruct (PIsValid net). }
  unfold IsPrefix. cbn [NPrefix]. rewrite Hv, orb_true_r. cbn [existsb]. rewrite Hc.
  cbn [andb orb bool_decide decide_rel]. rewrite bool_decide_eq_true_2 by done. cbn [andb orb].
  apply existsb_exists.
  assert (Hin : forall p, p ∈ overlay_sources m -> In p (SortPrefixes (overlay_sources m))).
  { intros p Hp. apply list_elem_of_In. unfold SortPrefixes. by rewrite sort_stable_perm. }
  destruct Hfam as [H4|[H6 Hv6]].
  - exists (PrefixFrom IPv4Unspecified 0). split; [apply Hin; unfold overlay_sources; set_solver|].
    apply Contains_default; [split_and!; vm_compute; done|done..|by destruct src].
  - exists (PrefixFrom IPv6Unspecified 0). split.
    + apply Hin. unfold overlay_sources. rewrite Hv6. set_solver.
    + apply Contains_default; [split_and!; vm_compute; done|done..|by destruct src].
Qed.

(** after routing is enabled in userspace, no routed packet reaches the
    overlay network.  If [EnableRouting] succeeds with a forwarder and without
    delegation, every packet with a destination in the WireGuard network (v4
    or v6) is denied by the route ACLs, whatever accept rules are installed. *)
Theorem enable_routing_blocks_overlay ruleKey native_add (m m' : Manager)
    (noUsp force newFwd : bool) (net : Prefix) (src dst : Addr) (l1 : LayerType) (sp dp : Z) :
  table_reach ruleKey (tables m) -> overlay_keys_fresh ruleKey m ->
  EnableRouting ruleKey native_add noUsp force newFwd m = Ok (m', None) ->
  forwarder m' = true -> nativeRouter m' = false ->
  net = if_Network (wgIface m) \/ net = if_IPv6Net (wgIface m) ->
  Contains net dst = true -> addr_wf src -> hasZone src = false ->
  Is4 src = true \/ Is6 src = true /\ PIsValid (if_IPv6Net (wgIface m)) = true ->
  exists id, routeACLsPass src dst l1 sp dp (tables m') = Ok (id, false).
Proof.
  intros Hinv%table_reach_inv Hfresh Hen Hfwd Hnr Hnet Hc Hw Hz Hfam.
  unfold EnableRouting in Hen.
  destruct (determineRouting noUsp force newFwd m) as [m1 [err|]] eqn:Hdet; [done|].
  apply determineRouting_frame in Hdet as [Et Ew].
  destruct (forwarder m1) eqn:Hf1; cbn [negb] in Hen; [|simplify_eq; congruence].
  destruct (blockInvalidRouted ruleKey native_add m1) as [[[m2 rules] err]| |] eqn:Hb;
    cbn [mbind res_bind] in Hen; [|done..].
  assert (E2 : tables m' = tables m2 /\ nativeRouter m' = nativeRouter m2 /\ err = None)
    by (by simplify_eq). clear Hen. destruct E2 as (-> & En & ->).
  assert (tables_inv (tables m2) /\ exists key, mkRouteRule key []
      (SortPrefixes (overlay_sources m)) EmptySet_
      (if IsPrefix (mkNetwork EmptySet_ net) then [net] else []) layerTypeAll None None ActionDrop
      ∈ route_view (tables m2)) as (Hinv2 & key & Hin).
  { eapply block_rules_installed; try done. congruence. }
  destruct (routeACLsPass_spec (tables m2) src dst l1 sp dp Hinv2) as (id & pass & Hr & Hp).
  exists id. destruct pass; [|done]. destruct (proj1 Hp eq_refl) as [_ Hno].
  specialize (Hno _ Hin eq_refl). by rewrite (block_rule_matches m net) in Hno.
Qed.

(** ** A concrete parser and packets *)

(** Decodes IPv4/TCP packets with a 20-byte IP header. *)
Definition tcp4_parser (p : list Z) (_ : Layers) : Layers * bool :=
  let flags := p !!! 33 in
  (mkLayers [LayerTypeIPv4; LayerTypeTCP] (take 4 (drop 12 p)) (take 4 (drop 16 p))
     5 6 0 0 [] [] 0
     (mkTCPLayer (word_at p 20) (word_at p 22) (has flags TCPSyn) (has flags TCPAck)
        (has flags TCPFin) (has flags TCPRst) (has flags TCPPush) (has flags TCPUrg) [])
     0 0 0 0 0 [],
   bool_decide (40 <= length p)).

Definition no_parser (_ : list Z) (l : Layers) : Layers * bool := (l, false).

Definition tcp_packet (src dst : list Z) (sp dp flags : Z) : list Z :=
  [69; 0; 0; 40; 0; 0; 64; 0; 64; 6; 0; 0]%Z ++ src ++ dst ++ Uint16_bytes sp ++ Uint16_bytes dp ++
  [0; 0; 0; 1; 0; 0; 0; 0; 80]%Z ++ [flags] ++ [250; 240; 0; 0; 0; 0]%Z.

Definition empty_layers : Layers :=
  mkLayers [] [] [] 0 0 0 0 [] [] 0 (mkTCPLayer 0 0 false false false false false false [])
    0 0 0 0 0 [].

Definition fresh_decoder : decoder := mkDecoder empty_layers 0.

Definition ip_self : list Z := [100; 64; 0; 1]%Z.
Definition ip_denied : list Z := [100; 64; 0; 2]%Z.
Definition ip_peer : list Z := [100; 64; 0; 3]%Z.

Definition demo_iface : IFace :=
  mkIFace (AddrFrom4 ip_self) AddrInvalid (mkPrefix (Addr4 1681915904) 10) PrefixZero true.

Definition demo_base : Manager :=
  default (mkManager NewTables NewNat None None None false false false false false false false ∅
             demo_iface ∅ false [] false 0 None None [] [])
    (create false false true false false false true true demo_iface (Some []) 1280
       (FinWaitTimeout, CloseWaitTimeout, LastAckTimeout) 10 10 10).

(** One accept rule, for [ip_peer], and one port redirection 22 to 22022. *)
Definition demo : Manager :=
  let m := match AddPeerFiltering "r" [] ip_peer ProtocolALL None None ActionAccept NewTables with
           | Ok (t, _) => set_tables t demo_base
           | _ => demo_base
           end in
  mkManager (tables m) (addPortRedirection (AddrFrom4 ip_self) LayerTypeTCP 22 22022 NewNat)
    (tcpTracker m) (udpTracker m) (icmpTracker m) (stateful m)
    (disableServerRoutes m) (routingEnabled m) (nativeRouter m) (nativeFirewall m) (netstack m)
    (localForwarding m) (localIPs m) (wgIface m) (netstackServices m) (forwarder m) (injected m)
    (mssClampEnabled m) (mtu m) (udpHookOut m) (tcpHookOut m) (blockRules m) (dropLog m).

Definition demo_env (n : Z) (m : Manager) : Env :=
  mkEnv n n (map_to_list (default ∅ (connections <$> tcpTracker m))) [] [] (fun l => l).

Definition demo_in (n : Z) (p : list Z) (dm : decoder * Manager)
    : option (decoder * Manager * list Z * bool) :=
  match filterInbound tcp4_parser no_parser (demo_env n dm.2) p 40 dm.1 dm.2 with
  | Ok (m, d, p, b) => Some (d, m, p, b)
  | _ => None
  end.

Definition demo_out (n : Z) (p : list Z) (dm : decoder * Manager)
    : option (decoder * Manager * list Z * bool) :=
  match filterOutbound tcp4_parser no_parser (demo_env n dm.2) p 40 dm.1 dm.2 with
  | Ok (m, d, p, b) => Some (d, m, p, b)
  | _ => None
  end.

(** A connection attempt of [ip_peer] to port 8080, which no rule redirects,
    and the reply to it: the verdict on the attempt, whether the packet was
    changed, and the source port the reply leaves with. *)
Definition demo_session (dm : decoder * Manager) : option (bool * bool * Z) :=
  let syn := tcp_packet ip_peer ip_self 40000 8080 TCPSyn in
  '(d, m, p, dropped) ← demo_in 20 syn dm;
  '(_, _, reply, _) ← demo_out 30 (tcp_packet ip_self ip_peer 8080 40000 (Z.lor TCPSyn TCPAck)) (d, m);
  Some (dropped, bool_decide (p = syn), word_at reply 20).

(** The same after a packet to the redirected port from a denied peer: the
    verdict on that packet, the port left in the decoder, and the session. *)
Definition demo_denied : option (bool * Z * option (bool * bool * Z)) :=
  match demo_in 10 (tcp_packet ip_denied ip_self 50000 22 TCPSyn) (fresh_decoder, demo) with
  | Some (d, m, _, b) => Some (b, dnatOrigPort d, demo_session (d, m))
  | None => None
  end.

(** a dropped packet leaks its redirected port into the next connection.
    With a fresh decoder the session of an allowed peer is answered from port
    8080.  If the decoder of the pool was used before for a packet to the
    redirected port 22 from a peer the ACLs deny, the decoder still carries
    port 22: the allowed session is accepted unchanged, but its replies leave
    with source port 22. *)
Theorem denied_packet_leaks_dnat_port :
  demo_session (fresh_decoder, demo) = Some (false, true, 8080%Z) /\
  exists d m p, demo_in 10 (tcp_packet ip_denied ip_self 50000 22 TCPSyn) (fresh_decoder, demo)
    = Some (d, m, p, true) /\
    dnatOrigPort d = 22%Z /\ demo_session (d, m) = Some (false, true, 22%Z).
Proof.
  split; [vm_compute; reflexivity|].
  assert (Hd : demo_denied = Some (true, 22%Z, Some (false, true, 22%Z)))
    by (vm_compute; reflexivity).
  unfold demo_denied in Hd.
  destruct (demo_in 10 _ (fresh_decoder, demo)) as [[[[d m] p] b]|]; [|discriminate Hd].
  injection Hd as -> Hp Hs. by exists d, m, p.
Qed.

(** ** Witnesses *)
Definition demo_key (_ : list Prefix) (n : Network) (_ : Protocol) (_ _ : option Port)
    (_ : Action) : string := pretty (PBits (NPrefix n)).

Lemma demo_tables_reach : table_reach demo_key (tables demo).
Proof.
  apply (table_reach_step demo_key NewTables
    (TAddPeer "r" [] ip_peer ProtocolALL None None ActionAccept)).
  - apply table_reach_new.
  - done.
  - vm_compute. reflexivity.
Qed.

Definition demo_syn : list Z := tcp_packet ip_peer ip_self 40000 8080 TCPSyn.

(** The verdict and the delivered packet, without the states. *)
Definition verdict_of (r : M (Manager * decoder * list Z * bool)) : option (list Z * bool) :=
  match r with Ok (_, _, p, b) => Some (p, b) | _ => None end.

Lemma inbound_denied_by_default_witness :
  exists l src dst, decodes tcp4_parser no_parser demo_syn l /\ extractIPs l = Ok (src, dst) /\
    (stateful demo = true /\ tracked_reply 20 l src dst demo \/
     IsLocalIP (localIPs demo) dst = true /\ acl_allows l src (tables demo)).
Proof.
  assert (Hv : verdict_of (filterInbound tcp4_parser no_parser (demo_env 20 demo) demo_syn 40
    fresh_decoder demo) = Some (demo_syn, false)) by (vm_compute; reflexivity).
  destruct (filterInbound tcp4_parser no_parser (demo_env 20 demo) demo_syn 40 fresh_decoder demo)
    as [[[[m' d'] p'] b]| |] eqn:E; [|discriminate Hv..].
  cbn [verdict_of] in Hv. injection Hv as -> ->.
  destruct (inbound_denied_by_default tcp4_parser no_parser demo_key (demo_env 20 demo)
    demo_syn 40 fresh_decoder d' demo m' demo_syn
    demo_tables_reach (fun _ => reflexivity _) eq_refl E) as [H|H];
    [vm_compute in H; discriminate|exact H].
Defined.

Definition demo_noct : option Manager :=
  create true false true false false false true true demo_iface (Some []) 1280
    (FinWaitTimeout, CloseWaitTimeout, LastAckTimeout) 10 10 10.

Lemma outbound_panics_without_conntrack_witness :
  exists m, demo_noct = Some m /\
    filterOutbound tcp4_parser no_parser (demo_env 1 m)
      (tcp_packet ip_self ip_peer 8080 40000 TCPAck) 40 fresh_decoder m = Panic.
Proof.
  assert (Hs : is_Some demo_noct) by (vm_compute; by eexists).
  destruct demo_noct as [m|] eqn:E; [|by destruct Hs].
  exists m. split; [reflexivity|].
  apply (outbound_panics_without_conntrack tcp4_parser no_parser false true false false false true
    demo_iface (Some []) 1280 (FinWaitTimeout, CloseWaitTimeout, LastAckTimeout) 10 10 10 m _
    (tcp_packet ip_self ip_peer 8080 40000 TCPAck) 40 fresh_decoder
    (mkDecoder (tcp4_parser (tcp_packet ip_self ip_peer 8080 40000 TCPAck) empty_layers).1 0)
    LayerTypeIPv4 LayerTypeTCP [] (AddrFrom4 ip_self) (AddrFrom4 ip_peer) E);
    try (vm_compute; reflexivity). set_solver.
Defined.

Definition no_native (_ : list Prefix) (_ : Network) (_ : Action) : M string := Err ErrNative.

Definition flags_of (r : M (Manager * option usp_error)) : option (bool * bool) :=
  match r with Ok (m, None) => Some (forwarder m, nativeRouter m) | _ => None end.

Lemma enable_routing_blocks_overlay_witness :
  exists m', EnableRouting demo_key no_native false true true demo = Ok (m', None) /\
    exists id, routeACLsPass (AddrFrom4 ip_peer) (AddrFrom4 ip_denied) LayerTypeTCP 1 2 (tables m')
      = Ok (id, false).
Proof.
  assert (Hv : flags_of (EnableRouting demo_key no_native false true true demo) =
    Some (true, false)) by (vm_compute; reflexivity).
  destruct (EnableRouting demo_key no_native false true true demo) as [[m' [err|]]| |] eqn:E;
    [discriminate Hv| |discriminate Hv..].
  cbn [flags_of] in Hv. injection Hv as Hf Hn.
  exists m'. split; [reflexivity|].
  apply (enable_routing_blocks_overlay demo_key no_native demo m' false true true
    (if_Network demo_iface) (AddrFrom4 ip_peer) (AddrFrom4 ip_denied) LayerTypeTCP 1 2
    demo_tables_reach).
  - split_and!; vm_compute; congruence.
  - exact E.
  - exact Hf.
  - exact Hn.
  - by left.
  - vm_compute. reflexivity.
  - vm_compute. split; congruence.
  - reflexivity.
  - by left.
Defined.
