(* ===== verification/Multipath.v ===== *)
(** * Flow classification for anonymous multipath
      (client/internal/anonymous/multipath/flow.go)

    An overlay packet is classified before WireGuard encrypts it: the parser
    reads the IPv4 or IPv6 header (with its extension headers) and the ports
    or the echo identifier, and orders the two endpoints so that both
    directions of a flow have one key.  A key selects one of the healthy
    channels by rendezvous hashing with FNV-1a.  Every slice expression of the
    parser is a checked operation of [res], so that the absence of a panic is a
    theorem. *)

From Stdlib Require Import ZArith Lia.
From stdpp Require Import base gmap strings numbers countable sorting list.
From S2P Require Import Prelude Netip Checksum.

Definition ProtocolICMPv4 : Z := 1.
Definition ProtocolTCP : Z := 6.
Definition ProtocolUDP : Z := 17.
Definition ProtocolICMPv6 : Z := 58.

Inductive mp_error : Type :=
| ErrShortPacket
| ErrUnsupportedIP
| ErrNoHealthyChannel
| ErrParseAddress.

#[global] Instance mp_error_eq_dec : EqDecision mp_error.
Proof. solve_decision. Defined.

Notation MP := (res mp_error).

Record FlowKey : Type := mkFlow {
  fk_source : Addr;
  fk_destination : Addr;
  fk_protocol : Z;
  fk_source_port : Z;
  fk_dest_port : Z;
  fk_fragmented : bool }.

#[global] Instance FlowKey_eq_dec : EqDecision FlowKey.
Proof. solve_decision. Defined.

Record PacketInfo : Type := mkInfo {
  pi_flow : FlowKey;
  pi_source : Addr;
  pi_destination : Addr }.

#[global] Instance PacketInfo_eq_dec : EqDecision PacketInfo.
Proof. solve_decision. Defined.

Record Channel : Type := mkChannel { ch_ID : string; ch_Healthy : bool }.

#[global] Instance Channel_eq_dec : EqDecision Channel.
Proof. solve_decision. Defined.

(** [binary.BigEndian.Uint16(b[i:j])] for a two-byte slice. *)
Definition be16 (b : list Z) (i j : nat) : MP Z :=
  s ← go_slice b i j; b0 ← go_index s 0; b1 ← go_index s 1; mret (Uint16 b0 b1).

Definition is_echo (proto icmpType : Z) : bool :=
  bool_decide (proto = ProtocolICMPv4 /\ (icmpType = 0 \/ icmpType = 8)%Z) ||
  bool_decide (proto = ProtocolICMPv6 /\ (icmpType = 128 \/ icmpType = 129)%Z).

Definition ports (proto : Z) (payload : list Z) (fragmented : bool) : MP (Z * Z) :=
  if fragmented then mret (0, 0)%Z
  else if decide (proto = ProtocolTCP \/ proto = ProtocolUDP) then
    if decide (length payload < 4) then mret (0, 0)%Z
    else s ← be16 payload 0 2; d ← be16 payload 2 4; mret (s, d)
  else if decide (proto = ProtocolICMPv4 \/ proto = ProtocolICMPv6) then
    if decide (length payload < 6) then mret (0, 0)%Z
    else
      icmpType ← go_index payload 0;
      if is_echo proto icmpType then id ← be16 payload 4 6; mret (id, id)
      else mret (0, 0)%Z
  else mret (0, 0)%Z.

Definition compareEndpoint (a : Addr) (aPort : Z) (b : Addr) (bPort : Z) : Z :=
  let c := addr_compare a b in
  if decide (c ≠ 0)%Z then c
  else if decide (aPort < bPort)%Z then -1
  else if decide (aPort > bPort)%Z then 1
  else 0.

Definition canonicalFlow (src dst : Addr) (proto : Z) (payload : list Z)
    (fragmented : bool) : MP FlowKey :=
  '(srcPort, dstPort) ← ports proto payload fragmented;
  let key := mkFlow (Unmap src) (Unmap dst) proto srcPort dstPort fragmented in
  mret (if decide (compareEndpoint (fk_source key) (fk_source_port key)
                     (fk_destination key) (fk_dest_port key) > 0)%Z
        then mkFlow (fk_destination key) (fk_source key) proto
               (fk_dest_port key) (fk_source_port key) fragmented
        else key).

(** [src, ok := netip.AddrFromSlice(b[i:j])] with the error return on [!ok]. *)
Definition addr_field (b : list Z) (i j : nat) : MP Addr :=
  s ← go_slice b i j;
  let a := AddrFromSlice s in
  if IsValid a then mret (Unmap a) else Err ErrParseAddress.

Definition classifyIPv4 (packet : list Z) : MP PacketInfo :=
  if decide (length packet < 20) then Err ErrShortPacket else
  b0 ← go_index packet 0;
  let headerLen := (Z.to_nat (Z.land b0 15) * 4)%nat in
  if decide (headerLen < 20 \/ length packet < headerLen) then Err ErrShortPacket else
  total ← be16 packet 2 4;
  let totalLen := Z.to_nat total in
  if decide (totalLen = 0 \/ length packet < totalLen \/ totalLen < headerLen)
  then Err ErrShortPacket else
  packet ← (if decide (totalLen < length packet) then go_slice packet 0 totalLen
            else mret packet);
  src ← addr_field packet 12 16;
  dst ← addr_field packet 16 20;
  proto ← go_index packet 9;
  frag ← be16 packet 6 8;
  let fragmented := negb (Z.land frag 16383 =? 0)%Z in
  payload ← go_slice_from packet headerLen;
  flow ← canonicalFlow src dst proto payload fragmented;
  mret (mkInfo flow src dst).

(** The loop of [classifyIPv6] over the extension headers.  It ends with the
    protocol and the offset of the transport header, or with the protocol of
    a fragment; [fuel] bounds the number of headers, and running out of it is
    a [Panic]. *)
Fixpoint walkIPv6 (fuel : nat) (packet : list Z) (nextHeader : Z) (offset : nat)
    : MP (Z * option nat) :=
  match fuel with
  | O => Panic
  | S fuel =>
    if decide (nextHeader = 0 \/ nextHeader = 43 \/ nextHeader = 60)%Z then
      if decide (length packet < offset + 2) then Err ErrShortPacket else
      next ← go_index packet offset;
      len ← go_index packet (offset + 1);
      let offset := offset + (Z.to_nat len + 1) * 8 in
      if decide (length packet < offset) then Err ErrShortPacket else
      walkIPv6 fuel packet next offset
    else if decide (nextHeader = 44)%Z then
      if decide (length packet < offset + 8) then Err ErrShortPacket else
      next ← go_index packet offset;
      mret (next, None)
    else if decide (nextHeader = 51)%Z then
      if decide (length packet < offset + 2) then Err ErrShortPacket else
      next ← go_index packet offset;
      len ← go_index packet (offset + 1);
      let offset := offset + (Z.to_nat len + 2) * 4 in
      if decide (length packet < offset) then Err ErrShortPacket else
      walkIPv6 fuel packet next offset
    else mret (nextHeader, Some offset)
  end.

(** Every extension header has at least eight bytes. *)
Definition walk_fuel (packet : list Z) : nat := S (length packet).

Definition classifyIPv6 (packet : list Z) : MP PacketInfo :=
  if decide (length packet < 40) then Err ErrShortPacket else
  payload_field ← be16 packet 4 6;
  let payloadLen := Z.to_nat payload_field in
  let packetLen := 40 + payloadLen in
  if decide (payloadLen ≠ 0 /\ length packet < packetLen) then Err ErrShortPacket else
  packet ← (if decide (payloadLen ≠ 0 /\ packetLen < length packet)
            then go_slice packet 0 packetLen else mret packet);
  src ← addr_field packet 8 24;
  dst ← addr_field packet 24 40;
  nextHeader ← go_index packet 6;
  '(proto, transport) ← walkIPv6 (walk_fuel packet) packet nextHeader 40;
  flow ← match transport with
         | Some offset =>
             payload ← go_slice_from packet offset;
             canonicalFlow src dst proto payload false
         | None => canonicalFlow src dst proto [] true
         end;
  mret (mkInfo flow src dst).

Definition ClassifyPacketInfo (packet : list Z) : MP PacketInfo :=
  if decide (length packet = 0) then Err ErrShortPacket else
  b0 ← go_index packet 0;
  if decide (Z.shiftr b0 4 = 4)%Z then classifyIPv4 packet
  else if decide (Z.shiftr b0 4 = 6)%Z then classifyIPv6 packet
  else Err ErrUnsupportedIP.

Definition ClassifyPacket (packet : list Z) : MP FlowKey :=
  info ← ClassifyPacketInfo packet; mret (pi_flow info).

(** ** Rendezvous hashing *)

(** [hash/fnv]: the 64-bit FNV-1a hash. *)
Definition fnv_offset64 : Z := 14695981039346656037.
Definition fnv_prime64 : Z := 1099511628211.

Definition fnv1a (h : Z) (data : list Z) : Z :=
  foldl (fun h b => u64 (Z.lxor h b * fnv_prime64)) h data.

Definition string_bytes (s : string) : list Z :=
  map (fun c => Z.of_N (Ascii.N_of_ascii c)) (String.list_ascii_of_string s).

(** The last three bytes of the nine-byte buffer [scalar] stay zero. *)
Definition scalar (k : FlowKey) : list Z :=
  fk_protocol k :: Uint16_bytes (fk_source_port k) ++ Uint16_bytes (fk_dest_port k) ++
  [if fk_fragmented k then 1 else 0; 0; 0; 0]%Z.

Definition score (k : FlowKey) (channelID : string) : Z :=
  let h := fnv1a fnv_offset64 (As16 (fk_source k)) in
  let h := fnv1a h (As16 (fk_destination k)) in
  let h := fnv1a h (scalar k) in
  fnv1a h (string_bytes channelID).

(** The loop state of [SelectChannel]: [None] while [found] is false. *)
Definition select_step (key : FlowKey) (st : option (Channel * Z)) (channel : Channel)
    : option (Channel * Z) :=
  if decide (ch_Healthy channel = false \/ ch_ID channel = EmptyString) then st
  else
    let sc := score key (ch_ID channel) in
    match st with
    | None => Some (channel, sc)
    | Some (_, best) => if decide (sc > best)%Z then Some (channel, sc) else st
    end.

Definition SelectChannel (key : FlowKey) (channels : list Channel) : MP Channel :=
  match foldl (select_step key) None channels with
  | Some (selected, _) => Ok selected
  | None => Err ErrNoHealthyChannel
  end.

(** ** The parser returns on every input *)
Lemma be16_ok b i j : j = i + 2 -> j <= length b -> be16 b i j = Ok (word_at b i).
Proof.
  intros -> H. unfold be16. rewrite go_slice_returns by lia. mred.
  replace (i + 2 - i) with 2 by lia.
  destruct (drop i b) as [|b0 [|b1 r]] eqn:E;
    apply (f_equal length) in E as L; rewrite length_drop in L; simpl in L; [lia|lia|].
  simpl. unfold word_at. f_equal. f_equal; symmetry; apply list_lookup_total_correct.
  - replace i with (i + 0) by lia. by rewrite <- lookup_drop, E.
  - by rewrite <- lookup_drop, E.
Qed.

Lemma returns_be16 b i j : j = i + 2 -> j <= length b -> returns (be16 b i j).
Proof. intros H1 H2. by rewrite be16_ok. Qed.

Lemma ports_returns proto payload fragmented :
  exists s d, ports proto payload fragmented = Ok (s, d).
Proof.
  unfold ports. destruct fragmented; [by eauto|].
  repeat case_decide; try by eauto.
  - rewrite !be16_ok by lia. mred. eauto.
  - destruct payload as [|t payload]; simpl in *; [lia|]. unfold go_index. simpl. mred.
    destruct (is_echo proto t); [|by eauto].
    rewrite !be16_ok by (simpl; lia). mred. eauto.
Qed.

Lemma canonicalFlow_returns src dst proto payload fragmented :
  returns (canonicalFlow src dst proto payload fragmented).
Proof.
  unfold canonicalFlow. by destruct (ports_returns proto payload fragmented) as (s & d & ->).
Qed.

Lemma returns_addr_field b i j : i <= j <= length b -> returns (addr_field b i j).
Proof.
  intros H. unfold addr_field. rewrite go_slice_returns by done. mred.
  by destruct (IsValid _).
Qed.

#[export] Hint Resolve returns_be16 canonicalFlow_returns returns_addr_field : anonbird.

(** A bind returns when its head does, for every value the head may have. *)
Ltac ret_bind := apply returns_bind; [|let a := fresh "a" in let E := fresh "E" in intros a E].

Lemma walkIPv6_returns fuel packet nextHeader offset :
  offset <= length packet -> length packet - offset < fuel ->
  returns (walkIPv6 fuel packet nextHeader offset) /\
  (forall proto o, walkIPv6 fuel packet nextHeader offset = Ok (proto, Some o) ->
     o <= length packet).
Proof.
  revert nextHeader offset. induction fuel as [|fuel IH]; intros nh off H Hf; [lia|].
  cbn [walkIPv6].
  repeat case_decide; try (split; [done|by intros]).
  1,3: destruct (@go_index_returns mp_error Z packet off) as (n & _ & ->); [lia|]; mred;
    destruct (@go_index_returns mp_error Z packet (off + 1)) as (l & _ & ->); [lia|]; mred;
    case_decide; [split; [done|by intros]|]; apply IH; lia.
  - destruct (@go_index_returns mp_error Z packet off) as (n & _ & ->); [lia|]. mred.
    split; [done|]. intros. simplify_eq.
  - split; [done|]. intros ? ? [= _ <-]. done.
Qed.

Lemma classifyIPv4_returns packet : returns (classifyIPv4 packet).
Proof.
  unfold classifyIPv4. apply returns_if; [done|intros H20].
  ret_bind; [apply returns_index; lia|]. apply returns_if; [done|intros Hh].
  ret_bind; [apply returns_be16; lia|]. apply returns_if; [done|intros Ht].
  set (hl := Z.to_nat (Z.land a 15) * 4) in *. set (tl := Z.to_nat a0) in *.
  ret_bind. { apply returns_if; [intros; apply returns_slice; lia|done]. }
  assert (length a1 >= hl).
  { case_decide; [apply go_slice_length in E1; lia|]. injection E1 as <-. lia. }
  do 2 (ret_bind; [apply returns_addr_field; lia|]).
  ret_bind; [apply returns_index; lia|].
  ret_bind; [apply returns_be16; lia|].
  ret_bind; [apply returns_slice_from; lia|].
  ret_bind; [apply canonicalFlow_returns|done].
Qed.

Lemma classifyIPv6_returns packet : returns (classifyIPv6 packet).
Proof.
  unfold classifyIPv6. apply returns_if; [done|intros H40].
  ret_bind; [apply returns_be16; lia|]. apply returns_if; [done|intros Hp].
  set (pl := Z.to_nat a) in *.
  ret_bind. { apply returns_if; [intros; apply returns_slice; lia|done]. }
  assert (length a0 >= 40).
  { case_decide; [apply go_slice_length in E0; lia|]. injection E0 as <-. lia. }
  do 2 (ret_bind; [apply returns_addr_field; lia|]).
  ret_bind; [apply returns_index; lia|].
  destruct (walkIPv6_returns (walk_fuel a0) a0 a3 40) as [Hw Ho]; [lia|unfold walk_fuel; lia|].
  ret_bind; [done|]. destruct a4 as [proto [o|]].
  - apply Ho in E4. ret_bind; [ret_bind; [by apply returns_slice_from|]|done].
    apply canonicalFlow_returns.
  - ret_bind; [apply canonicalFlow_returns|done].
Qed.

(** C32: the flow classifier terminates without a panic on every byte string:
    no slice or index expression of the IPv4 and IPv6 parsers is out of
    range, and the loop over the IPv6 extension headers ends within one
    iteration per byte; a packet whose version is neither 4 nor 6 is refused
    as such. *)
Theorem classify_never_panics : forall packet : list Z,
  returns (ClassifyPacketInfo packet) /\ returns (ClassifyPacket packet) /\
  (forall b0 rest, packet = b0 :: rest -> Z.shiftr b0 4 <> 4%Z -> Z.shiftr b0 4 <> 6%Z ->
     ClassifyPacketInfo packet = Err ErrUnsupportedIP).
Proof.
  intros packet.
  assert (returns (ClassifyPacketInfo packet)) as H.
  { unfold ClassifyPacketInfo. apply returns_if; [done|intros Hl].
    ret_bind; [apply returns_index; lia|].
    apply returns_if; [intros; apply classifyIPv4_returns|intros].
    apply returns_if; [intros; apply classifyIPv6_returns|done]. }
  split_and!; [done|unfold ClassifyPacket; by ret_bind|].
  intros b0 rest -> H4 H6. unfold ClassifyPacketInfo, go_index. simpl. mred.
  by rewrite !decide_False.
Qed.

(** ** The two directions of a flow *)

Definition ext_header (nh : Z) : Prop :=
  (nh = 0 \/ nh = 43 \/ nh = 60 \/ nh = 44 \/ nh = 51)%Z.

(** The extension headers [ext] between the fixed IPv6 header and the
    transport header: [ext_chain nh ext proto frag] says that the chain
    starting with the next-header value [nh] leads to the protocol [proto],
    or ends in a fragment header. *)
Inductive ext_chain : Z -> list Z -> Z -> bool -> Prop :=
| ext_end proto : ~ ext_header proto -> ext_chain proto [] proto false
| ext_options nh next len body ext proto frag :
    (nh = 0 \/ nh = 43 \/ nh = 60)%Z ->
    length (next :: len :: body) = (Z.to_nat len + 1) * 8 ->
    ext_chain next ext proto frag ->
    ext_chain nh ((next :: len :: body) ++ ext) proto frag
| ext_auth next len body ext proto frag :
    length (next :: len :: body) = (Z.to_nat len + 2) * 4 ->
    ext_chain next ext proto frag ->
    ext_chain 51 ((next :: len :: body) ++ ext) proto frag
| ext_fragment next body :
    length body = 7 -> ext_chain 44 (next :: body) next true.

(** The transport headers of the two directions: the ports are exchanged,
    an echo request is answered by a reply with the same identifier, and
    other ICMP messages are not part of a conversation. *)
Definition reply_payload (proto : Z) (pl pl' : list Z) : Prop :=
  (proto = ProtocolTCP \/ proto = ProtocolUDP ->
     exists s d rest rest', length s = 2 /\ length d = 2 /\
       pl = s ++ d ++ rest /\ pl' = d ++ s ++ rest') /\
  (proto = ProtocolICMPv4 \/ proto = ProtocolICMPv6 ->
     exists t t' cs cs' id rest rest', length cs = 3 /\ length cs' = 3 /\ length id = 2 /\
       pl = t :: cs ++ id ++ rest /\ pl' = t' :: cs' ++ id ++ rest' /\
       is_echo proto t = is_echo proto t').

(** [ip_packet v6 src dst proto frag pl p]: the bytes [p] begin with a
    complete packet of the version, the addresses, the protocol and the
    transport payload [pl], a fragment or not.  All other header fields (the
    length, identification, hop limit, traffic class), options or extension
    headers and bytes behind the packet are arbitrary. *)
Inductive ip_packet : bool -> list Z -> list Z -> Z -> bool -> list Z -> list Z -> Prop :=
| ip4_packet h src dst opts pl trail :
    length h = 12 -> length src = 4 -> length dst = 4 ->
    Z.shiftr (h !!! 0) 4 = 4%Z ->
    Z.to_nat (Z.land (h !!! 0) 15) * 4 = 20 + length opts ->
    Z.to_nat (word_at h 2) = 20 + length opts + length pl ->
    ip_packet false src dst (h !!! 9) (negb (Z.land (word_at h 6) 16383 =? 0)%Z) pl
      (h ++ src ++ dst ++ opts ++ pl ++ trail)
| ip6_packet h src dst ext proto frag pl trail :
    length h = 8 -> length src = 16 -> length dst = 16 ->
    Z.shiftr (h !!! 0) 4 = 6%Z ->
    (Z.to_nat (word_at h 4) = 0 /\ trail = [] \/
     Z.to_nat (word_at h 4) = length ext + length pl /\ 0 < length ext + length pl) ->
    ext_chain (h !!! 6) ext proto frag ->
    ip_packet true src dst proto frag pl (h ++ src ++ dst ++ ext ++ pl ++ trail).

(** The packets of the two directions have their addresses exchanged and,
    unless they are fragments, belong to one conversation. *)
Definition reply_packet (p p' : list Z) : Prop :=
  exists v6 src dst proto frag pl pl', ip_packet v6 src dst proto frag pl p /\
    ip_packet v6 dst src proto frag pl' p' /\ (frag = false -> reply_payload proto pl pl').

Lemma compareEndpoint_antisym a ap b bp :
  compareEndpoint b bp a ap = (- compareEndpoint a ap b bp)%Z.
Proof.
  unfold compareEndpoint. rewrite (addr_compare_antisym a b).
  repeat case_decide; lia.
Qed.

Lemma compareEndpoint_eq a ap b bp :
  compareEndpoint a ap b bp = 0%Z -> a = b /\ ap = bp.
Proof.
  unfold compareEndpoint. repeat case_decide; try done. intros _.
  split; [apply addr_compare_eq; lia|lia].
Qed.

Lemma canonicalFlow_sym src dst proto pl pl' frag s d :
  ports proto pl frag = Ok (s, d) -> ports proto pl' frag = Ok (d, s) ->
  canonicalFlow dst src proto pl' frag = canonicalFlow src dst proto pl frag.
Proof.
  intros H H'. unfold canonicalFlow. rewrite H, H'. mred.
  cbn [fk_source fk_destination fk_source_port fk_dest_port]. f_equal.
  rewrite (compareEndpoint_antisym (Unmap src) s (Unmap dst) d).
  destruct (decide (compareEndpoint (Unmap src) s (Unmap dst) d = 0)%Z) as [E|E].
  - rewrite E. apply compareEndpoint_eq in E as [-> ->]. done.
  - repeat case_decide; try done; lia.
Qed.

Lemma word_at_app_l a b i : i + 1 < length a -> word_at (a ++ b) i = word_at a i.
Proof. intros H. unfold word_at. by rewrite !lookup_total_app_l by lia. Qed.

Lemma word_at_app_r a b i : length a <= i -> word_at (a ++ b) i = word_at b (i - length a).
Proof.
  intros H. unfold word_at. rewrite !lookup_total_app_r by lia. do 2 f_equal. lia.
Qed.

Lemma reply_payload_ports proto pl pl' :
  reply_payload proto pl pl' ->
  exists s d, ports proto pl false = Ok (s, d) /\ ports proto pl' false = Ok (d, s).
Proof.
  intros [Hp Hi]. unfold ports. case_decide as E1.
  - destruct (Hp E1) as (s & d & r & r' & Ls & Ld & -> & ->).
    rewrite !decide_False by (rewrite !length_app; lia).
    rewrite !be16_ok by (rewrite ?length_app; lia). mred.
    exists (word_at s 0), (word_at d 0).
    rewrite !(word_at_app_l _ _ 0) by (rewrite ?length_app; lia).
    rewrite !(word_at_app_r _ _ 2), Ls, Ld by lia.
    by rewrite !word_at_app_l by lia.
  - case_decide as E2; [|by eexists 0%Z, 0%Z].
    destruct (Hi E2) as (t & t' & cs & cs' & id & r & r' & L1 & L2 & L3 & -> & -> & Et).
    rewrite !decide_False by (simpl; rewrite !length_app; lia).
    unfold go_index. simpl. mred. rewrite <- Et.
    destruct (is_echo proto t); [|by eexists 0%Z, 0%Z].
    rewrite !be16_ok by (simpl; rewrite ?length_app; lia). mred.
    exists (word_at id 0), (word_at id 0).
    assert (forall t cs r, length cs = 3 -> word_at (t :: cs ++ id ++ r) 4 = word_at id 0) as Hw.
    { intros x c q Hc. change (x :: c ++ id ++ q) with ((x :: c) ++ id ++ q).
      rewrite word_at_app_r by (simpl; lia). simpl length. rewrite Hc.
      by rewrite word_at_app_l by lia. }
    by rewrite !Hw.
Qed.

Lemma addr_field_ok a s c i j :
  i = length a -> j = i + length s -> length s = 4 \/ length s = 16 ->
  addr_field (a ++ s ++ c) i j = Ok (Unmap (AddrFromSlice s)).
Proof.
  intros -> -> Hs. unfold addr_field.
  rewrite (go_slice_ok a s c) by (done || lia). mred.
  unfold AddrFromSlice. destruct Hs as [-> | ->]; done.
Qed.

Lemma go_index_app {E} (a b : list Z) i : i < length a -> @go_index E Z (a ++ b) i = Ok (a !!! i).
Proof.
  intros H. unfold go_index. rewrite lookup_app_l by done.
  by rewrite (list_lookup_lookup_total_lt a i H).
Qed.

(** What the IPv4 parser computes on a complete packet. *)
Lemma classifyIPv4_packet h src dst opts pl trail :
  length h = 12 -> length src = 4 -> length dst = 4 ->
  Z.to_nat (Z.land (h !!! 0) 15) * 4 = 20 + length opts ->
  Z.to_nat (word_at h 2) = 20 + length opts + length pl ->
  classifyIPv4 (h ++ src ++ dst ++ opts ++ pl ++ trail) =
    (flow ← canonicalFlow (Unmap (AddrFromSlice src)) (Unmap (AddrFromSlice dst)) (h !!! 9) pl
              (negb (Z.land (word_at h 6) 16383 =? 0)%Z);
     mret (mkInfo flow (Unmap (AddrFromSlice src)) (Unmap (AddrFromSlice dst)))).
Proof.
  intros Lh Ls Ld Hhl Htl. unfold classifyIPv4.
  assert (length (h ++ src ++ dst ++ opts ++ pl ++ trail) =
    20 + length opts + length pl + length trail) as HL by (rewrite !length_app; lia).
  rewrite decide_False by lia. rewrite go_index_app by lia. mred. rewrite Hhl.
  rewrite decide_False by lia. rewrite be16_ok, word_at_app_l by lia. mred. rewrite Htl.
  rewrite decide_False by lia.
  assert ((if decide (20 + length opts + length pl < length (h ++ src ++ dst ++ opts ++ pl ++ trail))
     then go_slice (h ++ src ++ dst ++ opts ++ pl ++ trail) 0 (20 + length opts + length pl)
     else mret (h ++ src ++ dst ++ opts ++ pl ++ trail)) =
    @Ok mp_error _ (h ++ src ++ dst ++ opts ++ pl)) as ->.
  { case_decide.
    - apply (go_slice_ok [] _ trail); [simpl; by rewrite <- !app_assoc|done|].
      simpl. rewrite !length_app. lia.
    - destruct trail; simpl in *; [by rewrite app_nil_r|lia]. }
  mred. rewrite (addr_field_ok h src _ 12 16) by lia. mred.
  rewrite (app_assoc h), (addr_field_ok (h ++ src) dst _ 16 20) by (rewrite ?length_app; lia). mred.
  rewrite <- app_assoc, go_index_app by lia. mred.
  rewrite be16_ok, word_at_app_l by (rewrite ?length_app; lia). mred.
  rewrite (go_slice_from_ok (h ++ src ++ dst ++ opts) pl); [done|by rewrite <- !app_assoc|].
  rewrite !length_app. lia.
Qed.

Lemma walkIPv6_chain nh ext proto frag : ext_chain nh ext proto frag ->
  forall fuel pre post, length ext < fuel ->
  walkIPv6 fuel (pre ++ ext ++ post) nh (length pre) =
    Ok (proto, if frag then None else Some (length pre + length ext)).
Proof.
  assert (forall (pre rest : list Z) next len body ext post,
    rest = (next :: len :: body) ++ ext ++ post ->
    @go_index mp_error Z (pre ++ rest) (length pre) = Ok next /\
    @go_index mp_error Z (pre ++ rest) (length pre + 1) = Ok len) as Hidx.
  { intros pre rest n l b e q ->. unfold go_index.
    rewrite !(lookup_app_r pre) by lia. rewrite Nat.sub_diag.
    replace (length pre + 1 - length pre) with 1 by lia. done. }
  induction 1 as [proto Hp|nh next len body ext proto frag Hn HL Hc IH
                 |next len body ext proto frag HL Hc IH|next body HL];
    intros fuel pre post Hf; (destruct fuel as [|fuel]; [simpl in Hf; lia|]); cbn [walkIPv6].
  - unfold ext_header in Hp. rewrite !decide_False by tauto.
    simpl. by rewrite Nat.add_0_r.
  - rewrite decide_True by done. rewrite <- app_assoc.
    destruct (Hidx pre _ next len body ext post eq_refl) as [-> ->].
    rewrite length_app in Hf.
    rewrite decide_False by (rewrite !length_app; simpl; lia). mred.
    rewrite decide_False by (rewrite !length_app; lia). rewrite <- HL, app_assoc.
    rewrite <- length_app, IH by lia. f_equal. f_equal. destruct frag; [done|].
    f_equal. rewrite !length_app. lia.
  - rewrite decide_False, decide_False, decide_True by lia. rewrite <- app_assoc.
    destruct (Hidx pre _ next len body ext post eq_refl) as [-> ->].
    rewrite length_app in Hf.
    rewrite decide_False by (rewrite !length_app; simpl; lia). mred.
    rewrite decide_False by (rewrite !length_app; lia). rewrite <- HL, app_assoc.
    rewrite <- length_app, IH by lia. f_equal. f_equal. destruct frag; [done|].
    f_equal. rewrite !length_app. lia.
  - rewrite decide_False, decide_True by lia.
    rewrite decide_False by (rewrite !length_app; simpl; lia).
    unfold go_index. rewrite lookup_app_r, Nat.sub_diag by lia. done.
Qed.

(** What the IPv6 parser computes on a complete packet; the payload of a
    jumbo packet (length field 0) extends to the end of the buffer. *)
Lemma classifyIPv6_packet h src dst ext proto frag pl trail :
  length h = 8 -> length src = 16 -> length dst = 16 ->
  (Z.to_nat (word_at h 4) = 0 /\ trail = [] \/
   Z.to_nat (word_at h 4) = length ext + length pl /\ 0 < length ext + length pl) ->
  ext_chain (h !!! 6) ext proto frag ->
  classifyIPv6 (h ++ src ++ dst ++ ext ++ pl ++ trail) =
    (flow ← canonicalFlow (Unmap (AddrFromSlice src)) (Unmap (AddrFromSlice dst)) proto
              (if frag then [] else pl) frag;
     mret (mkInfo flow (Unmap (AddrFromSlice src)) (Unmap (AddrFromSlice dst)))).
Proof.
  intros Lh Ls Ld Hp Hc. unfold classifyIPv6.
  assert (length (h ++ src ++ dst ++ ext ++ pl ++ trail) =
    40 + length ext + length pl + length trail) as HL by (rewrite !length_app; lia).
  rewrite decide_False by lia. rewrite be16_ok, word_at_app_l by lia. mred.
  rewrite decide_False by lia.
  assert (forall n, n = Z.to_nat (word_at h 4) ->
    (if decide (n <> 0 /\ 40 + n < length (h ++ src ++ dst ++ ext ++ pl ++ trail))
     then go_slice (h ++ src ++ dst ++ ext ++ pl ++ trail) 0 (40 + n)
     else mret (h ++ src ++ dst ++ ext ++ pl ++ trail)) =
    @Ok mp_error _ (h ++ src ++ dst ++ ext ++ pl)) as Htrim.
  { intros n ->. case_decide as D.
    - apply (go_slice_ok [] _ trail); [simpl; by rewrite <- !app_assoc|done|].
      simpl. rewrite !length_app. lia.
    - destruct trail; [by rewrite app_nil_r|]. destruct Hp as [[_ ?]|[]]; [done|].
      simpl in HL. lia. }
  rewrite Htrim by done. clear Htrim HL. mred.
  rewrite (addr_field_ok h src _ 8 24) by lia. mred.
  rewrite (app_assoc h), (addr_field_ok (h ++ src) dst _ 24 40) by (rewrite ?length_app; lia). mred.
  rewrite <- app_assoc, go_index_app by lia. mred.
  replace 40 with (length (h ++ src ++ dst)) at 1 by (rewrite !length_app; lia).
  rewrite (app_assoc src), (app_assoc h).
  rewrite (walkIPv6_chain _ _ _ _ Hc) by (unfold walk_fuel; rewrite !length_app; lia). mred.
  destruct frag; [done|].
  by rewrite (go_slice_from_ok ((h ++ src ++ dst) ++ ext) pl)
    by (rewrite ?length_app, <- ?app_assoc; done).
Qed.

Lemma reply_flow a b proto pl pl' frag :
  (frag = false -> reply_payload proto pl pl') ->
  exists flow, canonicalFlow a b proto pl frag = Ok flow /\
    canonicalFlow b a proto pl' frag = Ok flow.
Proof.
  intros H.
  assert (exists s d, ports proto pl frag = Ok (s, d) /\ ports proto pl' frag = Ok (d, s))
    as (s & d & Hs & Hd).
  { destruct frag; [by exists 0%Z, 0%Z|].
    by apply reply_payload_ports, H. }
  rewrite (canonicalFlow_sym a b proto pl pl' frag s d) by done.
  unfold canonicalFlow. rewrite Hs. mred. by eexists.
Qed.

(** What the classifier computes on a complete packet. *)
Lemma classify_packet v6 src dst proto frag pl p : ip_packet v6 src dst proto frag pl p ->
  ClassifyPacketInfo p =
    (flow ← canonicalFlow (Unmap (AddrFromSlice src)) (Unmap (AddrFromSlice dst)) proto (if frag then [] else pl) frag;
     mret (mkInfo flow (Unmap (AddrFromSlice src)) (Unmap (AddrFromSlice dst)))).
Proof.
  assert (forall h rest v, 0 < length h -> Z.shiftr (h !!! 0) 4 = v -> (v = 4 \/ v = 6)%Z ->
    ClassifyPacketInfo (h ++ rest) =
      if decide (v = 4)%Z then classifyIPv4 (h ++ rest) else classifyIPv6 (h ++ rest)) as Hv.
  { intros h rest v Hl Hv Hc. unfold ClassifyPacketInfo.
    rewrite decide_False by (rewrite length_app; lia). rewrite go_index_app by lia. mred.
    rewrite Hv. destruct Hc as [-> | ->]; done. }
  destruct 1 as [h src dst opts pl trail Lh Ls Ld V Hl Ht|h src dst ext proto frag pl trail Lh Ls Ld V Hp Hc].
  - rewrite (Hv _ _ 4%Z) by (done || lia || tauto). simpl. rewrite classifyIPv4_packet by lia.
    by destruct (negb (Z.land (word_at h 6) 16383 =? 0)%Z).
  - rewrite (Hv _ _ 6%Z) by (done || lia || tauto). simpl. by apply classifyIPv6_packet.
Qed.

(** C30: the flow key is direction-neutral.  Take a complete IPv4 packet
    (with any options) or IPv6 packet (with any chain of extension headers)
    and a packet of the opposite direction: the same version and protocol,
    the addresses exchanged, and the ports exchanged or an echo message with
    the same identifier; both fragments, or none.  All other bytes of the two
    (lengths, identification, hop limits, options, extension headers, the rest
    of the payload) may differ.  Then both are classified, their sources and
    destinations are exchanged, and their flow keys are equal. *)
Theorem flow_direction_neutral : forall p p' : list Z,
  reply_packet p p' ->
  exists info info' : PacketInfo,
    ClassifyPacketInfo p = Ok info /\ ClassifyPacketInfo p' = Ok info' /\
    pi_source info' = pi_destination info /\ pi_destination info' = pi_source info /\
    ClassifyPacket p' = Ok (pi_flow info) /\ ClassifyPacket p = Ok (pi_flow info).
Proof.
  intros p p' (v6 & src & dst & proto & frag & pl & pl' & Hp & Hp' & Hr).
  unfold ClassifyPacket. rewrite (classify_packet _ _ _ _ _ _ _ Hp), (classify_packet _ _ _ _ _ _ _ Hp').
  destruct (reply_flow (Unmap (AddrFromSlice src)) (Unmap (AddrFromSlice dst)) proto
    (if frag then [] else pl) (if frag then [] else pl') frag) as (flow & -> & ->).
  { intros ->. auto. }
  mred. by do 2 eexists.
Qed.

(** ** Channel selection *)
Definition eligible (c : Channel) : Prop := ch_Healthy c = true /\ ch_ID c <> EmptyString.

#[global] Instance eligible_dec c : Decision (eligible c).
Proof. unfold eligible. apply _. Defined.

(** The better of two candidates; the earlier one wins a tie. *)
Definition better (x y : option (Channel * Z)) : option (Channel * Z) :=
  match x, y with
  | None, _ => y
  | _, None => x
  | Some (_, a), Some (_, b) => if decide (b > a)%Z then y else x
  end.

Lemma better_assoc x y z : better x (better y z) = better (better x y) z.
Proof.
  destruct x as [[c a]|], y as [[d b]|], z as [[e f]|]; simpl; try done;
    repeat (case_decide; simpl); try done; lia.
Qed.

Lemma select_step_better key st c : select_step key st c = better st (select_step key None c).
Proof.
  unfold select_step. case_decide; destruct st as [[d b]|]; simpl; try done.
Qed.

Lemma select_foldl key st l :
  foldl (select_step key) st l = better st (foldl (select_step key) None l).
Proof.
  revert st. induction l as [|c l IH]; intros st; simpl; [by destruct st as [[]|]|].
  rewrite IH, select_step_better, <- better_assoc. by rewrite <- IH.
Qed.

Lemma select_app key l1 l2 :
  foldl (select_step key) None (l1 ++ l2) =
    better (foldl (select_step key) None l1) (foldl (select_step key) None l2).
Proof. by rewrite foldl_app, select_foldl. Qed.

Lemma select_step_eligible key c : eligible c ->
  select_step key None c = Some (c, score key (ch_ID c)).
Proof. intros [H1 H2]. unfold select_step. rewrite decide_False; [done|]. intros [?|?]; congruence. Qed.

Lemma select_step_skip key st c : ~ eligible c -> select_step key st c = st.
Proof.
  intros H. unfold select_step. rewrite decide_True; [done|].
  destruct (decide (ch_ID c = EmptyString)); [by right|left].
  unfold eligible in H. by destruct (ch_Healthy c); [tauto|].
Qed.

(** The result of the loop is a best eligible channel, if there is one. *)
Lemma select_best key l :
  match foldl (select_step key) None l with
  | Some (c, s) => c ∈ l /\ eligible c /\ s = score key (ch_ID c) /\
      forall c', c' ∈ l -> eligible c' -> (score key (ch_ID c') <= s)%Z
  | None => forall c', c' ∈ l -> ~ eligible c'
  end.
Proof.
  induction l as [|c l IH]; [by intros c ?%not_elem_of_nil|].
  cbn [foldl]. rewrite select_foldl.
  destruct (decide (eligible c)) as [He|He].
  - rewrite select_step_eligible by done. cbn [better].
    destruct (foldl (select_step key) None l) as [[d b]|].
    + destruct IH as (Hd & Hed & Hb & Hmax). case_decide.
      * split_and!; [by right|done..|]. intros c' [->|Hc']%elem_of_cons ?; [lia|auto].
      * split_and!; [by left|done..|]. intros c' [->|Hc']%elem_of_cons ?; [lia|].
        specialize (Hmax c' Hc'). naive_solver lia.
    + split_and!; [by left|done..|]. intros c' [->|Hc']%elem_of_cons ?; [lia|].
      by destruct (IH c' Hc').
  - rewrite select_step_skip by done. cbn [better].
    destruct (foldl (select_step key) None l) as [[d b]|].
    + destruct IH as (Hd & Hed & Hb & Hmax). split_and!; [by right|done..|].
      intros c' [->|Hc']%elem_of_cons ?; [done|auto].
    + intros c' [->|Hc']%elem_of_cons; auto.
Qed.

(** Losing a channel moves only the flows that used it. *)
Lemma select_remove key l1 c l2 :
  SelectChannel key (l1 ++ c :: l2) = Ok c \/
  SelectChannel key (l1 ++ c :: l2) = SelectChannel key (l1 ++ l2).
Proof.
  unfold SelectChannel. rewrite !select_app. cbn [foldl]. rewrite (select_foldl _ (select_step _ _ _)).
  destruct (decide (eligible c)) as [He|He]; [|by rewrite select_step_skip; auto].
  rewrite select_step_eligible by done.
  destruct (foldl _ None l1) as [[d a]|], (foldl _ None l2) as [[e b]|]; simpl; auto;
    repeat (case_decide; simpl); auto; lia.
Qed.

Lemma select_unhealthy key l1 id l2 :
  SelectChannel key (l1 ++ mkChannel id false :: l2) = SelectChannel key (l1 ++ l2).
Proof.
  unfold SelectChannel. rewrite !select_app. cbn [foldl].
  by rewrite (select_step_skip _ _ (mkChannel id false)) by (intros [? _]; done).
Qed.

(** C31: channel selection is rendezvous hashing.  The selected channel is one
    of the given ones, healthy and with the highest score for the flow; the
    selection fails exactly when no channel is usable; when a channel is lost
    or removed, only the flows that used it move; and two peers that hold the
    same channels in different orders choose the same one, as long as the
    hash separates the channels. *)
Theorem rendezvous_selection : forall (key : FlowKey) (channels : list Channel),
  (forall c, SelectChannel key channels = Ok c ->
     c ∈ channels /\ eligible c /\
     forall c', c' ∈ channels -> eligible c' ->
       (score key (ch_ID c') <= score key (ch_ID c))%Z) /\
  (SelectChannel key channels = Err ErrNoHealthyChannel <->
     forall c, c ∈ channels -> ~ eligible c) /\
  returns (SelectChannel key channels) /\
  (forall l1 c l2, channels = l1 ++ c :: l2 -> SelectChannel key channels <> Ok c ->
     SelectChannel key (l1 ++ l2) = SelectChannel key channels /\
     SelectChannel key (l1 ++ mkChannel (ch_ID c) false :: l2) = SelectChannel key channels) /\
  (forall channels', channels ≡ₚ channels' ->
     (forall c c', c ∈ channels -> c' ∈ channels -> eligible c -> eligible c' ->
        score key (ch_ID c) = score key (ch_ID c') -> c = c') ->
     SelectChannel key channels' = SelectChannel key channels).
Proof.
  intros key l. pose proof (select_best key l) as Hb. split_and!.
  - unfold SelectChannel. intros c Hc.
    destruct (foldl _ None l) as [[d b]|]; simplify_eq.
    destruct Hb as (? & ? & -> & ?). auto.
  - unfold SelectChannel. destruct (foldl _ None l) as [[d b]|]; [|done].
    split; [done|]. intros H. destruct Hb as (Hd & He & _). by destruct (H d Hd).
  - unfold SelectChannel. by destruct (foldl _ None l) as [[d b]|].
  - intros l1 c l2 -> Hne. rewrite select_unhealthy.
    destruct (select_remove key l1 c l2) as [?|<-]; done.
  - intros l' Hp Hinj. pose proof (select_best key l') as Hb'. unfold SelectChannel.
    destruct (foldl _ None l) as [[d b]|], (foldl _ None l') as [[e f]|]; try done.
    + destruct Hb as (Hd & Ed & -> & Md), Hb' as (He & Ee & -> & Me).
      f_equal. rewrite <- Hp in He. apply Hinj; try done.
      specialize (Md e He Ee). rewrite Hp in Hd. specialize (Me d Hd Ed). lia.
    + destruct Hb as (Hd & Ed & _). rewrite Hp in Hd. by destruct (Hb' d Hd).
    + destruct Hb' as (He & Ee & _). rewrite <- Hp in He. by destruct (Hb e He).
Qed.

(** ** Concrete instances *)

(** An IPv6 TCP segment behind a hop-by-hop header, from fd00::1 port 443 to
    fd00::2 port 50000, and a reply without it, with another hop limit. *)
Definition wit_v6_a : list Z := 253%Z :: replicate 14 0%Z ++ [1%Z].
Definition wit_v6_b : list Z := 253%Z :: replicate 14 0%Z ++ [2%Z].
Definition wit_v6_packet : list Z :=
  [96; 0; 0; 0; 0; 14; 0; 64]%Z ++ wit_v6_a ++ wit_v6_b ++ [6; 0; 1; 4; 0; 0; 0; 0]%Z ++ [1; 187; 195; 80; 0; 7]%Z ++ [].
Definition wit_v6_reply : list Z :=
  [96; 0; 0; 1; 0; 5; 6; 57]%Z ++ wit_v6_b ++ wit_v6_a ++ [] ++ [195; 80; 1; 187; 9]%Z ++ [0; 0]%Z.

Lemma wit_v6_is_reply : reply_packet wit_v6_packet wit_v6_reply.
Proof.
  assert (~ ext_header 6) as Htcp by (unfold ext_header; lia).
  exists true, wit_v6_a, wit_v6_b, 6%Z, false, [1; 187; 195; 80; 0; 7]%Z, [195; 80; 1; 187; 9]%Z. split_and!.
  - apply ip6_packet; try done; [right; by_decide|].
    apply (ext_options 0 6 0 [1; 4; 0; 0; 0; 0]%Z []); [by left|done|]. by constructor.
  - apply ip6_packet; try done; [right; by_decide|]. by constructor.
  - intros _. split; [|intros [?|?]; done].
    intros _. by exists [1; 187]%Z, [195; 80]%Z, [0; 7]%Z, [9]%Z.
Qed.

Lemma flow_direction_neutral_witness :
  reply_packet wit_v6_packet wit_v6_reply /\
  exists flow, ClassifyPacket wit_v6_packet = Ok flow /\ ClassifyPacket wit_v6_reply = Ok flow /\
    fk_source_port flow = 443%Z /\ fk_dest_port flow = 50000%Z.
Proof.
  split; [exact wit_v6_is_reply|].
  destruct (flow_direction_neutral _ _ wit_v6_is_reply)
    as (info & info' & E & _ & _ & _ & E' & E2).
  exists (pi_flow info). split_and!; [done..| |];
    revert E2; set (flow := pi_flow info); clearbody flow; intros E2;
    vm_compute in E2; by simplify_eq.
Defined.

Definition wit_flow : FlowKey := mkFlow (Addr4 1681915905) (Addr4 1681915906) 6 443 50000 false.
Definition wit_channels : list Channel :=
  [mkChannel "0" true; mkChannel "1" false; mkChannel "2" true; mkChannel "3" true].

Lemma rendezvous_selection_witness :
  SelectChannel wit_flow wit_channels = Ok (mkChannel "2" true) /\
  (score wit_flow "0" <= score wit_flow "2")%Z.
Proof.
  destruct (rendezvous_selection wit_flow wit_channels) as (H & _).
  assert (SelectChannel wit_flow wit_channels = Ok (mkChannel "2" true)) as E by by_decide.
  split; [exact E|]. destruct (H _ E) as (_ & _ & Hmax). cbn [ch_ID] in Hmax.
  assert (mkChannel "0" true ∈ wit_channels) as Hin by left.
  assert (eligible (mkChannel "0" true)) as He by by_decide.
  specialize (Hmax _ Hin He). cbn [ch_ID] in Hmax. exact Hmax.
Defined.

Lemma classify_never_panics_witness :
  ClassifyPacketInfo [80; 0; 0; 0]%Z = Err ErrUnsupportedIP.
Proof. by apply (classify_never_panics [80; 0; 0; 0]%Z) with (b0 := 80%Z) (rest := [0; 0; 0]%Z). Defined.
