(* ===== verification/RelayMultipath.v ===== *)
(** * The multipath relay connection
      (client/internal/peer/relay_multipath_conn.go)

    A [relayMultipathConn] spreads the packets of one peer over several relay
    channels.  Goroutines share it: one reader per channel, the WireGuard
    device that writes and reads, the packet observer, and whoever closes it.
    The model is a thread pool: every operation is a chain of atomic steps, one
    per critical section, atomic access or channel operation of the source,
    and [exec] runs one step of one thread.  All calls in this file are tail
    calls, so a thread is a single program counter [pc].  What the
    environment decides (the results of the underlying connections, the choice
    of a [select] with several ready cases, the iteration order of a map) is
    the argument [env] of [exec]. *)

From Stdlib Require Import ZArith Lia.
From stdpp Require Import base gmap strings numbers countable sorting pretty list.
From S2P Require Import Prelude Netip Checksum Multipath.

Definition relayMultipathHintQueueSize : nat := 256.
Definition relayMultipathReadQueueSize : nat := 64.
Definition relayMultipathReadBuffer : nat := Z.to_nat 65535.

Inductive conn_error : Type := ErrClosed | ErrShortBuffer | ErrConn (msg : string).

#[global] Instance conn_error_eq_dec : EqDecision conn_error.
Proof. solve_decision. Defined.

(** An underlying connection is an identity; [None] is the nil interface. *)
Definition conn_id : Type := nat.

Record relayMultipathChannel : Type := mkRelayChannel { rc_id : N; rc_conn : conn_id }.

Inductive once_state : Type := OnceNew | OnceRunning | OnceDone.

#[global] Instance once_state_eq_dec : EqDecision once_state.
Proof. solve_decision. Defined.

(** The fields of the Go struct, followed by what the outside sees: the
    connections closed, the packets written and the unregister functions
    called.  An unregister function is an identity; [None] is [func() {}].
    Every list of the outside is newest first. *)
Record MConn : Type := mkMConn {
  mc_channels : gmap N conn_id;
  mc_selector : list Channel;
  mc_ids : gmap string N;
  mc_allowed : list Prefix;
  mc_primary : N;
  mc_hints : list N;
  mc_reads : list (list Z + conn_error);
  mc_done : bool;
  mc_unregister : option nat;
  mc_once : once_state;
  mc_closed : bool;
  mc_readErr : option conn_error;
  out_closed : list conn_id;
  out_written : list (conn_id * list Z);
  out_unregistered : list nat }.

(** What a call returns: nothing, an error ([None]: nil), or a count and an
    error. *)
Inductive ret : Type :=
| RetVoid
| RetErr (e : option conn_error)
| RetN (n : nat) (e : option conn_error).

Inductive pc : Type :=
| PObserve (data : list Z) (outbound : bool)
| PSelect (flow : FlowKey)
| PHint (id : N) | PHintDrop (id : N) | PHintRetry (id : N)
| PWrite (p : list Z) | PWriteHint (p : list Z) | PWritePick (p : list Z) (id : N)
| PWriteConn (p : list Z) (c : conn_id) (id : N)
| PUserRead (cap : nat)
| PReadConn (id : N) (c : conn_id) | PReadErr (id : N) (e : conn_error)
| PPushRead (id : N) (c : conn_id) (payload : list Z)
| PMark (id : N) (e : conn_error)
| PCloseChan (c : option conn_id) (remaining : nat) (e : conn_error)
| PSetErr (e : conn_error) | PPushErr (e : conn_error)
| PClose | PStoreClosed | PCloseDone | PTakeObserver | PCallObserver (u : option nat)
| PCloseAll | PClosing (rest : list conn_id) (result : option conn_error)
| PSetObserver (u : option nat)
| PRet (r : ret).

Record env : Type := mkEnv {
  e_read : list Z + conn_error;
  e_write : nat * option conn_error;
  e_close : option conn_error;
  e_first : bool;
  e_order : list conn_id }.

(** ** Field updates *)
Definition set_selector (v : list Channel) (s : MConn) : MConn :=
  mkMConn (mc_channels s) v (mc_ids s) (mc_allowed s) (mc_primary s) (mc_hints s) (mc_reads s)
    (mc_done s) (mc_unregister s) (mc_once s) (mc_closed s) (mc_readErr s)
    (out_closed s) (out_written s) (out_unregistered s).
Definition set_hints (v : list N) (s : MConn) : MConn :=
  mkMConn (mc_channels s) (mc_selector s) (mc_ids s) (mc_allowed s) (mc_primary s) v (mc_reads s)
    (mc_done s) (mc_unregister s) (mc_once s) (mc_closed s) (mc_readErr s)
    (out_closed s) (out_written s) (out_unregistered s).
Definition set_reads (v : list (list Z + conn_error)) (s : MConn) : MConn :=
  mkMConn (mc_channels s) (mc_selector s) (mc_ids s) (mc_allowed s) (mc_primary s) (mc_hints s) v
    (mc_done s) (mc_unregister s) (mc_once s) (mc_closed s) (mc_readErr s)
    (out_closed s) (out_written s) (out_unregistered s).
Definition set_flags (done closed : bool) (once : once_state) (s : MConn) : MConn :=
  mkMConn (mc_channels s) (mc_selector s) (mc_ids s) (mc_allowed s) (mc_primary s) (mc_hints s)
    (mc_reads s) done (mc_unregister s) once closed (mc_readErr s)
    (out_closed s) (out_written s) (out_unregistered s).
Definition set_readErr (v : option conn_error) (s : MConn) : MConn :=
  mkMConn (mc_channels s) (mc_selector s) (mc_ids s) (mc_allowed s) (mc_primary s) (mc_hints s)
    (mc_reads s) (mc_done s) (mc_unregister s) (mc_once s) (mc_closed s) v
    (out_closed s) (out_written s) (out_unregistered s).
Definition set_unregister (v : option nat) (s : MConn) : MConn :=
  mkMConn (mc_channels s) (mc_selector s) (mc_ids s) (mc_allowed s) (mc_primary s) (mc_hints s)
    (mc_reads s) (mc_done s) v (mc_once s) (mc_closed s) (mc_readErr s)
    (out_closed s) (out_written s) (out_unregistered s).
Definition log_closed (c : conn_id) (s : MConn) : MConn :=
  mkMConn (mc_channels s) (mc_selector s) (mc_ids s) (mc_allowed s) (mc_primary s) (mc_hints s)
    (mc_reads s) (mc_done s) (mc_unregister s) (mc_once s) (mc_closed s) (mc_readErr s)
    (c :: out_closed s) (out_written s) (out_unregistered s).
Definition log_written (c : conn_id) (p : list Z) (s : MConn) : MConn :=
  mkMConn (mc_channels s) (mc_selector s) (mc_ids s) (mc_allowed s) (mc_primary s) (mc_hints s)
    (mc_reads s) (mc_done s) (mc_unregister s) (mc_once s) (mc_closed s) (mc_readErr s)
    (out_closed s) ((c, p) :: out_written s) (out_unregistered s).
Definition call_unregister (u : option nat) (s : MConn) : MConn :=
  mkMConn (mc_channels s) (mc_selector s) (mc_ids s) (mc_allowed s) (mc_primary s) (mc_hints s)
    (mc_reads s) (mc_done s) (mc_unregister s) (mc_once s) (mc_closed s) (mc_readErr s)
    (out_closed s) (out_written s)
    (match u with Some o => o :: out_unregistered s | None => out_unregistered s end).

(** ** Construction *)
(** [strconv.FormatUint(uint64(id), 10)] *)
Definition FormatUint (id : N) : string := pretty id.

Definition add_channel (s : MConn) (ch : relayMultipathChannel) : MConn :=
  mkMConn (<[rc_id ch := rc_conn ch]> (mc_channels s))
    (mc_selector s ++ [mkChannel (FormatUint (rc_id ch)) true])
    (<[FormatUint (rc_id ch) := rc_id ch]> (mc_ids s))
    (mc_allowed s) (mc_primary s) (mc_hints s) (mc_reads s)
    (mc_done s) (mc_unregister s) (mc_once s) (mc_closed s) (mc_readErr s)
    (out_closed s) (out_written s) (out_unregistered s).

(** The connection and the reader goroutines it starts. *)
Definition newRelayMultipathConn (channels : list relayMultipathChannel)
    (allowedIPs : list Prefix) (unregisterObserver : option nat) : MConn * list pc :=
  let primary := match channels with ch :: _ => rc_id ch | [] => 0%N end in
  let c := mkMConn ∅ [] ∅ allowedIPs primary [] [] false unregisterObserver OnceNew false None
             [] [] [] in
  (foldl add_channel c channels,
   map (fun ch => PReadConn (rc_id ch) (rc_conn ch)) channels).

(** ** Helpers *)
Definition isWireGuardDataPacket (packet : list Z) : bool :=
  match packet with
  | b0 :: b1 :: b2 :: b3 :: _ =>
      bool_decide (b0 = 4 /\ b1 = 0 /\ b2 = 0 /\ b3 = 0)%Z
  | _ => false
  end.

Definition matchesAllowedDestination (s : MConn) (dst : Addr) : bool :=
  let dst := Unmap dst in existsb (fun prefix => Contains prefix dst) (mc_allowed s).

Fixpoint healthy_of (selectorID : string) (l : list Channel) : bool :=
  match l with
  | [] => false
  | channel :: l =>
      if decide (ch_ID channel = selectorID) then ch_Healthy channel else healthy_of selectorID l
  end.

Definition channelHealthyLocked (s : MConn) (channelID : N) : bool :=
  healthy_of (FormatUint channelID) (mc_selector s).

(** The loop of [connForWrite] over all channels. *)
Fixpoint first_healthy (s : MConn) (l : list Channel) : option (conn_id * N) :=
  match l with
  | [] => None
  | channel :: l =>
      if ch_Healthy channel then
        match mc_ids s !! ch_ID channel with
        | Some channelID =>
            match mc_channels s !! channelID with
            | Some conn => Some (conn, channelID)
            | None => first_healthy s l
            end
        | None => first_healthy s l
        end
      else first_healthy s l
  end.

(** [if c.channelHealthyLocked(id) { if conn := c.channels[id]; conn != nil ...] *)
Definition usable_conn (s : MConn) (channelID : N) : option conn_id :=
  if channelHealthyLocked s channelID then mc_channels s !! channelID else None.

Definition connForWrite (s : MConn) (preferred : N) : option (conn_id * N) :=
  match usable_conn s preferred with
  | Some conn => Some (conn, preferred)
  | None =>
      match usable_conn s (mc_primary s) with
      | Some conn => Some (conn, mc_primary s)
      | None => first_healthy s (mc_selector s)
      end
  end.

(** The first loop of [markChannelUnhealthy]. *)
Fixpoint mark_unhealthy (selectorID : string) (l : list Channel) : list Channel :=
  match l with
  | [] => []
  | channel :: l =>
      if decide (ch_ID channel = selectorID) then mkChannel (ch_ID channel) false :: l
      else channel :: mark_unhealthy selectorID l
  end.

Definition count_healthy (l : list Channel) : nat :=
  length (filter (fun channel => ch_Healthy channel = true) l).

(** ** One atomic step *)

Definition exec_observe (data : list Z) (outbound : bool) (s : MConn) : pc :=
  if negb outbound || mc_closed s then PRet RetVoid
  else match ClassifyPacketInfo data with
       | Ok info =>
           if matchesAllowedDestination s (pi_destination info) then PSelect (pi_flow info)
           else PRet RetVoid
       | _ => PRet RetVoid
       end.

Definition exec_select (flow : FlowKey) (s : MConn) : pc :=
  match SelectChannel flow (mc_selector s) with
  | Ok selected =>
      match mc_ids s !! ch_ID selected with Some id => PHint id | None => PRet RetVoid end
  | _ => PRet RetVoid
  end.

(** [select { case c.hintCh <- id: default: }]: whether the send happened. *)
Definition push_hint (id : N) (s : MConn) : MConn * bool :=
  if decide (length (mc_hints s) < relayMultipathHintQueueSize)
  then (set_hints (mc_hints s ++ [id]) s, true) else (s, false).

Definition push_read (r : list Z + conn_error) (s : MConn) : option MConn :=
  if decide (length (mc_reads s) < relayMultipathReadQueueSize)
  then Some (set_reads (mc_reads s ++ [r]) s) else None.

(** [Read]: the two cases of the [select]. *)
Definition exec_read (ev : env) (cap : nat) (s : MConn) : option (MConn * pc) :=
  if e_first ev then
    match mc_reads s with
    | inr e :: rest => Some (set_reads rest s, PRet (RetN 0 (Some e)))
    | inl payload :: rest =>
        let n := min cap (length payload) in
        Some (set_reads rest s,
              PRet (RetN n (if decide (n < length payload) then Some ErrShortBuffer else None)))
    | [] => None
    end
  else if mc_done s then
    Some (s, PRet (RetN 0 (Some (default ErrClosed (mc_readErr s)))))
  else None.

Definition exec_mark (id : N) (e : conn_error) (s : MConn) : MConn * pc :=
  let selector := mark_unhealthy (FormatUint id) (mc_selector s) in
  (set_selector selector s, PCloseChan (mc_channels s !! id) (count_healthy selector) e).

(** [enqueueHint]: three selects. *)
Definition exec_hint (p : pc) (s : MConn) : option (MConn * pc) :=
  match p with
  | PHint id =>
      let '(s, sent) := push_hint id s in
      Some (s, if sent then PRet RetVoid else PHintDrop id)
  | PHintDrop id => Some (set_hints (tail (mc_hints s)) s, PHintRetry id)
  | PHintRetry id => Some ((push_hint id s).1, PRet RetVoid)
  | _ => None
  end.

(** [Write].  After a failed write the thread goes on with
    [markChannelUnhealthy]; what [Write] then returns, the count and the error
    of the channel, is not kept. *)
Definition exec_write (ev : env) (p : pc) (s : MConn) : option (MConn * pc) :=
  match p with
  | PWrite pk =>
      Some (s, if mc_closed s then PRet (RetN 0 (Some ErrClosed))
               else if isWireGuardDataPacket pk then PWriteHint pk
               else PWritePick pk (mc_primary s))
  | PWriteHint pk =>
      match mc_hints s with
      | h :: rest => Some (set_hints rest s, PWritePick pk h)
      | [] => Some (s, PWritePick pk (mc_primary s))
      end
  | PWritePick pk id =>
      Some (s, match connForWrite s id with
               | Some (c, id) => PWriteConn pk c id
               | None => PRet (RetN 0 (Some ErrClosed))
               end)
  | PWriteConn pk c id =>
      Some (log_written c pk s,
            match e_write ev with
            | (_, Some e) => PMark id e
            | (n, None) => PRet (RetN n None)
            end)
  | _ => None
  end.

(** The loop of a reader goroutine. *)
Definition exec_readFrom (ev : env) (p : pc) (s : MConn) : option (MConn * pc) :=
  match p with
  | PReadConn id c =>
      Some (s, match e_read ev with
               | inl payload => PPushRead id c (take relayMultipathReadBuffer payload)
               | inr e => PReadErr id e
               end)
  | PReadErr id e => Some (s, if mc_closed s then PRet RetVoid else PMark id e)
  | PPushRead id c payload =>
      if e_first ev then
        match push_read (inl payload) s with Some s => Some (s, PReadConn id c) | None => None end
      else if mc_done s then Some (s, PRet RetVoid) else None
  | _ => None
  end.

(** [fail], up to its call of [Close]. *)
Definition exec_fail (p : pc) (s : MConn) : option (MConn * pc) :=
  match p with
  | PSetErr e =>
      Some (set_readErr (match mc_readErr s with None => Some e | r => r end) s, PPushErr e)
  | PPushErr e =>
      Some (match push_read (inr e) s with Some s => s | None => s end, PClose)
  | _ => None
  end.

(** [Close]: the entry of [closeOnce.Do], which waits for a running body, and
    the body. *)
Definition exec_close (ev : env) (p : pc) (s : MConn) : option (MConn * pc) :=
  match p with
  | PClose =>
      match mc_once s with
      | OnceNew => Some (set_flags (mc_done s) (mc_closed s) OnceRunning s, PStoreClosed)
      | OnceRunning => None
      | OnceDone => Some (s, PRet (RetErr None))
      end
  | PStoreClosed => Some (set_flags (mc_done s) true (mc_once s) s, PCloseDone)
  | PCloseDone => Some (set_flags true (mc_closed s) (mc_once s) s, PTakeObserver)
  | PTakeObserver => Some (set_unregister None s, PCallObserver (mc_unregister s))
  | PCallObserver u => Some (call_unregister u s, PCloseAll)
  | PCloseAll =>
      if decide (e_order ev ≡ₚ (map_to_list (mc_channels s)).*2)
      then Some (s, PClosing (e_order ev) None) else None
  | PClosing (c :: rest) result =>
      Some (log_closed c s,
            PClosing rest (match result with None => e_close ev | Some _ => result end))
  | PClosing [] result =>
      Some (set_flags (mc_done s) (mc_closed s) OnceDone s, PRet (RetErr result))
  | _ => None
  end.

(** [setUnregisterObserver]: one critical section. *)
Definition exec_setUnregisterObserver (u : option nat) (s : MConn) : MConn :=
  if mc_closed s then call_unregister u s else set_unregister u s.

(** [exec ev p s] is the state and the program counter after the next atomic
    step of a thread at [p]; [None] when the step is not enabled. *)
Definition exec (ev : env) (p : pc) (s : MConn) : option (MConn * pc) :=
  match p with
  | PObserve data outbound => Some (s, exec_observe data outbound s)
  | PSelect flow => Some (s, exec_select flow s)
  | PHint _ | PHintDrop _ | PHintRetry _ => exec_hint p s
  | PWrite _ | PWriteHint _ | PWritePick _ _ | PWriteConn _ _ _ => exec_write ev p s
  | PUserRead cap => exec_read ev cap s
  | PReadConn _ _ | PReadErr _ _ | PPushRead _ _ _ => exec_readFrom ev p s
  | PMark id e => Some (exec_mark id e s)
  | PCloseChan c remaining e =>
      Some (match c with Some c => log_closed c s | None => s end,
            if decide (remaining = 0) then PSetErr e else PRet RetVoid)
  | PSetErr _ | PPushErr _ => exec_fail p s
  | PClose | PStoreClosed | PCloseDone | PTakeObserver | PCallObserver _ | PCloseAll
  | PClosing _ _ => exec_close ev p s
  | PSetObserver u => Some (exec_setUnregisterObserver u s, PRet RetVoid)
  | PRet _ => None
  end.

(** ** The running system *)
Record Sys : Type := mkSys { sy_conn : MConn; sy_threads : list pc }.

(** The calls of the packet device: they start at any time, in any number. *)
Definition device_call (p : pc) : Prop :=
  match p with PObserve _ _ | PWrite _ | PUserRead _ => True | _ => False end.

Section system.
Context (chans : list relayMultipathChannel) (allowed : list Prefix) (observer : nat).

Definition init_sys : Sys :=
  let '(c, readers) := newRelayMultipathConn chans allowed None in mkSys c readers.

(** [reach n b s]: [s] is reachable with [n] calls of [setUnregisterObserver]
    ([wrapRelayMultipathConn] makes one) and a call of [Close] if [b]. *)
Inductive reach : nat -> bool -> Sys -> Prop :=
| reach_init : reach 0 false init_sys
| reach_run n b s i p ev c' p' :
    reach n b s -> sy_threads s !! i = Some p -> exec ev p (sy_conn s) = Some (c', p') ->
    reach n b (mkSys c' (<[i := p']> (sy_threads s)))
| reach_call n b s p :
    reach n b s -> device_call p -> reach n b (mkSys (sy_conn s) (sy_threads s ++ [p]))
| reach_close n b s :
    reach n b s -> reach n true (mkSys (sy_conn s) (sy_threads s ++ [PClose]))
| reach_set b s :
    reach 0 b s ->
    reach 1 b (mkSys (sy_conn s) (sy_threads s ++ [PSetObserver (Some observer)])).

(** No thread is in the middle of a call: the readers wait for their
    connections. *)
Definition quiescent (s : Sys) : Prop :=
  Forall (fun p => match p with PRet _ | PReadConn _ _ => True | _ => False end) (sy_threads s).

Definition no_healthy (c : MConn) : Prop := count_healthy (mc_selector c) = 0.

Definition known (id : N) : Prop := exists c, mkRelayChannel id c ∈ chans.

(** What construction fixes. *)
Record static (c : MConn) : Prop := {
  st_selector : map ch_ID (mc_selector c) = map (fun ch => FormatUint (rc_id ch)) chans;
  st_channels : forall ch, ch ∈ chans -> mc_channels c !! rc_id ch = Some (rc_conn ch);
  st_known : forall id k, mc_channels c !! id = Some k -> mkRelayChannel id k ∈ chans;
  st_ids : forall ch, ch ∈ chans -> mc_ids c !! FormatUint (rc_id ch) = Some (rc_id ch);
  st_allowed : mc_allowed c = allowed;
  st_primary : mc_primary c = match chans with ch :: _ => rc_id ch | [] => 0%N end }.

(** ** Counting threads *)
Definition occ (f : pc -> nat) (l : list pc) : nat := sum_list_with f l.

Lemma occ_insert f l i p p' : l !! i = Some p -> occ f (<[i := p']> l) + f p = occ f l + f p'.
Proof.
  revert i. unfold occ. induction l as [|q l IH]; intros [|i] H; simplify_eq/=; [lia|].
  specialize (IH _ H). lia.
Qed.

Lemma occ_app f l p : occ f (l ++ [p]) = occ f l + f p.
Proof. unfold occ. rewrite sum_list_with_app. simpl. lia. Qed.

Lemma occ_elem f l p : p ∈ l -> f p <= occ f l.
Proof. unfold occ. induction 1; simpl; lia. Qed.

Lemma occ_zero f l : occ f l = 0 <-> Forall (fun p => f p = 0) l.
Proof.
  unfold occ. induction l as [|q l IH]; simpl; [by split|].
  rewrite Forall_cons, <- IH. lia.
Qed.

(** The thread that runs the body of [closeOnce]. *)
Definition closer (p : pc) : nat :=
  match p with
  | PStoreClosed | PCloseDone | PTakeObserver | PCallObserver _ | PCloseAll | PClosing _ _ => 1
  | _ => 0
  end.

(** Threads on their way to record the last failure, and to close. *)
Definition failing (p : pc) : nat :=
  match p with PCloseChan _ 0 _ | PSetErr _ => 1 | _ => 0 end.
Definition to_close (p : pc) : nat :=
  match p with PPushErr _ | PClose => 1 | _ => 0 end.
Definition closes (p : pc) : nat := match p with PClose => 1 | _ => 0 end.

(** Threads that hold the observer's unregister function. *)
Definition holds (p : pc) : nat :=
  match p with PSetObserver (Some _) | PCallObserver (Some _) => 1 | _ => 0 end.

Definition opt_count {A} (o : option A) : nat := match o with Some _ => 1 | None => 0 end.

(** ** Marking channels *)
Lemma mark_unhealthy_ids id l : map ch_ID (mark_unhealthy id l) = map ch_ID l.
Proof. induction l as [|c l IH]; simpl; [done|]. case_decide; simpl; congruence. Qed.

Lemma count_healthy_cons c l :
  count_healthy (c :: l) = (if ch_Healthy c then 1 else 0) + count_healthy l.
Proof.
  unfold count_healthy. rewrite filter_cons.
  destruct (ch_Healthy c) eqn:E; case_decide; simpl; congruence || lia.
Qed.

Lemma mark_unhealthy_count id l :
  count_healthy (mark_unhealthy id l) <= count_healthy l.
Proof.
  induction l as [|c l IH]; simpl; [done|].
  case_decide; rewrite !count_healthy_cons; simpl; destruct (ch_Healthy c); lia.
Qed.

Lemma count_healthy_zero l : count_healthy l = 0 <-> forall c, c ∈ l -> ch_Healthy c = false.
Proof.
  induction l as [|c l IH]; [split; [by intros _ c ?%not_elem_of_nil|done]|].
  rewrite count_healthy_cons. split.
  - intros H d [->|Hd]%elem_of_cons; [by destruct (ch_Healthy c)|].
    apply IH; [lia|done].
  - intros H. rewrite (H c) by by left. simpl. apply IH. intros d Hd. apply H. by right.
Qed.

(** ** The invariant *)

(** The state of a finished or nearly finished [Close]. *)
Definition shut (c : MConn) : Prop :=
  mc_closed c = true /\ mc_done c = true /\ mc_unregister c = None.

Definition all_closed (rest : list conn_id) (c : MConn) : Prop :=
  forall id k, mc_channels c !! id = Some k -> k ∈ rest \/ k ∈ out_closed c.

Definition failed (c : MConn) : Prop := no_healthy c /\ mc_readErr c <> None.

(** What a thread may rely on at each program point ([b]: [Close] was called
    by the owner of the connection). *)
Definition thread_ok (b : bool) (c : MConn) (p : pc) : Prop :=
  match p with
  | PHint id | PHintDrop id | PHintRetry id | PWritePick _ id | PMark id _ | PReadErr id _ =>
      known id
  | PWriteConn _ k id | PReadConn id k | PPushRead id k _ => mkRelayChannel id k ∈ chans
  | PCloseChan _ remaining _ => remaining = 0 -> no_healthy c
  | PSetErr _ => no_healthy c
  | PPushErr _ => failed c
  | PClose => b = true \/ failed c
  | PStoreClosed => mc_closed c = false /\ mc_done c = false
  | PCloseDone => mc_closed c = true
  | PTakeObserver => mc_closed c = true /\ mc_done c = true
  | PCallObserver u => shut c /\ (u = None \/ u = Some observer)
  | PCloseAll => shut c
  | PClosing rest _ => shut c /\ all_closed rest c
  | PSetObserver u => u = Some observer
  | _ => True
  end.

(** The body of [closeOnce]: at most one thread runs it, and its phase
    determines the flags. *)
Record closing_inv (b : bool) (c : MConn) (l : list pc) : Prop := {
  inv_closer : occ closer l = if decide (mc_once c = OnceRunning) then 1 else 0;
  inv_new : mc_once c = OnceNew -> mc_closed c = false /\ mc_done c = false;
  inv_done : mc_once c = OnceDone -> shut c /\ all_closed [] c;
  inv_why : mc_once c <> OnceNew -> b = true \/ failed c }.

(** The loss of the last channel is on its way to close the connection. *)
Record failing_inv (b : bool) (c : MConn) (l : list pc) : Prop := {
  inv_fail : no_healthy c -> mc_readErr c <> None \/ 0 < occ failing l;
  inv_err : mc_readErr c <> None -> no_healthy c /\ (mc_once c <> OnceNew \/ 0 < occ to_close l);
  inv_close : b = true -> mc_once c <> OnceNew \/ 0 < occ closes l }.

Record queue_inv (c : MConn) : Prop := {
  inv_hints : length (mc_hints c) <= relayMultipathHintQueueSize /\ Forall known (mc_hints c);
  inv_reads : length (mc_reads c) <= relayMultipathReadQueueSize }.

(** The unregister function is with one thread, stored, or called. *)
Record observer_inv (n : nat) (c : MConn) (l : list pc) : Prop := {
  inv_obs_count : n <= 1 /\
    occ holds l + opt_count (mc_unregister c) + length (out_unregistered c) = n;
  inv_obs : Forall (eq observer) (out_unregistered c) /\
    (mc_unregister c = None \/ mc_unregister c = Some observer) }.

Record inv (n : nat) (b : bool) (s : Sys) : Prop := {
  inv_static : static (sy_conn s);
  inv_threads : Forall (thread_ok b (sy_conn s)) (sy_threads s);
  inv_closing : closing_inv b (sy_conn s) (sy_threads s);
  inv_failing : failing_inv b (sy_conn s) (sy_threads s);
  inv_queue : queue_inv (sy_conn s);
  inv_observer : observer_inv n (sy_conn s) (sy_threads s) }.

(** The cases of one step. *)
Ltac exec_cases E :=
  simpl in E;
  unfold exec_read, exec_mark, exec_observe, exec_select, exec_setUnregisterObserver, push_hint,
    push_read in E;
  repeat case_match; simplify_eq/=; try done.

(** How one step of a thread may change the state another thread sees. *)
Lemma exec_static ev p c c' p' : exec ev p c = Some (c', p') -> static c -> static c'.
Proof.
  intros E.
  assert (mc_channels c' = mc_channels c /\ mc_ids c' = mc_ids c /\ mc_allowed c' = mc_allowed c /\
    mc_primary c' = mc_primary c /\ map ch_ID (mc_selector c') = map ch_ID (mc_selector c))
    as (Ec & Ei & Ea & Ep & Es).
  { destruct p; exec_cases E.
    split_and!; try done. apply mark_unhealthy_ids. }
  intros [H1 H2 H3 H4 H5 H6]. constructor; rewrite ?Ec, ?Ei, ?Ea, ?Ep, ?Es; done.
Qed.

Lemma exec_health ev p c c' p' : exec ev p c = Some (c', p') -> no_healthy c -> no_healthy c'.
Proof.
  unfold no_healthy. intros E H.
  destruct p; exec_cases E.
  pose proof (mark_unhealthy_count (FormatUint id) (mc_selector c)). lia.
Qed.

Lemma exec_readErr ev p c c' p' :
  exec ev p c = Some (c', p') -> mc_readErr c <> None -> mc_readErr c' <> None.
Proof.
  intros E H.
  destruct p; exec_cases E.
Qed.

Lemma exec_out_closed ev p c c' p' rest :
  exec ev p c = Some (c', p') -> all_closed rest c -> all_closed rest c'.
Proof.
  unfold all_closed. intros E H.
  destruct p; exec_cases E;
    intros id' k Hk; (destruct (H id' k Hk) as [?|?]; [by left|right; by right]).
Qed.

(** A thread outside the body of [closeOnce] leaves the closing state alone,
    except for entering it. *)
Lemma exec_flags ev p c c' p' :
  exec ev p c = Some (c', p') -> closer p = 0 ->
  mc_closed c' = mc_closed c /\ mc_done c' = mc_done c /\
  (mc_closed c = true -> mc_unregister c' = mc_unregister c) /\
  (closer p' = 0 -> mc_once c' = mc_once c) /\
  (closer p' = 1 -> mc_once c = OnceNew /\ mc_once c' = OnceRunning /\ p' = PStoreClosed).
Proof.
  intros E Hp.
  destruct p; simpl in Hp; try done; exec_cases E;
    split_and!; try done; naive_solver.
Qed.

Lemma thread_frame ev p c c' p' b q :
  exec ev p c = Some (c', p') -> thread_ok b c q -> (closer p = 1 -> closer q = 0) ->
  thread_ok b c' q.
Proof.
  intros E Hq Hx.
  pose proof (exec_health _ _ _ _ _ E) as Hh. pose proof (exec_readErr _ _ _ _ _ E) as Hr.
  assert (failed c -> failed c') as Hf by (unfold failed; tauto).
  assert (closer q = 1 -> mc_closed c' = mc_closed c /\ mc_done c' = mc_done c /\
    (mc_closed c = true -> mc_unregister c' = mc_unregister c)) as Hc.
  { intros Hq1. destruct (decide (closer p = 0)) as [H0|H0].
    - destruct (exec_flags _ _ _ _ _ E H0) as (? & ? & ? & _). auto.
    - assert (closer p = 1) by (destruct p; simpl in *; done). lia. }
  assert (shut c -> closer q = 1 -> shut c') as Hs.
  { intros (H1 & H2 & H3) Hq1. unfold shut. destruct (Hc Hq1) as (-> & -> & Hu).
    split_and!; [done..|]. by rewrite Hu. }
  destruct q; simpl in *; try done; try tauto;
    try (destruct (Hc eq_refl) as (-> & -> & _); done).
  - destruct (Hc eq_refl) as (-> & _); done.
  - destruct Hq as [Hq Ha]. split; [by apply Hs|]. by eapply exec_out_closed.
Qed.

Lemma static_select c flow ch id : static c ->
  SelectChannel flow (mc_selector c) = Ok ch -> mc_ids c !! ch_ID ch = Some id -> known id.
Proof.
  intros S Es Ei. unfold SelectChannel in Es. pose proof (select_best flow (mc_selector c)) as Hb.
  destruct (foldl _ None _) as [[d x]|]; simplify_eq. destruct Hb as (Hd & _).
  assert (ch_ID ch ∈ map (fun ch => FormatUint (rc_id ch)) chans) as H.
  { rewrite <- (st_selector _ S). by apply (list_elem_of_fmap_2 ch_ID). }
  apply list_elem_of_fmap_1 in H as (rc & Er & Hrc).
  rewrite Er, (st_ids _ S rc Hrc) in Ei. simplify_eq. exists (rc_conn rc). by destruct rc.
Qed.

Lemma first_healthy_known c l k id : static c ->
  first_healthy c l = Some (k, id) -> mkRelayChannel id k ∈ chans.
Proof.
  intros S. induction l as [|ch l IH]; simpl; [done|].
  destruct (ch_Healthy ch); [|done]. destruct (mc_ids c !! ch_ID ch) as [i|]; [|done].
  destruct (mc_channels c !! i) as [k'|] eqn:Ek; [|done].
  intros ?; simplify_eq. by apply (st_known _ S).
Qed.

Lemma connForWrite_known c id0 k id : static c ->
  connForWrite c id0 = Some (k, id) -> mkRelayChannel id k ∈ chans.
Proof.
  intros S. unfold connForWrite, usable_conn.
  destruct (channelHealthyLocked c id0).
  1: destruct (mc_channels c !! id0) as [k'|] eqn:E1;
    [intros ?; simplify_eq; by apply (st_known _ S)|].
  all: destruct (channelHealthyLocked c (mc_primary c)); [|by apply first_healthy_known];
    destruct (mc_channels c !! mc_primary c) as [k'|] eqn:E2;
    [intros ?; simplify_eq; by apply (st_known _ S)|by apply first_healthy_known].
Qed.

Lemma known_primary c : static c -> chans <> [] -> known (mc_primary c).
Proof.
  intros S Hne. rewrite (st_primary _ S). clear S. unfold known.
  destruct chans as [|[id k] l]; [done|].
  exists k. by left.
Qed.

Lemma exec_thread ev p c c' p' n b s :
  inv n b s -> chans <> [] -> sy_conn s = c -> p ∈ sy_threads s ->
  exec ev p c = Some (c', p') -> thread_ok b c' p'.
Proof.
  intros I Hne <- Hp E. set (c := sy_conn s) in *.
  pose proof (proj1 (Forall_forall _ _) (inv_threads _ _ _ I) p Hp) as Ht. cbn beta in Ht.
  pose proof (inv_static _ _ _ I) as S. fold c in Ht, S.
  pose proof (known_primary _ S Hne) as Kp.
  pose proof (exec_health _ _ _ _ _ E) as Hh. pose proof (exec_readErr _ _ _ _ _ E) as Hr.
  destruct p; simpl in Ht; try (exec_cases E; fail).
  - (* PSelect *)
    exec_cases E. by eapply static_select.
  - (* PWriteHint *)
    destruct (inv_hints _ (inv_queue _ _ _ I)) as [_ Hk]. fold c in Hk. exec_cases E.
    by inversion Hk.
  - (* PWritePick *)
    exec_cases E. by eapply connForWrite_known.
  - (* PWriteConn *) exec_cases E. by exists c0.
  - (* PReadConn *) exec_cases E. by exists c0.
  - (* PCloseChan *) exec_cases E; by apply Ht.
  - (* PPushErr *) simpl in E. simplify_eq. right. unfold failed in *. split; tauto.
  - (* PClose *)
    pose proof (inv_new _ _ _ (inv_closing _ _ _ I)) as Hn. fold c in Hn. exec_cases E. by apply Hn.
  - (* PTakeObserver *)
    destruct (inv_obs _ _ _ (inv_observer _ _ _ I)) as [_ Ho]. fold c in Ho. exec_cases E.
    destruct Ht as [H1 H2]. split; [by split_and!|done].
  - (* PCallObserver *) destruct Ht as [Ht _]. exec_cases E.
  - (* PCloseAll *)
    exec_cases E. split; [done|]. intros id k Hk. left.
    match goal with H : e_order _ ≡ₚ _ |- _ => rewrite H end.
    apply list_elem_of_fmap. exists (id, k). split; [done|]. by apply elem_of_map_to_list.
  - (* PClosing *)
    destruct Ht as [Hs Ha]. exec_cases E; (split; [done|]); intros id k Hk;
      (destruct (Ha id k Hk) as [[->|?]%elem_of_cons|?]; [right; by left|by left|right; by right]).
Qed.

Lemma forall_insert (P Q : pc -> Prop) l i p' :
  Forall P l -> Q p' -> (forall j q, j <> i -> l !! j = Some q -> P q -> Q q) ->
  Forall Q (<[i := p']> l).
Proof.
  intros Hl Hp Hq. apply Forall_lookup. intros j q Hj.
  destruct (decide (j = i)) as [->|Hne].
  - apply list_lookup_insert_Some in Hj as [(_ & <- & _)|[? _]]; done.
  - rewrite list_lookup_insert_ne in Hj by done.
    apply (Hq j); [done..|]. by eapply Forall_lookup_1.
Qed.

(** Two closing threads at different positions count twice. *)
Lemma occ_two f l i j p q : i <> j -> l !! i = Some p -> l !! j = Some q -> f p + f q <= occ f l.
Proof.
  revert i j. unfold occ. induction l as [|x l IH]; intros [|i] [|j] Hij Hi Hj; simplify_eq/=.
  - apply list_elem_of_lookup_2 in Hj. pose proof (occ_elem f l q Hj). unfold occ in *. lia.
  - apply list_elem_of_lookup_2 in Hi. pose proof (occ_elem f l p Hi). unfold occ in *. lia.
  - assert (i <> j) as Hij' by congruence. specialize (IH i j Hij' Hi Hj). lia.
Qed.

(** The thread in the body of [closeOnce] stays there until the end of the
    body. *)
Lemma exec_closer ev p c c' p' :
  exec ev p c = Some (c', p') -> closer p = 1 ->
  (closer p' = 1 /\ mc_once c' = mc_once c) \/
  (closer p' = 0 /\ mc_once c' = OnceDone /\ (exists r, p = PClosing [] r) /\
   mc_closed c' = mc_closed c /\ mc_done c' = mc_done c /\ mc_unregister c' = mc_unregister c).
Proof. intros E Hp. destruct p; simpl in Hp; try done; exec_cases E; naive_solver. Qed.

Lemma closer_cases p : closer p = 0 \/ closer p = 1.
Proof. destruct p; simpl; auto. Qed.

Lemma exec_starts_close ev p c c' :
  exec ev p c = Some (c', PStoreClosed) -> p = PClose.
Proof. intros E. destruct p; exec_cases E. Qed.

Lemma exec_failing ev p c c' p' :
  exec ev p c = Some (c', p') -> no_healthy c' -> mc_readErr c' = None ->
  failing p <= failing p' /\ (no_healthy c \/ failing p' = 1).
Proof.
  intros E Hn Hr. destruct p; exec_cases E; auto with lia.
  - unfold no_healthy in Hn. simpl in Hn. rewrite Hn. simpl. auto with lia.
  - by destruct remaining; [done|split; [lia|left]].
  - by destruct remaining; [done|split; [lia|left]].
Qed.

Lemma exec_error ev p c c' p' :
  exec ev p c = Some (c', p') -> mc_readErr c' <> None ->
  (mc_readErr c <> None /\ (to_close p <= to_close p' \/ mc_once c' <> OnceNew)) \/
  (exists e, p = PSetErr e /\ to_close p' = 1).
Proof.
  intros E Hr. destruct p; exec_cases E; try (left; split; [done|]; auto with lia; fail);
    try (right; by eexists).
  left. split; [done|]. right. congruence.
Qed.

Lemma exec_closes ev p c c' p' :
  exec ev p c = Some (c', p') -> closes p <= closes p' \/ mc_once c' <> OnceNew.
Proof. intros E. destruct p; exec_cases E; auto with lia. right. congruence. Qed.

Lemma exec_once ev p c c' p' :
  exec ev p c = Some (c', p') -> mc_once c <> OnceNew -> mc_once c' <> OnceNew.
Proof. intros E H. destruct p; exec_cases E; congruence. Qed.

Lemma exec_hints ev p c c' p' b :
  exec ev p c = Some (c', p') -> thread_ok b c p ->
  length (mc_hints c) <= relayMultipathHintQueueSize /\ Forall known (mc_hints c) ->
  length (mc_hints c') <= relayMultipathHintQueueSize /\ Forall known (mc_hints c').
Proof.
  intros E Ht [Hl Hk]. destruct p; exec_cases E.
  - rewrite length_app. simpl. split; [lia|]. apply Forall_app. auto.
  - split; [|by apply Forall_tail]. destruct (mc_hints c); simpl in *; lia.
  - rewrite length_app. simpl. split; [lia|]. apply Forall_app. auto.
  - rewrite H. split; [simpl; lia|done].
  - split; [simpl in Hl; lia|]. by inversion Hk.
Qed.

Lemma exec_reads ev p c c' p' :
  exec ev p c = Some (c', p') -> length (mc_reads c) <= relayMultipathReadQueueSize ->
  length (mc_reads c') <= relayMultipathReadQueueSize.
Proof.
  intros E Hl. destruct p; exec_cases E; rewrite ?length_app in *; simpl in *; lia.
Qed.

Lemma exec_observer ev p c c' p' b k :
  exec ev p c = Some (c', p') -> thread_ok b c p ->
  holds p + opt_count (mc_unregister c) + length (out_unregistered c) + k <= 1 ->
  holds p' + opt_count (mc_unregister c') + length (out_unregistered c') =
    holds p + opt_count (mc_unregister c) + length (out_unregistered c) /\
  (Forall (eq observer) (out_unregistered c) /\
     (mc_unregister c = None \/ mc_unregister c = Some observer) ->
   Forall (eq observer) (out_unregistered c') /\
     (mc_unregister c' = None \/ mc_unregister c' = Some observer)).
Proof.
  intros E Ht Hk. destruct p; simpl in Ht; exec_cases E.
  all: try (split; [lia|]; intros [? ?]; split; auto; fail).
  - unfold opt_count in *. split; [lia|]. intros [? ?]. auto.
  - destruct Ht as [_ [-> | ->]]; simpl; (split; [lia|]); intros [? ?]; auto.
Qed.

(** ** Every step preserves the invariant *)
Lemma closing_run b c l i p ev c' p' :
  closing_inv b c l -> l !! i = Some p -> thread_ok b c p -> exec ev p c = Some (c', p') ->
  closing_inv b c' (<[i := p']> l).
Proof.
  intros [Ic In Id Iw] Hi Ht E.
  pose proof (exec_health _ _ _ _ _ E) as Hh. pose proof (exec_readErr _ _ _ _ _ E) as Hr.
  pose proof (occ_elem closer l p (list_elem_of_lookup_2 _ _ _ Hi)) as Hocc.
  pose proof (occ_insert closer l i p p' Hi) as Hins.
  assert (failed c -> failed c') as Hf by (unfold failed; tauto).
  destruct (closer_cases p) as [H0|H1].
  - destruct (exec_flags _ _ _ _ _ E H0) as (F1 & F2 & F3 & Hsame & Hstart).
    destruct (closer_cases p') as [H0'|H1'].
    + specialize (Hsame H0').
      constructor; rewrite ?Hsame, ?F1, ?F2; [lia|done| |intros Hn; destruct (Iw Hn); auto].
      intros Hd. destruct (Id Hd) as [(S1 & S2 & S3) Ha].
      split; [|by eapply exec_out_closed]. unfold shut. by rewrite F1, F2, F3.
    + destruct (Hstart H1') as (E1 & E2 & ->). apply exec_starts_close in E as Ep. subst p.
      rewrite E1 in Ic. simpl in Ic. constructor; rewrite ?E2; try done; [simpl; lia|].
      intros _. destruct Ht; auto.
  - assert (mc_once c = OnceRunning) as Hrun by (case_decide; [done|lia]).
    rewrite Hrun in *. simpl in Ic. assert (b = true \/ failed c') as Hw by (destruct Iw; auto).
    destruct (exec_closer _ _ _ _ _ E H1) as [[H1' Eq]|(H0' & Eq & [r ->] & F1 & F2 & F3)];
      constructor; rewrite ?Eq, ?Hrun; try done; try (simpl; lia).
    intros _. destruct Ht as [(S1 & S2 & S3) Ha]. split; [|by eapply exec_out_closed].
    unfold shut. by rewrite F1, F2, F3.
Qed.

Lemma failing_run b c l i p ev c' p' :
  failing_inv b c l -> l !! i = Some p -> thread_ok b c p -> exec ev p c = Some (c', p') ->
  failing_inv b c' (<[i := p']> l).
Proof.
  intros [If Ie Ib] Hi Ht E. pose proof (list_elem_of_lookup_2 _ _ _ Hi) as Hp.
  pose proof (exec_health _ _ _ _ _ E) as Hh. pose proof (exec_readErr _ _ _ _ _ E) as Hr.
  pose proof (exec_once _ _ _ _ _ E) as Ho. constructor.
  - intros Hn. destruct (mc_readErr c') as [e|] eqn:Er; [by left|right].
    destruct (exec_failing _ _ _ _ _ E Hn Er) as [Hf Hor].
    pose proof (occ_insert failing l i p p' Hi). pose proof (occ_elem failing l p Hp).
    destruct Hor as [Hnc|]; [|lia]. destruct (If Hnc) as [Hc|]; [by destruct (Hr Hc)|lia].
  - intros Hn. pose proof (occ_insert to_close l i p p' Hi).
    destruct (exec_error _ _ _ _ _ E Hn) as [[Hc Hor]|(e & -> & H1)].
    + destruct (Ie Hc) as [? [?|?]]; split; auto.
      destruct Hor as [?|?]; [right; lia|by left].
    + split; [by apply Hh|right]. simpl in *. lia.
  - intros Hb. pose proof (occ_insert closes l i p p' Hi).
    destruct (Ib Hb) as [?|?]; [by left; apply Ho|].
    destruct (exec_closes _ _ _ _ _ E); [right; lia|by left].
Qed.

Lemma observer_run n b c l i p ev c' p' :
  observer_inv n c l -> l !! i = Some p -> thread_ok b c p -> exec ev p c = Some (c', p') ->
  observer_inv n c' (<[i := p']> l).
Proof.
  intros [[In1 Iob] Iobs] Hi Ht E.
  pose proof (occ_insert holds l i p p' Hi).
  pose proof (occ_elem holds l p (list_elem_of_lookup_2 _ _ _ Hi)).
  destruct (exec_observer _ _ _ _ _ _ (occ holds l - holds p) E Ht) as [Heq Hk]; [lia|].
  constructor; [lia|auto].
Qed.

Lemma inv_run n b s i p ev c' p' :
  inv n b s -> chans <> [] -> sy_threads s !! i = Some p ->
  exec ev p (sy_conn s) = Some (c', p') ->
  inv n b (mkSys c' (<[i := p']> (sy_threads s))).
Proof.
  intros I Hne Hi E. destruct s as [c l]. cbn [sy_conn sy_threads] in *.
  pose proof (list_elem_of_lookup_2 _ _ _ Hi) as Hp.
  pose proof (proj1 (Forall_forall _ _) (inv_threads _ _ _ I) p Hp) as Ht.
  pose proof (exec_thread _ _ _ _ _ _ _ _ I Hne eq_refl Hp E) as Ht'.
  destruct I as [Is It Ic If [Ih Ird] Iob]. cbn [sy_conn sy_threads] in *.
  constructor; cbn [sy_conn sy_threads];
    [by eapply exec_static| |by eapply closing_run|by eapply failing_run| |by eapply observer_run].
  - apply (forall_insert _ _ _ _ _ It Ht'). intros j q Hj Hq Hok.
    apply (thread_frame _ _ _ _ _ _ _ E Hok). intros Hp1.
    pose proof (occ_two closer l j i q p Hj Hq Hi). pose proof (inv_closer _ _ _ Ic).
    case_decide; lia.
  - constructor; [by eapply exec_hints|by eapply exec_reads].
Qed.

(** ** The initial state *)
Lemma add_channels_fields l c :
  let c' := foldl add_channel c l in
  mc_selector c' = mc_selector c ++ map (fun ch => mkChannel (FormatUint (rc_id ch)) true) l /\
  mc_allowed c' = mc_allowed c /\ mc_primary c' = mc_primary c /\ mc_hints c' = mc_hints c /\
  mc_reads c' = mc_reads c /\ mc_done c' = mc_done c /\ mc_unregister c' = mc_unregister c /\
  mc_once c' = mc_once c /\ mc_closed c' = mc_closed c /\ mc_readErr c' = mc_readErr c /\
  out_unregistered c' = out_unregistered c.
Proof.
  revert c. induction l as [|ch l IH]; intros c; simpl; [by rewrite app_nil_r|].
  destruct (IH (add_channel c ch)) as (-> & H). cbn zeta in H.
  split; [|exact H]. simpl. by rewrite <- app_assoc.
Qed.

Lemma add_channels_fresh l c id :
  id ∉ map rc_id l ->
  mc_channels (foldl add_channel c l) !! id = mc_channels c !! id /\
  mc_ids (foldl add_channel c l) !! FormatUint id = mc_ids c !! FormatUint id.
Proof.
  revert c. induction l as [|ch l IH]; intros c; simpl; [done|].
  intros [Hne Hl]%not_elem_of_cons. destruct (IH (add_channel c ch) Hl) as [-> ->]. simpl.
  rewrite !lookup_insert_ne; [done| |done]. intros Heq%(inj pretty). done.
Qed.

Lemma add_channels_lookup l c ch :
  NoDup (map rc_id l) -> ch ∈ l ->
  mc_channels (foldl add_channel c l) !! rc_id ch = Some (rc_conn ch) /\
  mc_ids (foldl add_channel c l) !! FormatUint (rc_id ch) = Some (rc_id ch).
Proof.
  revert c. induction l as [|x l IH]; intros c; simpl; [by intros _ ?%not_elem_of_nil|].
  intros [Hx Hnd]%NoDup_cons [->|Hin]%elem_of_cons; [|by apply IH].
  destruct (add_channels_fresh l (add_channel c x) (rc_id x) Hx) as [-> ->]. simpl.
  by rewrite !lookup_insert_eq.
Qed.

Lemma add_channels_known l c id k :
  mc_channels (foldl add_channel c l) !! id = Some k ->
  mc_channels c !! id = Some k \/ mkRelayChannel id k ∈ l.
Proof.
  revert c. induction l as [|x l IH]; intros c; simpl; [auto|].
  intros [H|H]%IH; [|right; by right]. simpl in H.
  apply lookup_insert_Some in H as [[<- <-]|[_ H]]; [right; destruct x; by left|by left].
Qed.

Lemma count_healthy_init l :
  count_healthy (map (fun ch => mkChannel (FormatUint (rc_id ch)) true) l) = length l.
Proof. induction l as [|x l IH]; [done|]. simpl map. rewrite count_healthy_cons, IH. done. Qed.

Lemma init_inv : NoDup (map rc_id chans) -> chans <> [] -> inv 0 false init_sys.
Proof.
  intros Hnd Hne. unfold init_sys, newRelayMultipathConn.
  set (c0 := mkMConn ∅ [] ∅ allowed _ [] [] false None OnceNew false None [] [] []).
  destruct (add_channels_fields chans c0)
    as (F1 & F2 & F3 & F4 & F5 & F6 & F7 & F8 & F9 & F10 & F11).
  set (c := foldl add_channel c0 chans) in *.
  set (readers := map (fun ch => PReadConn (rc_id ch) (rc_conn ch)) chans).
  assert (forall f, (forall id k, f (PReadConn id k) = 0) -> occ f readers = 0) as Hocc.
  { intros f Hf. apply occ_zero, Forall_forall. intros p (ch & -> & _)%list_elem_of_fmap. auto. }
  assert (~ no_healthy c) as Hh.
  { unfold no_healthy. rewrite F1. simpl. rewrite count_healthy_init. by destruct chans. }
  constructor; cbn [sy_conn sy_threads].
  - constructor; try done.
    + rewrite F1. simpl. by rewrite map_map.
    + intros ch Hch. by apply add_channels_lookup.
    + intros id k [H|H]%add_channels_known; [done|done].
    + intros ch Hch. by apply add_channels_lookup.
  - apply Forall_forall. intros p (ch & -> & Hch)%list_elem_of_fmap. by destruct ch.
  - constructor; rewrite F8; [|by rewrite F6, F9|done..]. by rewrite Hocc.
  - constructor; [done|by rewrite F10|done].
  - constructor; [rewrite F4|rewrite F5]; simpl; [|lia]. split; [lia|by constructor].
  - constructor; rewrite F7, F11; [|by auto]. rewrite Hocc by done. simpl. lia.
Qed.

(** ** New calls *)
Lemma inv_spawn n n' b b' s p :
  inv n b s -> (b = true -> b' = true) -> closer p = 0 -> n' <= 1 -> n' = n + holds p ->
  (b' = true -> b = true \/ closes p = 1) -> thread_ok b' (sy_conn s) p ->
  inv n' b' (mkSys (sy_conn s) (sy_threads s ++ [p])).
Proof.
  intros [Is It [Ic In Id Iw] [If Ie Ib] Iq [[In1 Iob] Iobs]] Hb Hc Hn Hn' Hcl Ht.
  constructor; cbn [sy_conn sy_threads]; try done.
  - apply Forall_app. split; [|by constructor].
    eapply Forall_impl; [exact It|]. intros q Hq. destruct q; simpl in *; tauto.
  - constructor; try done; [rewrite occ_app; lia|].
    intros Ho. destruct (Iw Ho); auto.
  - constructor; rewrite ?occ_app; auto.
    + intros H. destruct (If H); [by left|right; lia].
    + intros H. destruct (Ie H) as [? [?|?]]; split; auto; right; lia.
    + intros H. destruct (Hcl H) as [Hb0|?]; [|right; lia].
      destruct (Ib Hb0); [by left|right; lia].
  - constructor; [|done]. rewrite occ_app. lia.
Qed.

Lemma reach_inv n b s :
  NoDup (map rc_id chans) -> chans <> [] -> reach n b s -> inv n b s.
Proof.
  intros Hnd Hne. induction 1 as [|n b s i p ev c' p' _ IH Hi E|n b s p _ IH Hp|n b s _ IH|b s _ IH].
  - by apply init_inv.
  - by eapply inv_run.
  - pose proof (inv_obs_count _ _ _ (inv_observer _ _ _ IH)).
    destruct p; simpl in Hp; try done; apply (inv_spawn n _ b); simpl; auto; lia.
  - pose proof (inv_obs_count _ _ _ (inv_observer _ _ _ IH)).
    apply (inv_spawn n _ b); simpl; auto; lia.
  - apply (inv_spawn 0 _ b); simpl; auto; lia.
Qed.

(** ** Channel health *)
Lemma selector_nodup c : NoDup (map rc_id chans) -> static c -> NoDup (map ch_ID (mc_selector c)).
Proof.
  intros Hnd S. rewrite (st_selector _ S), <- (map_map rc_id FormatUint).
  apply NoDup_fmap_2; [|done]. intros x y. apply (inj pretty).
Qed.

Lemma healthy_of_elem l ch : NoDup (map ch_ID l) -> ch ∈ l -> healthy_of (ch_ID ch) l = ch_Healthy ch.
Proof.
  induction l as [|x l IH]; simpl; [by intros _ ?%not_elem_of_nil|].
  intros [Hx Hnd]%NoDup_cons [->|Hin]%elem_of_cons; [by rewrite decide_True|].
  rewrite decide_False; [by apply IH|]. intros Heq. apply Hx. rewrite Heq.
  by apply (list_elem_of_fmap_2 ch_ID).
Qed.

Lemma healthy_of_known id l : healthy_of id l = true -> exists ch, ch ∈ l /\ ch_ID ch = id /\ ch_Healthy ch = true.
Proof.
  induction l as [|x l IH]; simpl; [done|]. case_decide as E.
  - intros H. exists x. split_and!; [by left|done..].
  - intros (ch & ? & ?)%IH. exists ch. split; [by right|done].
Qed.

(** The channel behind a selector entry. *)
Lemma selector_channel c ch : static c -> ch ∈ mc_selector c ->
  exists id k, ch_ID ch = FormatUint id /\ mkRelayChannel id k ∈ chans /\
    mc_ids c !! ch_ID ch = Some id /\ mc_channels c !! id = Some k.
Proof.
  intros S Hch.
  assert (ch_ID ch ∈ map (fun x => FormatUint (rc_id x)) chans) as H.
  { rewrite <- (st_selector _ S). by apply (list_elem_of_fmap_2 ch_ID). }
  apply list_elem_of_fmap_1 in H as (x & Ex & Hx). exists (rc_id x), (rc_conn x).
  rewrite Ex, (st_ids _ S x Hx), (st_channels _ S x Hx). by destruct x.
Qed.

Lemma usable_healthy c id : static c ->
  channelHealthyLocked c id = true -> exists k, usable_conn c id = Some k.
Proof.
  intros S Hh. unfold usable_conn. rewrite Hh.
  apply healthy_of_known in Hh as (ch & Hch & Ei & _).
  destruct (selector_channel c ch S Hch) as (id' & k & E & _ & _ & Hk).
  rewrite E in Ei. apply (inj pretty) in Ei as ->. by exists k.
Qed.

Lemma first_healthy_spec c l : static c -> (forall ch, ch ∈ l -> ch ∈ mc_selector c) ->
  match first_healthy c l with
  | Some (k, id) => exists ch, ch ∈ l /\ ch_ID ch = FormatUint id /\ ch_Healthy ch = true
  | None => count_healthy l = 0
  end.
Proof.
  intros S. induction l as [|x l IH]; intros Hl; simpl; [done|].
  rewrite count_healthy_cons. destruct (ch_Healthy x) eqn:Eh.
  - destruct (selector_channel c x S) as (id & k & E & _ & -> & ->); [apply Hl; by left|].
    exists x. split_and!; [by left|done..].
  - specialize (IH (fun ch H => Hl ch (list_elem_of_further ch x l H))).
    destruct (first_healthy c l) as [[k id]|]; [|done].
    destruct IH as (ch & ? & ?). exists ch. split; [by right|done].
Qed.

(** The choice of [connForWrite]: the preferred channel, else the primary
    one, else any healthy one. *)
Lemma connForWrite_spec c id : NoDup (map rc_id chans) -> static c ->
  match connForWrite c id with
  | Some (k, id') =>
      mkRelayChannel id' k ∈ chans /\ channelHealthyLocked c id' = true /\
      (channelHealthyLocked c id = true -> id' = id) /\
      (channelHealthyLocked c id = false -> channelHealthyLocked c (mc_primary c) = true ->
       id' = mc_primary c)
  | None => no_healthy c
  end.
Proof.
  intros Hnd S. pose proof (connForWrite_known c id) as Hkn. unfold connForWrite in *.
  destruct (channelHealthyLocked c id) eqn:E1.
  - destruct (usable_healthy c id S E1) as [k Hk]. rewrite Hk in *.
    split_and!; [by apply Hkn|done..].
  - unfold usable_conn at 1 in Hkn. unfold usable_conn at 1. rewrite E1 in *.
    destruct (channelHealthyLocked c (mc_primary c)) eqn:E2.
    + destruct (usable_healthy c _ S E2) as [k Hk]. rewrite Hk in *.
      split_and!; [by apply Hkn|done..].
    + unfold usable_conn in *. rewrite E2 in *.
      pose proof (first_healthy_spec c (mc_selector c) S (fun _ H => H)) as Hf.
      destruct (first_healthy c (mc_selector c)) as [[k id']|]; [|done].
      destruct Hf as (ch & Hch & Ei & Hh). split_and!; [by apply Hkn| |done..].
      unfold channelHealthyLocked. rewrite <- Ei, healthy_of_elem; [done| |done].
      by apply selector_nodup.
Qed.

Lemma mark_unhealthy_other id id' l : id <> id' ->
  healthy_of id' (mark_unhealthy id l) = healthy_of id' l.
Proof.
  intros Hne. induction l as [|x l IH]; simpl; [done|].
  case_decide; simpl; [by rewrite !decide_False by congruence|by rewrite IH].
Qed.

Lemma mark_unhealthy_self id l : healthy_of id (mark_unhealthy id l) = false.
Proof.
  induction l as [|x l IH]; simpl; [done|].
  case_decide as E; simpl; [by rewrite decide_True|by rewrite decide_False].
Qed.

(** ** Progress of the shutdown *)

(** A step of one of the running threads. *)
Definition istep (s s' : Sys) : Prop :=
  exists i p ev c' p', sy_threads s !! i = Some p /\ exec ev p (sy_conn s) = Some (c', p') /\
    s' = mkSys c' (<[i := p']> (sy_threads s)).

Definition completes (s : Sys) : Prop :=
  exists s', rtc istep s s' /\ mc_once (sy_conn s') = OnceDone.

Lemma occ_pos f l : 0 < occ f l -> exists i p, l !! i = Some p /\ 0 < f p.
Proof.
  unfold occ. induction l as [|q l IH]; simpl; [lia|]. intros H.
  destruct (decide (0 < f q)); [by exists 0, q|]. destruct IH as (i & p & ? & ?); [lia|].
  by exists (S i), p.
Qed.

Lemma istep_reach n b s s' : reach n b s -> istep s s' -> reach n b s'.
Proof. intros H (i & p & ev & c' & p' & Hi & E & ->). by eapply reach_run. Qed.

Lemma completes_step s i p ev c' p' :
  sy_threads s !! i = Some p -> exec ev p (sy_conn s) = Some (c', p') ->
  completes (mkSys c' (<[i := p']> (sy_threads s))) -> completes s.
Proof.
  intros Hi E (s' & Hs & Hd). exists s'. split; [|done].
  eapply rtc_l; [|exact Hs]. by exists i, p, ev, c', p'.
Qed.

Definition some_env (order : list conn_id) : env := mkEnv (inl []) (0, None) None true order.

Lemma closing_completes rest : forall r s i,
  sy_threads s !! i = Some (PClosing rest r) -> completes s.
Proof.
  induction rest as [|k rest IH]; intros r s i Hi;
    pose proof (lookup_lt_Some _ _ _ Hi) as Hlt.
  - eapply (completes_step s i _ (some_env [])); [done..|].
    eexists. split; [apply rtc_refl|done].
  - eapply (completes_step s i _ (some_env [])); [done..|].
    eapply IH. simpl. by apply list_lookup_insert_eq.
Qed.

(** The body of [closeOnce] runs to its end. *)
Lemma closer_completes s i p :
  sy_threads s !! i = Some p -> closer p = 1 -> completes s.
Proof.
  set (ev := fun c => some_env (map_to_list (mc_channels c)).*2).
  assert (forall s i, sy_threads s !! i = Some PCloseAll -> completes s) as H5.
  { intros s' j Hj. pose proof (lookup_lt_Some _ _ _ Hj).
    eapply (completes_step s' j _ (ev (sy_conn s'))); [done|simpl; by rewrite decide_True|].
    eapply closing_completes. simpl. by apply list_lookup_insert_eq. }
  assert (forall s i u, sy_threads s !! i = Some (PCallObserver u) -> completes s) as H4.
  { intros s' j u Hj. pose proof (lookup_lt_Some _ _ _ Hj).
    eapply (completes_step s' j _ (ev (sy_conn s'))); [done..|].
    eapply H5. simpl. by apply list_lookup_insert_eq. }
  assert (forall s i, sy_threads s !! i = Some PTakeObserver -> completes s) as H3.
  { intros s' j Hj. pose proof (lookup_lt_Some _ _ _ Hj).
    eapply (completes_step s' j _ (ev (sy_conn s'))); [done..|].
    eapply H4. simpl. by apply list_lookup_insert_eq. }
  assert (forall s i, sy_threads s !! i = Some PCloseDone -> completes s) as H2.
  { intros s' j Hj. pose proof (lookup_lt_Some _ _ _ Hj).
    eapply (completes_step s' j _ (ev (sy_conn s'))); [done..|].
    eapply H3. simpl. by apply list_lookup_insert_eq. }
  intros Hi Hp. pose proof (lookup_lt_Some _ _ _ Hi).
  destruct p; simpl in Hp; try done; eauto using closing_completes.
  eapply (completes_step s i _ (ev (sy_conn s))); [done..|].
  eapply H2. simpl. by apply list_lookup_insert_eq.
Qed.

(** A thread on its way to close, in any reachable state. *)
Lemma to_close_completes n b s i p :
  NoDup (map rc_id chans) -> chans <> [] -> reach n b s ->
  sy_threads s !! i = Some p -> 0 < to_close p -> completes s.
Proof.
  intros Hnd Hne.
  assert (forall s i, reach n b s -> sy_threads s !! i = Some PClose -> completes s) as Hc.
  { intros s' j R Hj. pose proof (lookup_lt_Some _ _ _ Hj) as Hlt.
    pose proof (inv_closer _ _ _ (inv_closing _ _ _ (reach_inv _ _ _ Hnd Hne R))) as Hcl.
    destruct (mc_once (sy_conn s')) eqn:Eo.
    - eapply (completes_step s' j _ (some_env [])); [done|simpl; by rewrite Eo|].
      eapply closer_completes; [simpl; by apply list_lookup_insert_eq|done].
    - simpl in Hcl. destruct (occ_pos closer (sy_threads s')) as (k & q & Hk & Hq); [lia|].
      eapply closer_completes; [done|]. destruct (closer_cases q); [lia|done].
    - exists s'. split; [apply rtc_refl|done]. }
  intros R Hi Hp. pose proof (lookup_lt_Some _ _ _ Hi).
  destruct p; simpl in Hp; try lia; [|by eapply Hc].
  eapply (completes_step s i _ (some_env [])); [done..|].
  eapply Hc; [by eapply (reach_run _ _ _ _ _ (some_env []))|simpl; by apply list_lookup_insert_eq].
Qed.

Lemma failing_completes n b s i p :
  NoDup (map rc_id chans) -> chans <> [] -> reach n b s ->
  sy_threads s !! i = Some p -> 0 < failing p -> completes s.
Proof.
  intros Hnd Hne.
  assert (forall s i e, reach n b s -> sy_threads s !! i = Some (PSetErr e) -> completes s) as Hc.
  { intros s' j e R Hj. pose proof (lookup_lt_Some _ _ _ Hj).
    eapply (completes_step s' j _ (some_env [])); [done..|].
    eapply to_close_completes; [done..|by eapply (reach_run _ _ _ _ _ (some_env []))|simpl; by apply list_lookup_insert_eq|].
    simpl; lia. }
  intros R Hi Hp. pose proof (lookup_lt_Some _ _ _ Hi).
  destruct p; simpl in Hp; try lia; [|by eapply Hc].
  destruct remaining; [|lia].
  eapply (completes_step s i _ (some_env [])); [done..|].
  eapply Hc; [by eapply (reach_run _ _ _ _ _ (some_env []))|simpl; by apply list_lookup_insert_eq].
Qed.

End system.

(** ** Properties *)

Lemma quiescent_occ f s : quiescent s ->
  (forall p, match p with PRet _ | PReadConn _ _ => f p = 0 | _ => True end) ->
  occ f (sy_threads s) = 0.
Proof.
  intros Hq Hf. apply occ_zero. eapply Forall_impl; [exact Hq|].
  intros p Hp. specialize (Hf p). by destruct p.
Qed.

Lemma idle_zero (f : pc -> nat) :
  (forall r, f (PRet r) = 0) -> (forall id k, f (PReadConn id k) = 0) ->
  forall p, match p with PRet _ | PReadConn _ _ => f p = 0 | _ => True end.
Proof. intros H1 H2 []; auto. Qed.

(** C27: closing is idempotent and complete under every interleaving.  The
    observer's unregister function is never called twice, also when
    [setUnregisterObserver] races with [Close]; and once the body of [Close]
    has run, the connection is closed, its [done] channel is closed, every
    underlying connection has been closed, and the observer has been
    unregistered exactly once unless its registration is still on its way. *)
Theorem multipath_close_once :
  forall chans allowed observer n b s,
  NoDup (map rc_id chans) -> chans <> [] -> reach chans allowed observer n b s ->
  length (out_unregistered (sy_conn s)) <= 1 /\
  (mc_once (sy_conn s) = OnceDone ->
   mc_closed (sy_conn s) = true /\ mc_done (sy_conn s) = true /\
   (forall ch, ch ∈ chans -> rc_conn ch ∈ out_closed (sy_conn s)) /\
   (n = 1 -> (forall u, PSetObserver u ∉ sy_threads s) ->
    out_unregistered (sy_conn s) = [observer])).
Proof.
  intros chans allowed o n b s Hnd Hne R.
  destruct (reach_inv _ _ _ _ _ _ Hnd Hne R) as [Is It [Ic In Id Iw] _ _ [[Hn Hc] [Hu _]]].
  split; [lia|]. intros Hd. rewrite Hd in Ic. simpl in Ic. destruct (Id Hd) as [(S1 & S2 & S3) Ha].
  split_and!; [done..| |].
  - intros ch Hch. destruct (Ha _ _ (st_channels _ _ _ Is ch Hch)) as [?%not_elem_of_nil|]; done.
  - intros -> Hset. rewrite S3 in Hc. simpl in Hc.
    assert (occ holds (sy_threads s) = 0) as H0.
    { apply occ_zero, Forall_forall. intros p Hp. pose proof (occ_elem closer _ p Hp) as Hcl.
      rewrite Ic in Hcl. destruct p; simpl in *; try done; [lia|]. by destruct (Hset u). }
    destruct (out_unregistered (sy_conn s)) as [|x [|y l]]; simpl in Hc; [lia| |lia].
    inversion Hu. by subst.
Qed.

(** C28: the connection survives as long as one channel does.  It is closed
    only by its owner or after every channel has failed, and then the reason
    is recorded; conversely, when all calls have come to rest, a connection
    that was closed by its owner or has lost every channel is closed
    completely. *)
Theorem multipath_failover :
  forall chans allowed observer n b s,
  NoDup (map rc_id chans) -> chans <> [] -> reach chans allowed observer n b s ->
  (mc_closed (sy_conn s) = true -> b = true \/ failed (sy_conn s)) /\
  (quiescent s ->
   (mc_once (sy_conn s) = OnceDone <-> b = true \/ no_healthy (sy_conn s)) /\
   (mc_closed (sy_conn s) = true <-> mc_once (sy_conn s) = OnceDone)).
Proof.
  intros chans allowed o n b s Hnd Hne R.
  destruct (reach_inv _ _ _ _ _ _ Hnd Hne R) as [_ _ [Ic In Id Iw] [If Ie Ib] _ _].
  assert (mc_closed (sy_conn s) = true -> mc_once (sy_conn s) <> OnceNew) as Hcl.
  { intros Hc Hn. destruct (In Hn). congruence. }
  split; [intros Hc; apply Iw, Hcl, Hc|]. intros Hq.
  assert (mc_once (sy_conn s) <> OnceNew -> mc_once (sy_conn s) = OnceDone) as Hdone.
  { intros Hn. rewrite (quiescent_occ closer s Hq) in Ic by (by apply idle_zero).
    by destruct (mc_once (sy_conn s)). }
  split; split.
  - intros Hd. destruct Iw as [?|[? _]]; [by rewrite Hd|by left|by right].
  - rewrite (quiescent_occ failing), (quiescent_occ to_close), (quiescent_occ closes) in *
      by (done || by apply idle_zero).
    intros [Hb|Hn]; apply Hdone.
    + destruct (Ib Hb); [done|lia].
    + destruct (If Hn) as [He|?]; [|lia]. destruct (Ie He) as [_ [?|?]]; [done|lia].
  - intros Hc. apply Hdone, Hcl, Hc.
  - intros Hd. by destruct (Id Hd) as [(? & _) _].
Qed.

(** shutting down cannot get stuck.  From every reachable state in which
    the owner has called [Close] or no channel is left, the running threads
    alone have an execution that ends in a completely closed connection: the
    body of [closeOnce] is never blocked, and whoever waits for it is waiting
    for a thread that can proceed. *)
Theorem multipath_shutdown_completes :
  forall chans allowed observer n b s,
  NoDup (map rc_id chans) -> chans <> [] -> reach chans allowed observer n b s ->
  b = true \/ no_healthy (sy_conn s) ->
  exists s', rtc istep s s' /\ reach chans allowed observer n b s' /\
    mc_once (sy_conn s') = OnceDone /\ mc_closed (sy_conn s') = true /\
    forall ch, ch ∈ chans -> rc_conn ch ∈ out_closed (sy_conn s').
Proof.
  intros chans allowed o n b s Hnd Hne R Hwhy.
  assert (completes s) as (s' & Hs & Hd).
  { destruct (reach_inv _ _ _ _ _ _ Hnd Hne R) as [_ _ [Ic In Id Iw] [If Ie Ib] _ _].
    assert (0 < occ to_close (sy_threads s) -> completes s) as Htc.
    { intros (i & p & Hi & Hp)%occ_pos. by eapply to_close_completes. }
    assert (mc_once (sy_conn s) <> OnceNew -> completes s) as Hnew.
    { intros Hn. destruct (mc_once (sy_conn s)) eqn:Eo; [done| |by exists s].
      simpl in Ic. destruct (occ_pos closer (sy_threads s)) as (i & p & Hi & Hp); [lia|].
      eapply closer_completes; [done|]. destruct (closer_cases p); [lia|done]. }
    destruct Hwhy as [Hb|Hn].
    - destruct (Ib Hb) as [?|(i & p & Hi & Hp)%occ_pos]; [auto|].
      eapply to_close_completes; [done..|]. destruct p; simpl in *; lia.
    - destruct (If Hn) as [He|(i & p & Hi & Hp)%occ_pos]; [|by eapply failing_completes].
      destruct (Ie He) as [_ [?|?]]; auto. }
  assert (reach chans allowed o n b s') as R'.
  { clear Hd Hwhy. induction Hs; [done|]. apply IHHs. by eapply istep_reach. }
  destruct (reach_inv _ _ _ _ _ _ Hnd Hne R') as [Is' _ [_ _ Id' _] _ _ _].
  destruct (Id' Hd) as [(? & _) Ha]. exists s'. split_and!; try done.
  intros ch Hch. by destruct (Ha _ _ (st_channels _ _ _ Is' ch Hch)) as [?%not_elem_of_nil|].
Qed.

(** C29: packets go to healthy channels.  In every reachable state the
    connection chosen for a write belongs to a healthy channel: the preferred
    one if it is healthy, else the primary one if it is, else some healthy
    one; a write finds no connection only when every channel has failed.  A
    failed write or read takes exactly its own channel out of service.  The
    hint queue is bounded and names existing channels only, and the read
    queue is bounded. *)
Theorem multipath_write_routing :
  forall chans allowed observer n b s,
  NoDup (map rc_id chans) -> chans <> [] -> reach chans allowed observer n b s ->
  (forall id,
     match connForWrite (sy_conn s) id with
     | Some (k, id') =>
         mkRelayChannel id' k ∈ chans /\ channelHealthyLocked (sy_conn s) id' = true /\
         (channelHealthyLocked (sy_conn s) id = true -> id' = id) /\
         (channelHealthyLocked (sy_conn s) id = false ->
          channelHealthyLocked (sy_conn s) (mc_primary (sy_conn s)) = true ->
          id' = mc_primary (sy_conn s))
     | None => forall id', channelHealthyLocked (sy_conn s) id' = false
     end) /\
  (forall id e id',
     channelHealthyLocked (exec_mark id e (sy_conn s)).1 id' =
       if decide (id' = id) then false else channelHealthyLocked (sy_conn s) id') /\
  length (mc_hints (sy_conn s)) <= relayMultipathHintQueueSize /\
  length (mc_reads (sy_conn s)) <= relayMultipathReadQueueSize /\
  Forall (fun id => exists k, mkRelayChannel id k ∈ chans) (mc_hints (sy_conn s)).
Proof.
  intros chans allowed o n b s Hnd Hne R.
  destruct (reach_inv _ _ _ _ _ _ Hnd Hne R) as [Is _ _ _ [[Hh Hk] Hr] _].
  split_and!; [| |done..].
  - intros id. pose proof (connForWrite_spec _ _ _ id Hnd Is) as Hspec.
    destruct (connForWrite (sy_conn s) id) as [[k id']|]; [done|].
    intros id'. unfold channelHealthyLocked. destruct (healthy_of _ _) eqn:E; [|done].
    apply healthy_of_known in E as (ch & Hch & _ & Hc).
    by rewrite (proj1 (count_healthy_zero _) Hspec ch Hch) in Hc.
  - intros id e id'. unfold channelHealthyLocked. simpl. case_decide as E.
    + subst. apply mark_unhealthy_self.
    + apply mark_unhealthy_other. intros Heq%(inj pretty). congruence.
Qed.

(** ** Concrete executions *)
Inductive move : Type := MRun (i : nat) (ev : env) | MCall (p : pc) | MClose | MSet.

Definition is_device_call (p : pc) : bool :=
  match p with PObserve _ _ | PWrite _ | PUserRead _ => true | _ => false end.

Definition play1 (observer : nat) (m : move) (t : nat * bool * Sys) : option (nat * bool * Sys) :=
  let '(n, b, s) := t in
  match m with
  | MRun i ev =>
      p ← sy_threads s !! i;
      '(c', p') ← exec ev p (sy_conn s);
      Some (n, b, mkSys c' (<[i := p']> (sy_threads s)))
  | MCall p =>
      if is_device_call p then Some (n, b, mkSys (sy_conn s) (sy_threads s ++ [p])) else None
  | MClose => Some (n, true, mkSys (sy_conn s) (sy_threads s ++ [PClose]))
  | MSet =>
      if decide (n = 0)
      then Some (1, b, mkSys (sy_conn s) (sy_threads s ++ [PSetObserver (Some observer)]))
      else None
  end.

Fixpoint play (observer : nat) (ms : list move) (t : nat * bool * Sys)
    : option (nat * bool * Sys) :=
  match ms with
  | [] => Some t
  | m :: ms => match play1 observer m t with Some t => play observer ms t | None => None end
  end.

Lemma play_reach chans allowed o ms n b s n' b' s' :
  reach chans allowed o n b s -> play o ms (n, b, s) = Some (n', b', s') ->
  reach chans allowed o n' b' s'.
Proof.
  revert n b s. induction ms as [|m ms IH]; intros n b s R; simpl; [by intros [= -> -> ->]|].
  destruct m as [i ev|p| |]; simpl.
  - destruct (sy_threads s !! i) as [p|] eqn:Ei; simpl; [|done].
    destruct (exec ev p (sy_conn s)) as [[c p']|] eqn:Ee; simpl; [|done].
    apply IH. by eapply reach_run.
  - destruct (is_device_call p) eqn:Ep; [|done]. apply IH, reach_call; [done|]. by destruct p.
  - apply IH. by apply (reach_close _ _ _ n b).
  - case_decide; [|done]. subst. by apply IH, reach_set.
Qed.

Definition wit_chans : list relayMultipathChannel := [mkRelayChannel 0 10; mkRelayChannel 1 11].

Definition env_ok : env := some_env [10; 11].
Definition env_fail : env := mkEnv (inr (ErrConn "reset")) (0, Some (ErrConn "reset")) None true [10; 11].

(** The observer is registered while another thread closes: the registration
    (thread 2) runs after [closed] is set, but before the close body
    (thread 3) takes the stored function. *)
Definition wit_close_script : list move :=
  [MSet; MClose; MRun 3 env_ok; MRun 3 env_ok; MRun 2 env_ok] ++
  replicate 7 (MRun 3 env_ok).

(** The reader of channel 0 fails, then the reader of channel 1. *)
Definition wit_fail_one : list move := replicate 4 (MRun 0 env_fail).
Definition wit_fail_both : list move := wit_fail_one ++ replicate 15 (MRun 1 env_fail).

Definition wit_end (ms : list move) : nat * bool * Sys :=
  default (0, false, init_sys wit_chans []) (play 7 ms (0, false, init_sys wit_chans [])).

Lemma wit_sys_reach ms n b s :
  play 7 ms (0, false, init_sys wit_chans []) = Some (n, b, s) -> reach wit_chans [] 7 n b s.
Proof. intros H. eapply play_reach; [apply reach_init|exact H]. Qed.

Lemma wit_nodup : NoDup (map rc_id wit_chans).
Proof. by_decide. Qed.

Lemma multipath_close_once_witness : exists s,
  reach wit_chans [] 7 1 true s /\ mc_once (sy_conn s) = OnceDone /\
  out_unregistered (sy_conn s) = [7].
Proof.
  exists (wit_end wit_close_script).2.
  assert (reach wit_chans [] 7 1 true (wit_end wit_close_script).2) as R.
  { apply (wit_sys_reach wit_close_script). vm_compute. reflexivity. }
  split_and!; [exact R|vm_compute; reflexivity|].
  apply (multipath_close_once wit_chans [] 7 1 true _ wit_nodup); [done|exact R| |done|].
  - vm_compute. reflexivity.
  - intros u Hu. vm_compute in Hu. by repeat (apply elem_of_cons in Hu as [Hu|Hu]; [done|]);
      apply not_elem_of_nil in Hu.
Defined.

Lemma multipath_failover_witness : exists s1 s2,
  reach wit_chans [] 7 0 false s1 /\ quiescent s1 /\ mc_closed (sy_conn s1) = false /\
  reach wit_chans [] 7 0 false s2 /\ quiescent s2 /\ mc_closed (sy_conn s2) = true.
Proof.
  exists (wit_end wit_fail_one).2, (wit_end wit_fail_both).2.
  assert (reach wit_chans [] 7 0 false (wit_end wit_fail_one).2) as R1.
  { apply (wit_sys_reach wit_fail_one). vm_compute. reflexivity. }
  assert (reach wit_chans [] 7 0 false (wit_end wit_fail_both).2) as R2.
  { apply (wit_sys_reach wit_fail_both). vm_compute. reflexivity. }
  assert (quiescent (wit_end wit_fail_both).2) as Q2 by (vm_compute; repeat constructor).
  split_and!; [exact R1|vm_compute; repeat constructor|vm_compute; reflexivity|exact R2|exact Q2|].
  destruct (multipath_failover wit_chans [] 7 0 false _ wit_nodup ltac:(done) R2) as [_ H].
  destruct (H Q2) as [Hdone Hclosed]. apply Hclosed, Hdone. right. vm_compute. reflexivity.
Defined.

Lemma multipath_shutdown_completes_witness : exists s,
  reach wit_chans [] 7 0 true s /\ mc_once (sy_conn s) = OnceDone.
Proof.
  assert (reach wit_chans [] 7 0 true (wit_end [MClose]).2) as R.
  { apply (wit_sys_reach [MClose]). vm_compute. reflexivity. }
  destruct (multipath_shutdown_completes wit_chans [] 7 0 true _ wit_nodup ltac:(done) R
    (or_introl eq_refl)) as (s & _ & Rs & Hd & _).
  by exists s.
Defined.

Lemma multipath_write_routing_witness : exists s,
  reach wit_chans [] 7 0 false s /\ connForWrite (sy_conn s) 0 = Some (11, 1%N) /\
  channelHealthyLocked (sy_conn s) 1 = true /\ length (mc_hints (sy_conn s)) <= 256.
Proof.
  exists (wit_end wit_fail_one).2.
  assert (reach wit_chans [] 7 0 false (wit_end wit_fail_one).2) as R.
  { apply (wit_sys_reach wit_fail_one). vm_compute. reflexivity. }
  destruct (multipath_write_routing wit_chans [] 7 0 false _ wit_nodup ltac:(done) R)
    as (Hw & _ & Hh & _). specialize (Hw 0%N).
  assert (connForWrite (sy_conn (wit_end wit_fail_one).2) 0 = Some (11, 1%N)) as E
    by (vm_compute; reflexivity).
  rewrite E in Hw. destruct Hw as (_ & Hhealthy & _). split_and!; [exact R|exact E|exact Hhealthy|].
  exact Hh.
Defined.
