(* ===== verification/AnonPolicy.v ===== *)
(** * The anonymity policy of the client
      (client/internal/anonymous: anonymous.go, runtime.go;
       shared/anonymous/endpoint.go)

    The checks that decide which endpoints and transports the client may use
    in anonymous mode, and what it reports about its system.  An error value
    is a [violation]; its constructors are the reasons of the source, without
    the text of the message. *)

From Stdlib Require Import ZArith Lia Ascii.
From stdpp Require Import base gmap strings numbers countable sorting list.
From S2P Require Import Prelude Netip GoStrings.

Definition TransportTorRelayOnly : gostring := lit "tor-relay-only".
Definition TransportI2PDatagram : gostring := lit "i2p-datagram".
Definition EndpointTransportTor : gostring := lit "tor".
Definition EndpointTransportI2P : gostring := lit "i2p".
Definition DefaultTorSOCKS5 : gostring := lit "127.0.0.1:9050".
Definition DefaultI2PSAM : gostring := lit "127.0.0.1:7656".
Definition DefaultI2PTunnelLength : Z := 1.
Definition DefaultI2PTunnelQuantity : Z := 3.
Definition I2PDaemonExternal : gostring := lit "external".
Definition I2PDaemonAuto : gostring := lit "auto".
Definition I2PDaemonManaged : gostring := lit "managed".
Definition DefaultI2PDaemonMode : gostring := I2PDaemonAuto.
Definition DefaultI2PDaemonPath : gostring := lit "i2pd".

Record TransportConfig : Type := mkTransport {
  Type_ : gostring;
  RequireAnonymous : bool;
  TorSOCKS5 : gostring;
  I2PSAM : gostring;
  I2PTunnelLength : Z;
  I2PTunnelQuantity : Z;
  I2PDestinationPublic : gostring;
  I2PDestinationPrivate : gostring;
  I2PDaemonMode : gostring;
  I2PDaemonPath : gostring;
  I2PDataDir : gostring }.

#[global] Instance TransportConfig_eq_dec : EqDecision TransportConfig.
Proof. solve_decision. Defined.

Definition emptyTransport : TransportConfig := mkTransport [] false [] [] 0 0 [] [] [] [] [].

Definition DefaultTransport : TransportConfig :=
  mkTransport TransportTorRelayOnly true DefaultTorSOCKS5 [] 0 0 [] [] [] [] [].

(** The reasons of [Violation]. *)
Inductive violation : Type :=
| NotRequired
| AddressEmpty (name : gostring)
| NotHostPort (name value : gostring)
| HostOrPortEmpty (name value : gostring)
| NotLoopback (name value : gostring)
| DestinationIncomplete
| UnsupportedDaemonMode (mode : gostring)
| TunnelLengthRange (n : Z)
| TunnelQuantityRange (n : Z)
| UnsupportedTransport (t : gostring)
| URLEmpty (service : gostring)
| URLNotAnonymous (service url : gostring)
| EndpointEmpty (service : gostring)
| EndpointNotAnonymous (service uri : gostring)
| EmptyNetworkConfig
| StunEnabled
| TurnEnabled
| RelayNotAnonymous (relay : gostring)
| TransportMismatch (service endpointTransport transport : gostring)
| GeneratedIncomplete
| GenerateFailed (msg : gostring).

#[global] Instance violation_eq_dec : EqDecision violation.
Proof. solve_decision. Defined.

Notation check := (res violation unit).

(** [if err := c1; err != nil { return err }; c2] *)
Definition then_check {A} (c1 : check) (c2 : res violation A) : res violation A := c1 ≫= fun _ => c2.
Notation "c1 ;;; c2" := (then_check c1 c2) (at level 100, c2 at level 200, right associativity).

(** The messages of the management service that the policy reads: the
    generated getters return empty values for a nil message. *)
Record HostConfig : Type := mkHostConfig { hc_uri : gostring }.
Record RelayConfig : Type := mkRelayConfig { rcfg_urls : list gostring }.
Record NetbirdConfig : Type := mkNetbirdConfig {
  nc_stuns : list HostConfig;
  nc_turns : list HostConfig;
  nc_signal : option HostConfig;
  nc_relay : option RelayConfig }.

Definition GetUrls (r : option RelayConfig) : list gostring :=
  match r with Some r => rcfg_urls r | None => [] end.

(** The fields of [system.Info] that identify the machine, and the others. *)
Record Info : Type := mkInfoRecord {
  Hostname_ : gostring;
  NetworkAddresses : list (Prefix * gostring);
  SystemSerialNumber : gostring;
  SystemProductName : gostring;
  SystemManufacturer : gostring;
  EnvCloud : gostring;
  EnvPlatform : gostring;
  AnonymousMode : bool;
  AnonymousTransport : gostring;
  I2PDestination : gostring;
  info_other : list gostring }.

(** A parsed [*url.URL] is represented by its [Host] field. *)
Record URL : Type := mkURL { url_Host : gostring }.

Section policy.
(** The lower-case mapping of strings that are not pure ASCII; SHA-256 with
    hexadecimal output; [i2psam.GenerateDestination]. *)
Context (unicode_lower : gostring -> gostring).
Context (sha256_hex : gostring -> gostring).
Context (generateI2PDestination : gostring -> gostring + gostring * gostring).
(** [EnsureTorDaemon] and [EnsureI2PDaemon]: whether the daemon was started
    by the client, or an error. *)
Context (ensureTorDaemon ensureI2PDaemon : TransportConfig -> violation + bool).

Definition default_if_empty (s d : gostring) : gostring := if decide (s = []) then d else s.
Definition default_if_zero (n d : Z) : Z := if decide (n = 0)%Z then d else n.

(** The trimming of all fields, before the defaults of the transport type. *)
Definition trimTransport (c : TransportConfig) : TransportConfig :=
  let type := if decide (Type_ c = []) then TransportTorRelayOnly else Type_ c in
  mkTransport (ToLower unicode_lower (TrimSpace type)) true
    (TrimSpace (TorSOCKS5 c)) (TrimSpace (I2PSAM c)) (I2PTunnelLength c) (I2PTunnelQuantity c)
    (TrimSpace (I2PDestinationPublic c)) (TrimSpace (I2PDestinationPrivate c))
    (ToLower unicode_lower (TrimSpace (I2PDaemonMode c)))
    (TrimSpace (I2PDaemonPath c)) (TrimSpace (I2PDataDir c)).

Definition NormalizeTransport (c : TransportConfig) : TransportConfig :=
  let c := trimTransport c in
  if decide (Type_ c = TransportTorRelayOnly) then
    mkTransport (Type_ c) (RequireAnonymous c) (default_if_empty (TorSOCKS5 c) DefaultTorSOCKS5)
      (I2PSAM c) (I2PTunnelLength c) (I2PTunnelQuantity c) (I2PDestinationPublic c)
      (I2PDestinationPrivate c) (I2PDaemonMode c) (I2PDaemonPath c) (I2PDataDir c)
  else if decide (Type_ c = TransportI2PDatagram) then
    mkTransport (Type_ c) (RequireAnonymous c) (TorSOCKS5 c)
      (default_if_empty (I2PSAM c) DefaultI2PSAM)
      (default_if_zero (I2PTunnelLength c) DefaultI2PTunnelLength)
      (default_if_zero (I2PTunnelQuantity c) DefaultI2PTunnelQuantity)
      (I2PDestinationPublic c) (I2PDestinationPrivate c)
      (default_if_empty (I2PDaemonMode c) DefaultI2PDaemonMode)
      (default_if_empty (I2PDaemonPath c) DefaultI2PDaemonPath) (I2PDataDir c)
  else c.

Definition validateHostPort (name value : gostring) : check :=
  if decide (value = []) then Err (AddressEmpty name) else
  match SplitHostPort value with
  | inl _ => Err (NotHostPort name value)
  | inr (host, port) =>
      if decide (TrimSpace host = [] \/ TrimSpace port = []) then Err (HostOrPortEmpty name value)
      else Ok tt
  end.

Definition validateLoopbackHostPort (name value : gostring) : check :=
  match SplitHostPort value with
  | inl _ => Err (NotHostPort name value)
  | inr (host, _) =>
      let host := Trim (TrimSpace host) (lit "[]") in
      if bool_decide (host = []) || EqualFold host (lit "localhost") then Ok tt
      else match ParseIP host with
           | Some ip => if IsLoopback ip then Ok tt else Err (NotLoopback name value)
           | None => Err (NotLoopback name value)
           end
  end.

Definition ValidateTransport (c : TransportConfig) : check :=
  let c := NormalizeTransport c in
  if negb (RequireAnonymous c) then Err NotRequired
  else if decide (Type_ c = TransportTorRelayOnly) then
    validateHostPort (lit "tor socks5") (TorSOCKS5 c);;;
    validateLoopbackHostPort (lit "tor socks5") (TorSOCKS5 c)
  else if decide (Type_ c = TransportI2PDatagram) then
    validateHostPort (lit "i2p sam") (I2PSAM c);;;
    if negb (Bool.eqb (bool_decide (I2PDestinationPublic c = []))
                      (bool_decide (I2PDestinationPrivate c = [])))
    then Err DestinationIncomplete
    else if decide (I2PDaemonMode c <> I2PDaemonExternal /\ I2PDaemonMode c <> I2PDaemonAuto /\
                    I2PDaemonMode c <> I2PDaemonManaged)
    then Err (UnsupportedDaemonMode (I2PDaemonMode c))
    else if decide (7 < I2PTunnelLength c)%Z then Err (TunnelLengthRange (I2PTunnelLength c))
    else if decide (16 < I2PTunnelQuantity c)%Z then Err (TunnelQuantityRange (I2PTunnelQuantity c))
    else Ok tt
  else Err (UnsupportedTransport (Type_ c)).

(** The configuration, whether it changed, and the error. *)
Definition EnsureI2PDestination (c : TransportConfig)
    : TransportConfig * bool * option violation :=
  let c := NormalizeTransport c in
  if decide (Type_ c <> TransportI2PDatagram) then (c, false, None) else
  match ValidateTransport c with
  | Err e => (c, false, Some e)
  | Panic => (c, false, None)
  | Ok _ =>
      if decide (I2PDestinationPublic c <> [] /\ I2PDestinationPrivate c <> [])
      then (c, false, None)
      else match generateI2PDestination (I2PSAM c) with
           | inl msg => (c, false, Some (GenerateFailed msg))
           | inr (public, private) =>
               let c := mkTransport (Type_ c) (RequireAnonymous c) (TorSOCKS5 c) (I2PSAM c)
                          (I2PTunnelLength c) (I2PTunnelQuantity c) (TrimSpace public)
                          (TrimSpace private) (I2PDaemonMode c) (I2PDaemonPath c) (I2PDataDir c) in
               if decide (I2PDestinationPublic c = [] \/ I2PDestinationPrivate c = [])
               then (c, false, Some GeneratedIncomplete)
               else (c, true, None)
           end
  end.

(** ** Endpoints *)

(** The host name that [HostTransport] judges: lower case, without
    surrounding space, a final dot and a port. *)
Definition judged_host (host : gostring) : gostring :=
  let host := TrimSuffix (TrimSpace (ToLower unicode_lower host)) (lit ".") in
  if mem ":" host then
    match SplitHostPort host with
    | inr (h, _) => Trim h (lit "[]")
    | inl _ => host
    end
  else host.

Definition HostTransport (host : gostring) : gostring :=
  let lowered := TrimSuffix (TrimSpace (ToLower unicode_lower host)) (lit ".") in
  if decide (lowered = []) then [] else
  let host := judged_host host in
  match ParseIP (Trim host (lit "[]")) with
  | Some _ => []
  | None =>
      if HasSuffix host (lit ".onion") then EndpointTransportTor
      else if HasSuffix host (lit ".b32.i2p") then EndpointTransportI2P
      else []
  end.

Definition HostIsAnonymous (host : gostring) : bool := negb (bool_decide (HostTransport host = [])).

Definition Hostname (u : URL) : gostring := url_hostname (url_Host u).

Definition URLIsAnonymous (u : option URL) : bool :=
  match u with None => false | Some u => HostIsAnonymous (Hostname u) end.

Definition URLTransport (u : option URL) : gostring :=
  match u with None => [] | Some u => HostTransport (Hostname u) end.

Definition EndpointTransport (endpoint : gostring) : gostring :=
  match url_host endpoint with
  | Some h =>
      if decide (url_hostname h <> []) then HostTransport (url_hostname h)
      else HostTransport endpoint
  | None => HostTransport endpoint
  end.

Definition EndpointIsAnonymous (endpoint : gostring) : bool :=
  negb (bool_decide (EndpointTransport endpoint = [])).

Definition validateEndpointTransport (serviceName endpointTransport : gostring)
    (transport : TransportConfig) : check :=
  let transport := NormalizeTransport transport in
  let expect (expected : gostring) : check :=
    if decide (endpointTransport <> expected)
    then Err (TransportMismatch serviceName endpointTransport (Type_ transport)) else Ok tt in
  if decide (Type_ transport = TransportTorRelayOnly) then expect EndpointTransportTor
  else if decide (Type_ transport = TransportI2PDatagram) then expect EndpointTransportI2P
  else Err (UnsupportedTransport (Type_ transport)).

Definition ValidateServiceURL (serviceName : gostring) (u : option URL) : check :=
  match u with
  | None => Err (URLEmpty serviceName)
  | Some url =>
      if negb (URLIsAnonymous u) then Err (URLNotAnonymous serviceName (url_Host url)) else Ok tt
  end.

Definition ValidateServiceURLForTransport (serviceName : gostring) (u : option URL)
    (transport : TransportConfig) : check :=
  ValidateServiceURL serviceName u;;;
  validateEndpointTransport (serviceName ++ lit " URL") (URLTransport u) transport.

Definition ValidateEndpointForTransport (serviceName endpoint : gostring)
    (transport : TransportConfig) : check :=
  if negb (EndpointIsAnonymous endpoint) then Err (EndpointNotAnonymous serviceName endpoint)
  else validateEndpointTransport (serviceName ++ lit " endpoint") (EndpointTransport endpoint)
         transport.

Definition ValidateHostConfig (serviceName : gostring) (cfg : option HostConfig) : check :=
  match cfg with
  | None => Err (EndpointEmpty serviceName)
  | Some cfg =>
      if negb (EndpointIsAnonymous (hc_uri cfg))
      then Err (EndpointNotAnonymous serviceName (hc_uri cfg)) else Ok tt
  end.



Fixpoint check_relays (relays : list gostring) : check :=
  match relays with
  | [] => Ok tt
  | relay :: relays =>
      if negb (EndpointIsAnonymous relay) then Err (RelayNotAnonymous relay)
      else check_relays relays
  end.

Definition ValidateNetbirdConfig (cfg : option NetbirdConfig) : check :=
  match cfg with
  | None => Err EmptyNetworkConfig
  | Some cfg =>
      ValidateHostConfig (lit "signal") (nc_signal cfg);;;
      if decide (0 < length (nc_stuns cfg)) then Err StunEnabled
      else if decide (0 < length (nc_turns cfg)) then Err TurnEnabled
      else check_relays (GetUrls (nc_relay cfg))
  end.



(** ** The runtime of a transport (runtime.go) *)

(** A daemon pointer is nil or carries its [started] flag. *)
Record Runtime : Type := mkRuntime {
  rt_transport : TransportConfig;
  rt_tor : option bool;
  rt_i2p : option bool }.

(** The runtime pointer may be nil without an error. *)
Definition EnsureRuntime (transport : TransportConfig) : res violation (option Runtime) :=
  let transport := NormalizeTransport transport in
  ValidateTransport transport;;;
  if decide (Type_ transport = TransportTorRelayOnly) then
    match ensureTorDaemon transport with
    | inl e => Err e
    | inr started => Ok (Some (mkRuntime transport (Some started) None))
    end
  else if decide (Type_ transport = TransportI2PDatagram) then
    match ensureI2PDaemon transport with
    | inl e => Err e
    | inr started => Ok (Some (mkRuntime transport None (Some started)))
    end
  else ValidateTransport transport;;; Ok None.

Definition daemon_started (d : option bool) : bool :=
  match d with Some started => started | None => false end.

Definition Started (r : option Runtime) : bool :=
  match r with
  | Some r => daemon_started (rt_tor r) || daemon_started (rt_i2p r)
  | None => false
  end.

Definition runtimeTransportKey (transport : TransportConfig) : TransportConfig :=
  let t := NormalizeTransport transport in
  if decide (Type_ t = TransportTorRelayOnly) then
    mkTransport (Type_ t) true (TorSOCKS5 t) [] 0 0 [] [] [] [] []
  else if decide (Type_ t = TransportI2PDatagram) then
    mkTransport (Type_ t) true [] (I2PSAM t) (I2PTunnelLength t) (I2PTunnelQuantity t) [] []
      (I2PDaemonMode t) (I2PDaemonPath t) (I2PDataDir t)
  else t.

Definition Matches (r : option Runtime) (transport : TransportConfig) : bool :=
  if negb (Started r) then false
  else match r with
       | Some r =>
           bool_decide (runtimeTransportKey (rt_transport r) =
                        runtimeTransportKey (NormalizeTransport transport))
       | None => false
       end.

(** [Close]: both daemons are closed and forgotten. *)
Definition Runtime_Close (r : option Runtime) : option Runtime :=
  match r with Some r => Some (mkRuntime (rt_transport r) None None) | None => None end.

(** ** What the client reports *)
Definition StableHostname (publicKey : gostring) : gostring :=
  lit "anonbird-" ++ take 12 (sha256_hex publicKey).

Definition SanitizeSystemInfo (info : option Info) (publicKey : gostring) : option Info :=
  match info with
  | None => None
  | Some i =>
      Some (mkInfoRecord (StableHostname publicKey) [] [] [] [] [] [] true (AnonymousTransport i)
              (I2PDestination i) (info_other i))
  end.

Definition SetSystemInfoTransport (info : option Info) (transport : TransportConfig)
    : option Info :=
  match info with
  | None => None
  | Some i =>
      let transport := NormalizeTransport transport in
      Some (mkInfoRecord (Hostname_ i) (NetworkAddresses i) (SystemSerialNumber i)
              (SystemProductName i) (SystemManufacturer i) (EnvCloud i) (EnvPlatform i)
              (AnonymousMode i) (Type_ transport)
              (if decide (Type_ transport = TransportI2PDatagram)
               then I2PDestinationPublic transport else [])
              (info_other i))
  end.

End policy.

(** ** What the policy guarantees *)
Section guarantees.
Context (unicode_lower : gostring -> gostring).


(** The name of a host in lower case, without the final dot. *)
Definition canonical (h : gostring) : gostring := TrimSuffix (map lower_byte h) (lit ".").

(** The host [h] is a name below the top-level domain [suffix]. *)
Definition hidden_name (suffix h : gostring) : Prop := exists name, canonical h = name ++ suffix.


(** The name that [HostTransport] finds in its argument. *)
Definition hidden_host (suffix h : gostring) : Prop :=
  let j := judged_host unicode_lower h in
  (exists name, j = name ++ suffix) /\ ParseIP (Trim j (lit "[]")) = None.

Definition suffix_transport (suffix : gostring) : gostring :=
  if decide (suffix = lit ".onion") then EndpointTransportTor else EndpointTransportI2P.

Lemma suffix_exclusive h : HasSuffix h (lit ".onion") = true -> HasSuffix h (lit ".b32.i2p") = false.
Proof.
  intros [p ->]%HasSuffix_spec. destruct (HasSuffix _ _) eqn:E; [|done].
  apply HasSuffix_spec in E as [q Hq]. apply (f_equal last) in Hq.
  change (lit ".onion") with (lit ".onio" ++ ["n"%char]) in Hq.
  change (lit ".b32.i2p") with (lit ".b32.i2" ++ ["p"%char]) in Hq.
  by rewrite !app_assoc, !last_snoc in Hq.
Qed.

Lemma HostTransport_hidden h suffix :
  suffix = lit ".onion" \/ suffix = lit ".b32.i2p" ->
  HostTransport unicode_lower h = suffix_transport suffix <-> hidden_host suffix h.
Proof.
  intros Hsuf. unfold HostTransport, hidden_host. rewrite <- HasSuffix_spec.
  assert (TrimSuffix (TrimSpace (ToLower unicode_lower h)) (lit ".") = [] ->
    judged_host unicode_lower h = []) as Hnil.
  { intros E. unfold judged_host. by rewrite E. }
  case_decide as E.
  - rewrite (Hnil E). destruct Hsuf as [-> | ->]; (split; [done|]); intros [H _]; by vm_compute in H.
  - destruct (ParseIP _); [by destruct Hsuf as [-> | ->]; (split; [done|]); intros [_ ?]|].
    set (j := judged_host unicode_lower h).
    destruct (HasSuffix j (lit ".onion")) eqn:E1.
    + pose proof (suffix_exclusive j E1) as E2.
      destruct Hsuf as [-> | ->]; rewrite ?E1, ?E2; split; try done. by intros [? _].
    + destruct (HasSuffix j (lit ".b32.i2p")) eqn:E2;
        destruct Hsuf as [-> | ->]; rewrite ?E1, ?E2; split; try done; by intros [? _].
Qed.



Lemma suffix_transport_nonempty suffix : suffix_transport suffix <> [].
Proof. unfold suffix_transport. by case_decide. Qed.

Lemma then_check_ok {A} (c1 : check) (c2 : res violation A) r :
  (c1;;; c2) = Ok r <-> c1 = Ok tt /\ c2 = Ok r.
Proof. unfold then_check. destruct c1 as [[]| |]; simpl; (split; [done || auto|by intros [? ?]]). Qed.




(** ** Host names *)

(** Visible ASCII characters. *)
Definition visible (c : ascii) : Prop := (33 <= byte_of c < 128)%N.

Lemma name_visible c : name_byte c -> visible c.
Proof.
  unfold name_byte, is_alnum, visible. rewrite bool_decide_eq_true. intros [?|[-> | ->]]; [lia|by vm_compute..].
Qed.

Lemma lower_name c : name_byte c -> name_byte (lower_byte c).
Proof.
  unfold lower_byte. case_decide as H; [|done]. intros _. left. unfold is_alnum. apply bool_decide_eq_true.
  unfold byte_of in *. rewrite Ascii.N_ascii_embedding; lia.
Qed.

Lemma lower_names h : Forall name_byte h -> Forall name_byte (map lower_byte h).
Proof. intros H. apply Forall_map. eapply Forall_impl; [exact H|apply lower_name]. Qed.

Lemma visible_ascii s : Forall visible s -> is_ascii s = true.
Proof.
  unfold is_ascii, visible. induction 1 as [|c s Hc _ IH]; [done|]. simpl. rewrite IH, bool_decide_eq_true_2 by lia. done.
Qed.

Lemma trim_runes_id sp1 sp2 sp3 s :
  Forall (fun a => sp1 a = false) s -> (forall a b, a ∈ s -> b ∈ s -> sp2 a b = false) ->
  (forall a b c, a ∈ s -> b ∈ s -> c ∈ s -> sp3 a b c = false) -> trim_runes sp1 sp2 sp3 s = s.
Proof.
  intros H1 H2 H3. destruct s as [|a s]; [done|]. apply Forall_cons in H1 as [H1 _]. cbn [trim_runes]. rewrite H1.
  destruct s as [|b s]; [done|]. rewrite H2 by set_solver. destruct s as [|c s]; [done|]. by rewrite H3 by set_solver.
Qed.

Lemma TrimSpace_visible s : Forall visible s -> TrimSpace s = s.
Proof.
  intros H. assert (forall c, c ∈ s -> visible c) as Hv by by apply Forall_forall. unfold TrimSpace.
  assert (Forall (fun a => space1 a = false) s) as H1.
  { eapply Forall_impl; [exact H|]. unfold visible, space1. intros c Hc. rewrite bool_decide_eq_false_2; [done|lia]. }
  rewrite (trim_runes_id space1 space2 space3 s); [|done|..].
  - rewrite trim_runes_id; [by rewrite reverse_involutive|by apply Forall_reverse|..].
    + intros a b Ha%elem_of_reverse%Hv Hb%elem_of_reverse%Hv. unfold space2, visible in *.
      rewrite bool_decide_eq_false_2; [done|lia].
    + intros a b c Ha%elem_of_reverse%Hv Hb%elem_of_reverse%Hv Hc%elem_of_reverse%Hv. unfold space3, visible in *.
      rewrite bool_decide_eq_false_2; [done|lia].
  - intros a b Ha%Hv Hb%Hv. unfold space2, visible in *. rewrite bool_decide_eq_false_2; [done|lia].
  - intros a b c Ha%Hv Hb%Hv Hc%Hv. unfold space3, visible in *. rewrite bool_decide_eq_false_2; [done|lia].
Qed.

Lemma TrimSuffix_elem s suffix c : c ∈ TrimSuffix s suffix -> c ∈ s.
Proof. unfold TrimSuffix. destruct (HasSuffix s suffix); [|done]. apply elem_take. Qed.

Lemma canonical_names h : Forall name_byte h -> Forall name_byte (canonical h).
Proof.
  intros H%lower_names. apply Forall_forall. intros c Hc%TrimSuffix_elem. by eapply Forall_forall in H.
Qed.

Lemma Trim_names s : Forall name_byte s -> Trim s (lit "[]") = s.
Proof.
  intros H. apply Trim_none. intros c Hc Hb. apply (names_avoid s c H); [|done].
  change (lit "[]") with ["["%char; "]"%char] in Hb. rewrite !elem_of_cons, elem_of_nil in Hb. destruct Hb as [-> |[-> |[]]]; by_decide.
Qed.

(** Dotted decimals are digits and dots only. *)
Lemma parseIPv4Fields_bytes s fields val n c : is_Some (parseIPv4Fields s fields val n) -> c ∈ s ->
  is_Some (digit c) \/ c = "."%char.
Proof.
  revert fields val n. induction s as [|d s IH]; intros fields val n H Hc; [by apply not_elem_of_nil in Hc|].
  cbn [parseIPv4Fields] in H. apply elem_of_cons in Hc as [->|Hc].
  - destruct (digit d); [by left|]. case_decide; [by right|by destruct H].
  - destruct (digit d); repeat case_decide; try (by destruct H); by eapply IH.
Qed.

Lemma names_not_ip h c : Forall name_byte h -> c ∈ h -> digit c = None -> c <> "."%char -> ParseIP h = None.
Proof.
  intros Hn Hc Hd Hdot. unfold ParseIP, ParseAddr.
  assert (":"%char ∉ h) as Hcol by (apply names_avoid; [done|by_decide]).
  assert (parseIPv4 h = None) as H4.
  { unfold parseIPv4. destruct (parseIPv4Fields h [] 0 0) eqn:E; [|done].
    destruct (parseIPv4Fields_bytes h [] 0 0 c) as [[? ?]| ?]; [by rewrite E|done|congruence|done]. }
  assert (forall s, ":"%char ∉ s -> parse_family s h = None) as ->; [|done|done].
  induction s as [|a s IH]; [done|]. rewrite not_elem_of_cons. intros [Ha Hs]. specialize (IH Hs).
  destruct a as [[] [] [] [] [] [] [] []]; cbn; done.
Qed.

Lemma hidden_not_ip suffix h : suffix = lit ".onion" \/ suffix = lit ".b32.i2p" -> Forall name_byte h ->
  hidden_name suffix h -> ParseIP (canonical h) = None.
Proof.
  intros Hs Hn%canonical_names [name E].
  assert (exists c, c ∈ suffix /\ digit c = None /\ c <> "."%char) as (c & Hc & Hd & Hdot).
  { destruct Hs as [-> | ->]; [exists "o"%char|exists "p"%char]; split_and!; try done; by_decide. }
  apply (names_not_ip _ c); [done| |done|done]. rewrite E. apply elem_of_app. by right.
Qed.

(** The judgement of a host name. *)
Lemma judged_name h : Forall name_byte h -> judged_host unicode_lower h = canonical h.
Proof.
  intros Hn. pose proof (lower_names h Hn) as Hl. unfold judged_host, ToLower.
  rewrite visible_ascii by (eapply Forall_impl; [exact Hn|apply name_visible]).
  rewrite TrimSpace_visible by (eapply Forall_impl; [exact Hl|apply name_visible]).
  fold (canonical h). rewrite (proj2 (mem_false _ _)); [done|].
  apply names_avoid; [by apply canonical_names|by_decide].
Qed.








Lemma name_transport suffix h : suffix = lit ".onion" \/ suffix = lit ".b32.i2p" -> Forall name_byte h ->
  HostTransport unicode_lower h = suffix_transport suffix <-> hidden_name suffix h.
Proof.
  intros Hs Hn. rewrite (HostTransport_hidden h suffix Hs). unfold hidden_host. cbn zeta.
  rewrite (judged_name h Hn), Trim_names by (by apply canonical_names).
  split; [by intros [? _]|]. intros H. split; [done|by eapply hidden_not_ip].
Qed.


(** ** Local proxies *)

(** A host that cannot be anywhere else than on this machine. *)
Definition local_host (host : gostring) : Prop :=
  EqualFold host (lit "localhost") = true \/
  exists ip, ParseIP host = Some ip /\ IsLoopback ip = true.

Lemma elem_trim_runes sp1 sp2 sp3 s c : c ∈ trim_runes sp1 sp2 sp3 s -> c ∈ s.
Proof.
  assert (forall n s, length s <= n -> c ∈ trim_runes sp1 sp2 sp3 s -> c ∈ s) as H; [|by eapply H].
  clear s. induction n as [|n IH]; intros s Hl; [by destruct s; simpl in *; [|lia]|].
  destruct s as [|a [|b [|d s]]]; cbn [trim_runes]; try done; simpl in Hl.
  - destruct (sp1 a); [by intros ?%not_elem_of_nil|done].
  - destruct (sp1 a); [intros H; right; apply IH; simpl; [lia|done]|].
    destruct (sp2 a b); [by intros ?%not_elem_of_nil|done].
  - destruct (sp1 a); [intros H; right; apply IH; simpl; [lia|done]|].
    destruct (sp2 a b); [intros H; right; right; apply IH; simpl; [lia|done]|].
    destruct (sp3 a b d); [intros H; right; right; right; apply IH; simpl; [lia|done]|done].
Qed.

Lemma elem_TrimSpace s c : c ∈ TrimSpace s -> c ∈ s.
Proof.
  unfold TrimSpace. rewrite elem_of_reverse. intros H%elem_trim_runes.
  rewrite elem_of_reverse in H. revert H. apply elem_trim_runes.
Qed.

(** Both checks together leave only local hosts: the empty host that the
    second check lets pass is refused by the first. *)
Lemma local_proxy name value :
  validateHostPort name value = Ok tt -> validateLoopbackHostPort name value = Ok tt ->
  exists host port, SplitHostPort value = inr (host, port) /\ TrimSpace port <> [] /\
    local_host (TrimSpace host).
Proof.
  unfold validateHostPort, validateLoopbackHostPort. case_decide; [done|].
  destruct (SplitHostPort value) as [|[host port]] eqn:Es; [done|].
  case_decide as Hne; [done|]. intros _. apply Decidable.not_or in Hne as [Hh Hp].
  apply SplitHostPort_host in Es as [Ho Hc].
  rewrite Trim_none.
  2:{ intros c Hin%elem_TrimSpace Hb. vm_compute in Hb.
      apply elem_of_cons in Hb as [->|Hb]; [done|].
      apply elem_of_cons in Hb as [->|Hb]; [done|]. by apply not_elem_of_nil in Hb. }
  rewrite bool_decide_eq_false_2 by done. cbn [orb].
  destruct (EqualFold (TrimSpace host) (lit "localhost")) eqn:Ef.
  - intros _. exists host, port. split_and!; [done..|by left].
  - destruct (ParseIP (TrimSpace host)) as [ip|] eqn:Ei; [|done].
    destruct (IsLoopback ip) eqn:El; [|done]. intros _. exists host, port.
    split_and!; [done..|right; by exists ip].
Qed.

Lemma HostTransport_cases h : HostTransport unicode_lower h <> [] ->
  exists suffix, (suffix = lit ".onion" \/ suffix = lit ".b32.i2p") /\
    HostTransport unicode_lower h = suffix_transport suffix.
Proof.
  unfold HostTransport. case_decide; [done|]. destruct (ParseIP _); [done|].
  destruct (HasSuffix _ (lit ".onion")); [by exists (lit ".onion"); split; [left|]|].
  destruct (HasSuffix _ (lit ".b32.i2p")); [by exists (lit ".b32.i2p"); split; [right|]|done].
Qed.

Lemma host_port_present name value : validateHostPort name value = Ok tt ->
  exists host port, SplitHostPort value = inr (host, port) /\ TrimSpace host <> [] /\
    TrimSpace port <> [].
Proof.
  unfold validateHostPort. case_decide; [done|].
  destruct (SplitHostPort value) as [|[host port]]; [done|].
  case_decide as Hne; [done|]. apply Decidable.not_or in Hne as [? ?]. by exists host, port.
Qed.

Lemma normalize_tunnels t : (0 <= I2PTunnelLength t)%Z -> (0 <= I2PTunnelQuantity t)%Z ->
  Type_ (NormalizeTransport unicode_lower t) = TransportI2PDatagram ->
  (1 <= I2PTunnelLength (NormalizeTransport unicode_lower t))%Z /\
  (1 <= I2PTunnelQuantity (NormalizeTransport unicode_lower t))%Z.
Proof.
  intros H1 H2. unfold NormalizeTransport. cbv zeta.
  destruct (decide (Type_ (trimTransport unicode_lower t) = TransportTorRelayOnly)) as [E|E];
    [cbn [Type_]; rewrite E; by intros|].
  destruct (decide (Type_ (trimTransport unicode_lower t) = TransportI2PDatagram)) as [E'|E'];
    [|by intros].
  intros _. cbn [I2PTunnelLength I2PTunnelQuantity trimTransport].
  unfold default_if_zero, DefaultI2PTunnelLength, DefaultI2PTunnelQuantity.
  repeat case_decide; lia.
Qed.



End guarantees.

(** ** Properties *)


(** C17: the path cannot make a host anonymous.  Take a URL
    [scheme://host:port/path?query#fragment].  If no control byte comes before
    the fragment and every percent sign of path and fragment begins an escape,
    the URL is judged by its host, whatever path, query and fragment are: it
    is taken for a hidden service only if the host is a name below one of the
    two top-level domains.  Otherwise the URL does not parse, and the whole
    string is judged as if it were a host. *)
Theorem url_path_cannot_spoof :
  forall (unicode_lower : gostring -> gostring) scheme host port path query fragment,
  url_parts scheme host port path query fragment ->
  let url := make_url scheme host port path query fragment in
  (tail_ok path query fragment = true ->
   EndpointTransport unicode_lower url = HostTransport unicode_lower host /\
   (EndpointIsAnonymous unicode_lower url = true <->
    exists suffix, (suffix = lit ".onion" \/ suffix = lit ".b32.i2p") /\ hidden_name suffix host)) /\
  (tail_ok path query fragment = false ->
   EndpointTransport unicode_lower url = HostTransport unicode_lower url).
Proof.
  intros ul scheme host port path query fragment Hu url. split; intros Ht.
  - assert (EndpointTransport ul url = HostTransport ul host) as E.
    { unfold EndpointTransport, url. rewrite (url_host_parts _ _ _ _ _ _ Hu), Ht. destruct Hu as [_ Hh Hp _ _ _].
      rewrite url_hostname_plain by done. by rewrite decide_True by (by destruct Hh). }
    split; [exact E|]. destruct (up_host _ _ _ _ _ _ Hu) as [_ Hn].
    unfold EndpointIsAnonymous. rewrite E, negb_true_iff, bool_decide_eq_false. split.
    + intros (s & Hs & H)%HostTransport_cases. exists s. split; [done|]. by apply (name_transport ul).
    + intros (s & Hs & H). apply (name_transport ul s host Hs Hn) in H. rewrite H. apply suffix_transport_nonempty.
  - unfold EndpointTransport, url. by rewrite (url_host_parts _ _ _ _ _ _ Hu), Ht.
Qed.

(** C18: anonymous traffic is handed to local proxies only.  A transport that
    passes validation is of a supported type; with Tor its SOCKS address has
    a port and a host that is localhost or a loopback address, whatever
    spelling it has; with I2P the bridge address has a host and a port, the
    destination keys are both present or both absent, the daemon mode is
    known and the tunnel settings are within their ranges. *)
Theorem transport_validation_sound :
  forall (unicode_lower : gostring -> gostring) (t : TransportConfig),
  (0 <= I2PTunnelLength t)%Z -> (0 <= I2PTunnelQuantity t)%Z ->
  ValidateTransport unicode_lower t = Ok tt ->
  let c := NormalizeTransport unicode_lower t in
  RequireAnonymous c = true /\
  ((Type_ c = TransportTorRelayOnly /\
    exists host port, SplitHostPort (TorSOCKS5 c) = inr (host, port) /\
      TrimSpace port <> [] /\ local_host (TrimSpace host)) \/
   (Type_ c = TransportI2PDatagram /\
    (exists host port, SplitHostPort (I2PSAM c) = inr (host, port) /\
      TrimSpace host <> [] /\ TrimSpace port <> []) /\
    (I2PDestinationPublic c = [] <-> I2PDestinationPrivate c = []) /\
    (I2PDaemonMode c ∈ [I2PDaemonExternal; I2PDaemonAuto; I2PDaemonManaged]) /\
    (1 <= I2PTunnelLength c <= 7)%Z /\ (1 <= I2PTunnelQuantity c <= 16)%Z)).
Proof.
  intros ul t H1 H2. unfold ValidateTransport. cbn zeta.
  pose proof (normalize_tunnels ul t H1 H2) as Hn.
  set (c := NormalizeTransport ul t) in *.
  destruct (RequireAnonymous c); [|done]. cbn [negb]. intros H. split; [done|].
  destruct (decide (Type_ c = TransportTorRelayOnly)) as [Et|_].
  - left. apply then_check_ok in H as [Ha Hb]. split; [done|]. by apply (local_proxy (lit "tor socks5")).
  - right. destruct (decide (Type_ c = TransportI2PDatagram)) as [Et|_]; [|done].
    apply then_check_ok in H as [Ha Hb]. specialize (Hn Et).
    destruct (Bool.eqb _ _) eqn:Eq; [|done]. cbn [negb] in Hb.
    apply Bool.eqb_prop in Eq.
    assert (I2PDestinationPublic c = [] <-> I2PDestinationPrivate c = []) as Hkeys.
    { by rewrite <- (bool_decide_eq_true (I2PDestinationPublic c = [])), Eq, bool_decide_eq_true. }
    repeat case_decide; try done.
    split_and!; [done|by apply (host_port_present (lit "i2p sam"))|done| |lia..].
    destruct (decide (I2PDaemonMode c = I2PDaemonExternal)) as [->|]; [by left|].
    destruct (decide (I2PDaemonMode c = I2PDaemonAuto)) as [->|]; [by right; left|].
    destruct (decide (I2PDaemonMode c = I2PDaemonManaged)) as [->|]; [by right; right; left|].
    tauto.
Qed.

(** ** Findings *)

(** An endpoint without a scheme is judged as a whole, so that the path of a
    clearnet server makes it anonymous. *)
Theorem schemeless_path_spoofs : forall unicode_lower : gostring -> gostring,
  EndpointTransport unicode_lower (lit "clearnet.example/x.onion") = EndpointTransportTor /\
  HostTransport unicode_lower (lit "clearnet.example") = [].
Proof. intros ul. split; reflexivity. Qed.

(** A URL that does not parse is judged as a whole, too. *)
Theorem broken_escape_spoofs : forall unicode_lower : gostring -> gostring,
  EndpointTransport unicode_lower (lit "https://clearnet.example:443/%zz.onion") = EndpointTransportTor /\
  HostTransport unicode_lower (lit "clearnet.example") = [].
Proof. intros ul. split; reflexivity. Qed.

(** A blank transport type is refused by [ValidateTransport], but a second
    normalisation takes it for the default: [EnsureRuntime] then returns a nil
    runtime without an error. *)
Theorem blank_type_gives_no_runtime :
  forall (ul : gostring -> gostring) (tor i2p : TransportConfig -> violation + bool),
  let t := mkTransport (lit " ") true [] [] 0 0 [] [] [] [] [] in
  ValidateTransport ul t = Err (UnsupportedTransport []) /\
  EnsureRuntime ul tor i2p t = Ok None.
Proof. intros ul tor i2p. split; reflexivity. Qed.

(** ** Concrete instances *)
Definition wit_lower (s : gostring) : gostring := s.


Lemma wit_parts host path : host <> [] /\ Forall name_byte host ->
  (path = [] \/ exists p, path = "/"%char :: p) /\ "?"%char ∉ path /\ "#"%char ∉ path ->
  url_parts (lit "https") host (lit ":443") path [] [].
Proof.
  intros Hh Hp. constructor; [split; [done|by_decide]|done| |done|split; [by left|apply not_elem_of_nil]|by left].
  right. exists (lit "443"). split; [done|by_decide].
Qed.


Lemma url_path_cannot_spoof_witness :
  EndpointTransport wit_lower (lit "https://clearnet.example:443/%20/x.onion") = [].
Proof.
  destruct (url_path_cannot_spoof wit_lower (lit "https") (lit "clearnet.example") (lit ":443")
    (lit "/%20/x.onion") [] []) as [H _].
  - apply wit_parts; [split; [done|by_decide]|]. split_and!; [right; eauto|by_decide..].
  - destruct (H ltac:(by vm_compute)) as [E _]. refine (eq_trans E _). by vm_compute.
Defined.

Lemma transport_validation_sound_witness :
  ValidateTransport wit_lower DefaultTransport = Ok tt /\
  exists host port, SplitHostPort DefaultTorSOCKS5 = inr (host, port) /\ local_host (TrimSpace host).
Proof.
  assert (ValidateTransport wit_lower DefaultTransport = Ok tt) as H by (vm_compute; reflexivity).
  split; [exact H|].
  destruct (transport_validation_sound wit_lower DefaultTransport ltac:(done) ltac:(done) H)
    as [_ [(_ & host & port & Hs & _ & Hl)|(Ht & _)]].
  - exists host, port. split; [exact Hs|exact Hl].
  - by vm_compute in Ht.
Defined.
