(* ===== verification/AddrText.v ===== *)
(** * The text form of addresses
      (Go's strconv.Itoa and netip.Addr.String)

    Rule identifiers are built from the text of an address; that different
    addresses have different texts is what makes the identifiers unique. *)

From Stdlib Require Import ZArith Lia Ascii.
From stdpp Require Import base gmap strings numbers countable sorting pretty list.
From S2P Require Import Prelude Netip GoStrings.

(** ** Definitions *)
Definition Itoa (z : Z) : gostring := lit (pretty z).

(** [strings.Join] with a one-byte separator. *)
Fixpoint join (sep : ascii) (l : list gostring) : gostring :=
  match l with
  | [] => []
  | [x] => x
  | x :: rest => x ++ sep :: join sep rest
  end.

Definition string4 (ip : Z) : gostring := join "." (Itoa <$> be_bytes 4 ip).

Definition hex_char (x : Z) : ascii :=
  if decide (x < 10)%Z then Ascii.ascii_of_N (Z.to_N (48 + x))
  else Ascii.ascii_of_N (Z.to_N (87 + x)).

(** [appendHex]: lower case, no leading zeros. *)
Definition appendHex (x : Z) : gostring :=
  (if decide (4096 <= x)%Z then [hex_char (x / 4096)] else []) ++
  (if decide (256 <= x)%Z then [hex_char (x / 256 mod 16)] else []) ++
  (if decide (16 <= x)%Z then [hex_char (x / 16 mod 16)] else []) ++
  [hex_char (x mod 16)].

(** The 16-bit groups of an address, most significant first. *)
Fixpoint be_groups (n : nat) (v : Z) : list Z :=
  match n with
  | O => []
  | S n => be_groups n (v / 65536)%Z ++ [(v mod 65536)%Z]
  end.

Fixpoint leading_zeros (l : list Z) : nat :=
  match l with
  | x :: rest => if decide (x = 0)%Z then S (leading_zeros rest) else 0
  | [] => 0
  end.

(** The longest run of at least two zero groups, the first of equals. *)
Definition zero_run (groups : list Z) : option (nat * nat) :=
  foldl (fun best i =>
    let l := leading_zeros (drop i groups) in
    let len := match best with Some (s, e) => e - s | None => 0 end in
    if decide (2 <= l /\ len < l)
    then Some (i, i + l) else best)
    None (seq 0 (length groups)).

Definition string6_groups (groups : list Z) : gostring :=
  let hex := appendHex <$> groups in
  match zero_run groups with
  | None => join ":" hex
  | Some (s, e) => join ":" (take s hex) ++ lit "::" ++ join ":" (drop e hex)
  end.

Definition zone_text (zone : string) : gostring :=
  if decide (zone = EmptyString) then [] else "%"%char :: lit zone.

Definition string6 (ip : Z) (zone : string) : gostring :=
  string6_groups (be_groups 8 ip) ++ zone_text zone.

Definition Addr_String (a : Addr) : gostring :=
  match a with
  | AddrInvalid => lit "invalid IP"
  | Addr4 ip => string4 ip
  | Addr6 ip zone =>
      if Is4In6 a then
        lit "::ffff:" ++ string4 (ip mod 2 ^ 32) ++ zone_text zone
      else string6 ip zone
  end.

(** ** Decimal digits *)
Lemma lit_inj s t : lit s = lit t -> s = t.
Proof.
  intros H. rewrite <- (String.string_of_list_ascii_of_string s),
    <- (String.string_of_list_ascii_of_string t). unfold lit in H. by rewrite H.
Qed.

Lemma lit_app s t : lit (s +:+ t) = lit s ++ lit t.
Proof. induction s as [|c s IH]; simpl; [done|]. unfold lit in *. simpl. by rewrite IH. Qed.

Lemma Itoa_inj x y : Itoa x = Itoa y -> x = y.
Proof. intros H%lit_inj. by apply (inj pretty). Qed.

Lemma pretty_char_digit x : is_digit (pretty_N_char x).
Proof. unfold pretty_N_char. repeat case_match; unfold is_digit; vm_compute; split; discriminate. Qed.

Lemma pretty_go_digits x : forall s, Forall is_digit (lit s) -> Forall is_digit (lit (pretty_N_go x s)).
Proof.
  induction (N.lt_wf_0 x) as [x _ IH]; intros s Hs.
  destruct (decide (x = 0)%N) as [->|Hx]; [done|].
  rewrite pretty_N_go_step by lia. apply IH; [apply N.div_lt; lia|].
  unfold lit in *. simpl. constructor; [apply pretty_char_digit|done].
Qed.

Lemma Itoa_digits z : (0 <= z)%Z -> Forall is_digit (Itoa z).
Proof.
  intros Hz. unfold Itoa. destruct z as [|p|p]; [|  |lia].
  - repeat constructor; vm_compute; discriminate.
  - change (pretty (Z.pos p)) with (pretty (N.pos p)). unfold pretty, pretty_N.
    rewrite decide_False by done. by apply pretty_go_digits.
Qed.

Lemma Itoa_nonempty z : Itoa z <> [].
Proof.
  intros H. assert (Itoa z = lit "") as H' by done. apply lit_inj in H'. clear H.
  destruct z as [|p|p]; [done| |done].
  change (pretty (Z.pos p)) with (pretty (N.pos p)) in H'.
  unfold pretty, pretty_N in H'. rewrite decide_False in H' by done.
  assert (forall x s, String.length s <= String.length (pretty_N_go x s)) as Hl.
  { intros x. induction (N.lt_wf_0 x) as [x _ IH]; intros s.
    destruct (decide (x = 0)%N) as [->|Hx]; [done|].
    rewrite pretty_N_go_step by lia. etrans; [|apply IH, N.div_lt; lia]. simpl. lia. }
  rewrite pretty_N_go_step in H' by done.
  match type of H' with pretty_N_go ?x ?s = _ => pose proof (Hl x s) as H end.
  rewrite H' in H. simpl in H. lia.
Qed.

(** ** Splitting joined texts *)
Fixpoint split_on (sep : ascii) (s : gostring) : list gostring :=
  match s with
  | [] => [[]]
  | c :: rest =>
      if decide (c = sep) then [] :: split_on sep rest
      else match split_on sep rest with
           | t :: ts => (c :: t) :: ts
           | [] => [[c]]
           end
  end.

Lemma split_on_none sep s : sep ∉ s -> split_on sep s = [s].
Proof.
  induction s as [|c s IH]; intros H; [done|]. apply not_elem_of_cons in H as [H1 H2].
  simpl. rewrite decide_False by done. by rewrite IH.
Qed.

Lemma split_on_app sep s t : sep ∉ s -> split_on sep (s ++ sep :: t) = s :: split_on sep t.
Proof.
  induction s as [|c s IH]; intros H; simpl; [by rewrite decide_True|].
  apply not_elem_of_cons in H as [H1 H2]. rewrite decide_False by done. by rewrite IH.
Qed.

Definition lacks (sep : ascii) (l : list gostring) : Prop := Forall (fun t => sep ∉ t) l.

Lemma split_join sep l : l <> [] -> lacks sep l -> split_on sep (join sep l) = l.
Proof.
  intros Hne Hl. induction Hl as [|x l Hx Hl IH]; [done|].
  destruct l as [|y l]; [by apply split_on_none|].
  change (join sep (x :: y :: l)) with (x ++ sep :: join sep (y :: l)).
  rewrite split_on_app by done. by rewrite IH.
Qed.

(** What follows a joined list and a separator is split after it. *)
Lemma split_join_app sep l t : l <> [] -> lacks sep l ->
  split_on sep (join sep l ++ sep :: t) = l ++ split_on sep t.
Proof.
  intros Hne Hl. induction Hl as [|x l Hx Hl IH]; [done|].
  destruct l as [|y l]; [by apply split_on_app|].
  change (join sep (x :: y :: l)) with (x ++ sep :: join sep (y :: l)).
  rewrite <- app_assoc, <- app_comm_cons, split_on_app by done.
  rewrite IH by done. done.
Qed.

Lemma digit_not_in c l : Forall is_digit l -> ~ is_digit c -> c ∉ l.
Proof. intros H Hc. eapply Forall_not_elem; [done|]. done. Qed.

Lemma string4_inj x y : (0 <= x < 2 ^ 32)%Z -> (0 <= y < 2 ^ 32)%Z ->
  string4 x = string4 y -> x = y.
Proof.
  intros Hx Hy H.
  assert (forall v, lacks "." (Itoa <$> be_bytes 4 v)) as Hl.
  { intros v. apply Forall_fmap, Forall_forall. intros b Hb. simpl.
    apply digit_not_in; [apply Itoa_digits|unfold is_digit; vm_compute; intros [? ?]; by auto].
    assert (Forall (fun b => 0 <= b)%Z (be_bytes 4 v)) as Hf.
    { cbn [be_bytes app]. repeat constructor; apply u8_range. }
    by eapply Forall_forall in Hf. }
  apply (f_equal (split_on ".")) in H. unfold string4 in H.
  rewrite !split_join in H by done.
  apply list_fmap_eq_inj in H; [|intros ? ?; apply Itoa_inj].
  rewrite <- (be_value_bytes 4 x), <- (be_value_bytes 4 y) by done. by rewrite H.
Qed.

(** ** Hexadecimal groups *)
Lemma hex_char_value x : (0 <= x < 16)%Z -> hex_digit (hex_char x) = Some x.
Proof.
  intros H. assert (x ∈ (seqZ 0 16)) as Hi by (apply elem_of_seqZ; lia).
  assert (Forall (fun x => hex_digit (hex_char x) = Some x) (seqZ 0 16)) as Hf by by_decide.
  by eapply Forall_forall in Hf.
Qed.

Definition hex_value (s : gostring) : Z :=
  foldl (fun acc c => acc * 16 + default 0 (hex_digit c))%Z 0%Z s.

Lemma appendHex_value x : (0 <= x < 65536)%Z -> hex_value (appendHex x) = x.
Proof.
  intros Hx. unfold appendHex, hex_value.
  repeat case_decide; cbn [app foldl];
    rewrite !hex_char_value by (Z.div_mod_to_equations; lia); cbn [from_option id];
    Z.div_mod_to_equations; lia.
Qed.

Lemma hex_char_ok x : (0 <= x < 16)%Z -> is_alnum (hex_char x) = true.
Proof.
  intros H. assert (x ∈ (seqZ 0 16)) as Hi by (apply elem_of_seqZ; lia).
  assert (Forall (fun x => is_alnum (hex_char x) = true) (seqZ 0 16)) as Hf by by_decide.
  by eapply Forall_forall in Hf.
Qed.

Lemma appendHex_alnum x : (0 <= x < 65536)%Z -> Forall (fun c => is_alnum c = true) (appendHex x).
Proof.
  intros Hx. unfold appendHex.
  repeat case_decide; repeat constructor; apply hex_char_ok; Z.div_mod_to_equations; lia.
Qed.

Lemma appendHex_nonempty x : appendHex x <> [].
Proof. unfold appendHex. repeat case_decide; done. Qed.

Lemma be_groups_range n v : Forall (fun g => 0 <= g < 65536)%Z (be_groups n v).
Proof.
  revert v. induction n as [|n IH]; intros v; [constructor|]. simpl.
  apply Forall_app. split; [apply IH|]. repeat constructor; apply Z.mod_pos_bound; lia.
Qed.

Lemma be_groups_length n v : length (be_groups n v) = n.
Proof. revert v. induction n as [|n IH]; intros v; [done|]. simpl. rewrite length_app, IH. simpl. lia. Qed.

Lemma be_groups_inj n v w :
  (0 <= v < 2 ^ (16 * Z.of_nat n))%Z -> (0 <= w < 2 ^ (16 * Z.of_nat n))%Z ->
  be_groups n v = be_groups n w -> v = w.
Proof.
  revert v w. induction n as [|n IH]; intros v w Hv Hw H; [simpl in *; lia|].
  replace (16 * Z.of_nat (S n))%Z with (16 * Z.of_nat n + 16)%Z in * by lia.
  rewrite Z.pow_add_r in * by lia. simpl in H. apply app_inj_2 in H as [H1 [= H2]]; [|done].
  apply IH in H1; [Z.div_mod_to_equations; lia|..];
    (split; [apply Z.div_pos; lia|apply Z.div_lt_upper_bound; lia]).
Qed.

Lemma leading_zeros_spec l : take (leading_zeros l) l = replicate (leading_zeros l) 0%Z.
Proof. induction l as [|x l IH]; [done|]. simpl. case_decide as E; [|done]. simpl. by rewrite IH, E. Qed.

Lemma leading_zeros_le l : leading_zeros l <= length l.
Proof. induction l as [|x l IH]; [done|]. simpl. case_decide; lia. Qed.

(** The groups of the run are zero. *)
Lemma zero_run_spec groups s e : zero_run groups = Some (s, e) ->
  s <= e <= length groups /\
  groups = take s groups ++ replicate (e - s) 0%Z ++ drop e groups.
Proof.
  unfold zero_run.
  set (P := fun b : option (nat * nat) => forall s e, b = Some (s, e) ->
    s <= e <= length groups /\ groups = take s groups ++ replicate (e - s) 0%Z ++ drop e groups).
  assert (forall l b, Forall (fun i => i <= length groups) l -> P b -> P (foldl (fun best i =>
    let l := leading_zeros (drop i groups) in
    let len := match best with Some (s, e) => e - s | None => 0 end in
    if decide (2 <= l /\ len < l) then Some (i, i + l) else best) b l)) as Hf.
  { intros l. induction l as [|i l IH]; intros b Hl Hb; [done|]. cbn [foldl].
    apply Forall_cons in Hl as [Hi Hl]. apply IH; [done|]. case_decide; [|done].
    intros s' e' [= <- <-]. pose proof (leading_zeros_le (drop i groups)) as Hle.
    rewrite length_drop in Hle. split; [lia|].
    replace (i + leading_zeros (drop i groups) - i) with (leading_zeros (drop i groups)) by lia.
    rewrite <- leading_zeros_spec, <- drop_drop, take_drop, take_drop. done. }
  intros H. apply (Hf (seq 0 (length groups)) None); [|done|done].
  apply Forall_forall. intros i Hi. apply elem_of_seq in Hi. lia.
Qed.

(** Reading the groups back: the texts before the first and after the last
    empty one are groups, the groups between them are zero. *)
Fixpoint nonempty_prefix (l : list gostring) : list gostring :=
  match l with
  | (_ :: _) as t :: rest => t :: nonempty_prefix rest
  | _ => []
  end.

Definition read_groups (s : gostring) : list Z :=
  let toks := split_on ":" s in
  let pre := hex_value <$> nonempty_prefix toks in
  if decide (length pre = length toks) then pre else
  let suf := hex_value <$> reverse (nonempty_prefix (reverse toks)) in
  pre ++ replicate (8 - length pre - length suf) 0%Z ++ suf.

Lemma nonempty_prefix_app l t : Forall (fun x => x <> []) l ->
  nonempty_prefix (l ++ [] :: t) = l.
Proof.
  induction l as [|x l IH]; intros H; [done|]. apply Forall_cons in H as [Hx H].
  simpl. destruct x; [done|]. by rewrite IH.
Qed.

Lemma nonempty_prefix_all l : Forall (fun x => x <> []) l -> nonempty_prefix l = l.
Proof.
  induction l as [|x l IH]; intros H; [done|]. apply Forall_cons in H as [Hx H].
  simpl. destruct x; [done|]. by rewrite IH.
Qed.

(** The texts of a list before a separator, the empty one of an empty list
    included. *)
Definition toks_of (l : list gostring) : list gostring := match l with [] => [[]] | _ => l end.

Lemma split_join_toks sep l : lacks sep l -> split_on sep (join sep l) = toks_of l.
Proof. intros H. destruct l; [done|]. by apply split_join. Qed.

Lemma split_join_toks_app sep l t : lacks sep l ->
  split_on sep (join sep l ++ sep :: t) = toks_of l ++ split_on sep t.
Proof. intros H. destruct l; [|by apply split_join_app]. simpl. by rewrite decide_True. Qed.

Lemma prefix_toks l t : Forall (fun x => x <> []) l -> nonempty_prefix (toks_of l ++ [] :: t) = l.
Proof. intros H. destruct l; [done|]. by apply nonempty_prefix_app. Qed.

Lemma suffix_toks l t : Forall (fun x => x <> []) l ->
  reverse (nonempty_prefix (reverse (t ++ [] :: toks_of l))) = l.
Proof.
  intros H. destruct l as [|x l].
  { simpl. rewrite reverse_app, !reverse_cons. simpl. done. }
  rewrite reverse_app, reverse_cons, <- app_assoc. simpl.
  rewrite nonempty_prefix_app by (by apply Forall_reverse). apply reverse_involutive.
Qed.

Lemma join_avoid sep c (l : list gostring) : c <> sep -> Forall (fun t => c ∉ t) l -> c ∉ join sep l.
Proof.
  intros Hc Hl. induction Hl as [|x l Hx Hl IH]; [set_solver|].
  destruct l as [|y l]; [done|].
  change (join sep (x :: y :: l)) with (x ++ sep :: join sep (y :: l)). set_solver.
Qed.

Section groups.
Context (gs : list Z) (Hlen : length gs = 8) (Hgs : Forall (fun g => 0 <= g < 65536)%Z gs).

Lemma hex_texts_lack (l : list Z) : Forall (fun g => 0 <= g < 65536)%Z l ->
  lacks ":" (appendHex <$> l).
Proof.
  intros Hl. apply Forall_fmap. eapply Forall_impl; [exact Hl|]. intros g Hg. simpl.
  eapply Forall_not_elem; [by apply appendHex_alnum|]. by vm_compute.
Qed.

Lemma hex_texts_nonempty (l : list Z) : Forall (fun x => x <> []) (appendHex <$> l).
Proof. apply Forall_fmap, Forall_forall. intros g _. apply appendHex_nonempty. Qed.

Lemma hex_texts_value (l : list Z) : Forall (fun g => 0 <= g < 65536)%Z l ->
  hex_value <$> (appendHex <$> l) = l.
Proof.
  intros Hl. induction Hl as [|g l Hg Hl IH]; [done|]. rewrite !fmap_cons, IH.
  by rewrite appendHex_value.
Qed.

Lemma read_string6_groups : read_groups (string6_groups gs) = gs.
Proof.
  unfold string6_groups. destruct (zero_run gs) as [[s e]|] eqn:E.
  - apply zero_run_spec in E as [Hse E].
    rewrite <- fmap_take, <- fmap_drop. set (a := take s gs) in *. set (b := drop e gs) in *.
    assert (Forall (fun g => 0 <= g < 65536)%Z a) as Ha by by apply Forall_take.
    assert (Forall (fun g => 0 <= g < 65536)%Z b) as Hb by by apply Forall_drop.
    assert (length a = s /\ length b = 8 - e) as [La Lb]
      by (unfold a, b; rewrite length_take, length_drop; lia).
    unfold read_groups. change (lit "::") with [":"%char; ":"%char]. simpl app.
    rewrite split_join_toks_app by by apply hex_texts_lack.
    change (":"%char :: join ":" (appendHex <$> b)) with ([] ++ ":"%char :: join ":" (appendHex <$> b)).
    rewrite split_on_app by set_solver. rewrite split_join_toks by by apply hex_texts_lack.
    rewrite prefix_toks by apply hex_texts_nonempty.
    rewrite suffix_toks by apply hex_texts_nonempty.
    rewrite !hex_texts_value by done. rewrite decide_False.
    + rewrite La, Lb. replace (8 - s - (8 - e)) with (e - s) by lia. by rewrite <- E.
    + rewrite length_app. simpl. unfold toks_of. destruct a; simpl in *; rewrite ?length_fmap; lia.
  - unfold read_groups. rewrite split_join; [|by destruct gs|by apply hex_texts_lack].
    rewrite nonempty_prefix_all by apply hex_texts_nonempty.
    rewrite hex_texts_value by done. by rewrite length_fmap, decide_True.
Qed.

(** The text of the groups holds a colon and no percent sign. *)
Lemma string6_groups_colon : ":"%char ∈ string6_groups gs.
Proof.
  unfold string6_groups. destruct (zero_run gs) as [[s e]|]; [set_solver|].
  destruct gs as [|g1 [|g2 l]]; [done..|].
  rewrite !fmap_cons. change (join ":" (appendHex g1 :: appendHex g2 :: (appendHex <$> l)))
    with (appendHex g1 ++ ":"%char :: join ":" (appendHex g2 :: (appendHex <$> l))). set_solver.
Qed.

Lemma string6_groups_avoid c : is_alnum c = false -> c <> ":"%char -> c ∉ string6_groups gs.
Proof.
  intros Hc Hc'.
  assert (forall l, Forall (fun g => 0 <= g < 65536)%Z l -> c ∉ join ":" (appendHex <$> l)) as Hj.
  { intros l Hl. apply join_avoid; [done|]. apply Forall_fmap.
    eapply Forall_impl; [exact Hl|]. intros g Hg. simpl.
    eapply Forall_not_elem; [by apply appendHex_alnum|]. simpl. congruence. }
  unfold string6_groups. destruct (zero_run gs) as [[s e]|]; [|by apply Hj].
  rewrite <- fmap_take, <- fmap_drop. change (lit "::") with [":"%char; ":"%char].
  pose proof (Hj _ (Forall_take _ s _ Hgs)). pose proof (Hj _ (Forall_drop _ e _ Hgs)). set_solver.
Qed.
End groups.

Lemma app_cut (c : ascii) (a b s t : gostring) : c ∉ a -> c ∉ b ->
  a ++ s = b ++ t -> (s = [] \/ exists s', s = c :: s') -> (t = [] \/ exists t', t = c :: t') ->
  a = b /\ s = t.
Proof.
  intros Ha Hb H Hs Ht.
  destruct Hs as [->|[s' ->]], Ht as [->|[t' ->]]; rewrite ?app_nil_r in H; subst.
  - done.
  - set_solver.
  - set_solver.
  - apply (f_equal (fun l => Cut l c)) in H. rewrite !Cut_app in H by done. by simplify_eq.
Qed.

Lemma zone_text_form z : zone_text z = [] \/ exists t, zone_text z = "%"%char :: t.
Proof. unfold zone_text. case_decide; [by left|right; by eexists]. Qed.

Lemma zone_text_inj z z' : zone_text z = zone_text z' -> z = z'.
Proof.
  unfold zone_text. intros H. repeat case_decide; try congruence. apply lit_inj. congruence.
Qed.

Lemma string6_parts_inj g h z z' : length g = 8 -> length h = 8 ->
  Forall (fun g => 0 <= g < 65536)%Z g -> Forall (fun g => 0 <= g < 65536)%Z h ->
  string6_groups g ++ zone_text z = string6_groups h ++ zone_text z' -> g = h /\ z = z'.
Proof.
  intros Lg Lh Rg Rh H.
  apply (app_cut "%") in H as [H1 H2];
    [|by apply string6_groups_avoid|by apply string6_groups_avoid|apply zone_text_form..].
  split; [|by apply zone_text_inj].
  apply (f_equal read_groups) in H1. by rewrite !read_string6_groups in H1.
Qed.

Lemma string6_inj x y zx zy : (0 <= x < 2 ^ 128)%Z -> (0 <= y < 2 ^ 128)%Z ->
  string6 x zx = string6 y zy -> x = y /\ zx = zy.
Proof.
  intros Hx Hy. unfold string6. intros H.
  destruct (string6_parts_inj _ _ _ _ (be_groups_length 8 x) (be_groups_length 8 y)
    (be_groups_range 8 x) (be_groups_range 8 y) H) as [Hg Hz].
  split; [|exact Hz]. clear H. apply (be_groups_inj 8); [| |exact Hg].
  - replace (16 * Z.of_nat 8)%Z with 128%Z by lia. exact Hx.
  - replace (16 * Z.of_nat 8)%Z with 128%Z by lia. exact Hy.
Qed.

(** Different addresses have different texts, once IPv4-mapped addresses are
    unmapped. *)
Lemma Addr_String_inj a b : IsValid a = true -> IsValid b = true -> addr_wf a -> addr_wf b ->
  Is4In6 a = false -> Is4In6 b = false -> Addr_String a = Addr_String b -> a = b.
Proof.
  assert (forall v, ":"%char ∉ string4 v) as Hc4.
  { intros v. apply join_avoid; [done|]. apply Forall_fmap. cbn [be_bytes app].
    repeat (apply Forall_cons; split); [..|constructor];
      (apply digit_not_in; [apply Itoa_digits, u8_range|]; unfold is_digit; vm_compute; intros [? ?]; by auto). }
  assert (forall v z, ":"%char ∈ string6 v z) as Hc6.
  { intros v z. unfold string6. apply elem_of_app. left.
    apply string6_groups_colon; first [apply be_groups_length|apply be_groups_range]. }
  intros Va Vb Wa Wb Ma Mb H. unfold Addr_String in H. rewrite Ma, Mb in H.
  destruct a as [|x|x zx], b as [|y|y zy]; try done.
  - f_equal. by apply string4_inj.
  - destruct (Hc4 x). rewrite H. apply Hc6.
  - destruct (Hc4 y). rewrite <- H. apply Hc6.
  - apply string6_inj in H as [-> ->]; done.
Qed.

(** ** Parsed addresses fit their width *)
Definition bytes_ok (l : list Z) : Prop := Forall (fun b => 0 <= b < 256)%Z l.

Lemma be_value_range l : bytes_ok l -> (0 <= be_value l < 2 ^ (8 * Z.of_nat (length l)))%Z.
Proof.
  induction l as [|b l IH] using rev_ind; intros H; [vm_compute; split; [discriminate|done]|].
  apply Forall_app in H as [H1 H2]. apply Forall_cons in H2 as [Hb _]. specialize (IH H1).
  rewrite be_value_snoc, length_app. simpl length.
  replace (8 * Z.of_nat (length l + 1))%Z with (8 * Z.of_nat (length l) + 8)%Z by lia.
  rewrite Z.pow_add_r by lia. lia.
Qed.

Lemma parseIPv4Fields_ok s : forall fields val dl r, bytes_ok fields -> (0 <= val < 256)%Z ->
  length fields <= 3 -> parseIPv4Fields s fields val dl = Some r -> bytes_ok r /\ length r = 4.
Proof.
  induction s as [|c s IH]; intros fields val dl r Hf Hv Hl; cbn [parseIPv4Fields].
  - repeat case_decide; try done. intros [= <-]. split; [apply Forall_app; split; [done|by apply Forall_singleton]|].
    rewrite length_app. simpl. lia.
  - destruct (digit c) as [d|] eqn:Ed.
    + repeat case_decide; try done. apply IH; [done| |done].
      unfold digit in Ed. case_decide; [|done]. injection Ed as <-. lia.
    + destruct (decide (c = "."%char)); [|done]. case_decide as Hn; [done|].
      apply Decidable.not_or in Hn as [_ [_ Hn]%Decidable.not_or].
      apply IH; [apply Forall_app; split; [done|by apply Forall_singleton]|lia|].
      rewrite length_app. simpl. lia.
Qed.

Lemma hex_digit_range c d : hex_digit c = Some d -> (0 <= d < 16)%Z.
Proof. unfold hex_digit. repeat case_decide; intros [= <-]; lia. Qed.

Lemma hex_group_range s : forall off acc off' acc' r, (0 <= acc < 16 ^ Z.of_nat off)%Z -> off <= 4 ->
  hex_group s off acc = Some (off', acc', r) -> (0 <= acc' < 65536)%Z.
Proof.
  induction s as [|c s IH]; intros off acc off' acc' r Ha Ho; cbn [hex_group].
  - intros [= _ <- _]. split; [lia|]. eapply Z.lt_le_trans; [apply Ha|].
    change 65536%Z with (16 ^ 4)%Z. apply Z.pow_le_mono_r; lia.
  - destruct (hex_digit c) as [d|] eqn:E.
    + case_decide; [done|]. apply IH; [|lia]. apply hex_digit_range in E.
      replace (Z.of_nat (off + 1)) with (Z.of_nat off + 1)%Z by lia.
      rewrite Z.pow_add_r by lia. lia.
    + intros [= _ <- _]. split; [lia|]. eapply Z.lt_le_trans; [apply Ha|].
      change 65536%Z with (16 ^ 4)%Z. apply Z.pow_le_mono_r; lia.
Qed.

Lemma byte_pair acc : (0 <= acc < 65536)%Z -> bytes_ok [(acc / 256)%Z; (acc mod 256)%Z].
Proof. intros H. repeat constructor; Z.div_mod_to_equations; lia. Qed.

Lemma parse_groups_ok fuel : forall s ip el ip' el' r, bytes_ok ip -> length ip <= 16 ->
  Nat.Even (length ip) -> parse_groups fuel s ip el = Some (ip', el', r) ->
  bytes_ok ip' /\ length ip' <= 16.
Proof.
  induction fuel as [|fuel IH]; intros s ip el ip' el' r Hb Hl Hev; cbn [parse_groups]; [done|].
  case_decide as H16; [by intros [= <- _ _]|].
  destruct (hex_group s 0 0) as [[[off acc] rest]|] eqn:Eg; [|done]. case_decide; [done|].
  apply hex_group_range in Eg; [|simpl; lia|lia].
  assert (bytes_ok (ip ++ [(acc / 256)%Z; (acc mod 256)%Z])) as Hb'
    by (apply Forall_app; split; [done|by apply byte_pair]).
  assert (length (ip ++ [(acc / 256)%Z; (acc mod 256)%Z]) <= 16 /\
    Nat.Even (length (ip ++ [(acc / 256)%Z; (acc mod 256)%Z]))) as [Hl' Hev'].
  { rewrite length_app. simpl. destruct Hev as [k Hk]. split; [lia|]. exists (k + 1). lia. }
  set (ip2 := ip ++ _) in *. clearbody ip2.
  repeat case_match; subst; try done; try (intros [= <- _ _]; by split);
    try (by apply IH).
  intros [= <- _ _].
  match goal with H : parseIPv4Fields _ _ _ _ = Some _ |- _ =>
    apply parseIPv4Fields_ok in H as [Hf1 Hf2]; [|constructor|lia|simpl; lia] end.
  match goal with H : decide _ = right _ |- _ => clear H end.
  split; [apply Forall_app; by split|]. rewrite length_app. lia.
Qed.

Lemma wide6_range l : bytes_ok l -> length l <= 16 -> (0 <= be_value l < 2 ^ 128)%Z.
Proof.
  intros Hb Hl. pose proof (be_value_range l Hb) as [H1 H2]. split; [done|].
  eapply Z.lt_le_trans; [exact H2|]. apply Z.pow_le_mono_r; lia.
Qed.

Lemma parse4_wf s a : parseIPv4 s = Some a -> IsValid a = true /\ addr_wf a.
Proof.
  unfold parseIPv4. destruct (parseIPv4Fields s [] 0 0) as [l|] eqn:E; [|done].
  apply parseIPv4Fields_ok in E as [Hb Hl]; [|constructor|lia|simpl; lia].
  simpl. intros [= <-]. split; [done|]. pose proof (be_value_range l Hb) as H.
  rewrite Hl in H. exact H.
Qed.

Lemma parse6_wf s a : parseIPv6 s = Some a -> IsValid a = true /\ addr_wf a.
Proof.
  unfold parseIPv6. destruct (Cut s "%") as [[s1 zone] hz]. case_match; [done|].
  destruct (match s1 with ":"%char :: ":"%char :: rest => (rest, Some 0) | _ => (s1, None) end)
    as [s2 el]. case_decide; [intros [= <-]; split; [done|]; simpl; lia|].
  destruct (parse_groups (S (length s2)) s2 [] el) as [[[ip el'] r]|] eqn:E; [|done].
  apply parse_groups_ok in E as [Hb Hl]; [|constructor|simpl; lia|exists 0; done].
  destruct r; [|done]. case_decide.
  - destruct el' as [e|]; [|done]. intros [= <-]. split; [done|]. cbn [addr_wf].
    apply wide6_range.
    + apply Forall_app. split; [by apply Forall_take|]. apply Forall_app. split; [|by apply Forall_drop].
      apply Forall_replicate. lia.
    + rewrite !length_app, length_take, length_replicate, length_drop. lia.
  - destruct el'; [done|]. intros [= <-]. split; [done|]. cbn [addr_wf]. by apply wide6_range.
Qed.

Lemma ParseAddr_wf s a : ParseAddr s = Some a -> IsValid a = true /\ addr_wf a.
Proof.
  unfold ParseAddr. generalize s at 2. induction s as [|c s IH]; intros w; [done|].
  cbn [parse_family]. repeat case_match; try done; subst;
    eauto using parse4_wf, parse6_wf.
Qed.
