(* ===== verification/I2pSam.v ===== *)
(** * The I2P SAM client
      (shared/anonymous/i2psam: sam.go, datagram.go)

    The client speaks the line protocol of a SAM bridge: commands and replies
    are lines, a datagram is announced by a line and followed by its bytes.

    The network is a [world]: the connections opened so far, each with the
    bytes that the bridge is still going to send on it, the bytes written to
    it and the number of times it was closed; and the outcomes of the dials
    and writes to come.  Deadlines and cancelled contexts show as failing
    dials, writes and reads. *)

From Stdlib Require Import ZArith Lia Ascii.
From stdpp Require Import base gmap strings numbers countable sorting pretty list.
From S2P Require Import Prelude Netip GoStrings AddrText.

(** ** Constants *)
Definition DefaultAddress : gostring := lit "127.0.0.1:7656".
Definition DefaultTimeout : Z := 30 * 1000000000.
Definition DefaultTunnelLength : Z := 1.
Definition DefaultTunnelQuantity : Z := 3.
Definition MaxTunnelLength : Z := 7.
Definition MaxTunnelQuantity : Z := 16.
Definition DatagramStyleRepliable : gostring := lit "DATAGRAM".
Definition DatagramStyleRaw : gostring := lit "RAW".
Definition DefaultSAMUDPPort : gostring := lit "7655".
Definition DefaultRawProtocol : Z := 18.
Definition MaxRepliableDatagramLen : nat := Z.to_nat 31744.
Definition MaxRawDatagramLen : nat := Z.to_nat 32768.

Definition newline : ascii := Ascii.ascii_of_nat 10.
Definition dquote : ascii := Ascii.ascii_of_nat 34.
Definition backslash : ascii := Ascii.ascii_of_nat 92.

(** ** Errors, without their texts *)
Inductive sam_error : Type :=
| ErrNetwork
| ErrDial
| ErrWrite
| ErrRead
| ErrResult (result message : gostring)
| ErrIncomplete
| ErrLookupNameEmpty
| ErrLookupEmpty
| ErrDestinationEmpty
| ErrDestinationPort
| ErrDestinationParse
| ErrSessionIDGenerate
| ErrTunnelLength (n : Z)
| ErrTunnelQuantity (n : Z)
| ErrNilSession
| ErrPayloadEmpty
| ErrPayloadTooLong (n : nat)
| ErrRawProtocol (protocol : Z)
| ErrSessionIDEmpty
| ErrStyle (style : gostring)
| ErrUDPAddressEmpty
| ErrReplyMissing (key : gostring)
| ErrReplyParse (key : gostring)
| ErrClose.

#[global] Instance sam_error_eq_dec : EqDecision sam_error.
Proof. solve_decision. Defined.

(** ** The world *)
Record conn : Type := mkConn {
  c_net : gostring;
  c_addr : gostring;
  c_rx : gostring;
  c_tx : gostring;
  c_closes : nat }.

Record world : Type := mkWorld {
  w_conns : list conn;
  w_dials : list (option gostring);
  w_writes : list bool }.

(** A call that may fail; its effects remain. *)
Definition SM (A : Type) : Type := world -> world * (sam_error + A).

#[global] Instance SM_ret : MRet SM := fun _ a w => (w, inr a).
#[global] Instance SM_bind : MBind SM := fun _ _ k m w =>
  match m w with
  | (w, inl e) => (w, inl e)
  | (w, inr a) => k a w
  end.
Definition fail {A} (e : sam_error) : SM A := fun w => (w, inl e).

Lemma bind_ok {A B} (m : SM A) (k : A -> SM B) w w' a : m w = (w', inr a) -> (m ≫= k) w = k a w'.
Proof. intros E. unfold mbind, SM_bind. by rewrite E. Qed.
Lemma bind_err {A B} (m : SM A) (k : A -> SM B) w w' e : m w = (w', inl e) -> (m ≫= k) w = (w', inl e).
Proof. intros E. unfold mbind, SM_bind. by rewrite E. Qed.

(** The next dial: its outcome is the bytes that the peer will send. *)
Definition dial (network address : gostring) : SM nat := fun w =>
  match w_dials w with
  | Some rx :: dials =>
      (mkWorld (w_conns w ++ [mkConn network address rx [] 0]) dials (w_writes w), inr (length (w_conns w)))
  | None :: dials => (mkWorld (w_conns w) dials (w_writes w), inl ErrDial)
  | [] => (w, inl ErrDial)
  end.

Definition update (i : nat) (f : conn -> conn) (w : world) : world :=
  mkWorld (alter f i (w_conns w)) (w_dials w) (w_writes w).

(** One write; when the list of outcomes ends, writes succeed. *)
Definition write (i : nat) (b : gostring) : SM unit := fun w =>
  match w_writes w with
  | false :: rest => (mkWorld (w_conns w) (w_dials w) rest, inl ErrWrite)
  | _ => (update i (fun c => mkConn (c_net c) (c_addr c) (c_rx c) (c_tx c ++ b) (c_closes c))
            (mkWorld (w_conns w) (w_dials w) (tail (w_writes w))), inr tt)
  end.

Definition close_conn (i : nat) (w : world) : world :=
  update i (fun c => mkConn (c_net c) (c_addr c) (c_rx c) (c_tx c) (S (c_closes c))) w.

(** [defer conn.Close()]: closed on every return. *)
Definition closing {A} (i : nat) (m : SM A) : SM A := fun w =>
  let '(w, r) := m w in (close_conn i w, r).

(** The connection is closed unless its flag was set: on an error. *)
Definition closing_on_error {A} (i : nat) (m : SM A) : SM A := fun w =>
  match m w with
  | (w, inl e) => (close_conn i w, inl e)
  | (w, inr a) => (w, inr a)
  end.

(** [reader.ReadString('\n')] *)
Fixpoint read_line (s : gostring) : option (gostring * gostring) :=
  match s with
  | [] => None
  | c :: rest =>
      if decide (c = newline) then Some ([c], rest)
      else match read_line rest with
           | Some (line, rest) => Some (c :: line, rest)
           | None => None
           end
  end.

Definition set_rx (rx : gostring) (c : conn) : conn := mkConn (c_net c) (c_addr c) rx (c_tx c) (c_closes c).

(** ** Replies *)

(** [for _, r := range line]: the runes of a string as the bytes that
    [WriteRune] writes; a byte that is not part of a valid encoding gives
    U+FFFD. *)
Definition in_range (lo hi : N) (c : ascii) : bool := bool_decide (lo <= byte_of c <= hi)%N.
Definition cont (c : ascii) : bool := in_range 128 191 c.
Definition valid2 (a b : ascii) : bool := in_range 194 223 a && cont b.
Definition valid3 (a b c : ascii) : bool :=
  (bool_decide (byte_of a = 224)%N && in_range 160 191 b ||
   in_range 225 236 a && cont b || bool_decide (byte_of a = 237)%N && in_range 128 159 b ||
   in_range 238 239 a && cont b) && cont c.
Definition valid4 (a b c d : ascii) : bool :=
  (bool_decide (byte_of a = 240)%N && in_range 144 191 b || in_range 241 243 a && cont b ||
   bool_decide (byte_of a = 244)%N && in_range 128 143 b) && cont c && cont d.
Definition rune_error : gostring :=
  [Ascii.ascii_of_nat 239; Ascii.ascii_of_nat 191; Ascii.ascii_of_nat 189].

Fixpoint runes (s : gostring) : list gostring :=
  match s with
  | [] => []
  | a :: s1 =>
      if decide (byte_of a < 128)%N then [a] :: runes s1 else
      match s1 with
      | [] => [rune_error]
      | b :: s2 =>
          if valid2 a b then [a; b] :: runes s2 else
          match s2 with
          | [] => rune_error :: runes s1
          | c :: s3 =>
              if valid3 a b c then [a; b; c] :: runes s3 else
              match s3 with
              | d :: s4 =>
                  if valid4 a b c d then [a; b; c; d] :: runes s4 else rune_error :: runes s1
              | [] => rune_error :: runes s1
              end
          end
      end
  end.

Definition IsSpace (r : gostring) : bool :=
  match r with
  | [a] => space1 a
  | [a; b] => space2 a b
  | [a; b; c] => space3 a b c
  | _ => false
  end.

(** The variables of [splitFields]. *)
Record split_state : Type := mkSplit {
  ss_fields : list gostring;
  ss_current : gostring;
  ss_quoted : bool;
  ss_escaped : bool }.

Definition split_step (st : split_state) (r : gostring) : split_state :=
  let '(mkSplit fields current quoted escaped) := st in
  if escaped then mkSplit fields (current ++ r) quoted false
  else if quoted && bool_decide (r = [backslash]) then mkSplit fields current quoted true
  else if bool_decide (r = [dquote]) then mkSplit fields current (negb quoted) false
  else if IsSpace r && negb quoted then
    if decide (0 < length current) then mkSplit (fields ++ [current]) [] quoted false
    else mkSplit fields current quoted false
  else mkSplit fields (current ++ r) quoted false.

Definition splitFields (line : gostring) : list gostring :=
  let st := foldl split_step (mkSplit [] [] false false) (runes line) in
  if decide (0 < length (ss_current st)) then ss_fields st ++ [ss_current st] else ss_fields st.

Record Reply : Type := mkReply {
  Raw : gostring;
  RValues : gmap gostring gostring }.

(** A missing key reads as the empty string. *)
Definition value (r : Reply) (key : gostring) : gostring := default [] (RValues r !! key).

Definition OK (r : Reply) : option sam_error :=
  if EqualFold (value r (lit "RESULT")) (lit "OK") then None
  else
    let result := value r (lit "RESULT") in
    let message := value r (lit "MESSAGE") in
    Some (ErrResult (if decide (result = []) then lit "UNKNOWN" else result)
            (if decide (message = []) then Raw r else message)).

Definition check_ok (r : Reply) : SM unit :=
  match OK r with None => mret tt | Some e => fail e end.

Section sam.
(** The upper case of strings that are not pure ASCII. *)
Context (unicode_upper : gostring -> gostring).
Notation ToUpper := (ToUpper unicode_upper).

Definition add_field (m : gmap gostring gostring) (field : gostring) : gmap gostring gostring :=
  let '(key, val, ok) := Cut field "=" in
  if (ok : bool) then <[ToUpper key := val]> m else m.

Definition parse_reply (line : gostring) : Reply :=
  let line := TrimSpace line in
  mkReply line (foldl add_field ∅ (splitFields line)).

Definition readReply (i : nat) : SM Reply := fun w =>
  match w_conns w !! i with
  | Some c =>
      match read_line (c_rx c) with
      | Some (line, rest) => (update i (set_rx rest) w, inr (parse_reply line))
      | None => (update i (set_rx []) w, inl ErrRead)
      end
  | None => (w, inl ErrRead)
  end.

(** ** Commands *)
Definition sendCommand (i : nat) (command : gostring) : SM unit := write i (command ++ [newline]).

Definition hello (i : nat) : SM unit :=
  sendCommand i (lit "HELLO VERSION MIN=3.0 MAX=3.3") ≫= fun _ =>
  readReply i ≫= fun reply => check_ok reply.

Definition FormatUint (n : Z) : gostring := Itoa n.

Definition hasOptionPrefix (options : list gostring) (prefix : gostring) : bool :=
  existsb (fun option => HasPrefix option prefix) options.

Definition sessionCreateCommandWithDestination (style sessionID destination : gostring)
    (options : list gostring) : gostring :=
  let destination := if decide (TrimSpace destination = []) then lit "TRANSIENT" else destination in
  let command := lit "SESSION CREATE STYLE=" ++ style ++ lit " ID=" ++ sessionID ++
                 lit " DESTINATION=" ++ destination ++ lit " SIGNATURE_TYPE=7" in
  let default_option (name : gostring) (n : Z) (command : gostring) : gostring :=
    if negb (hasOptionPrefix options name) then command ++ lit " " ++ name ++ Itoa n else command in
  let command := default_option (lit "inbound.length=") DefaultTunnelLength command in
  let command := default_option (lit "outbound.length=") DefaultTunnelLength command in
  let command := default_option (lit "inbound.quantity=") DefaultTunnelQuantity command in
  let command := default_option (lit "outbound.quantity=") DefaultTunnelQuantity command in
  if decide (0 < length options) then command ++ lit " " ++ join " " options else command.

Definition sessionCreateCommand (style sessionID : gostring) (options : list gostring) : gostring :=
  sessionCreateCommandWithDestination style sessionID (lit "TRANSIENT") options.

Definition sessionTunnelOptions (tunnelLength tunnelQuantity : Z) : list gostring :=
  let tunnelLength := if decide (tunnelLength = 0)%Z then DefaultTunnelLength else tunnelLength in
  let tunnelQuantity := if decide (tunnelQuantity = 0)%Z then DefaultTunnelQuantity
                        else tunnelQuantity in
  [lit "inbound.length=" ++ FormatUint tunnelLength;
   lit "outbound.length=" ++ FormatUint tunnelLength;
   lit "inbound.quantity=" ++ FormatUint tunnelQuantity;
   lit "outbound.quantity=" ++ FormatUint tunnelQuantity].

Definition validateTunnelSettings (tunnelLength tunnelQuantity : Z) : option sam_error :=
  if decide (MaxTunnelLength < tunnelLength)%Z then Some (ErrTunnelLength tunnelLength)
  else if decide (MaxTunnelQuantity < tunnelQuantity)%Z then Some (ErrTunnelQuantity tunnelQuantity)
  else None.

(** [strconv.ParseUint(s, 10, bits)] *)
Definition ParseUint (s : gostring) (bits : Z) : option Z :=
  if decide (s = []) then None else
  v ← digits_value s 0;
  if decide (v < 2 ^ bits)%Z then Some v else None.

(** The text of an [*AddrError]. *)
Definition addr_error_text (e : addr_error) : gostring :=
  match e with
  | missingPort => lit "missing port in address"
  | tooManyColons => lit "too many colons in address"
  | missingBracket => lit "missing ']' in address"
  | unexpectedOpen => lit "unexpected '[' in address"
  | unexpectedClose => lit "unexpected ']' in address"
  end.

Fixpoint Contains (s sub : gostring) : bool :=
  HasPrefix s sub || match s with [] => false | _ :: s => Contains s sub end.

Definition splitDestination (address : gostring) : sam_error + gostring * gostring :=
  let address := TrimSpace address in
  if decide (address = []) then inl ErrDestinationEmpty else
  match SplitHostPort address with
  | inr (host, port) =>
      if decide (port <> [] /\ ParseUint port 16 = None) then inl ErrDestinationPort
      else inr (Trim host (lit "[]"), port)
  | inl e =>
      if Contains (lit "address " ++ address ++ lit ": " ++ addr_error_text e)
           (lit "missing port in address")
      then inr (Trim address (lit "[]"), [])
      else inl ErrDestinationParse
  end.

(** [raw]: the bytes of the random source in hexadecimal, if it works. *)
Definition newSessionID (raw : option gostring) : sam_error + gostring :=
  match raw with Some hex => inr (lit "anonbird-" ++ hex) | None => inl ErrSessionIDGenerate end.

Definition lift {A} (r : sam_error + A) : SM A := fun w => (w, r).
Definition lift_check (e : option sam_error) : SM unit :=
  match e with Some e => fail e | None => mret tt end.

(** ** Calls with one command connection *)
Definition sam_address (samAddress : gostring) : gostring :=
  if decide (TrimSpace samAddress = []) then DefaultAddress else samAddress.

Definition openCommandConn (samAddress : gostring) : SM nat := dial (lit "tcp") samAddress.

Definition Check (samAddress : gostring) : SM unit :=
  openCommandConn (sam_address samAddress) ≫= fun conn => closing conn (hello conn).

Definition GenerateDestination (samAddress : gostring) : SM (gostring * gostring) :=
  openCommandConn (sam_address samAddress) ≫= fun conn => closing conn (
    hello conn ≫= fun _ =>
    sendCommand conn (lit "DEST GENERATE SIGNATURE_TYPE=7") ≫= fun _ =>
    readReply conn ≫= fun reply =>
    let public := TrimSpace (value reply (lit "PUB")) in
    let private := TrimSpace (value reply (lit "PRIV")) in
    if decide (public = [] \/ private = []) then fail ErrIncomplete
    else mret (public, private)).

Definition Lookup (samAddress name : gostring) : SM gostring :=
  let name := TrimSpace name in
  if decide (name = []) then fail ErrLookupNameEmpty else
  openCommandConn (sam_address samAddress) ≫= fun conn => closing conn (
    hello conn ≫= fun _ =>
    sendCommand conn (lit "NAMING LOOKUP NAME=" ++ name) ≫= fun _ =>
    readReply conn ≫= fun reply =>
    check_ok reply ≫= fun _ =>
    let v := TrimSpace (value reply (lit "VALUE")) in
    if decide (v = []) then fail ErrLookupEmpty else mret v).

(** ** Streams *)
Record sessionConn : Type := mkSessionConn {
  sc_data : nat;
  sc_control : nat;
  sc_done : bool;
  sc_err : option sam_error }.

(** The first part of [dialStream] and of [NewDatagramSession]: the control
    connection is closed unless the session is created. *)
Definition createSession (samAddress command : gostring) : SM nat :=
  openCommandConn samAddress ≫= fun control =>
  closing_on_error control (
    hello control ≫= fun _ =>
    sendCommand control command ≫= fun _ =>
    readReply control ≫= fun reply => check_ok reply) ≫= fun _ =>
  mret control.

Definition streamConnectCommand (sessionID destination toPort : gostring) : gostring :=
  let command := lit "STREAM CONNECT ID=" ++ sessionID ++ lit " DESTINATION=" ++ destination ++
                 lit " SILENT=false" in
  if decide (toPort <> []) then command ++ lit " TO_PORT=" ++ toPort else command.

Definition dialStream (raw : option gostring) (samAddress address : gostring)
    (tunnelLength tunnelQuantity : Z) : SM sessionConn :=
  lift (splitDestination address) ≫= fun '(destination, toPort) =>
  lift (newSessionID raw) ≫= fun sessionID =>
  createSession samAddress
    (sessionCreateCommand (lit "STREAM") sessionID
       (sessionTunnelOptions tunnelLength tunnelQuantity)) ≫= fun control =>
  openCommandConn samAddress ≫= fun data => closing_on_error data (
    hello data ≫= fun _ =>
    sendCommand data (streamConnectCommand sessionID destination toPort) ≫= fun _ =>
    readReply data ≫= fun reply =>
    check_ok reply ≫= fun _ =>
    mret (mkSessionConn data control false None)).

Record Dialer : Type := mkDialer {
  SAMAddress : gostring;
  Timeout : Z;
  TunnelLength : Z;
  TunnelQuantity : Z }.

Definition DialContext (raw : option gostring) (d : Dialer) (network address : gostring)
    : SM sessionConn :=
  if decide (network <> lit "tcp") then fail ErrNetwork else
  let samAddress := TrimSpace (SAMAddress d) in
  let samAddress := if decide (samAddress = []) then DefaultAddress else samAddress in
  lift_check (validateTunnelSettings (TunnelLength d) (TunnelQuantity d)) ≫= fun _ =>
  dialStream raw samAddress address (TunnelLength d) (TunnelQuantity d).

(** Whether closing a connection reports an error. *)
Context (closeFails : nat -> bool).

Definition close_err (i : nat) : option sam_error := if closeFails i then Some ErrClose else None.

(** [sync.Once]: the connections are closed by the first call. *)
Definition sessionConn_Close (c : sessionConn) (w : world)
    : sessionConn * world * option sam_error :=
  if sc_done c then (c, w, sc_err c)
  else
    let w := close_conn (sc_control c) (close_conn (sc_data c) w) in
    let err := match close_err (sc_data c) with
               | Some e => Some e
               | None => close_err (sc_control c)
               end in
    (mkSessionConn (sc_data c) (sc_control c) true err, w, err).

(** ** Datagram sessions *)
Record DatagramConfig : Type := mkDatagramConfig {
  dc_SAMAddress : gostring;
  dc_SAMUDPAddress : gostring;
  dc_Timeout : Z;
  dc_Style : gostring;
  dc_SessionID : gostring;
  dc_PrivateKey : gostring;
  dc_FromPort : Z;
  dc_ToPort : Z;
  dc_Protocol : Z;
  dc_InboundLength : Z;
  dc_OutboundLength : Z;
  dc_InboundQuantity : Z;
  dc_OutboundQuantity : Z }.

Record SendOptions : Type := mkSendOptions {
  so_FromPort : Z;
  so_ToPort : Z;
  so_Protocol : Z }.

Record Datagram : Type := mkDatagram {
  dg_Source : gostring;
  dg_Payload : gostring;
  dg_FromPort : Z;
  dg_ToPort : Z;
  dg_Protocol : Z;
  dg_AnonymousRaw : bool }.

Record DatagramSession : Type := mkDatagramSession {
  ds_id : gostring;
  ds_style : gostring;
  ds_control : nat;
  ds_udp : nat;
  ds_done : bool;
  ds_err : option sam_error }.

Definition JoinHostPort (host port : gostring) : gostring :=
  if mem ":" host then lit "[" ++ host ++ lit "]:" ++ port else host ++ lit ":" ++ port.

Definition defaultSAMUDPAddress (samAddress : gostring) : gostring :=
  let host := match SplitHostPort samAddress with
              | inr (host, _) => if decide (TrimSpace host = []) then lit "127.0.0.1" else host
              | inl _ => lit "127.0.0.1"
              end in
  JoinHostPort host DefaultSAMUDPPort.

Definition or_default (n d : Z) : Z := if decide (n = 0)%Z then d else n.

Definition normalizeDatagramConfig (raw : option gostring) (cfg : DatagramConfig) : DatagramConfig :=
  let samAddress := sam_address (dc_SAMAddress cfg) in
  let style := ToUpper (TrimSpace (dc_Style cfg)) in
  mkDatagramConfig samAddress
    (if decide (TrimSpace (dc_SAMUDPAddress cfg) = []) then defaultSAMUDPAddress samAddress
     else dc_SAMUDPAddress cfg)
    (if decide (dc_Timeout cfg <= 0)%Z then DefaultTimeout else dc_Timeout cfg)
    (if decide (style = []) then DatagramStyleRaw else style)
    (if decide (TrimSpace (dc_SessionID cfg) = [])
     then match newSessionID raw with inr id => id | inl _ => dc_SessionID cfg end
     else dc_SessionID cfg)
    (dc_PrivateKey cfg) (dc_FromPort cfg) (dc_ToPort cfg)
    (or_default (dc_Protocol cfg) DefaultRawProtocol)
    (or_default (dc_InboundLength cfg) DefaultTunnelLength)
    (or_default (dc_OutboundLength cfg) DefaultTunnelLength)
    (or_default (dc_InboundQuantity cfg) DefaultTunnelQuantity)
    (or_default (dc_OutboundQuantity cfg) DefaultTunnelQuantity).

Definition protocolIsDisallowedForRaw (protocol : Z) : bool :=
  bool_decide (protocol ∈ [6; 17; 19; 20]%Z).

Definition validateDatagramConfig (cfg : DatagramConfig) : option sam_error :=
  if decide (TrimSpace (dc_SessionID cfg) = []) then Some ErrSessionIDEmpty
  else if decide (dc_Style cfg <> DatagramStyleRepliable /\ dc_Style cfg <> DatagramStyleRaw)
  then Some (ErrStyle (dc_Style cfg))
  else if bool_decide (dc_Style cfg = DatagramStyleRaw) &&
          protocolIsDisallowedForRaw (dc_Protocol cfg)
  then Some (ErrRawProtocol (dc_Protocol cfg))
  else match validateTunnelSettings (dc_InboundLength cfg) (dc_InboundQuantity cfg) with
       | Some e => Some e
       | None =>
           match validateTunnelSettings (dc_OutboundLength cfg) (dc_OutboundQuantity cfg) with
           | Some e => Some e
           | None =>
               if decide (TrimSpace (dc_SAMUDPAddress cfg) = []) then Some ErrUDPAddressEmpty else None
           end
       end.

Definition datagramSessionCreateCommand (cfg : DatagramConfig) : gostring :=
  let options :=
    [lit "inbound.length=" ++ FormatUint (dc_InboundLength cfg);
     lit "outbound.length=" ++ FormatUint (dc_OutboundLength cfg);
     lit "inbound.quantity=" ++ FormatUint (dc_InboundQuantity cfg);
     lit "outbound.quantity=" ++ FormatUint (dc_OutboundQuantity cfg)] ++
    (if decide (dc_FromPort cfg <> 0)%Z then [lit "FROM_PORT=" ++ FormatUint (dc_FromPort cfg)] else []) ++
    (if decide (dc_ToPort cfg <> 0)%Z then [lit "TO_PORT=" ++ FormatUint (dc_ToPort cfg)] else []) ++
    (if decide (dc_Style cfg = DatagramStyleRaw /\ dc_Protocol cfg <> 0)%Z
     then [lit "PROTOCOL=" ++ FormatUint (dc_Protocol cfg)] else []) in
  let destination := TrimSpace (dc_PrivateKey cfg) in
  let destination := if decide (destination = []) then lit "TRANSIENT" else destination in
  sessionCreateCommandWithDestination (dc_Style cfg) (dc_SessionID cfg) destination options.

Definition NewDatagramSession (raw : option gostring) (cfg : DatagramConfig) : SM DatagramSession :=
  let cfg := normalizeDatagramConfig raw cfg in
  lift_check (validateDatagramConfig cfg) ≫= fun _ =>
  createSession (dc_SAMAddress cfg) (datagramSessionCreateCommand cfg) ≫= fun control =>
  closing_on_error control (
    dial (lit "udp") (dc_SAMUDPAddress cfg) ≫= fun udp =>
    mret (mkDatagramSession (dc_SessionID cfg) (dc_Style cfg) control udp false None)).

Definition validateDatagramPayload (style : gostring) (len : nat) : option sam_error :=
  if decide (len < 1) then Some ErrPayloadEmpty else
  let limit := if decide (style = DatagramStyleRaw) then MaxRawDatagramLen
               else MaxRepliableDatagramLen in
  if decide (limit < len) then Some (ErrPayloadTooLong len) else None.

(** The packet that [Send] writes. *)
Definition sendPacket (s : DatagramSession) (destination payload : gostring) (opts : SendOptions)
    : gostring :=
  let header := lit "3.0 " ++ ds_id s ++ lit " " ++ destination in
  let header := if decide (so_FromPort opts <> 0)%Z
                then header ++ lit " FROM_PORT=" ++ FormatUint (so_FromPort opts) else header in
  let header := if decide (so_ToPort opts <> 0)%Z
                then header ++ lit " TO_PORT=" ++ FormatUint (so_ToPort opts) else header in
  let header := if decide (ds_style s = DatagramStyleRaw)
                then header ++ lit " PROTOCOL=" ++
                     FormatUint (or_default (so_Protocol opts) DefaultRawProtocol)
                else header in
  header ++ newline :: payload.

Definition Send (s : option DatagramSession) (destination payload : gostring) (opts : SendOptions)
    : SM unit :=
  match s with
  | None => fail ErrNilSession
  | Some s =>
      let destination := TrimSpace destination in
      if decide (destination = []) then fail ErrDestinationEmpty else
      lift_check (validateDatagramPayload (ds_style s) (length payload)) ≫= fun _ =>
      if bool_decide (ds_style s = DatagramStyleRaw) && bool_decide (so_Protocol opts <> 0)%Z &&
         protocolIsDisallowedForRaw (so_Protocol opts)
      then fail (ErrRawProtocol (so_Protocol opts))
      else write (ds_udp s) (sendPacket s destination payload opts)
  end.

Definition parseReplyUint16 (reply : Reply) (key : gostring) : sam_error + Z :=
  let v := TrimSpace (value reply key) in
  if decide (v = []) then inl (ErrReplyMissing key)
  else match ParseUint v 16 with Some n => inr n | None => inl (ErrReplyParse key) end.

Definition parseOptionalPort (reply : Reply) (key : gostring) : Z :=
  match parseReplyUint16 reply key with inr port => port | inl _ => 0 end.

Definition parseOptionalProtocol (reply : Reply) : Z :=
  let v := TrimSpace (value reply (lit "PROTOCOL")) in
  if decide (v = []) then 0 else default 0%Z (ParseUint v 8).

(** [io.ReadFull] *)
Definition readFull (i n : nat) : SM gostring := fun w =>
  match w_conns w !! i with
  | Some c =>
      if decide (n <= length (c_rx c))
      then (update i (set_rx (drop n (c_rx c))) w, inr (take n (c_rx c)))
      else (update i (set_rx []) w, inl ErrRead)
  | None => (w, inl ErrRead)
  end.

Definition Receive (s : option DatagramSession) : SM Datagram :=
  match s with
  | None => fail ErrNilSession
  | Some s =>
      readReply (ds_control s) ≫= fun reply =>
      lift (parseReplyUint16 reply (lit "SIZE")) ≫= fun size =>
      lift_check (validateDatagramPayload (ds_style s) (Z.to_nat size)) ≫= fun _ =>
      let raw := HasPrefix (ToUpper (Raw reply)) (lit "RAW RECEIVED") in
      let raw := if HasPrefix (ToUpper (Raw reply)) (lit "DATAGRAM RECEIVED") then false else raw in
      readFull (ds_control s) (Z.to_nat size) ≫= fun payload =>
      mret (mkDatagram (value reply (lit "DESTINATION")) payload
              (parseOptionalPort reply (lit "FROM_PORT")) (parseOptionalPort reply (lit "TO_PORT"))
              (parseOptionalProtocol reply) raw)
  end.

Definition DatagramSession_Close (s : option DatagramSession) (w : world)
    : option DatagramSession * world * option sam_error :=
  match s with
  | None => (None, w, None)
  | Some s =>
      if ds_done s then (Some s, w, ds_err s)
      else
        let w := close_conn (ds_control s) (close_conn (ds_udp s) w) in
        let err := match close_err (ds_udp s) with
                   | Some e => Some e
                   | None => close_err (ds_control s)
                   end in
        (Some (mkDatagramSession (ds_id s) (ds_style s) (ds_control s) (ds_udp s) true err), w, err)
  end.

(** ** Lines and their fields *)

(** Characters outside quotes that belong to a field, and characters of a
    quoted value. *)
Definition plain_byte (c : ascii) : Prop :=
  (byte_of c < 128)%N /\ space1 c = false /\ c <> dquote.
Definition quotable (c : ascii) : Prop := (byte_of c < 128)%N /\ c <> newline.

Definition escape (v : gostring) : gostring :=
  v ≫= fun c => if decide (c = dquote \/ c = backslash) then [backslash; c] else [c].

(** The texts of a value: as it is, or quoted. *)
Inductive renders (v : gostring) : gostring -> Prop :=
| renders_plain : v <> [] -> Forall plain_byte v -> renders v v
| renders_quoted : Forall quotable v -> renders v (dquote :: escape v ++ [dquote]).

Lemma runes_ascii s : Forall (fun c => byte_of c < 128)%N s -> runes s = map (fun c => [c]) s.
Proof.
  induction s as [|c s IH]; intros H; [done|]. apply Forall_cons in H as [Hc Hs].
  cbn [runes map]. rewrite decide_True by done. by rewrite IH.
Qed.

Notation splits := (foldl split_step).
Notation chars := (map (fun c : ascii => [c])).

Lemma splits_plain t : forall fs cur, Forall plain_byte t ->
  splits (mkSplit fs cur false false) (chars t) = mkSplit fs (cur ++ t) false false.
Proof.
  induction t as [|c t IH]; intros fs cur H; [by rewrite app_nil_r|].
  apply Forall_cons in H as [(Hc & Hs & Hq) Ht]. cbn [map foldl split_step andb].
  rewrite bool_decide_false by (by intros [= ?]). cbn [IsSpace]. rewrite Hs. cbn [andb].
  rewrite IH by done. by rewrite <- app_assoc.
Qed.

Lemma splits_escaped v : forall fs cur,
  splits (mkSplit fs cur true false) (chars (escape v)) = mkSplit fs (cur ++ v) true false.
Proof.
  induction v as [|c v IH]; intros fs cur; [by rewrite app_nil_r|].
  unfold escape. rewrite bind_cons. fold (escape v). rewrite map_app, foldl_app.
  assert (splits (mkSplit fs cur true false)
    (chars (if decide (c = dquote \/ c = backslash) then [backslash; c] else [c])) =
    mkSplit fs (cur ++ [c]) true false) as ->.
  { case_decide as Hc.
    - cbn [map foldl split_step andb]. by rewrite bool_decide_true.
    - cbn [map foldl split_step andb].
      rewrite bool_decide_false by (intros [= ?]; apply Hc; by right).
      rewrite bool_decide_false by (intros [= ?]; apply Hc; by left).
      by rewrite andb_false_r. }
  rewrite IH. by rewrite <- app_assoc.
Qed.

Lemma splits_quoted v fs cur : 
  splits (mkSplit fs cur false false) (chars (dquote :: escape v ++ [dquote])) =
  mkSplit fs (cur ++ v) false false.
Proof.
  cbn [map foldl split_step andb]. rewrite bool_decide_true by done. cbn [negb].
  rewrite map_app, foldl_app, splits_escaped. cbn [map foldl split_step andb].
  rewrite bool_decide_false by done. cbn [andb]. by rewrite bool_decide_true.
Qed.

Lemma splits_renders v t fs cur : renders v t ->
  splits (mkSplit fs cur false false) (chars t) = mkSplit fs (cur ++ v) false false.
Proof. intros [Hne Hp|Hq]; [by apply splits_plain|apply splits_quoted]. Qed.

(** An item of a line: a word, or a key with a value and its text. *)
Inductive item : Type :=
| Word (w : gostring)
| Pair (key v text : gostring).

Definition item_text (x : item) : gostring :=
  match x with Word w => w | Pair k v t => k ++ "="%char :: t end.
Definition item_field (x : item) : gostring :=
  match x with Word w => w | Pair k v t => k ++ "="%char :: v end.

Definition name_ok (k : gostring) : Prop :=
  k <> [] /\ Forall (fun c => plain_byte c /\ c <> "="%char) k.
Definition item_ok (x : item) : Prop :=
  match x with
  | Word w => name_ok w
  | Pair k v t => name_ok k /\ map upper_byte k = k /\ renders v t
  end.

Lemma name_plain k : name_ok k -> Forall plain_byte k.
Proof. intros [_ H]. eapply Forall_impl; [exact H|]. by intros c [? _]. Qed.

Lemma equals_plain : plain_byte "=".
Proof. split; [by vm_compute|]. split; [by vm_compute|discriminate]. Qed.

Lemma splits_item x fs : item_ok x ->
  splits (mkSplit fs [] false false) (chars (item_text x)) = mkSplit fs (item_field x) false false.
Proof.
  destruct x as [w|k v t]; cbn [item_ok item_text item_field].
  - intros H. by rewrite splits_plain by by apply name_plain.
  - intros (Hk & _ & Hr). rewrite map_app, foldl_app, splits_plain by by apply name_plain.
    change (chars ("="%char :: t)) with (chars ["="%char] ++ chars t). rewrite foldl_app.
    rewrite splits_plain by (apply Forall_singleton, equals_plain).
    rewrite (splits_renders v t) by done. cbn [app]. by rewrite <- app_assoc.
Qed.

Lemma field_nonempty x : item_ok x -> 0 < length (item_field x).
Proof.
  destruct x as [w|k v t]; cbn.
  - intros [H _]. destruct w; [done|]. simpl. lia.
  - intros _. rewrite length_app. simpl. lia.
Qed.

Definition line_of (items : list item) : gostring := join " " (item_text <$> items).

(** Texts separated by spaces, each of which the splitter reads as one
    field. *)
Definition reads_as (x : gostring * gostring) : Prop :=
  0 < length x.2 /\
  forall fs, splits (mkSplit fs [] false false) (chars x.1) = mkSplit fs x.2 false false.

Lemma splits_fields (l : list (gostring * gostring)) : forall fs, Forall reads_as l -> l <> [] ->
  exists fs' last_, splits (mkSplit fs [] false false) (chars (join " " l.*1)) =
    mkSplit fs' last_ false false /\ fs' ++ [last_] = fs ++ l.*2 /\ 0 < length last_.
Proof.
  induction l as [|x l IH]; intros fs Hok Hne; [done|].
  apply Forall_cons in Hok as [[Hx1 Hx2] Hok]. destruct l as [|y l].
  - exists fs, x.2. split; [apply Hx2|done].
  - rewrite fmap_cons.
    change (join " " (x.1 :: (y :: l).*1)) with (x.1 ++ " "%char :: join " " (y :: l).*1).
    rewrite map_app, foldl_app, Hx2.
    change (chars (" "%char :: join " " (y :: l).*1)) with ([[" "%char]] ++ chars (join " " (y :: l).*1)).
    rewrite foldl_app.
    assert (splits (mkSplit fs x.2 false false) [[" "%char]] = mkSplit (fs ++ [x.2]) [] false false) as ->.
    { cbn [foldl split_step andb]. rewrite bool_decide_false by done.
      change (IsSpace [" "%char]) with true. cbn [andb negb]. by rewrite decide_True. }
    destruct (IH (fs ++ [x.2]) Hok ltac:(done)) as (fs' & l' & H1 & H2 & H3).
    exists fs', l'. split; [exact H1|]. split; [|done]. rewrite H2, <- app_assoc. done.
Qed.

Lemma splitFields_texts (l : list (gostring * gostring)) :
  Forall reads_as l -> l <> [] -> Forall (fun c => byte_of c < 128)%N (join " " l.*1) ->
  splitFields (join " " l.*1) = l.*2.
Proof.
  intros Hok Hne Ha. unfold splitFields. rewrite runes_ascii by done.
  destruct (splits_fields l [] Hok Hne) as (fs & l' & H1 & H2 & H3). rewrite H1.
  cbn [ss_current ss_fields]. by rewrite decide_True, H2.
Qed.

Definition ascii_byte (c : ascii) : Prop := (byte_of c < 128)%N.

Lemma plain_ascii l : Forall plain_byte l -> Forall ascii_byte l.
Proof. intros H. eapply Forall_impl; [exact H|]. by intros c [? _]. Qed.

Lemma escape_ascii v : Forall quotable v -> Forall ascii_byte (escape v).
Proof.
  intros H. induction H as [|c v [Hc _] Hv IH]; [constructor|]. unfold escape. rewrite bind_cons.
  apply Forall_app. split; [|exact IH].
  case_decide; repeat (apply Forall_cons; split); try done; by vm_compute.
Qed.

Lemma renders_ascii v t : renders v t -> Forall ascii_byte t.
Proof.
  intros [_ H|H]; [by apply plain_ascii|]. apply Forall_cons. split; [by vm_compute|].
  apply Forall_app. split; [by apply escape_ascii|]. apply Forall_singleton. by vm_compute.
Qed.

Lemma item_ascii x : item_ok x -> Forall ascii_byte (item_text x).
Proof.
  destruct x as [w|k v t]; cbn.
  - intros H. by apply plain_ascii, name_plain.
  - intros (Hk & _ & Hr). apply Forall_app. split; [by apply plain_ascii, name_plain|].
    apply Forall_cons. split; [by vm_compute|by eapply renders_ascii].
Qed.

Lemma join_Forall (P : ascii -> Prop) sep l : P sep -> Forall (Forall P) l -> Forall P (join sep l).
Proof.
  intros Hs Hl. induction Hl as [|x l Hx Hl IH]; [constructor|]. destruct l as [|y l]; [done|].
  change (join sep (x :: y :: l)) with (x ++ sep :: join sep (y :: l)).
  apply Forall_app. split; [done|]. by apply Forall_cons.
Qed.

Lemma line_ascii items : Forall item_ok items -> Forall ascii_byte (line_of items).
Proof.
  intros H. apply join_Forall; [by vm_compute|]. apply Forall_fmap.
  eapply Forall_impl; [exact H|]. intros x Hx. by apply item_ascii.
Qed.

Lemma splitFields_line items : Forall item_ok items -> items <> [] ->
  splitFields (line_of items) = item_field <$> items.
Proof.
  intros Hok Hne. pose proof (line_ascii items Hok) as Ha. unfold line_of in *.
  set (l := (fun x => (item_text x, item_field x)) <$> items).
  assert (item_text <$> items = l.*1) as E1 by (unfold l; by rewrite <- list_fmap_compose).
  assert (item_field <$> items = l.*2) as E2 by (unfold l; by rewrite <- list_fmap_compose).
  rewrite E1 in *. rewrite E2. apply splitFields_texts; [|by destruct items|done].
  apply Forall_fmap. eapply Forall_impl; [exact Hok|]. intros x Hx.
  split; [by apply field_nonempty|]. intros fs. by apply splits_item.
Qed.

(** Words that need no quotes are read as they are. *)
Lemma splitFields_plain (toks : list gostring) : toks <> [] ->
  Forall (fun t => t <> [] /\ Forall plain_byte t) toks -> splitFields (join " " toks) = toks.
Proof.
  intros Hne Hok. set (l := (fun t => (t, t)) <$> toks).
  assert (toks = l.*1) as E1 by (unfold l; rewrite <- list_fmap_compose; by rewrite list_fmap_id).
  assert (toks = l.*2) as E2 by (unfold l; rewrite <- list_fmap_compose; by rewrite list_fmap_id).
  rewrite E1 at 1. rewrite E2 at 1. apply splitFields_texts.
  - apply Forall_fmap. eapply Forall_impl; [exact Hok|]. intros t [Ht Hp].
    split; [destruct t; [done|cbn; lia]|]. intros fs. cbn [fst snd]. by rewrite splits_plain.
  - unfold l. by destruct toks.
  - rewrite <- E1. apply join_Forall; [by vm_compute|]. eapply Forall_impl; [exact Hok|].
    intros t [_ Hp]. by apply plain_ascii.
Qed.

(** *** Trimming *)
Definition edge_byte (c : ascii) : Prop := ascii_byte c /\ space1 c = false.

Lemma trim_runes_edge sp2 sp3 c s : space1 c = false ->
  (forall b, sp2 c b = false) -> (forall b d, sp3 c b d = false) ->
  trim_runes space1 sp2 sp3 (c :: s) = c :: s.
Proof.
  intros H1 H2 H3. cbn [trim_runes]. rewrite H1. destruct s as [|b s]; [done|]. rewrite H2.
  destruct s as [|d s]; [done|]. by rewrite H3.
Qed.

Lemma space2_ascii a b : ascii_byte a -> space2 a b = false.
Proof. intros H. unfold space2. apply bool_decide_eq_false. unfold ascii_byte in H. lia. Qed.
Lemma space2_ascii_last a b : ascii_byte b -> space2 a b = false.
Proof. intros H. unfold space2. apply bool_decide_eq_false. unfold ascii_byte in H. lia. Qed.
Lemma space3_ascii a b c : ascii_byte a -> space3 a b c = false.
Proof. intros H. unfold space3. apply bool_decide_eq_false. unfold ascii_byte in H. lia. Qed.
Lemma space3_ascii_last a b c : ascii_byte c -> space3 a b c = false.
Proof. intros H. unfold space3. apply bool_decide_eq_false. unfold ascii_byte in H. lia. Qed.

(** A text with ASCII characters other than space at both ends: trimming
    keeps it and removes a line end after it. *)
Definition edged (s : gostring) : Prop :=
  (exists c s', s = c :: s' /\ edge_byte c) /\ (exists c s', s = s' ++ [c] /\ edge_byte c).

Lemma TrimSpace_edged s : edged s -> TrimSpace s = s /\ TrimSpace (s ++ [newline]) = s.
Proof.
  intros [(c & s' & E1 & Hc & Hc') (d & s'' & E2 & Hd & Hd')].
  assert (forall t, trim_runes space1 space2 space3 (s ++ t) = s ++ t) as Hl.
  { intros t. rewrite E1. cbn [app]. apply trim_runes_edge; [done|..].
    - intros b. by apply space2_ascii.
    - intros b x. by apply space3_ascii. }
  assert (trim_runes space1 (fun a b => space2 b a) (fun a b c => space3 c b a) (reverse s) = reverse s) as Hr.
  { rewrite E2, reverse_app, reverse_singleton. cbn [app]. apply trim_runes_edge; [done|..].
    - intros b. by apply space2_ascii_last.
    - intros b x. by apply space3_ascii_last. }
  unfold TrimSpace. split.
  - pose proof (Hl []) as H. rewrite app_nil_r in H. rewrite H, Hr. apply reverse_involutive.
  - rewrite Hl, reverse_app, reverse_singleton. cbn [app trim_runes].
    change (space1 newline) with true. cbn [reverse]. rewrite Hr. apply reverse_involutive.
Qed.

Lemma plain_edge c : plain_byte c -> edge_byte c.
Proof. by intros (? & ? & _). Qed.

Lemma plain_edged s : s <> [] -> Forall plain_byte s -> edged s.
Proof.
  intros Hne Hs. split.
  - destruct s as [|c s]; [done|]. apply Forall_cons in Hs as [Hc _].
    exists c, s. split; [done|by apply plain_edge].
  - destruct (exists_last Hne) as (s' & c & ->). apply Forall_app in Hs as [_ Hc].
    apply Forall_cons in Hc as [Hc _]. exists c, s'. split; [done|by apply plain_edge].
Qed.

Lemma edged_app s t : (exists c s', s = c :: s' /\ edge_byte c) ->
  (exists c t', t = t' ++ [c] /\ edge_byte c) -> edged (s ++ t).
Proof.
  intros (c & s' & -> & Hc) (d & t' & -> & Hd). split.
  - by exists c, (s' ++ t' ++ [d]).
  - exists d, ((c :: s') ++ t'). by rewrite app_assoc.
Qed.

Lemma renders_last v t : renders v t -> exists c t', t = t' ++ [c] /\ edge_byte c.
Proof.
  intros [Hne H|H]; [exact (proj2 (plain_edged v Hne H))|].
  exists dquote, (dquote :: escape v). split; [done|]. split; by vm_compute.
Qed.

Lemma item_edged x : item_ok x -> edged (item_text x).
Proof.
  destruct x as [w|k v t]; cbn.
  - intros H. apply plain_edged; [apply H|by apply name_plain].
  - intros (Hk & _ & Hr). apply edged_app.
    + exact (proj1 (plain_edged k (proj1 Hk) (name_plain k Hk))).
    + destruct (renders_last v t Hr) as (c & t' & -> & Hc). by exists c, ("="%char :: t').
Qed.

Lemma line_edged items : Forall item_ok items -> items <> [] -> edged (line_of items).
Proof.
  intros H. induction H as [|x items Hx H IH]; intros Hne; [done|].
  destruct items as [|y items]; [by apply item_edged|].
  change (line_of (x :: y :: items)) with (item_text x ++ " "%char :: line_of (y :: items)).
  destruct (IH ltac:(done)) as [_ (c & s' & E & Hc)]. apply edged_app; [exact (proj1 (item_edged x Hx))|].
  exists c, (" "%char :: s'). by rewrite E.
Qed.

(** *** Reading a line *)
Lemma read_line_app s rest : newline ∉ s ->
  read_line (s ++ newline :: rest) = Some (s ++ [newline], rest).
Proof.
  induction s as [|c s IH]; intros H; cbn [app read_line]; [by rewrite decide_True|].
  apply not_elem_of_cons in H as [H1 H2]. rewrite decide_False by done. by rewrite IH.
Qed.

Lemma newline_not_plain l : Forall plain_byte l -> newline ∉ l.
Proof. intros H. eapply Forall_not_elem; [exact H|]. intros (_ & Hs & _). by vm_compute in Hs. Qed.

Lemma escape_no_newline v : Forall quotable v -> newline ∉ escape v.
Proof.
  intros H. induction H as [|c v [_ Hc] Hv IH]; [by apply not_elem_of_nil|].
  unfold escape. rewrite bind_cons. fold (escape v). rewrite not_elem_of_app. split; [|done].
  case_decide; rewrite ?not_elem_of_cons; split_and!; try done; apply not_elem_of_nil.
Qed.

Lemma item_no_newline x : item_ok x -> newline ∉ item_text x.
Proof.
  destruct x as [w|k v t]; cbn.
  - intros H. by apply newline_not_plain, name_plain.
  - intros (Hk & _ & Hr). rewrite not_elem_of_app, not_elem_of_cons. split_and!.
    + by apply newline_not_plain, name_plain.
    + done.
    + destruct Hr as [_ H|H]; [by apply newline_not_plain|].
      rewrite not_elem_of_cons, not_elem_of_app, not_elem_of_cons. split_and!; [done| |done|apply not_elem_of_nil].
      by apply escape_no_newline.
Qed.

Lemma line_no_newline items : Forall item_ok items -> newline ∉ line_of items.
Proof.
  intros H. apply join_avoid; [done|]. apply Forall_fmap. eapply Forall_impl; [exact H|].
  intros x Hx. by apply item_no_newline.
Qed.

(** The values of a line, the last one of a repeated key. *)
Definition item_values (items : list item) : gmap gostring gostring :=
  foldl (fun m x => match x with Pair k v _ => <[k := v]> m | Word _ => m end) ∅ items.

Lemma ToUpper_id k : Forall ascii_byte k -> map upper_byte k = k -> ToUpper k = k.
Proof.
  intros Ha Hu. unfold GoStrings.ToUpper. destruct (is_ascii k) eqn:E; [done|].
  exfalso. apply not_true_iff_false in E. apply E. unfold is_ascii. apply forallb_forall.
  intros c Hc. apply bool_decide_eq_true. apply list_elem_of_In in Hc.
  by eapply Forall_forall in Ha.
Qed.

Lemma add_fields items m : Forall item_ok items ->
  foldl add_field m (item_field <$> items) =
  foldl (fun m x => match x with Pair k v _ => <[k := v]> m | Word _ => m end) m items.
Proof.
  intros H. revert m. induction H as [|x items Hx H IH]; intros m; [done|].
  rewrite fmap_cons. cbn [foldl]. rewrite IH. f_equal. unfold add_field.
  destruct x as [w|k v t]; cbn [item_field item_ok] in *.
  - destruct Hx as [_ Hw]. rewrite Cut_absent; [done|].
    eapply Forall_not_elem; [exact Hw|]. by intros [_ ?].
  - destruct Hx as (Hk & Hu & _). rewrite Cut_app.
    + by rewrite ToUpper_id by (by try apply plain_ascii, name_plain).
    + destruct Hk as [_ Hk]. eapply Forall_not_elem; [exact Hk|]. by intros [_ ?].
Qed.

Lemma parse_reply_line items : Forall item_ok items -> items <> [] ->
  parse_reply (line_of items ++ [newline]) = mkReply (line_of items) (item_values items).
Proof.
  intros Hok Hne. unfold parse_reply.
  rewrite (proj2 (TrimSpace_edged _ (line_edged items Hok Hne))).
  by rewrite splitFields_line, add_fields.
Qed.

Lemma readReply_line i w c items rest : w_conns w !! i = Some c -> Forall item_ok items ->
  items <> [] -> c_rx c = line_of items ++ newline :: rest ->
  readReply i w = (update i (set_rx rest) w, inr (mkReply (line_of items) (item_values items))).
Proof.
  intros Hc Hok Hne Hrx. unfold readReply. rewrite Hc, Hrx, read_line_app by by apply line_no_newline.
  by rewrite parse_reply_line.
Qed.

(** *** Numbers *)
Lemma digit_char x : (x < 10)%N -> digit (pretty_N_char x) = Some (Z.of_N x).
Proof.
  intros H. assert (x ∈ N.of_nat <$> seq 0 10) as Hi.
  { apply list_elem_of_fmap. exists (N.to_nat x). split; [lia|]. apply elem_of_seq. lia. }
  assert (Forall (fun x => digit (pretty_N_char x) = Some (Z.of_N x)) (N.of_nat <$> seq 0 10)) as Hf by by_decide.
  by eapply Forall_forall in Hf.
Qed.

Lemma digits_value_pretty x : forall s,
  digits_value (lit (pretty_N_go x s)) 0 = digits_value (lit s) (Z.of_N x).
Proof.
  induction (N.lt_wf_0 x) as [x _ IH]; intros s.
  destruct (decide (x = 0)%N) as [->|Hx]; [done|].
  rewrite pretty_N_go_step by lia. rewrite IH by (apply N.div_lt; lia).
  unfold lit. cbn [String.list_ascii_of_string digits_value].
  rewrite digit_char by (apply N.mod_lt; lia). f_equal. pose proof (N.div_mod x 10 ltac:(done)). lia.
Qed.

Lemma digits_value_Itoa n : (0 <= n)%Z -> digits_value (Itoa n) 0 = Some n.
Proof.
  intros Hn. unfold Itoa. destruct n as [|p|p]; [done| |lia].
  change (pretty (Z.pos p)) with (pretty (N.pos p)). unfold pretty, pretty_N.
  rewrite decide_False by done. by rewrite digits_value_pretty.
Qed.

Lemma ParseUint_Itoa n bits : (0 <= n < 2 ^ bits)%Z -> ParseUint (Itoa n) bits = Some n.
Proof.
  intros Hn. unfold ParseUint. rewrite decide_False by apply Itoa_nonempty.
  rewrite digits_value_Itoa by lia. cbn. rewrite decide_True by lia. done.
Qed.

Lemma digit_plain c : is_digit c -> plain_byte c /\ c <> "="%char.
Proof.
  unfold is_digit, plain_byte. intros H. split; [split; [lia|split]|].
  - unfold space1. apply bool_decide_eq_false. lia.
  - intros ->. by vm_compute in H; destruct H.
  - intros ->. by vm_compute in H; destruct H.
Qed.

Lemma Itoa_renders n : (0 <= n)%Z -> renders (Itoa n) (Itoa n).
Proof.
  intros Hn. apply renders_plain; [apply Itoa_nonempty|]. eapply Forall_impl; [by apply Itoa_digits|].
  intros c Hc. by apply digit_plain.
Qed.

Lemma TrimSpace_Itoa n : (0 <= n)%Z -> TrimSpace (Itoa n) = Itoa n.
Proof.
  intros Hn. apply TrimSpace_edged, plain_edged; [apply Itoa_nonempty|].
  eapply Forall_impl; [by apply Itoa_digits|]. intros c Hc. by apply digit_plain.
Qed.

(** ** Datagrams on the control connection *)

(** How the bridge announces a datagram. *)
Definition number_item (key : gostring) (n : Z) : item := Pair key (Itoa n) (Itoa n).

Definition frame_items (d : Datagram) : list item :=
  let size := number_item (lit "SIZE") (Z.of_nat (length (dg_Payload d))) in
  let from := number_item (lit "FROM_PORT") (dg_FromPort d) in
  let to := number_item (lit "TO_PORT") (dg_ToPort d) in
  if dg_AnonymousRaw d
  then [Word (lit "RAW"); Word (lit "RECEIVED"); size; from; to;
        number_item (lit "PROTOCOL") (dg_Protocol d)]
  else [Word (lit "DATAGRAM"); Word (lit "RECEIVED");
        Pair (lit "DESTINATION") (dg_Source d) (dg_Source d); size; from; to].

Definition frame (d : Datagram) : gostring := line_of (frame_items d) ++ newline :: dg_Payload d.

Record datagram_ok (style : gostring) (d : Datagram) : Prop := {
  dgo_size : validateDatagramPayload style (length (dg_Payload d)) = None;
  dgo_from : (0 <= dg_FromPort d < 65536)%Z;
  dgo_to : (0 <= dg_ToPort d < 65536)%Z;
  dgo_kind : if dg_AnonymousRaw d then dg_Source d = [] /\ (0 <= dg_Protocol d < 256)%Z
             else dg_Protocol d = 0%Z /\ dg_Source d <> [] /\ Forall plain_byte (dg_Source d) }.

Lemma number_item_ok key n : name_ok key -> map upper_byte key = key -> (0 <= n)%Z ->
  item_ok (number_item key n).
Proof. intros Hk Hu Hn. split_and!; [done..|]. by apply Itoa_renders. Qed.

Definition key_char (c : ascii) : bool :=
  bool_decide (65 <= byte_of c <= 90)%N || bool_decide (c = "_"%char).

Lemma key_ok k : k <> [] -> forallb key_char k = true -> name_ok k /\ map upper_byte k = k.
Proof.
  intros Hne H. rewrite forallb_forall in H.
  assert (forall c, c ∈ k -> (plain_byte c /\ c <> "="%char) /\ upper_byte c = c) as Hc.
  { intros c Hc. apply list_elem_of_In in Hc. apply H in Hc. unfold key_char in Hc.
    apply orb_true_iff in Hc as [Hc|Hc]; apply bool_decide_eq_true in Hc.
    - split; [split; [split; [lia|split]|]|].
      + unfold space1. apply bool_decide_eq_false. lia.
      + intros ->. by vm_compute in Hc; destruct Hc.
      + intros ->. by vm_compute in Hc; destruct Hc.
      + unfold upper_byte. rewrite decide_False; [done|lia].
    - subst. repeat split; by vm_compute. }
  split; [split; [done|]|].
  - apply Forall_forall. intros c Hi. by apply Hc.
  - clear H. induction k as [|c k IH]; [done|]. cbn [map]. f_equal; [apply Hc; by left|].
    destruct k as [|c' k]; [done|]. apply IH; [done|]. intros x Hx. apply Hc. by right.
Qed.

Lemma frame_items_ok style d : datagram_ok style d -> Forall item_ok (frame_items d).
Proof.
  intros [_ Hf Ht Hk].
  assert (forall k n, k <> [] -> forallb key_char k = true -> (0 <= n)%Z -> item_ok (number_item k n)) as Hn.
  { intros k n Hne Hc Hn. destruct (key_ok k Hne Hc). by apply number_item_ok. }
  assert (forall k, k <> [] -> forallb key_char k = true -> item_ok (Word k)) as Hw.
  { intros k Hne Hc. by destruct (key_ok k Hne Hc). }
  unfold frame_items. destruct (dg_AnonymousRaw d).
  - destruct Hk as [_ Hp].
    repeat (apply Forall_cons; split); try (apply Hw; [done|by vm_compute]);
      try (apply Hn; [done|by vm_compute|lia]); constructor.
  - destruct Hk as (_ & Hne & Hp).
    repeat (apply Forall_cons; split); try (apply Hw; [done|by vm_compute]);
      try (apply Hn; [done|by vm_compute|lia]); try constructor.
    + by destruct (key_ok (lit "DESTINATION") ltac:(done) ltac:(by vm_compute)).
    + split; [by vm_compute|]. by apply renders_plain.
Qed.

(** The values of an announcement. *)
Lemma frame_values d : let r := mkReply (line_of (frame_items d)) (item_values (frame_items d)) in
  value r (lit "SIZE") = Itoa (Z.of_nat (length (dg_Payload d))) /\
  value r (lit "FROM_PORT") = Itoa (dg_FromPort d) /\
  value r (lit "TO_PORT") = Itoa (dg_ToPort d) /\
  value r (lit "DESTINATION") = (if dg_AnonymousRaw d then [] else dg_Source d) /\
  value r (lit "PROTOCOL") = (if dg_AnonymousRaw d then Itoa (dg_Protocol d) else []).
Proof.
  unfold value, item_values, frame_items, number_item.
  destruct (dg_AnonymousRaw d); cbn [RValues foldl]; split_and!;
    repeat first [rewrite lookup_insert_eq|rewrite lookup_insert_ne by discriminate|rewrite lookup_empty];
    reflexivity.
Qed.

Lemma upper_prefix p s : Forall ascii_byte (p ++ s) -> map upper_byte p = p ->
  ToUpper (p ++ s) = p ++ map upper_byte s.
Proof.
  intros Ha Hp. unfold GoStrings.ToUpper. replace (is_ascii (p ++ s)) with true.
  - by rewrite map_app, Hp.
  - symmetry. unfold is_ascii. apply forallb_forall. intros c Hc. apply bool_decide_eq_true.
    apply list_elem_of_In in Hc. by eapply Forall_forall in Ha.
Qed.

(** The kind of an announcement is read from its first words. *)
Lemma frame_kind style d : datagram_ok style d ->
  HasPrefix (ToUpper (line_of (frame_items d))) (lit "DATAGRAM RECEIVED") = negb (dg_AnonymousRaw d) /\
  HasPrefix (ToUpper (line_of (frame_items d))) (lit "RAW RECEIVED") = dg_AnonymousRaw d.
Proof.
  intros Hok. pose proof (line_ascii _ (frame_items_ok style d Hok)) as Ha. revert Ha.
  unfold frame_items. destruct (dg_AnonymousRaw d).
  - match goal with |- context [line_of ?l] =>
      change (line_of l) with (lit "RAW RECEIVED" ++ " "%char :: line_of (drop 2 l)) end.
    intros Ha. rewrite upper_prefix by done. split; [done|]. apply HasPrefix_app.
  - match goal with |- context [line_of ?l] =>
      change (line_of l) with (lit "DATAGRAM RECEIVED" ++ " "%char :: line_of (drop 2 l)) end.
    intros Ha. rewrite upper_prefix by done. split; [apply HasPrefix_app|done].
Qed.

Lemma parse_number r key n : value r key = Itoa n -> (0 <= n < 65536)%Z ->
  parseReplyUint16 r key = inr n.
Proof.
  intros Hv Hn. unfold parseReplyUint16. rewrite Hv, TrimSpace_Itoa by lia.
  rewrite decide_False by apply Itoa_nonempty. by rewrite ParseUint_Itoa.
Qed.

Lemma payload_bound style n : validateDatagramPayload style n = None ->
  (Z.of_nat n < 65536)%Z.
Proof.
  unfold validateDatagramPayload. repeat case_decide; try done; intros _;
    unfold MaxRawDatagramLen, MaxRepliableDatagramLen in *; lia.
Qed.

Lemma update_twice i f g w : update i f (update i g w) = update i (fun c => f (g c)) w.
Proof.
  unfold update. cbn [w_conns w_dials w_writes]. f_equal.
  apply list_eq. intros j. destruct (decide (i = j)) as [<-|Hne].
  - rewrite !list_lookup_alter_eq. by destruct (w_conns w !! i).
  - by rewrite !list_lookup_alter_ne.
Qed.

Lemma update_lookup i f w : w_conns (update i f w) !! i = f <$> w_conns w !! i.
Proof. apply list_lookup_alter_eq. Qed.

Lemma readFull_ok i n w c : w_conns w !! i = Some c -> n <= length (c_rx c) ->
  readFull i n w = (update i (set_rx (drop n (c_rx c))) w, inr (take n (c_rx c))).
Proof. intros Hc Hn. unfold readFull. by rewrite Hc, decide_True. Qed.

Lemma receive_frame s w c d rest : w_conns w !! ds_control s = Some c ->
  datagram_ok (ds_style s) d -> c_rx c = frame d ++ rest ->
  Receive (Some s) w = (update (ds_control s) (set_rx rest) w, inr d).
Proof.
  intros Hc Hok Hrx. unfold frame in Hrx. rewrite <- app_assoc in Hrx. cbn [app] in Hrx.
  pose proof (payload_bound _ _ (dgo_size _ _ Hok)) as Hb.
  assert (frame_items d <> []) as Hne by (unfold frame_items; by destruct (dg_AnonymousRaw d)).
  destruct (frame_values d) as (V1 & V2 & V3 & V4 & V5).
  destruct (frame_kind (ds_style s) d Hok) as [K1 K2].
  unfold Receive.
  rewrite (bind_ok _ _ _ _ _ (readReply_line _ w c (frame_items d) (dg_Payload d ++ rest) Hc
    (frame_items_ok _ d Hok) Hne Hrx)).
  destruct Hok as [Hs Hf Ht Hk]. set (r := mkReply _ _) in *.
  set (w1 := update _ _ w).
  rewrite (bind_ok _ _ w1 w1 (Z.of_nat (length (dg_Payload d))))
    by (unfold lift; by rewrite (parse_number r (lit "SIZE") _ V1) by lia).
  rewrite Nat2Z.id, Hs. rewrite (bind_ok _ _ w1 w1 tt) by done.
  cbv zeta. rewrite (bind_ok _ _ w1 (update (ds_control s) (set_rx rest) w) (dg_Payload d)).
  2:{ unfold w1. rewrite (readFull_ok _ _ _ (set_rx (dg_Payload d ++ rest) c)).
      - cbn [set_rx c_rx]. rewrite take_app_length, drop_app_length, update_twice. done.
      - by rewrite update_lookup, Hc.
      - cbn [set_rx c_rx]. rewrite length_app. lia. }
  unfold mret, SM_ret.
  f_equal. f_equal. unfold parseOptionalPort. rewrite (parse_number r _ _ V2), (parse_number r _ _ V3) by done.
  unfold parseOptionalProtocol. rewrite V4, V5. unfold r. cbn [Raw]. rewrite K1, K2.
  destruct d as [src pl fp tp pr raw].
  cbn [dg_Source dg_Payload dg_FromPort dg_ToPort dg_Protocol dg_AnonymousRaw] in *.
  destruct raw; cbn [negb].
  - destruct Hk as [-> Hp]. rewrite TrimSpace_Itoa by lia. rewrite decide_False by apply Itoa_nonempty.
    by rewrite ParseUint_Itoa by lia.
  - destruct Hk as (-> & _ & _). done.
Qed.

Lemma update_rx_same i w c : w_conns w !! i = Some c -> update i (set_rx (c_rx c)) w = w.
Proof.
  intros Hc. destruct w as [cs ds ws]. unfold update. cbn in *. f_equal.
  apply list_eq. intros j. destruct (decide (i = j)) as [<-|Hne].
  - rewrite list_lookup_alter_eq, Hc. by destruct c.
  - by rewrite list_lookup_alter_ne.
Qed.

Fixpoint receive_n (n : nat) (s : DatagramSession) : SM (list Datagram) :=
  match n with
  | O => mret []
  | S n => Receive (Some s) ≫= fun d => receive_n n s ≫= fun ds => mret (d :: ds)
  end.

Lemma receive_frames s rest ds : forall w c, w_conns w !! ds_control s = Some c ->
  Forall (datagram_ok (ds_style s)) ds -> c_rx c = concat (frame <$> ds) ++ rest ->
  receive_n (length ds) s w = (update (ds_control s) (set_rx rest) w, inr ds).
Proof.
  induction ds as [|d ds IH]; intros w c Hc Hok Hrx.
  - cbn in Hrx. cbn [length receive_n]. unfold mret, SM_ret.
    by rewrite <- Hrx, update_rx_same.
  - apply Forall_cons in Hok as [Hd Hok]. rewrite fmap_cons in Hrx. cbn [concat] in Hrx.
    rewrite <- app_assoc in Hrx. cbn [length receive_n].
    rewrite (bind_ok _ _ _ _ _ (receive_frame s w c d _ Hc Hd Hrx)).
    rewrite (bind_ok _ _ _ _ _ (IH (update (ds_control s) (set_rx (concat (frame <$> ds) ++ rest)) w)
      (set_rx (concat (frame <$> ds) ++ rest) c) ltac:(by rewrite update_lookup, Hc) Hok eq_refl)).
    unfold mret, SM_ret. by rewrite update_twice.
Qed.

Lemma item_values_snoc items x : item_values (items ++ [x]) =
  match x with Pair k v _ => <[k := v]> (item_values items) | Word _ => item_values items end.
Proof. unfold item_values. rewrite foldl_app. by destruct x. Qed.

Lemma item_values_spec items : forall k,
  match item_values items !! k with
  | Some v => exists t, Pair k v t ∈ items
  | None => forall v t, Pair k v t ∉ items
  end.
Proof.
  induction items as [|x items IH] using rev_ind; intros k.
  { unfold item_values. cbn [foldl]. rewrite lookup_empty. intros v t. apply not_elem_of_nil. }
  rewrite item_values_snoc. specialize (IH k). destruct x as [wd|k' v' t'].
  - destruct (item_values items !! k) as [v|].
    + destruct IH as [t Ht]. exists t. apply elem_of_app. by left.
    + intros v t [Hin|Hin%list_elem_of_singleton]%elem_of_app; [by apply (IH v t)|done].
  - destruct (decide (k = k')) as [->|Hne].
    + rewrite lookup_insert_eq. exists t'. apply elem_of_app. right. by apply list_elem_of_singleton.
    + rewrite lookup_insert_ne by done. destruct (item_values items !! k) as [v|].
      * destruct IH as [t Ht]. exists t. apply elem_of_app. by left.
      * intros v t [Hin|Hin%list_elem_of_singleton]%elem_of_app; [by apply (IH v t)|by simplify_eq].
Qed.

(** ** Connections are released *)

(** What is known of a connection from outside: network, address and how
    often it was closed. *)
Definition ident (c : conn) : gostring * gostring * nat := (c_net c, c_addr c, c_closes c).
Definition idents (w : world) : list (gostring * gostring * nat) := ident <$> w_conns w.

(** Calls that only talk on open connections. *)
Definition talks {A} (m : SM A) : Prop := forall w, idents (m w).1 = idents w.

Lemma update_talks i f w : (forall c, ident (f c) = ident c) -> idents (update i f w) = idents w.
Proof.
  intros Hf. unfold idents, update. cbn [w_conns]. apply list_eq. intros j.
  rewrite !list_lookup_fmap. destruct (decide (i = j)) as [<-|Hne].
  - rewrite list_lookup_alter_eq. destruct (w_conns w !! i); [|done]. cbn. by rewrite Hf.
  - by rewrite list_lookup_alter_ne.
Qed.

Lemma talks_bind {A B} (m : SM A) (k : A -> SM B) : talks m -> (forall a, talks (k a)) -> talks (m ≫= k).
Proof.
  intros Hm Hk w. unfold mbind, SM_bind. specialize (Hm w). destruct (m w) as [w' [e|a]]; [done|].
  cbn [fst] in Hm. by rewrite Hk.
Qed.

Lemma talks_ret {A} (a : A) : talks (mret a).
Proof. done. Qed.
Lemma talks_fail {A} e : talks (fail (A := A) e).
Proof. done. Qed.
Lemma talks_write i b : talks (write i b).
Proof.
  intros w. unfold write. destruct (w_writes w) as [|[] rest]; cbn [fst]; try done;
    by rewrite update_talks.
Qed.
Lemma talks_readReply i : talks (readReply i).
Proof.
  intros w. unfold readReply. destruct (w_conns w !! i); [|done].
  destruct (read_line _) as [[? ?]|]; cbn [fst]; by rewrite update_talks.
Qed.
Lemma talks_check_ok r : talks (check_ok r).
Proof. unfold check_ok. by destruct (OK r). Qed.
Lemma talks_if {A} P `{Decision P} (m1 m2 : SM A) : talks m1 -> talks m2 ->
  talks (if decide P then m1 else m2).
Proof. intros H1 H2. by case_decide. Qed.
End sam.

Create HintDb talks.
#[export] Hint Resolve talks_bind talks_ret talks_fail talks_write talks_readReply talks_check_ok
  talks_if : talks.

Lemma hello_talks u i : talks (hello u i).
Proof. unfold hello, sendCommand. auto 10 with talks. Qed.
#[export] Hint Resolve hello_talks : talks.

Definition closed_once (x : gostring * gostring * nat) : gostring * gostring * nat := (x.1, S x.2).

Lemma close_idents i w : idents (close_conn i w) = alter closed_once i (idents w).
Proof.
  unfold idents, close_conn, update. cbn [w_conns]. apply list_eq. intros j.
  destruct (decide (i = j)) as [<-|Hne].
  - rewrite list_lookup_fmap, !list_lookup_alter_eq, list_lookup_fmap. by destruct (w_conns w !! i).
  - rewrite list_lookup_fmap, !list_lookup_alter_ne, list_lookup_fmap by done. done.
Qed.

Lemma alter_at {A} (f : A -> A) l x r : alter f (length l) (l ++ x :: r) = l ++ f x :: r.
Proof. induction l as [|y l IH]; [done|]. cbn. f_equal. exact IH. Qed.

Lemma idents_length w : length (idents w) = length (w_conns w).
Proof. apply length_fmap. Qed.

Lemma dial_spec net addr w w' r : dial net addr w = (w', r) ->
  match r with
  | inl _ => idents w' = idents w
  | inr i => i = length (idents w) /\ idents w' = idents w ++ [(net, addr, 0)]
  end.
Proof.
  unfold dial. destruct (w_dials w) as [|[rx|] ds]; intros [= <- <-]; [done| |done].
  rewrite idents_length. split; [done|]. unfold idents. cbn [w_conns]. by rewrite fmap_app.
Qed.

(** A call with its own command connection: if it was opened it is closed
    once. *)
Lemma single_connection {A} addr (k : nat -> SM A) w : (forall i, talks (k i)) ->
  let w' := ((openCommandConn addr ≫= fun i => closing i (k i)) w).1 in
  idents w' = idents w \/ idents w' = idents w ++ [(lit "tcp", addr, 1)].
Proof.
  intros Hk. cbn zeta. unfold openCommandConn. destruct (dial (lit "tcp") addr w) as [w1 [e|i]] eqn:E.
  - left. rewrite (bind_err _ _ _ _ _ E). apply (dial_spec _ _ _ _ _ E).
  - right. rewrite (bind_ok _ _ _ _ _ E). apply dial_spec in E as [-> E].
    unfold closing. specialize (Hk (length (idents w)) w1).
    destruct (k _ w1) as [w2 r]. cbn [fst] in *. rewrite close_idents, Hk, E, alter_at. done.
Qed.

Lemma closing_on_error_talks {A} i (m : SM A) w w' r : talks m -> closing_on_error i m w = (w', r) ->
  match r with
  | inl _ => idents w' = alter closed_once i (idents w)
  | inr _ => idents w' = idents w
  end.
Proof.
  intros Hm. unfold closing_on_error. specialize (Hm w). destruct (m w) as [w1 [e|a]]; cbn [fst] in Hm;
    intros [= <- <-]; [|done]. by rewrite close_idents, Hm.
Qed.

(** The control connection of a session: closed if the session could not be
    created. *)
Lemma createSession_spec u addr command w w' r : createSession u addr command w = (w', r) ->
  match r with
  | inl _ => idents w' = idents w \/ idents w' = idents w ++ [(lit "tcp", addr, 1)]
  | inr i => i = length (idents w) /\ idents w' = idents w ++ [(lit "tcp", addr, 0)]
  end.
Proof.
  unfold createSession, openCommandConn. destruct (dial (lit "tcp") addr w) as [w1 [e|i]] eqn:E.
  - rewrite (bind_err _ _ _ _ _ E). intros [= <- <-]. left. apply (dial_spec _ _ _ _ _ E).
  - rewrite (bind_ok _ _ _ _ _ E). cbv beta. apply dial_spec in E as [-> E].
    set (m := hello u _ ≫= _). assert (talks m) as Hm by (unfold m, sendCommand; auto 10 with talks).
    clearbody m.
    destruct (closing_on_error (length (idents w)) m w1) as [w2 [e|a]] eqn:E2;
      pose proof (closing_on_error_talks _ _ _ _ _ Hm E2) as H.
    + rewrite (bind_err _ _ _ _ _ E2). intros [= <- <-]. right. rewrite H, E, alter_at. done.
    + rewrite (bind_ok _ _ _ _ _ E2). intros [= <- <-]. split; [done|]. by rewrite H.
Qed.

(** The world before a call and after it: the connections that the call
    opened were closed once each, and they went to the bridge. *)
Definition released (targets : list (gostring * gostring)) (w w' : world) : Prop :=
  exists l, idents w' = idents w ++ l /\ Forall (fun x => x.1 ∈ targets /\ x.2 = 1) l.

Lemma released_intro net addr targets w w' : (net, addr) ∈ targets ->
  idents w' = idents w \/ idents w' = idents w ++ [(net, addr, 1)] -> released targets w w'.
Proof.
  intros Hin [H|H].
  - exists []. rewrite app_nil_r. split; [done|constructor].
  - exists [(net, addr, 1)]. split; [done|]. repeat constructor; done.
Qed.

(** The connections of a created session, and the effect of closing it. *)
Definition session_open (w w' : world) (l : list (gostring * gostring)) : Prop :=
  idents w' = idents w ++ ((fun x => (x, 0)) <$> l).
Definition session_closed (w w' : world) (l : list (gostring * gostring)) : Prop :=
  idents w' = idents w ++ ((fun x => (x, 1)) <$> l).

Lemma close_both w w1 a b : session_open w w1 [a; b] ->
  session_closed w (close_conn (length (idents w)) (close_conn (S (length (idents w))) w1)) [a; b] /\
  session_closed w (close_conn (S (length (idents w))) (close_conn (length (idents w)) w1)) [a; b].
Proof.
  unfold session_open, session_closed. intros E. rewrite !close_idents, E. cbn [fmap list_fmap].
  assert (forall x y, alter closed_once (S (length (idents w))) (idents w ++ [x; y]) =
    idents w ++ [x; closed_once y]) as Hs.
  { intros x y. replace (idents w ++ [x; y]) with ((idents w ++ [x]) ++ [y]) by by rewrite <- app_assoc.
    replace (S (length (idents w))) with (length (idents w ++ [x])) by (rewrite length_app; simpl; lia).
    rewrite alter_at. by rewrite <- app_assoc. }
  split.
  - rewrite Hs, alter_at. done.
  - rewrite alter_at, Hs. done.
Qed.

Lemma NewDatagramSession_spec u raw cfg w w' r : NewDatagramSession u raw cfg w = (w', r) ->
  let cfg := normalizeDatagramConfig u raw cfg in
  match r with
  | inl _ => released [(lit "tcp", dc_SAMAddress cfg)] w w'
  | inr s => s = mkDatagramSession (dc_SessionID cfg) (dc_Style cfg) (length (idents w))
                   (S (length (idents w))) false None /\
             validateDatagramConfig cfg = None /\
             session_open w w' [(lit "tcp", dc_SAMAddress cfg); (lit "udp", dc_SAMUDPAddress cfg)]
  end.
Proof.
  unfold NewDatagramSession. cbv zeta. set (c := normalizeDatagramConfig u raw cfg). clearbody c.
  destruct (validateDatagramConfig c) as [e|] eqn:Ev.
  { rewrite (bind_err _ _ w w e) by done. intros [= <- <-].
    apply (released_intro (lit "tcp") (dc_SAMAddress c)); [set_solver|by left]. }
  rewrite (bind_ok _ _ w w tt) by done.
  destruct (createSession u (dc_SAMAddress c) (datagramSessionCreateCommand c) w) as [w1 [e|i]] eqn:E1; pose proof (createSession_spec _ _ _ _ _ _ E1) as H1.
  { rewrite (bind_err _ _ _ _ _ E1). intros [= <- <-]. eapply released_intro; [|exact H1]. set_solver. }
  rewrite (bind_ok _ _ _ _ _ E1). destruct H1 as [-> H1]. unfold closing_on_error.
  destruct (dial (lit "udp") (dc_SAMUDPAddress c) w1) as [w2 [e|j]] eqn:E2.
  - rewrite (bind_err _ _ _ _ _ E2). intros [= <- <-]. apply dial_spec in E2.
    apply (released_intro (lit "tcp") (dc_SAMAddress c)); [set_solver|right].
    rewrite close_idents, E2, H1, alter_at. done.
  - rewrite (bind_ok _ _ _ _ _ E2). apply dial_spec in E2 as [-> E2]. intros [= <- <-].
    rewrite H1, length_app. cbn [length]. rewrite Nat.add_1_r. split_and!; [done|done|].
    unfold session_open. rewrite E2, H1, <- app_assoc. done.
Qed.

(** The target of a dialler. *)
Definition dialer_target (d : Dialer) : gostring :=
  if decide (TrimSpace (SAMAddress d) = []) then DefaultAddress else TrimSpace (SAMAddress d).

Lemma DialContext_success u raw d network address w w' s :
  DialContext u raw d network address w = (w', inr s) ->
  network = lit "tcp" /\ s = mkSessionConn (S (length (idents w))) (length (idents w)) false None /\
  session_open w w' [(lit "tcp", dialer_target d); (lit "tcp", dialer_target d)].
Proof.
  unfold DialContext. case_decide as Hn; [done|]. cbv zeta.
  fold (dialer_target d). set (a := dialer_target d). clearbody a.
  destruct (validateTunnelSettings _ _) as [e|]; [by rewrite (bind_err _ _ w w e)|].
  rewrite (bind_ok _ _ w w tt) by done. unfold dialStream.
  destruct (splitDestination address) as [e|[dest port]]; [by rewrite (bind_err _ _ w w e)|].
  rewrite (bind_ok _ _ w w (dest, port)) by done.
  destruct (newSessionID raw) as [e|sid]; [by rewrite (bind_err _ _ w w e)|].
  rewrite (bind_ok _ _ w w sid) by done.
  destruct (createSession u a (sessionCreateCommand (lit "STREAM") sid
    (sessionTunnelOptions (TunnelLength d) (TunnelQuantity d))) w) as [w1 [e|i]] eqn:E1; pose proof (createSession_spec _ _ _ _ _ _ E1) as H1;
    [by rewrite (bind_err _ _ _ _ _ E1)|].
  rewrite (bind_ok _ _ _ _ _ E1). destruct H1 as [-> H1]. unfold openCommandConn.
  destruct (dial (lit "tcp") a w1) as [w2 [e|j]] eqn:E2; [by rewrite (bind_err _ _ _ _ _ E2)|].
  rewrite (bind_ok _ _ _ _ _ E2). cbv beta. apply dial_spec in E2 as [-> E2].
  unfold closing_on_error. set (k := hello u _ ≫= _).
  assert (talks k) as Hk by (unfold k, sendCommand; auto 10 with talks).
  assert (forall w0 w3 s, k w0 = (w3, inr s) ->
    s = mkSessionConn (length (idents w1)) (length (idents w)) false None) as Hv.
  { intros w0 w3 s0. unfold k, mbind, SM_bind, mret, SM_ret.
    repeat case_match; simplify_eq; try done; by intros [= _ <-]. }
  clearbody k. specialize (Hk w2). destruct (k w2) as [w3 [e|s']] eqn:E3; [done|]. intros [= <- <-].
  cbn [fst] in Hk. rewrite (Hv _ _ _ E3), H1, length_app. cbn [length]. rewrite Nat.add_1_r.
  split_and!; [done|done|]. unfold session_open. rewrite Hk, E2, H1, <- app_assoc. done.
Qed.

(** The bridge confirmed the session of a stream. *)
Definition session_created (u : gostring -> gostring) (raw : option gostring) (d : Dialer) (address : gostring)
    (w : world) : Prop :=
  exists destination port sid w1 i, splitDestination address = inr (destination, port) /\ newSessionID raw = inr sid /\
    createSession u (dialer_target d) (sessionCreateCommand (lit "STREAM") sid
      (sessionTunnelOptions (TunnelLength d) (TunnelQuantity d))) w = (w1, inr i).

(** The control connection stays open; the data connection, if there was
    one, was closed once. *)
Definition control_left_open (w w' : world) (target : gostring * gostring) : Prop :=
  exists l, idents w' = idents w ++ (target, 0) :: l /\ (l = [] \/ l = [(target, 1)]).

Lemma DialContext_failure u raw d network address w w' e :
  DialContext u raw d network address w = (w', inl e) ->
  released [(lit "tcp", dialer_target d)] w w' \/
  (session_created u raw d address w /\ control_left_open w w' (lit "tcp", dialer_target d)).
Proof.
  assert (released [(lit "tcp", dialer_target d)] w w) as Hnone.
  { apply (released_intro (lit "tcp") (dialer_target d)); [by left|by left]. }
  unfold DialContext. case_decide as Hn; [intros [= <- _]; by left|]. cbv zeta. fold (dialer_target d).
  destruct (validateTunnelSettings _ _) as [e0|]; [rewrite (bind_err _ _ w w e0) by done; intros [= <- _]; by left|].
  rewrite (bind_ok _ _ w w tt) by done. unfold dialStream.
  destruct (splitDestination address) as [e0|[dest port]] eqn:Hd;
    [rewrite (bind_err _ _ w w e0) by done; intros [= <- _]; by left|].
  rewrite (bind_ok _ _ w w (dest, port)) by done.
  destruct (newSessionID raw) as [e0|sid] eqn:Hs; [rewrite (bind_err _ _ w w e0) by done; intros [= <- _]; by left|].
  rewrite (bind_ok _ _ w w sid) by done.
  destruct (createSession u (dialer_target d) (sessionCreateCommand (lit "STREAM") sid
    (sessionTunnelOptions (TunnelLength d) (TunnelQuantity d))) w) as [w1 [e0|i]] eqn:E1; pose proof (createSession_spec _ _ _ _ _ _ E1) as H1.
  { rewrite (bind_err _ _ _ _ _ E1). intros [= <- _]. left. eapply released_intro; [|exact H1]. by left. }
  rewrite (bind_ok _ _ _ _ _ E1). destruct H1 as [-> H1]. intros H. right.
  split; [by exists dest, port, sid, w1, (length (idents w))|]. unfold openCommandConn in H.
  destruct (dial (lit "tcp") (dialer_target d) w1) as [w2 [e0|j]] eqn:E2.
  - rewrite (bind_err _ _ _ _ _ E2) in H. injection H as <- _. apply dial_spec in E2.
    exists []. split; [by rewrite E2, H1|by left].
  - rewrite (bind_ok _ _ _ _ _ E2) in H. cbv beta in H. apply dial_spec in E2 as [-> E2].
    apply closing_on_error_talks in H; [|unfold sendCommand; auto 10 with talks].
    eexists. split; [|by right]. rewrite H, E2, alter_at, H1, <- app_assoc. done.
Qed.

(** ** Commands as the bridge reads them *)
Lemma join_app sep (l1 l2 : list gostring) : l1 <> [] -> l2 <> [] ->
  join sep (l1 ++ l2) = join sep l1 ++ sep :: join sep l2.
Proof.
  intros H1 H2. induction l1 as [|x l1 IH]; [done|]. destruct l1 as [|y l1].
  - cbn [app]. destruct l2; done.
  - change (join sep ((x :: y :: l1) ++ l2)) with (x ++ sep :: join sep ((y :: l1) ++ l2)).
    rewrite IH by done.
    change (join sep (x :: y :: l1)) with (x ++ sep :: join sep (y :: l1)).
    by rewrite <- app_assoc.
Qed.

Definition number_option (name : gostring) (n : Z) : gostring := name ++ FormatUint n.

(** The options of a datagram session. *)
Definition datagram_options (c : DatagramConfig) : list gostring :=
  [number_option (lit "inbound.length=") (dc_InboundLength c);
   number_option (lit "outbound.length=") (dc_OutboundLength c);
   number_option (lit "inbound.quantity=") (dc_InboundQuantity c);
   number_option (lit "outbound.quantity=") (dc_OutboundQuantity c)] ++
  (if decide (dc_FromPort c <> 0)%Z then [number_option (lit "FROM_PORT=") (dc_FromPort c)] else []) ++
  (if decide (dc_ToPort c <> 0)%Z then [number_option (lit "TO_PORT=") (dc_ToPort c)] else []) ++
  (if decide (dc_Style c = DatagramStyleRaw /\ dc_Protocol c <> 0)%Z
   then [number_option (lit "PROTOCOL=") (dc_Protocol c)] else []).

Definition session_key (c : DatagramConfig) : gostring :=
  if decide (TrimSpace (dc_PrivateKey c) = []) then lit "TRANSIENT" else TrimSpace (dc_PrivateKey c).

Definition command_tokens (style id key : gostring) (options : list gostring) : list gostring :=
  [lit "SESSION"; lit "CREATE"; lit "STYLE=" ++ style; lit "ID=" ++ id; lit "DESTINATION=" ++ key;
   lit "SIGNATURE_TYPE=7"] ++ options.

(** With all four tunnel options present the command adds none. *)
Lemma session_command_tokens style id key n1 n2 n3 n4 more : TrimSpace key <> [] ->
  let options := [number_option (lit "inbound.length=") n1; number_option (lit "outbound.length=") n2;
                  number_option (lit "inbound.quantity=") n3;
                  number_option (lit "outbound.quantity=") n4] ++ more in
  sessionCreateCommandWithDestination style id key options =
  join " " (command_tokens style id key options).
Proof.
  intros Hkey options. unfold command_tokens. rewrite join_app by done.
  unfold sessionCreateCommandWithDestination. rewrite (decide_False (P := TrimSpace key = [])) by exact Hkey.
  assert (forall p, p ∈ [lit "inbound.length="; lit "outbound.length="; lit "inbound.quantity=";
    lit "outbound.quantity="] -> hasOptionPrefix options p = true) as Hp.
  { intros p Hp. unfold hasOptionPrefix. apply existsb_exists. unfold options.
    repeat (apply elem_of_cons in Hp as [->|Hp]); [..|by apply not_elem_of_nil in Hp].
    - eexists. split; [by left|]. apply HasPrefix_app.
    - eexists. split; [by right; left|]. apply HasPrefix_app.
    - eexists. split; [by right; right; left|]. apply HasPrefix_app.
    - eexists. split; [by right; right; right; left|]. apply HasPrefix_app. }
  rewrite !Hp by set_solver. cbn [negb].
  assert (0 < length options) as Hl by (unfold options; cbn; lia).
  rewrite decide_True by exact Hl. clear Hp Hl. clearbody options.
  cbn [join]. repeat (rewrite <- !app_assoc; cbn [app]). reflexivity.
Qed.

Lemma plain_app l1 l2 : Forall plain_byte l1 -> Forall plain_byte l2 -> l1 <> [] ->
  l1 ++ l2 <> [] /\ Forall plain_byte (l1 ++ l2).
Proof. intros H1 H2 Hne. split; [by destruct l1|by apply Forall_app]. Qed.

Definition plain_char (c : ascii) : bool :=
  bool_decide (byte_of c < 128)%N && negb (space1 c) && negb (bool_decide (c = dquote)).

Lemma plain_text l : forallb plain_char l = true -> Forall plain_byte l.
Proof.
  rewrite forallb_forall. intros H. apply Forall_forall. intros c Hc%list_elem_of_In%H.
  unfold plain_char in Hc. apply andb_true_iff in Hc as [[H1 H2]%andb_true_iff H3].
  apply bool_decide_eq_true in H1. apply negb_true_iff in H2, H3.
  apply bool_decide_eq_false in H3. done.
Qed.

Lemma number_option_plain name n : forallb plain_char name = true -> name <> [] -> (0 <= n)%Z ->
  number_option name n <> [] /\ Forall plain_byte (number_option name n).
Proof.
  intros Hn Hne Hz. apply plain_app; [by apply plain_text| |done].
  eapply Forall_impl; [by apply Itoa_digits|]. intros c Hc. by apply digit_plain.
Qed.

Record numbers_ok (c : DatagramConfig) : Prop := {
  no_from : (0 <= dc_FromPort c)%Z;
  no_to : (0 <= dc_ToPort c)%Z;
  no_protocol : (0 <= dc_Protocol c)%Z;
  no_il : (0 <= dc_InboundLength c)%Z;
  no_ol : (0 <= dc_OutboundLength c)%Z;
  no_iq : (0 <= dc_InboundQuantity c)%Z;
  no_oq : (0 <= dc_OutboundQuantity c)%Z }.

Lemma or_default_nonneg n d : (0 <= n)%Z -> (0 <= d)%Z -> (0 <= or_default n d)%Z.
Proof. unfold or_default. case_decide; lia. Qed.

Lemma datagram_options_plain c : numbers_ok c ->
  Forall (fun t => t <> [] /\ Forall plain_byte t) (datagram_options c).
Proof.
  intros []. unfold datagram_options.
  repeat first [apply Forall_app; split|apply Forall_cons; split|case_decide|apply Forall_nil_2];
    apply number_option_plain; done.
Qed.

Lemma session_tokens_read style id key options :
  Forall plain_byte style -> Forall plain_byte id -> Forall plain_byte key ->
  Forall (fun t => t <> [] /\ Forall plain_byte t) options ->
  splitFields (join " " (command_tokens style id key options)) = command_tokens style id key options.
Proof.
  intros H1 H2 H3 H4. apply splitFields_plain; [done|].
  unfold command_tokens. apply Forall_app. split; [|done].
  repeat (apply Forall_cons; split); try apply Forall_nil_2;
    try (split; [done|by apply plain_text]); apply plain_app; try done; by apply plain_text.
Qed.

Lemma validateTunnel_ok l q : validateTunnelSettings l q = None -> (l <= 7 /\ q <= 16)%Z.
Proof. unfold validateTunnelSettings, MaxTunnelLength, MaxTunnelQuantity. repeat case_decide; try done. lia. Qed.

Lemma validateDatagramConfig_ok c : validateDatagramConfig c = None ->
  TrimSpace (dc_SessionID c) <> [] /\
  (dc_Style c = DatagramStyleRepliable \/ dc_Style c = DatagramStyleRaw) /\
  (dc_Style c = DatagramStyleRaw -> protocolIsDisallowedForRaw (dc_Protocol c) = false) /\
  (dc_InboundLength c <= 7 /\ dc_InboundQuantity c <= 16)%Z /\
  (dc_OutboundLength c <= 7 /\ dc_OutboundQuantity c <= 16)%Z.
Proof.
  unfold validateDatagramConfig. case_decide as H1; [done|]. case_decide as H2; [done|].
  destruct (bool_decide _ && _) eqn:H3; [done|].
  destruct (validateTunnelSettings (dc_InboundLength c) _) eqn:H4; [done|].
  destruct (validateTunnelSettings (dc_OutboundLength c) _) eqn:H5; [done|]. intros _.
  apply validateTunnel_ok in H4, H5. split_and!; try done; try lia.
  - destruct (decide (dc_Style c = DatagramStyleRepliable)); [by left|].
    destruct (decide (dc_Style c = DatagramStyleRaw)); [by right|]. by destruct H2.
  - intros E. rewrite E, bool_decide_true in H3 by done. exact H3.
Qed.

(** ** Properties *)

(** C26: replies of the bridge are understood.  A reply line of words and of
    keys with values, each value written plainly or in quotes with escapes, is
    read completely and without touching what follows it; the reply has for
    every key the value that was meant, including spaces, quotes and
    backslashes, and no value for a key that is absent. *)
Theorem sam_reply_roundtrip (u : gostring -> gostring) (i : nat) (w : world) (c : conn)
    (items : list item) (rest : gostring) :
  w_conns w !! i = Some c -> items <> [] -> Forall item_ok items ->
  c_rx c = line_of items ++ newline :: rest ->
  exists r, readReply u i w = (update i (set_rx rest) w, inr r) /\ Raw r = line_of items /\
    (forall k v t, Pair k v t ∈ items -> (forall v' t', Pair k v' t' ∈ items -> v' = v) ->
       value r k = v) /\
    (forall k, (forall v t, Pair k v t ∉ items) -> value r k = []).
Proof.
  intros Hc Hne Hok Hrx. eexists. split; [by eapply readReply_line|]. split; [done|].
  unfold value. cbn [RValues]. split.
  - intros k v t Hin Hu. pose proof (item_values_spec items k) as H.
    destruct (item_values items !! k) as [v'|]; [|by destruct (H v t)].
    destruct H as [t' H]. cbn. by eapply Hu.
  - intros k Hn. pose proof (item_values_spec items k) as H.
    destruct (item_values items !! k) as [v'|]; [|done]. destruct H as [t' H]. by destruct (Hn v' t').
Qed.

(** C20: the datagram stream stays in step.  If the bridge sends any sequence
    of datagrams whose sizes are within the limits of the session, receiving
    that many times returns exactly these datagrams, with their payload,
    source, ports and protocol, in order, and leaves what the bridge sent
    after them unread. *)
Theorem sam_datagram_stream (u : gostring -> gostring) (s : DatagramSession) (w : world) (c : conn)
    (ds : list Datagram) (rest : gostring) :
  w_conns w !! ds_control s = Some c -> Forall (datagram_ok (ds_style s)) ds ->
  c_rx c = concat (frame <$> ds) ++ rest ->
  receive_n u (length ds) s w = (update (ds_control s) (set_rx rest) w, inr ds).
Proof. apply receive_frames. Qed.

(** C19: what becomes of the connections to the bridge.  The calls for one
    command dial the bridge only and close the connection once on every path;
    a datagram session that cannot be set up leaves no connection open; a
    session or stream that is set up holds exactly its two connections, to the
    configured bridge, and closing it closes both once, however often it is
    closed.  A stream that cannot be dialled leaves no connection open if the
    bridge did not confirm its session; if it did, exactly the control
    connection stays open, and the data connection is closed once. *)
Theorem sam_connections_released (u : gostring -> gostring) (closeFails : nat -> bool)
    (raw : option gostring) (w : world) :
  (forall addr, released [(lit "tcp", sam_address addr)] w (Check u addr w).1 /\
     released [(lit "tcp", sam_address addr)] w (GenerateDestination u addr w).1 /\
     forall name, released [(lit "tcp", sam_address addr)] w (Lookup u addr name w).1) /\
  (forall cfg w' r, NewDatagramSession u raw cfg w = (w', r) ->
     let c := normalizeDatagramConfig u raw cfg in
     let targets := [(lit "tcp", dc_SAMAddress c); (lit "udp", dc_SAMUDPAddress c)] in
     match r with
     | inl _ => released targets w w'
     | inr s => session_open w w' targets /\
         forall s1 w1 e1, DatagramSession_Close closeFails (Some s) w' = (s1, w1, e1) ->
           session_closed w w1 targets /\ DatagramSession_Close closeFails s1 w1 = (s1, w1, e1)
     end) /\
  (forall d network address w' s, DialContext u raw d network address w = (w', inr s) ->
     let targets := [(lit "tcp", dialer_target d); (lit "tcp", dialer_target d)] in
     session_open w w' targets /\
     forall s1 w1 e1, sessionConn_Close closeFails s w' = (s1, w1, e1) ->
       session_closed w w1 targets /\ sessionConn_Close closeFails s1 w1 = (s1, w1, e1)) /\
  (forall d network address w' e, DialContext u raw d network address w = (w', inl e) ->
     let target := (lit "tcp", dialer_target d) in
     released [target] w w' \/ (session_created u raw d address w /\ control_left_open w w' target)).
Proof.
  split_and!.
  - intros addr. assert (forall w', (idents w' = idents w \/ idents w' =
      idents w ++ [(lit "tcp", sam_address addr, 1)]) -> released [(lit "tcp", sam_address addr)] w w') as Hrel.
    { intros w' H. eapply released_intro; [|exact H]. by left. }
    split_and!.
    + apply Hrel, single_connection. intros i. apply hello_talks.
    + apply Hrel, single_connection. intros i. unfold sendCommand. auto 10 with talks.
    + intros name. unfold Lookup. cbv zeta. case_decide; [apply Hrel; by left|].
      apply Hrel, single_connection. intros i. unfold sendCommand. auto 10 with talks.
  - intros cfg w' r H%NewDatagramSession_spec. cbv zeta in *. destruct r as [e|s].
    + destruct H as (l & E & Hl). exists l. split; [done|]. eapply Forall_impl; [exact Hl|].
      intros x [Hx ?]. split; [set_solver|done].
    + destruct H as (-> & _ & H). split; [done|]. intros s1 w1 e1.
      unfold DatagramSession_Close at 1. cbn [ds_done ds_control ds_udp]. intros [= <- <- <-].
      split; [by apply close_both|done].
  - intros d network address w' s (_ & -> & H)%DialContext_success. cbv zeta. split; [done|].
    intros s1 w1 e1. unfold sessionConn_Close at 1. cbn [sc_done sc_control sc_data]. intros [= <- <- <-].
    split; [by apply close_both|done].
  - intros d network address w' e H. exact (DialContext_failure _ _ _ _ _ _ _ _ H).
Qed.

(** a datagram session is created as configured.  The command that is
    sent for a configuration that passes validation is read by the bridge as
    its style, identifier, key and options, nothing else: the stored private
    key or, if there is none, a transient one; every tunnel option exactly
    once and within 1..7 and 1..16; and for raw sessions a protocol that is
    not reserved. *)
Theorem sam_session_command (u : gostring -> gostring) (raw : option gostring) (cfg : DatagramConfig) :
  let c := normalizeDatagramConfig u raw cfg in
  numbers_ok cfg -> validateDatagramConfig c = None -> Forall plain_byte (dc_SessionID c) ->
  Forall plain_byte (TrimSpace (dc_PrivateKey cfg)) ->
  splitFields (datagramSessionCreateCommand c) =
    command_tokens (dc_Style c) (dc_SessionID c) (session_key c) (datagram_options c) /\
  (1 <= dc_InboundLength c <= 7 /\ 1 <= dc_OutboundLength c <= 7 /\
   1 <= dc_InboundQuantity c <= 16 /\ 1 <= dc_OutboundQuantity c <= 16)%Z /\
  (dc_Style c = DatagramStyleRepliable \/
   dc_Style c = DatagramStyleRaw /\ protocolIsDisallowedForRaw (dc_Protocol c) = false).
Proof.
  intros c [N1 N2 N3 N4 N5 N6 N7] Hv Hid Hkey.
  destruct (validateDatagramConfig_ok c Hv) as (_ & Hst & Hpr & [L1 Q1] & [L2 Q2]).
  assert (forall n d, (0 <= n)%Z -> (1 <= d)%Z -> (1 <= or_default n d)%Z) as Hd.
  { intros n d Hn H1. unfold or_default. case_decide; lia. }
  assert (numbers_ok c) as Hnum.
  { constructor; cbn; try done; apply or_default_nonneg; done. }
  assert (Forall plain_byte (dc_Style c)) as Hs.
  { destruct Hst as [-> | ->]; by apply plain_text. }
  assert (Forall plain_byte (session_key c) /\ TrimSpace (session_key c) <> []) as [Hk Hk'].
  { unfold session_key. cbn [dc_PrivateKey c]. case_decide as E; [split; [by apply plain_text|by vm_compute]|].
    split; [exact Hkey|]. by rewrite (proj1 (TrimSpace_edged _ (plain_edged _ E Hkey))). }
  split_and!; [|by apply Hd|done|by apply Hd|done|by apply Hd|done|by apply Hd|done|].
  - change (datagramSessionCreateCommand c) with
      (sessionCreateCommandWithDestination (dc_Style c) (dc_SessionID c) (session_key c) (datagram_options c)).
    unfold datagram_options at 1. rewrite session_command_tokens by exact Hk'.
    apply session_tokens_read; try done. by apply datagram_options_plain.
  - destruct Hst as [?|E]; [by left|right]. split; [done|by apply Hpr].
Qed.

(** ** Findings *)

(** Once the session of a stream is created, an error in connecting the
    stream leaves the control connection open, and with it the session. *)
Theorem dial_stream_leaks_control (u : gostring -> gostring) raw samAddress address tl tq w w' w1 e
    destination port sid i :
  splitDestination address = inr (destination, port) -> newSessionID raw = inr sid ->
  createSession u samAddress (sessionCreateCommand (lit "STREAM") sid (sessionTunnelOptions tl tq)) w =
    (w1, inr i) ->
  dialStream u raw samAddress address tl tq w = (w', inl e) ->
  idents w' !! i = Some (lit "tcp", samAddress, 0).
Proof.
  intros Hd Hs Hc. unfold dialStream.
  rewrite (bind_ok _ _ w w (destination, port)) by (unfold lift; by rewrite Hd).
  rewrite (bind_ok _ _ w w sid) by (unfold lift; by rewrite Hs).
  rewrite (bind_ok _ _ _ _ _ Hc). apply createSession_spec in Hc as [-> Hc]. unfold openCommandConn.
  destruct (dial (lit "tcp") samAddress w1) as [w2 [e'|j]] eqn:E2.
  - rewrite (bind_err _ _ _ _ _ E2). intros [= <- <-]. apply dial_spec in E2. rewrite E2, Hc.
    by rewrite lookup_app_r, Nat.sub_diag by lia.
  - rewrite (bind_ok _ _ _ _ _ E2). cbv beta. apply dial_spec in E2 as [-> E2]. intros H.
    apply closing_on_error_talks in H; [|unfold sendCommand; auto 10 with talks].
    rewrite H, list_lookup_alter_ne by (rewrite Hc, length_app; simpl; lia).
    rewrite E2, Hc, <- app_assoc. by rewrite lookup_app_r, Nat.sub_diag by lia.
Qed.

(** An announcement above the size limit is refused without reading the
    payload, which is then taken for the next lines. *)
Theorem oversized_payload_stays (u : gostring -> gostring) (s : DatagramSession) (w : world)
    (c : conn) (n : nat) (payload : gostring) :
  let limit := if decide (ds_style s = DatagramStyleRaw) then MaxRawDatagramLen
               else MaxRepliableDatagramLen in
  limit < n -> (Z.of_nat n < 65536)%Z -> w_conns w !! ds_control s = Some c ->
  c_rx c = line_of [Word (lit "DATAGRAM"); Word (lit "RECEIVED");
                    number_item (lit "SIZE") (Z.of_nat n)] ++ newline :: payload ->
  Receive u (Some s) w =
    (update (ds_control s) (set_rx payload) w, inl (ErrPayloadTooLong n)).
Proof.
  intros limit Hn Hb Hc Hrx.
  assert (Forall item_ok [Word (lit "DATAGRAM"); Word (lit "RECEIVED");
    number_item (lit "SIZE") (Z.of_nat n)]) as Hok.
  { destruct (key_ok (lit "SIZE") ltac:(done) ltac:(by vm_compute)).
    repeat (apply Forall_cons; split); [..|constructor].
    - by apply (key_ok (lit "DATAGRAM")).
    - by apply (key_ok (lit "RECEIVED")).
    - apply number_item_ok; [done|done|lia]. }
  unfold Receive. rewrite (bind_ok _ _ _ _ _ (readReply_line u _ w c _ payload Hc Hok ltac:(done) Hrx)).
  set (w1 := update _ _ w). rewrite (bind_ok _ _ w1 w1 (Z.of_nat n)).
  2:{ unfold lift. rewrite (parse_number _ (lit "SIZE") (Z.of_nat n)); [done| |lia].
      unfold value, item_values. cbn [RValues foldl number_item]. by rewrite lookup_insert_eq. }
  rewrite Nat2Z.id. unfold validateDatagramPayload. rewrite decide_False by lia.
  fold limit. rewrite decide_True by done. done.
Qed.

(** ** Concrete instances *)
Definition w_upper (s : gostring) : gostring := s.
Definition w_items : list item :=
  [Word (lit "HELLO"); Word (lit "REPLY"); Pair (lit "RESULT") (lit "OK") (lit "OK");
   Pair (lit "MESSAGE") (lit "a b") (dquote :: lit "a b" ++ [dquote])].
Definition w_conn (rx : gostring) : conn := mkConn (lit "tcp") DefaultAddress rx [] 0.
Definition w_world (rx : gostring) : world := mkWorld [w_conn rx] [] [].

Lemma sam_reply_roundtrip_witness :
  exists r, readReply w_upper 0 (w_world (line_of w_items ++ newline :: lit "x")) =
    (w_world (lit "x"), inr r) /\ value r (lit "MESSAGE") = lit "a b".
Proof.
  destruct (sam_reply_roundtrip w_upper 0 (w_world (line_of w_items ++ newline :: lit "x"))
    (w_conn (line_of w_items ++ newline :: lit "x")) w_items (lit "x")) as (r & H1 & _ & H2 & _).
  - done.
  - done.
  - repeat (apply Forall_cons; split); [..|constructor].
    + by apply (key_ok (lit "HELLO")).
    + by apply (key_ok (lit "REPLY")).
    + destruct (key_ok (lit "RESULT")) as [? ?]; [done..|]. split_and!; [done..|].
      apply renders_plain; [done|by apply plain_text].
    + destruct (key_ok (lit "MESSAGE")) as [? ?]; [done..|]. split_and!; [done..|].
      apply (renders_quoted (lit "a b")). repeat (apply Forall_cons; split); try apply Forall_nil_2;
        by split.
  - done.
  - exists r. split; [exact H1|]. apply (H2 _ _ (dquote :: lit "a b" ++ [dquote])).
    + by right; right; right; left.
    + intros v' t' H. repeat (apply elem_of_cons in H as [H|H]; [by simplify_eq|]).
      by apply not_elem_of_nil in H.
Defined.

Definition w_session : DatagramSession :=
  mkDatagramSession (lit "s") DatagramStyleRaw 0 1 false None.
Definition w_dgrams : list Datagram :=
  [mkDatagram (lit "dest") (lit "one") 1 2 0 false; mkDatagram [] (lit "two") 0 0 18 true].

Lemma sam_datagram_stream_witness :
  receive_n w_upper 2 w_session (w_world (concat (frame <$> w_dgrams) ++ lit "x")) =
  (w_world (lit "x"), inr w_dgrams).
Proof.
  apply (sam_datagram_stream w_upper w_session (w_world (concat (frame <$> w_dgrams) ++ lit "x"))
    (w_conn (concat (frame <$> w_dgrams) ++ lit "x")) w_dgrams (lit "x")).
  - done.
  - repeat (apply Forall_cons; split); [..|constructor].
    + constructor; cbn; [vm_compute; reflexivity|lia|lia|]. split_and!; [done|done|by apply plain_text].
    + constructor; cbn; [vm_compute; reflexivity|lia|lia|]. split; [done|lia].
  - done.
Defined.

Definition w_cfg : DatagramConfig :=
  mkDatagramConfig [] [] 0 [] (lit "anonbird-1") [] 0 0 0 0 0 0 0.

Lemma sam_session_command_witness :
  splitFields (datagramSessionCreateCommand (normalizeDatagramConfig w_upper None w_cfg)) =
  command_tokens DatagramStyleRaw (lit "anonbird-1") (lit "TRANSIENT")
    [lit "inbound.length=1"; lit "outbound.length=1"; lit "inbound.quantity=3";
     lit "outbound.quantity=3"; lit "PROTOCOL=18"].
Proof.
  destruct (sam_session_command w_upper None w_cfg) as [H _].
  - constructor; cbn; lia.
  - vm_compute. reflexivity.
  - by apply plain_text.
  - constructor.
  - rewrite H. vm_compute. reflexivity.
Defined.

Definition w_ok_line : gostring := lit "HELLO REPLY RESULT=OK" ++ [newline].
Definition w_bridge : world := mkWorld [] [Some (w_ok_line ++ w_ok_line); Some []] [].

Lemma sam_connections_released_witness :
  exists w' s, NewDatagramSession w_upper None w_cfg w_bridge = (w', inr s) /\
    session_open w_bridge w' [(lit "tcp", DefaultAddress); (lit "udp", lit "127.0.0.1:7655")].
Proof.
  destruct (sam_connections_released w_upper (fun _ => false) None w_bridge) as (_ & H & _).
  specialize (H w_cfg (NewDatagramSession w_upper None w_cfg w_bridge).1
                (NewDatagramSession w_upper None w_cfg w_bridge).2
                ltac:(by destruct (NewDatagramSession w_upper None w_cfg w_bridge))).
  destruct (NewDatagramSession w_upper None w_cfg w_bridge) as [w' [e|s]] eqn:E.
  - by vm_compute in E.
  - exists w', s. split; [done|]. exact (proj1 H).
Defined.
