(* ===== verification/AclManager.v ===== *)
(** * The ACL manager
      (client/internal/acl/manager.go)

    The manager turns the network map of the management service into firewall
    rules and reconciles them with what it installed before.  It talks to the
    firewall through the interface firewall.Manager, which is the class
    [Firewall] here; what the manager relies on is the class [FirewallSpec],
    and its theorems are proved against it for every firewall. *)

From Stdlib Require Import ZArith Lia Ascii.
From stdpp Require Import base gmap strings numbers countable sorting pretty list.
From S2P Require Import Prelude Netip NetipUtil Checksum UspPacket UspNat UspRules GoStrings AddrText.

(** ** The firewall interface *)
Record peer_args : Type := mkPeerArgs {
  pa_policy : list Z;
  pa_ip : list Z;
  pa_proto : Protocol;
  pa_sPort : option Port;
  pa_dPort : option Port;
  pa_action : Action;
  pa_ipset : string }.

Record route_args : Type := mkRouteArgs {
  ra_policy : list Z;
  ra_sources : list Prefix;
  ra_destination : Network;
  ra_proto : Protocol;
  ra_sPort : option Port;
  ra_dPort : option Port;
  ra_action : Action }.

(** The errors of a firewall are opaque to the manager. *)
Definition fw_error : Type := string.

(** The methods of firewall.Manager that the ACL manager calls, on a firewall
    state [F] with rule handles [R]; a route rule is handled by its id. *)
Class Firewall (F R : Type) : Type := {
  fwAddPeerFiltering : peer_args -> F -> F * (fw_error + list R);
  fwDeletePeerRule : R -> F -> F * option fw_error;
  fwAddRouteFiltering : route_args -> F -> F * (fw_error + string);
  fwDeleteRouteRule : string -> F -> F * option fw_error;
  fwFlush : F -> F * option fw_error;
  fwIsStateful : F -> bool }.

(** The arguments that the manager passes: a valid address and ports with one
    value or a range of two. *)
Definition args_ok (a : peer_args) : Prop :=
  IsValid (AddrFromSlice (pa_ip a)) = true /\ port_wf (pa_sPort a) /\ port_wf (pa_dPort a).

(** What a firewall promises: an invariant, the peer rules and the route rules
    that are in force, and which arguments a peer rule implements.  Adding
    returns rules that were not in force before; an addition that fails adds
    nothing; a deletion touches no other rule, and if it reports no error the
    rule is gone.  A deletion may fail, and then the rule may stay in force. *)
Class FirewallSpec (F R : Type) `{Firewall F R} : Type := {
  fw_inv : F -> Prop;
  peer_installed : F -> R -> Prop;
  route_installed : F -> string -> Prop;
  implements : R -> peer_args -> Prop;
  route_implements : string -> route_args -> Prop;
  add_peer_spec f a : fw_inv f -> args_ok a ->
    let '(f', res) := fwAddPeerFiltering a f in
    fw_inv f' /\ fwIsStateful f' = fwIsStateful f /\
    (forall x, route_installed f' x <-> route_installed f x) /\
    match res with
    | inl _ => forall r, peer_installed f' r <-> peer_installed f r
    | inr rs =>
        (forall r, peer_installed f' r <-> peer_installed f r \/ r ∈ rs) /\
        rs <> [] /\ NoDup rs /\ forall r, r ∈ rs -> ~ peer_installed f r /\ implements r a
    end;
  del_peer_spec f r : fw_inv f -> peer_installed f r ->
    let '(f', err) := fwDeletePeerRule r f in
    fw_inv f' /\ fwIsStateful f' = fwIsStateful f /\
    (forall x, route_installed f' x <-> route_installed f x) /\
    (forall r', peer_installed f' r' -> peer_installed f r') /\
    (forall r', r' <> r -> peer_installed f r' -> peer_installed f' r') /\
    (err = None -> ~ peer_installed f' r);
  add_route_spec f a : fw_inv f -> port_wf (ra_dPort a) -> ra_sPort a = None ->
    let '(f', res) := fwAddRouteFiltering a f in
    fw_inv f' /\ fwIsStateful f' = fwIsStateful f /\
    (forall r, peer_installed f' r <-> peer_installed f r) /\
    match res with
    | inl _ => forall x, route_installed f' x <-> route_installed f x
    | inr id => (forall x, route_installed f' x <-> route_installed f x \/ x = id) /\
                route_implements id a
    end;
  del_route_spec f id : fw_inv f -> route_installed f id ->
    let '(f', err) := fwDeleteRouteRule id f in
    fw_inv f' /\ fwIsStateful f' = fwIsStateful f /\
    (forall r, peer_installed f' r <-> peer_installed f r) /\
    (forall x, x <> id -> route_installed f' x <-> route_installed f x) /\
    (err = None -> ~ route_installed f' id);
  flush_spec f : fw_inv f ->
    let '(f', _) := fwFlush f in
    fw_inv f' /\ fwIsStateful f' = fwIsStateful f /\
    (forall r, peer_installed f' r <-> peer_installed f r) /\
    (forall x, route_installed f' x <-> route_installed f x) }.

(** ** The messages of the management service *)

(** Enumerations are open in protocol buffers: the numbers are kept. *)
Definition RuleProtocol_ALL : Z := 1.
Definition RuleProtocol_TCP : Z := 2.
Definition RuleProtocol_UDP : Z := 3.
Definition RuleProtocol_ICMP : Z := 4.
Definition RuleDirection_IN : Z := 0.
Definition RuleDirection_OUT : Z := 1.
Definition RuleAction_ACCEPT : Z := 0.
Definition RuleAction_DROP : Z := 1.

(** The oneof of [PortInfo]; a range message may be nil. *)
Inductive PortInfo : Type :=
| PINone
| PIPort (port : Z)
| PIRange (range : option (Z * Z)).

Record FirewallRule : Type := mkFirewallRule {
  fr_PeerIP : gostring;
  fr_Direction : Z;
  fr_Action : Z;
  fr_Protocol : Z;
  fr_Port : gostring;
  fr_PortInfo : option PortInfo;
  fr_PolicyID : list Z;
  fr_SourcePrefixes : list (list Z) }.

Record RouteFirewallRule : Type := mkRouteFirewallRule {
  rfr_SourceRanges : list gostring;
  rfr_Action : Z;
  rfr_Destination : gostring;
  rfr_Protocol : Z;
  rfr_PortInfo : option PortInfo;
  rfr_IsDynamic : bool;
  rfr_Domains : list gostring;
  rfr_PolicyID : list Z }.

Record NetworkMap : Type := mkNetworkMap {
  nm_FirewallRules : list FirewallRule;
  nm_FirewallRulesIsEmpty : bool;
  nm_RoutesFirewallRules : list RouteFirewallRule }.

(** ** Conversions *)
Inductive acl_error : Type :=
| ErrSourceRangesEmpty
| ErrDecodeSource
| ErrInvalidPeerIP
| ErrInvalidProtocol (n : Z)
| ErrInvalidAction (n : Z)
| ErrAclPort
| ErrInvalidDirection
| ErrParseSource
| ErrParseDestination
| ErrFirewall (e : fw_error).

Notation AM := (res acl_error).

Definition convertToFirewallProtocol (protocol : Z) : AM Protocol :=
  if decide (protocol = RuleProtocol_TCP) then Ok ProtocolTCP
  else if decide (protocol = RuleProtocol_UDP) then Ok ProtocolUDP
  else if decide (protocol = RuleProtocol_ICMP) then Ok ProtocolICMP
  else if decide (protocol = RuleProtocol_ALL) then Ok ProtocolALL
  else Err (ErrInvalidProtocol protocol).

Definition convertFirewallAction (action : Z) : AM Action :=
  if decide (action = RuleAction_ACCEPT) then Ok ActionAccept
  else if decide (action = RuleAction_DROP) then Ok ActionDrop
  else Err (ErrInvalidAction action).

Definition shouldSkipInvertedRule (protocol : Protocol) (port : option Port) : bool :=
  bool_decide (protocol = ProtocolALL) || bool_decide (protocol = ProtocolICMP) ||
  bool_decide (port = None).

Definition portInfoEmpty (portInfo : option PortInfo) : bool :=
  match portInfo with
  | None => true
  | Some (PIPort port) => bool_decide (port = 0)%Z
  | Some (PIRange None) => true
  | Some (PIRange (Some (start, end_))) => bool_decide (start = 0 \/ end_ = 0)%Z
  | Some PINone => true
  end.

(** The getters of a oneof return zero values for the other member. *)
Definition GetPort (pi : PortInfo) : Z := match pi with PIPort port => port | _ => 0 end.
Definition GetRange (pi : PortInfo) : option (Z * Z) := match pi with PIRange r => r | _ => None end.

Definition convertPortInfo (portInfo : option PortInfo) : option Port :=
  match portInfo with
  | None => None
  | Some pi =>
      if decide (GetPort pi <> 0)%Z then Some (mkPort false [u16 (GetPort pi)])
      else match GetRange pi with
           | Some (start, end_) => Some (mkPort true [u16 start; u16 end_])
           | None => None
           end
  end.

Definition extractRuleIP (r : FirewallRule) : AM Addr :=
  match fr_SourcePrefixes r with
  | b :: _ =>
      match DecodeAddr b with
      | Ok addr => Ok (Unmap addr)
      | _ => Err ErrDecodeSource
      end
  | [] =>
      match ParseAddr (fr_PeerIP r) with
      | Some addr => Ok (Unmap addr)
      | None => Err ErrInvalidPeerIP
      end
  end.

Definition getDefault (prefix : Prefix) : Prefix :=
  if Is6 (PAddr prefix) then PrefixFrom IPv6Unspecified 0 else PrefixFrom IPv4Unspecified 0.

(** The parameters of a peer rule. *)
Record peer_params : Type := mkParams {
  pp_ip : Addr;
  pp_proto : Protocol;
  pp_direction : Z;
  pp_port : option Port;
  pp_action : Action }.

#[global] Instance peer_params_eq_dec : EqDecision peer_params.
Proof. solve_decision. Defined.

(** The first part of [protoRuleToFirewallRule]: the conversions. *)
Definition convertRule (r : FirewallRule) : AM peer_params :=
  ip ← extractRuleIP r;
  protocol ← convertToFirewallProtocol (fr_Protocol r);
  action ← convertFirewallAction (fr_Action r);
  port ← (if negb (portInfoEmpty (fr_PortInfo r)) then Ok (convertPortInfo (fr_PortInfo r))
          else if decide (fr_Port r <> []) then
            match Atoi (fr_Port r) with
            | Some value => Ok (Some (mkPort false [u16 value]))
            | None => Err ErrAclPort
            end
          else Ok None);
  Ok (mkParams ip protocol (fr_Direction r) port action).

(** ** Identifiers *)
Definition hex_encode (l : gostring) : gostring :=
  l ≫= fun c => [hex_char (Z.of_N (byte_of c) / 16); hex_char (Z.of_N (byte_of c) mod 16)].

(** [md5.New().Sum(b)] appends the digest of the empty string to [b]. *)
Definition md5_empty_hex : gostring := lit "d41d8cd98f00b204e9800998ecf8427e".

Definition rule_text (ip : Addr) (proto : Protocol) (direction : Z) (port : option Port)
    (action : Action) : gostring :=
  Addr_String ip ++ lit (Protocol_string proto) ++ Itoa direction ++ Itoa (Action_num action) ++
  match port with Some port => lit (Port_String port) | None => [] end.

Definition getPeerRuleID (p : peer_params) : string :=
  String.string_of_list_ascii
    (hex_encode (rule_text (pp_ip p) (pp_proto p) (pp_direction p) (pp_port p) (pp_action p)) ++
     md5_empty_hex).

(** [fmt.Sprintf("nb%07d", n)] *)
Definition ipset_name (n : Z) : string :=
  let digits := Itoa n in
  String.string_of_list_ascii (lit "nb" ++ replicate (7 - length digits) "0"%char ++ digits).

(** ** Identifiers are unique *)
Lemma hex_char_inj x y : (0 <= x < 16)%Z -> (0 <= y < 16)%Z -> hex_char x = hex_char y -> x = y.
Proof. intros Hx Hy E. apply (f_equal hex_digit) in E. rewrite !hex_char_value in E by done. congruence. Qed.

Lemma byte_of_inj c d : byte_of c = byte_of d -> c = d.
Proof. unfold byte_of. intros E. rewrite <- (Ascii.ascii_N_embedding c), <- (Ascii.ascii_N_embedding d). by rewrite E. Qed.

Lemma byte_of_range c : (0 <= Z.of_N (byte_of c) < 256)%Z.
Proof. unfold byte_of. pose proof (Ascii.N_ascii_bounded c). lia. Qed.

Lemma hex_encode_inj l : forall l', hex_encode l = hex_encode l' -> l = l'.
Proof.
  induction l as [|c l IH]; intros [|c' l'] E; [done..|].
  unfold hex_encode in E. rewrite !bind_cons in E. cbn [app] in E. injection E as E1 E2 E3.
  pose proof (byte_of_range c). pose proof (byte_of_range c').
  apply hex_char_inj in E1, E2; [|Z.div_mod_to_equations; lia..].
  f_equal; [|by apply IH]. apply byte_of_inj. Z.div_mod_to_equations; lia.
Qed.

(** The last character that is not a digit is unique. *)
Lemma digits_first (d d' : gostring) c c' u u' : Forall is_digit d -> Forall is_digit d' ->
  ~ is_digit c -> ~ is_digit c' -> d ++ c :: u = d' ++ c' :: u' -> d = d' /\ c = c' /\ u = u'.
Proof.
  intros Hd. revert d'. induction Hd as [|x d Hx Hd IH]; intros d' Hd' Hc Hc' E.
  - destruct Hd' as [|y d' Hy Hd']; simpl in E; by simplify_eq.
  - destruct Hd' as [|y d' Hy Hd']; simpl in E; injection E as -> E; [done|].
    destruct (IH _ Hd' Hc Hc' E) as (-> & -> & ->). done.
Qed.

Lemma digits_last (d d' : gostring) c c' u u' : Forall is_digit d -> Forall is_digit d' ->
  ~ is_digit c -> ~ is_digit c' -> u ++ c :: d = u' ++ c' :: d' -> u = u' /\ c = c' /\ d = d'.
Proof.
  intros Hd Hd' Hc Hc' E. apply (f_equal reverse) in E.
  rewrite !reverse_app, !reverse_cons, <- !app_assoc in E. cbn [app] in E.
  apply digits_first in E as (E1 & -> & E2); [|by apply Forall_reverse|by apply Forall_reverse|done..].
  split_and!; [by apply (inj reverse)|done|by apply (inj reverse)].
Qed.

(** The parameters that the conversions produce. *)
Definition port_form (p : option Port) : Prop :=
  match p with
  | None => True
  | Some p => (exists v, p = mkPort false [v] /\ (0 <= v)%Z) \/
              (exists a b, p = mkPort true [a; b] /\ (0 <= a)%Z /\ (0 <= b)%Z)
  end.

Record params_ok (p : peer_params) : Prop := {
  po_valid : IsValid (pp_ip p) = true;
  po_wf : addr_wf (pp_ip p);
  po_unmapped : Is4In6 (pp_ip p) = false;
  po_proto : pp_proto p <> ProtocolUnknown;
  po_direction : pp_direction p = RuleDirection_IN \/ pp_direction p = RuleDirection_OUT;
  po_port : port_form (pp_port p) }.

(** Address and protocol, without the last letter, and that letter. *)
Definition text_head (p : peer_params) : gostring :=
  Addr_String (pp_ip p) ++
  match pp_proto p with
  | ProtocolTCP => lit "tc" | ProtocolUDP => lit "ud" | ProtocolICMP => lit "icm" | _ => lit "al"
  end.
Definition text_last (p : peer_params) : ascii :=
  match pp_proto p with ProtocolALL => "l"%char | _ => "p"%char end.
(** Direction and action: one digit each. *)
Definition text_codes (p : peer_params) : gostring :=
  [if decide (pp_direction p = RuleDirection_IN) then "0"%char else "1"%char;
   match pp_action p with ActionAccept => "0"%char | ActionDrop => "1"%char end].

Lemma rule_text_parts p : params_ok p ->
  rule_text (pp_ip p) (pp_proto p) (pp_direction p) (pp_port p) (pp_action p) =
  text_head p ++ text_last p :: text_codes p ++
  match pp_port p with Some port => lit (Port_String port) | None => [] end.
Proof.
  intros [_ _ _ Hp Hd _]. unfold rule_text, text_head, text_last, text_codes.
  rewrite <- app_assoc. f_equal.
  destruct Hd as [-> | ->], (pp_proto p), (pp_action p); done.
Qed.

Lemma head_inj p q : params_ok p -> params_ok q -> text_head p = text_head q ->
  text_last p = text_last q -> pp_ip p = pp_ip q /\ pp_proto p = pp_proto q.
Proof.
  intros [Vp Wp Mp Pp _ _] [Vq Wq Mq Pq _ _] Eh El. unfold text_head, text_last in *.
  cut (Addr_String (pp_ip p) = Addr_String (pp_ip q) /\ pp_proto p = pp_proto q).
  { intros [E ->]. split; [by apply Addr_String_inj|done]. }
  apply (f_equal reverse) in Eh. rewrite !reverse_app in Eh.
  cut (reverse (Addr_String (pp_ip p)) = reverse (Addr_String (pp_ip q)) /\ pp_proto p = pp_proto q).
  { intros [E ->]. split; [by apply (inj reverse)|done]. }
  generalize dependent (reverse (Addr_String (pp_ip p))).
  generalize dependent (reverse (Addr_String (pp_ip q))). intros rb ra Eh.
  destruct (pp_proto p), (pp_proto q); try done; cbn in Eh; by simplify_eq.
Qed.

Lemma codes_inj p q : params_ok p -> params_ok q -> text_codes p = text_codes q ->
  pp_direction p = pp_direction q /\ pp_action p = pp_action q.
Proof.
  intros [_ _ _ _ Dp _] [_ _ _ _ Dq _]. unfold text_codes.
  destruct Dp as [-> | ->], Dq as [-> | ->], (pp_action p), (pp_action q); cbn; done.
Qed.

Lemma codes_digits p : Forall is_digit (text_codes p).
Proof.
  unfold text_codes.
  case_decide; destruct (pp_action p); repeat (apply Forall_cons; split); try apply Forall_nil_2;
    unfold is_digit; vm_compute; split; discriminate.
Qed.

Lemma last_not_digit p : ~ is_digit (text_last p).
Proof. unfold text_last, is_digit. destruct (pp_proto p); vm_compute; intros [? ?]; by auto. Qed.

Lemma getPeerRuleID_text p q : getPeerRuleID p = getPeerRuleID q ->
  rule_text (pp_ip p) (pp_proto p) (pp_direction p) (pp_port p) (pp_action p) =
  rule_text (pp_ip q) (pp_proto q) (pp_direction q) (pp_port q) (pp_action q).
Proof.
  intros E. apply (f_equal String.list_ascii_of_string) in E. unfold getPeerRuleID in E.
  rewrite !String.list_ascii_of_string_of_list_ascii in E.
  apply app_inj_2 in E as [E _]; [|done]. by apply hex_encode_inj.
Qed.

Lemma range_text a b : lit (Port_String (mkPort true [a; b])) =
  lit "range" ++ ":"%char :: Itoa a ++ ","%char :: Itoa b.
Proof.
  unfold Port_String. cbn [IsRange Values join_ports].
  rewrite !(decide_True (P := EmptyString = EmptyString)) by done. rewrite decide_False.
  - rewrite !lit_app. rewrite <- !app_assoc. done.
  - intros E. apply (f_equal lit) in E. rewrite lit_app in E. by apply (Itoa_nonempty a).
Qed.

Lemma single_text v : lit (Port_String (mkPort false [v])) = Itoa v.
Proof. unfold Port_String. cbn [IsRange Values join_ports]. rewrite decide_True by done. done. Qed.

Lemma comma_not_digit : ~ is_digit ",".
Proof. unfold is_digit. vm_compute. intros [? ?]. by auto. Qed.
Lemma colon_not_digit : ~ is_digit ":".
Proof. unfold is_digit. vm_compute. intros [? ?]. by auto. Qed.

Lemma range_regroup (h : gostring) l c x y :
  h ++ l :: c ++ lit "range" ++ ":"%char :: x ++ ","%char :: y =
  (((h ++ l :: c) ++ lit "range") ++ ":"%char :: x) ++ ","%char :: y.
Proof. by rewrite <- !app_assoc. Qed.

Lemma plain_is_no_range h l (ds : gostring) h' l' c x b : ~ is_digit l -> l <> ","%char ->
  Forall is_digit ds -> (0 <= b)%Z ->
  h ++ l :: ds <> h' ++ l' :: c ++ lit "range" ++ ":"%char :: x ++ ","%char :: Itoa b.
Proof.
  intros Hl Hc Hd Hb. rewrite range_regroup. intros E.
  apply digits_last in E as (_ & E & _); [done|done|by apply Itoa_digits|done|apply comma_not_digit].
Qed.

(** The text of the port is a string of digits or a range. *)
Definition plain_port (p : option Port) (ds : gostring) : Prop :=
  Forall is_digit ds /\
  (p = None /\ ds = [] \/ exists v, p = Some (mkPort false [v]) /\ ds = Itoa v).

Lemma plain_port_inj p q ds : plain_port p ds -> plain_port q ds -> p = q.
Proof.
  intros [_ [[-> Hp]|(v & -> & Hp)]] [_ [[-> Hq]|(w & -> & Hq)]]; subst; [done| | |].
  - by destruct (Itoa_nonempty w).
  - by destruct (Itoa_nonempty v).
  - apply Itoa_inj in Hq. by subst.
Qed.

Definition port_text (p : option Port) : gostring :=
  match p with Some port => lit (Port_String port) | None => [] end.

Lemma port_text_cases p : port_form p ->
  plain_port p (port_text p) \/
  exists a b, p = Some (mkPort true [a; b]) /\ (0 <= a)%Z /\ (0 <= b)%Z /\
    port_text p = lit "range" ++ ":"%char :: Itoa a ++ ","%char :: Itoa b.
Proof.
  destruct p as [p|]; [|left; split; [constructor|by left]].
  intros [(v & -> & Hv)|(a & b & -> & Ha & Hb)]; cbn [port_text].
  - left. rewrite single_text. split; [by apply Itoa_digits|]. right. by exists v.
  - right. exists a, b. by rewrite range_text.
Qed.

Lemma last_not_comma p : text_last p <> ","%char.
Proof. unfold text_last. by destruct (pp_proto p). Qed.

Lemma same_params p q : params_ok p -> params_ok q -> text_head p = text_head q ->
  text_last p = text_last q -> text_codes p = text_codes q -> pp_port p = pp_port q -> p = q.
Proof.
  intros Hp Hq E1 E2 E3 E4. destruct (head_inj p q) as [F1 F2]; [done..|].
  destruct (codes_inj p q) as [F3 F4]; [done..|]. destruct p, q. simpl in *. congruence.
Qed.

Lemma params_text_inj p q : params_ok p -> params_ok q ->
  text_head p ++ text_last p :: text_codes p ++ port_text (pp_port p) =
  text_head q ++ text_last q :: text_codes q ++ port_text (pp_port q) -> p = q.
Proof.
  intros Hp Hq E.
  pose proof (codes_digits p) as Cp. pose proof (codes_digits q) as Cq.
  pose proof (last_not_digit p) as Lp. pose proof (last_not_digit q) as Lq.
  destruct (port_text_cases _ (po_port p Hp)) as [Pp|(a & b & Pp & Ha & Hb & Tp)],
    (port_text_cases _ (po_port q Hq)) as [Pq|(a' & b' & Pq & Ha' & Hb' & Tq)].
  - pose proof (proj1 Pp) as Dp. pose proof (proj1 Pq) as Dq.
    apply digits_last in E as (E1 & E2 & E3); [|by apply Forall_app|by apply Forall_app|done..].
    apply app_inj_1 in E3 as [E3 E4]; [|done]. apply same_params; [done..|].
    rewrite E4 in Pp. by eapply plain_port_inj.
  - rewrite Tq in E. apply plain_is_no_range in E; [done|done|apply last_not_comma| |done].
    apply Forall_app. split; [done|apply Pp].
  - rewrite Tp in E. symmetry in E.
    apply plain_is_no_range in E; [done|done|apply last_not_comma| |done].
    apply Forall_app. split; [done|apply Pq].
  - rewrite Tp, Tq, !range_regroup in E.
    apply digits_last in E as (E & _ & Eb); [|by apply Itoa_digits|by apply Itoa_digits|apply comma_not_digit..].
    apply digits_last in E as (E & _ & Ea); [|by apply Itoa_digits|by apply Itoa_digits|apply colon_not_digit..].
    apply app_inj_2 in E as [E _]; [|done].
    apply digits_last in E as (E1 & E2 & E3); [|done..].
    apply Itoa_inj in Ea, Eb. apply same_params; [done..|]. rewrite Pp, Pq. congruence.
Qed.

(** Rules that differ in address, protocol, direction, port or action have
    different identifiers. *)
Lemma getPeerRuleID_inj p q : params_ok p -> params_ok q ->
  getPeerRuleID p = getPeerRuleID q -> p = q.
Proof.
  intros Hp Hq E%getPeerRuleID_text. rewrite !rule_text_parts in E by done.
  by apply params_text_inj.
Qed.

(** ** The manager *)
Section manager.
Context {F R : Type} `{Firewall F R}.
(** [getRuleGroupingSelector]: the text of a rule without its address, whose
    format the protocol-buffer library does not fix; the lower case of
    non-ASCII strings; SHA-256; [domain.List.SafeString]. *)
Context (getRuleGroupingSelector : FirewallRule -> string).
Context (unicode_lower : gostring -> gostring) (sha256 : gostring -> list Z)
  (safeString : list gostring -> string).
(** The orders in which the maps are iterated. *)
Context (ord : list (string * list R) -> list (string * list R))
  (rord : list string -> list string).

Record DefaultManager : Type := mkDefaultManager {
  dm_firewall : option F;
  dm_ipsetCounter : Z;
  dm_peerRulesPairs : gmap string (list R);
  dm_routeRules : gset string }.

Definition NewDefaultManager (fm : option F) : DefaultManager := mkDefaultManager fm 0 ∅ ∅.

Definition addInRules (id : list Z) (ip : Addr) (protocol : Protocol) (port : option Port)
    (action : Action) (ipsetName : string) (f : F) : F * (acl_error + list R) :=
  let '(f, res) := fwAddPeerFiltering
                     (mkPeerArgs id (AsSlice ip) protocol None port action ipsetName) f in
  (f, match res with inl e => inl (ErrFirewall e) | inr rules => inr rules end).

Definition addOutRules (id : list Z) (ip : Addr) (protocol : Protocol) (port : option Port)
    (action : Action) (ipsetName : string) (f : F) : F * (acl_error + list R) :=
  if shouldSkipInvertedRule protocol port then (f, inr [])
  else
    let '(f, res) := fwAddPeerFiltering
                       (mkPeerArgs id (AsSlice ip) protocol port None action ipsetName) f in
    (f, match res with inl e => inl (ErrFirewall e) | inr rules => inr rules end).

Definition with_id (id : string) (x : F * (acl_error + list R))
    : F * (acl_error + string * list R) :=
  (x.1, match x.2 with inl e => inl e | inr rules => inr (id, rules) end).

Definition protoRuleToFirewallRule (r : FirewallRule) (ipsetName : string)
    (pairs : gmap string (list R)) (f : F) : F * (acl_error + string * list R) :=
  match convertRule r with
  | Err e => (f, inl e)
  | Panic => (f, inl ErrDecodeSource)
  | Ok p =>
      let ruleID := getPeerRuleID p in
      match pairs !! ruleID with
      | Some rulesPair => (f, inr (ruleID, rulesPair))
      | None =>
          if decide (fr_Direction r = RuleDirection_IN) then
            with_id ruleID (addInRules (fr_PolicyID r) (pp_ip p) (pp_proto p) (pp_port p)
                              (pp_action p) ipsetName f)
          else if decide (fr_Direction r = RuleDirection_OUT) then
            if fwIsStateful f then (f, inr (EmptyString, []))
            else with_id ruleID (addOutRules (fr_PolicyID r) (pp_ip p) (pp_proto p) (pp_port p)
                                   (pp_action p) ipsetName f)
          else (f, inl ErrInvalidDirection)
      end
  end.

(** The variables of the loop of [applyPeerACLs]. *)
Record peer_loop : Type := mkLoop {
  pl_fw : F;
  pl_counter : Z;
  pl_pairs : gmap string (list R);
  pl_new : gmap string (list R);
  pl_ipsets : gmap string string;
  pl_errors : list acl_error }.

Definition apply_peer_rule (st : peer_loop) (r : FirewallRule) : peer_loop :=
  let selector := getRuleGroupingSelector r in
  let '(counter, ipsets, ipsetName) :=
    match pl_ipsets st !! selector with
    | Some name => (pl_counter st, pl_ipsets st, name)
    | None =>
        let counter := (pl_counter st + 1)%Z in
        (counter, <[selector := ipset_name counter]> (pl_ipsets st), ipset_name counter)
    end in
  let '(f, res) := protoRuleToFirewallRule r ipsetName (pl_pairs st) (pl_fw st) in
  match res with
  | inl e => mkLoop f counter (pl_pairs st) (pl_new st) ipsets (pl_errors st ++ [e])
  | inr (pairID, rulePair) =>
      if decide (0 < length rulePair) then
        mkLoop f counter (<[pairID := rulePair]> (pl_pairs st)) (<[pairID := rulePair]> (pl_new st))
          ipsets (pl_errors st)
      else mkLoop f counter (pl_pairs st) (pl_new st) ipsets (pl_errors st)
  end.

(** An error of a deletion is logged and the rule forgotten; the deletions
    that failed are returned so that they can be spoken of. *)
Fixpoint delete_rules (rules : list R) (f : F) : F * list (R * fw_error) :=
  match rules with
  | [] => (f, [])
  | rule :: rules =>
      let '(f, err) := fwDeletePeerRule rule f in
      let '(f, failed) := delete_rules rules f in
      (f, match err with Some e => (rule, e) :: failed | None => failed end)
  end.

Fixpoint delete_stale (new : gmap string (list R)) (pairs : list (string * list R)) (f : F)
    : F * list (R * fw_error) :=
  match pairs with
  | [] => (f, [])
  | (pairID, rules) :: pairs =>
      let '(f, failed) := if decide (is_Some (new !! pairID)) then (f, []) else delete_rules rules f in
      let '(f, failed') := delete_stale new pairs f in
      (f, failed ++ failed')
  end.

(** The rules of a map; an old management service sends none and expects all
    traffic to be allowed. *)
Definition allow_all (direction : Z) : FirewallRule :=
  mkFirewallRule (lit "0.0.0.0") direction RuleAction_ACCEPT RuleProtocol_ALL [] None [] [].

Definition effective_rules (networkMap : NetworkMap) : list FirewallRule :=
  if decide (length (nm_FirewallRules networkMap) = 0 /\ nm_FirewallRulesIsEmpty networkMap = false)
  then nm_FirewallRules networkMap ++ [allow_all RuleDirection_IN; allow_all RuleDirection_OUT]
  else nm_FirewallRules networkMap.

(** The counter, the pairs, the firewall, the collected errors and the
    deletions that failed. *)
Definition applyPeerACLs (networkMap : NetworkMap) (counter : Z) (pairs : gmap string (list R))
    (f : F) : Z * gmap string (list R) * F * list acl_error * list (R * fw_error) :=
  let st := foldl apply_peer_rule (mkLoop f counter pairs ∅ ∅ []) (effective_rules networkMap) in
  let '(f, failed) := delete_stale (pl_new st) (ord (map_to_list (pl_pairs st))) (pl_fw st) in
  (pl_counter st, pl_new st, f, pl_errors st, failed).

(** ** Route rules *)
Definition NewDomainSet (domains : list gostring) : FSet :=
  let domains := sort_stable (fun a b => cmpZ (String.compare (String.string_of_list_ascii a)
                                                 (String.string_of_list_ascii b))) domains in
  mkSet (take 4 (sha256 (concat domains))) (safeString domains).

Definition FromPunycodeList (s : list gostring) : list gostring := ToLower unicode_lower <$> s.

Definition determineDestination (rule : RouteFirewallRule) (dynamicResolver : bool)
    (sources : list Prefix) : AM Network :=
  let default_net := mkNetwork EmptySet_ (getDefault (default PrefixZero (head sources))) in
  if rfr_IsDynamic rule then
    if dynamicResolver then
      if decide (0 < length (rfr_Domains rule))
      then Ok (mkNetwork (NewDomainSet (FromPunycodeList (rfr_Domains rule))) PrefixZero)
      else Ok default_net
    else Ok default_net
  else match ParsePrefix (rfr_Destination rule) with
       | Some prefix => Ok (mkNetwork EmptySet_ prefix)
       | None => Err ErrParseDestination
       end.

(** The conversions of [applyRouteACL]. *)
Definition convertRouteRule (rule : RouteFirewallRule) (dynamicResolver : bool) : AM route_args :=
  if decide (length (rfr_SourceRanges rule) = 0) then Err ErrSourceRangesEmpty else
  sources ← match mapM ParsePrefix (rfr_SourceRanges rule) with
            | Some sources => Ok sources
            | None => Err ErrParseSource
            end;
  destination ← determineDestination rule dynamicResolver sources;
  protocol ← convertToFirewallProtocol (rfr_Protocol rule);
  action ← convertFirewallAction (rfr_Action rule);
  Ok (mkRouteArgs (rfr_PolicyID rule) sources destination protocol None
        (convertPortInfo (rfr_PortInfo rule)) action).

Definition applyRouteACL (rule : RouteFirewallRule) (dynamicResolver : bool) (f : F)
    : F * (acl_error + string) :=
  match convertRouteRule rule dynamicResolver with
  | Err e => (f, inl e)
  | Panic => (f, inl ErrParseSource)
  | Ok args =>
      let '(f, res) := fwAddRouteFiltering args f in
      (f, match res with inl e => inl (ErrFirewall e) | inr id => inr id end)
  end.

Fixpoint add_routes (rules : list RouteFirewallRule) (dynamicResolver : bool)
    (new : gset string) (f : F) : F * gset string * list acl_error :=
  match rules with
  | [] => (f, new, [])
  | rule :: rules =>
      let '(f, res) := applyRouteACL rule dynamicResolver f in
      match res with
      | inr id => add_routes rules dynamicResolver ({[id]} ∪ new) f
      | inl e =>
          let '(f, new, errs) := add_routes rules dynamicResolver new f in
          (f, new, match e with ErrSourceRangesEmpty => errs | _ => e :: errs end)
      end
  end.

Fixpoint delete_routes (new : gset string) (ids : list string) (f : F)
    : F * list (string * fw_error) :=
  match ids with
  | [] => (f, [])
  | id :: ids =>
      if decide (id ∈ new) then delete_routes new ids f
      else
        let '(f, err) := fwDeleteRouteRule id f in
        let '(f, failed) := delete_routes new ids f in
        (f, match err with Some e => (id, e) :: failed | None => failed end)
  end.

Definition applyRouteACLs (rules : list RouteFirewallRule) (dynamicResolver : bool)
    (old : gset string) (f : F) : gset string * F * list acl_error * list (string * fw_error) :=
  let '(f, new, errs) := add_routes rules dynamicResolver ∅ f in
  let '(f, failed) := delete_routes new (rord (elements old)) f in
  (new, f, errs, failed).

(** What an update writes to the log: the rules that could not be converted
    or added, the peer rules whose deletion failed, and the same of routes. *)
Record acl_log : Type := mkAclLog {
  al_errors : list acl_error;
  al_failed : list (R * fw_error);
  al_route_errors : list acl_error;
  al_route_failed : list (string * fw_error) }.

Definition ApplyFiltering (networkMap : NetworkMap) (dnsRouteFeatureFlag : bool)
    (d : DefaultManager) : DefaultManager * acl_log :=
  match dm_firewall d with
  | None => (d, mkAclLog [] [] [] [])
  | Some f =>
      let '(counter, pairs, f, errs, failed) :=
        applyPeerACLs networkMap (dm_ipsetCounter d) (dm_peerRulesPairs d) f in
      let '(routes, f, rerrs, rfailed) :=
        applyRouteACLs (nm_RoutesFirewallRules networkMap) dnsRouteFeatureFlag (dm_routeRules d) f in
      let '(f, _) := fwFlush f in
      (mkDefaultManager (Some f) counter pairs routes, mkAclLog errs failed rerrs rfailed)
  end.

(** ** Reconciliation, for every firewall that keeps its promises *)
Context `{!FirewallSpec F R}.
Context (ord_perm : forall l, ord l ≡ₚ l) (rord_perm : forall l, rord l ≡ₚ l).

(** Whether a rule is to be installed: inbound rules always, outbound rules
    as rules for the return traffic if the firewall keeps no state. *)
Definition wanted (stateful : bool) (p : peer_params) : Prop :=
  pp_direction p = RuleDirection_IN \/
  pp_direction p = RuleDirection_OUT /\ stateful = false /\
  shouldSkipInvertedRule (pp_proto p) (pp_port p) = false.

(** What is asked of the firewall for a rule. *)
Definition rule_args (p : peer_params) (policy : list Z) (ipset : string) : peer_args :=
  if decide (pp_direction p = RuleDirection_IN)
  then mkPeerArgs policy (AsSlice (pp_ip p)) (pp_proto p) None (pp_port p) (pp_action p) ipset
  else mkPeerArgs policy (AsSlice (pp_ip p)) (pp_proto p) (pp_port p) None (pp_action p) ipset.

Definition realizes (r : R) (p : peer_params) : Prop :=
  exists policy ipset, implements r (rule_args p policy ipset).

(** Messages as the decoder delivers them: bytes are bytes, and the direction
    is one of the two of the protocol. *)
Definition rule_wf (r : FirewallRule) : Prop :=
  Forall bytes_ok (fr_SourcePrefixes r) /\
  (fr_Direction r = RuleDirection_IN \/ fr_Direction r = RuleDirection_OUT).

(** The managed pairs and the firewall: [base] are the rules of others,
    [stale] those whose deletion failed. *)
Record pairs_ok (base : R -> Prop) (stale : list R) (pairs : gmap string (list R)) (f : F) : Prop := {
  pk_inv : fw_inv f;
  pk_pair : forall id rs, pairs !! id = Some rs -> rs <> [] /\ NoDup rs /\
    exists p, params_ok p /\ wanted (fwIsStateful f) p /\ id = getPeerRuleID p /\
      forall r, r ∈ rs -> peer_installed f r /\ realizes r p /\ ~ base r;
  pk_disjoint : forall id id' rs rs' r, pairs !! id = Some rs -> pairs !! id' = Some rs' ->
    r ∈ rs -> r ∈ rs' -> id = id';
  pk_covers : forall r, peer_installed f r ->
    base r \/ r ∈ stale \/ exists id rs, pairs !! id = Some rs /\ r ∈ rs;
  pk_base : forall r, base r -> peer_installed f r }.

Lemma u16_nonneg z : (0 <= u16 z)%Z.
Proof. unfold u16. apply Z.mod_pos_bound. lia. Qed.

Lemma convertPortInfo_form pi : port_form (convertPortInfo pi).
Proof.
  destruct pi as [pi|]; [|done]. unfold convertPortInfo. case_decide.
  - left. eexists. split; [done|]. apply u16_nonneg.
  - destruct (GetRange pi) as [[s e]|]; [|done]. right. do 2 eexists.
    split; [done|]. split; apply u16_nonneg.
Qed.

Lemma port_form_wf p : port_form p -> port_wf p.
Proof.
  destruct p as [p|]; [|done]. intros [(v & -> & _)|(a & b & -> & _)]; simpl; [done|]. intros _. lia.
Qed.

Lemma DecodeAddr_wf b a : bytes_ok b -> DecodeAddr b = Ok a -> IsValid a = true /\ addr_wf a.
Proof.
  intros Hb. unfold DecodeAddr, DecodePrefix.
  assert (forall n, n <= length b -> bytes_ok (copy_into (replicate n 0%Z) 0 b) /\
    length (copy_into (replicate n 0%Z) 0 b) = n) as Hc.
  { intros n Hn. unfold copy_into. rewrite length_replicate, Nat.sub_0_r. simpl.
    rewrite drop_ge, app_nil_r by (rewrite length_replicate; lia).
    split; [by apply Forall_take|]. rewrite length_take. lia. }
  case_decide as H5.
  - destruct (Hc 4 ltac:(lia)) as [Hf Hl]. pose proof (be_value_range _ Hf) as Hv. rewrite Hl in Hv.
    destruct (go_index b _); cbn [mbind res_bind]; [|done..]. case_decide; [done|].
    cbn [mbind res_bind]. intros [= <-]. unfold PrefixFrom. by case_match; split.
  - case_decide as H17; [|done].
    destruct (Hc 16 ltac:(lia)) as [Hf Hl]. pose proof (be_value_range _ Hf) as Hv. rewrite Hl in Hv.
    set (a0 := Unmap (AddrFrom16 (copy_into (replicate 16 0%Z) 0 b))).
    assert (IsValid (withoutZone a0) = true /\ addr_wf (withoutZone a0)) as Ha.
    { assert (addr_wf a0) as Hw by (apply Unmap_wf; exact Hv).
      unfold a0, Unmap, AddrFrom16 in *. case_match; by split. }
    clearbody a0. clear Hf Hl Hv.
    destruct (go_index b _); cbn [mbind res_bind]; [|done..].
    repeat case_match; try done; cbn [mbind res_bind]; intros [= <-]; unfold PrefixFrom;
      case_match; exact Ha.
Qed.

Lemma Unmap_valid a : IsValid a = true -> IsValid (Unmap a) = true.
Proof. intros Ha. unfold Unmap. destruct (Is4In6 a) eqn:E; [|done]. by destruct a. Qed.

Lemma extractRuleIP_ok r a : Forall bytes_ok (fr_SourcePrefixes r) -> extractRuleIP r = Ok a ->
  IsValid a = true /\ addr_wf a /\ Is4In6 a = false.
Proof.
  intros Hb. unfold extractRuleIP.
  assert (forall x, IsValid x = true /\ addr_wf x ->
    IsValid (Unmap x) = true /\ addr_wf (Unmap x) /\ Is4In6 (Unmap x) = false) as Hu.
  { intros x [Hv Hw]. split_and!; [by apply Unmap_valid|by apply Unmap_wf|apply Unmap_Is4In6]. }
  destruct (fr_SourcePrefixes r) as [|b l].
  - destruct (ParseAddr (fr_PeerIP r)) eqn:E; [|done]. intros [= <-]. by eapply Hu, ParseAddr_wf.
  - apply Forall_cons in Hb as [Hb _].
    destruct (DecodeAddr b) eqn:E; [|done..]. intros [= <-]. eapply Hu, DecodeAddr_wf; eauto.
Qed.

Lemma convertRule_ok r p : rule_wf r -> convertRule r = Ok p ->
  params_ok p /\ pp_direction p = fr_Direction r.
Proof.
  intros [Hb Hd]. unfold convertRule.
  destruct (extractRuleIP r) as [ip| |] eqn:Ei; cbn [mbind res_bind]; [|done..].
  apply extractRuleIP_ok in Ei as (Hv & Hw & Hm); [|done].
  destruct (convertToFirewallProtocol _) as [proto| |] eqn:Ep; cbn [mbind res_bind]; [|done..].
  destruct (convertFirewallAction _) as [act| |]; cbn [mbind res_bind]; [|done..].
  match goal with |- context [mbind _ ?x] => destruct x as [port| |] eqn:Eo end;
    cbn [mbind res_bind]; [|done..].
  intros [= <-]. split; [|done]. constructor; cbn; try done.
  - unfold convertToFirewallProtocol in Ep. repeat case_decide; congruence.
  - revert Eo. case_match; [intros [= <-]; apply convertPortInfo_form|].
    case_decide; [|by intros [= <-]]. case_match; [|done]. intros [= <-].
    left. eexists. split; [done|]. apply u16_nonneg.
Qed.

Lemma AddrFromSlice_valid a : IsValid a = true -> IsValid (AddrFromSlice (AsSlice a)) = true.
Proof.
  intros Ha. unfold AddrFromSlice. destruct a; [done|..]; cbn [AsSlice];
    rewrite be_bytes_length; by repeat case_decide.
Qed.

Lemma rule_args_ok p pol ips : params_ok p -> args_ok (rule_args p pol ips).
Proof.
  intros [Hv _ _ _ _ Hp]. apply port_form_wf in Hp. unfold args_ok, rule_args.
  case_decide; cbn; split_and!; try done; by apply AddrFromSlice_valid.
Qed.

(** A firewall state with the same rules in force. *)
Lemma pairs_ok_frame base stale pairs f f' : pairs_ok base stale pairs f -> fw_inv f' ->
  fwIsStateful f' = fwIsStateful f -> (forall r, peer_installed f' r <-> peer_installed f r) ->
  pairs_ok base stale pairs f'.
Proof.
  intros [Hi Hp Hd Hc Hb] Hi' Hs Hr. constructor; [done| |done| |].
  - intros id rs Hrs. destruct (Hp id rs Hrs) as (? & ? & p & ? & ? & ? & Hall).
    split_and!; [done..|]. exists p. rewrite Hs. split_and!; [done..|].
    intros r Hin. rewrite Hr. by apply Hall.
  - intros r Hin. apply Hc. by apply Hr.
  - intros r Hin. apply Hr. by apply Hb.
Qed.

Lemma add_pair base stale pairs f p pol ips f' res : pairs_ok base stale pairs f -> params_ok p ->
  wanted (fwIsStateful f) p -> pairs !! getPeerRuleID p = None ->
  fwAddPeerFiltering (rule_args p pol ips) f = (f', res) ->
  fwIsStateful f' = fwIsStateful f /\ (forall x, route_installed f' x <-> route_installed f x) /\
  match res with
  | inl _ => pairs_ok base stale pairs f'
  | inr rs => rs <> [] /\ pairs_ok base stale (<[getPeerRuleID p := rs]> pairs) f'
  end.
Proof.
  intros Hok Hp Hw Hnone E.
  pose proof (add_peer_spec f (rule_args p pol ips) (pk_inv _ _ _ _ Hok) (rule_args_ok p pol ips Hp)) as Hs.
  rewrite E in Hs. destruct Hs as (Hi & Hst & Hro & Hres). split_and!; [done..|].
  destruct res as [e|rs]; [by eapply pairs_ok_frame|].
  destruct Hres as (Hin & Hne & Hnd & Hnew). split; [done|].
  pose proof Hok as [_ Hpair Hdis Hcov Hbase].
  assert (forall id' rs' r, pairs !! id' = Some rs' -> r ∈ rs' -> r ∈ rs -> False) as Hfresh.
  { intros id' rs' r Hl Hr Hr'. destruct (Hpair id' rs' Hl) as (_ & _ & q & _ & _ & _ & Hall).
    apply Hall in Hr as [Hr _]. by apply Hnew in Hr' as [Hr' _]. }
  constructor; [done| | | |].
  - intros id rs' Hl. apply lookup_insert_Some in Hl as [[<- <-]|[Hid Hl]].
    + split_and!; [done..|]. exists p. rewrite Hst. split_and!; [done..|]. intros r Hr.
      split_and!; [apply Hin; by right|exists pol, ips; by apply Hnew|].
      intros Hb. apply Hbase in Hb. by apply Hnew in Hr as [Hr _].
    + destruct (Hpair id rs' Hl) as (? & ? & q & ? & ? & ? & Hall).
      split_and!; [done..|]. exists q. rewrite Hst. split_and!; [done..|]. intros r Hr.
      destruct (Hall r Hr) as (? & ? & ?). split_and!; [apply Hin; by left|done|done].
  - intros id id' rs1 rs2 r H1 H2 Hr1 Hr2.
    apply lookup_insert_Some in H1 as [[<- <-]|[_ H1]], H2 as [[<- <-]|[_ H2]]; [done| | |].
    + by destruct (Hfresh id' rs2 r).
    + by destruct (Hfresh id rs1 r).
    + by eapply Hdis.
  - intros r Hr. apply Hin in Hr as [Hr|Hr].
    + destruct (Hcov r Hr) as [?|[?|(id & rs' & Hl & Hr')]]; [by left|by right; left|]. right. right. exists id, rs'.
      split; [|done]. rewrite lookup_insert_ne; [done|]. intros <-. congruence.
    + right. right. exists (getPeerRuleID p), rs. by rewrite lookup_insert_eq.
  - intros r Hb. apply Hin. left. by apply Hbase.
Qed.

(** The firewall has refused to add a rule. *)
Definition add_fails (e : fw_error) : Prop :=
  exists f a, fw_inv f /\ args_ok a /\ (fwAddPeerFiltering a f).2 = inl e.

(** Why a rule was not added: it does not convert, or the firewall failed. *)
Definition refused (r : FirewallRule) (e : acl_error) : Prop :=
  match convertRule r with
  | Ok _ => exists e', e = ErrFirewall e' /\ add_fails e'
  | Err e' => e = e'
  | Panic => e = ErrDecodeSource
  end.

(** One call of [protoRuleToFirewallRule]. *)
Lemma protoRule_spec base stale r ips pairs f f' res :
  rule_wf r -> pairs_ok base stale pairs f -> protoRuleToFirewallRule r ips pairs f = (f', res) ->
  fwIsStateful f' = fwIsStateful f /\ (forall x, route_installed f' x <-> route_installed f x) /\
  match res with
  | inl e => pairs_ok base stale pairs f' /\ refused r e
  | inr (id, rs) =>
      exists p, convertRule r = Ok p /\
        (rs = [] /\ pairs_ok base stale pairs f' /\ ~ wanted (fwIsStateful f) p \/
         rs <> [] /\ id = getPeerRuleID p /\ pairs_ok base stale (<[id := rs]> pairs) f')
  end.
Proof.
  intros Hwf Hok. unfold protoRuleToFirewallRule.
  unfold refused. destruct (convertRule r) as [p| |] eqn:Ec; [|by intros [= <- <-]..].
  destruct (convertRule_ok r p Hwf Ec) as [Hp Hdir]. cbv zeta.
  destruct (pairs !! getPeerRuleID p) as [rs|] eqn:El.
  { intros [= <- <-]. split_and!; [done..|]. exists p. split; [done|]. right.
    split_and!; [by destruct (pk_pair _ _ _ _ Hok _ _ El)|done|]. by rewrite insert_id. }
  assert (forall a f' res, a = rule_args p (fr_PolicyID r) ips -> wanted (fwIsStateful f) p ->
    with_id (getPeerRuleID p)
      (let '(f1, res1) := fwAddPeerFiltering a f in
       (f1, match res1 with inl e => inl (ErrFirewall e) | inr rules => inr rules end)) = (f', res) ->
    fwIsStateful f' = fwIsStateful f /\ (forall x, route_installed f' x <-> route_installed f x) /\
    match res with
    | inl e => pairs_ok base stale pairs f' /\ exists e', e = ErrFirewall e' /\ add_fails e'
    | inr (id, rs) =>
        exists p0, Ok (E := acl_error) p = Ok p0 /\
          (rs = [] /\ pairs_ok base stale pairs f' /\ ~ wanted (fwIsStateful f) p0 \/
           rs <> [] /\ id = getPeerRuleID p0 /\ pairs_ok base stale (<[id := rs]> pairs) f')
    end) as Hadd.
  { clear f' res. intros a f' res -> Hw.
    destruct (fwAddPeerFiltering _ f) as [f1 res1] eqn:Ef. cbn [with_id fst snd].
    destruct (add_pair base stale pairs f p _ _ f1 res1 Hok Hp Hw El Ef) as (H1 & H2 & H3).
    destruct res1 as [e|rs]; cbn [with_id fst snd]; intros [= <- <-]; split_and!; try done.
    { exists e. split; [done|]. exists f, (rule_args p (fr_PolicyID r) ips).
      split_and!; [apply Hok|by apply rule_args_ok|by rewrite Ef]. }
    destruct H3 as [H3 H4]. exists p. split; [done|]. by right. }
  unfold rule_args in Hadd. rewrite <- Hdir. case_decide as Hin.
  { intros E. eapply Hadd; [done|by left|exact E]. }
  destruct (po_direction p Hp) as [Hd|Hd]; [done|]. rewrite decide_True by done.
  assert (~ wanted true p) as Hnw by (intros [?|(_ & ? & _)]; done).
  destruct (fwIsStateful f) eqn:Es.
  { intros [= <- <-]. rewrite Es. split_and!; [done..|]. exists p. split; [done|]. by left. }
  unfold addOutRules. destruct (shouldSkipInvertedRule (pp_proto p) (pp_port p)) eqn:Esk.
  { cbn [with_id fst snd]. intros [= <- <-]. rewrite Es. split_and!; [done..|]. exists p. split; [done|]. left.
    split_and!; [done..|]. intros [?|(_ & _ & ?)]; congruence. }
  intros E. eapply Hadd; [done|by right|exact E].
Qed.

(** What holds after the rules [done_] of the list were processed, from the
    firewall state [f0]. *)
Record loop_ok (base : R -> Prop) (stale : list R) (f0 : F) (done_ : list FirewallRule) (st : peer_loop) : Prop := {
  lo_pairs : pairs_ok base stale (pl_pairs st) (pl_fw st);
  lo_stateful : fwIsStateful (pl_fw st) = fwIsStateful f0;
  lo_routes : forall x, route_installed (pl_fw st) x <-> route_installed f0 x;
  lo_new : pl_new st ⊆ pl_pairs st;
  lo_from : forall id, is_Some (pl_new st !! id) ->
    exists rule p, rule ∈ done_ /\ convertRule rule = Ok p /\ id = getPeerRuleID p;
  lo_complete : forall rule, rule ∈ done_ ->
    (exists p, convertRule rule = Ok p /\
      (wanted (fwIsStateful f0) p -> is_Some (pl_new st !! getPeerRuleID p))) \/
    exists e, e ∈ pl_errors st /\ refused rule e }.

Lemma apply_peer_rule_ok base stale f0 done_ st r : rule_wf r -> loop_ok base stale f0 done_ st ->
  loop_ok base stale f0 (done_ ++ [r]) (apply_peer_rule st r).
Proof.
  intros Hwf [Hp Hs Hro Hn Hfr Hco]. unfold apply_peer_rule.
  destruct (match pl_ipsets st !! getRuleGroupingSelector r with
            | Some name => (pl_counter st, pl_ipsets st, name) | None => _ end)
    as [[counter ipsets] name].
  destruct (protoRuleToFirewallRule r name (pl_pairs st) (pl_fw st)) as [f' res] eqn:E.
  destruct (protoRule_spec base stale r name (pl_pairs st) (pl_fw st) f' res Hwf Hp E) as (Hs' & Hro' & Hres).
  assert (fwIsStateful f' = fwIsStateful f0) as Hst by congruence.
  assert (forall x, route_installed f' x <-> route_installed f0 x) as Hrr.
  { intros x. by rewrite Hro'. }
  destruct res as [e|[id rs]].
  { destruct Hres as [Hres Hrf]. constructor; cbn; try done.
    - intros id Hid. destruct (Hfr id Hid) as (rule & p & ? & ? & ?). exists rule, p.
      split_and!; [set_solver|done..].
    - intros rule [Hr| ->%list_elem_of_singleton]%elem_of_app.
      + destruct (Hco rule Hr) as [?|(e' & ? & ?)]; [by left|]. right. exists e'. split; [set_solver|done].
      + right. exists e. split; [set_solver|done]. }
  destruct Hres as (p & Hc & [(-> & Hp' & Hnw)|(Hne & -> & Hp')]).
  - rewrite decide_False by (simpl; lia). constructor; cbn; try done.
    + intros id' Hid. destruct (Hfr id' Hid) as (rule & q & ? & ? & ?). exists rule, q.
      split_and!; [set_solver|done..].
    + intros rule [Hr| ->%list_elem_of_singleton]%elem_of_app; [by apply Hco|].
      left. exists p. split; [done|]. intros Hw. rewrite Hs in Hnw. done.
  - rewrite decide_True by (destruct rs; [done|simpl; lia]). constructor; cbn; try done.
    + by apply insert_mono.
    + intros id' Hid. rewrite lookup_insert_is_Some in Hid. destruct Hid as [<-|[_ Hid]].
      * exists r, p. split_and!; [set_solver|done..].
      * destruct (Hfr id' Hid) as (rule & q & ? & ? & ?). exists rule, q.
        split_and!; [set_solver|done..].
    + intros rule [Hr| ->%list_elem_of_singleton]%elem_of_app.
      * destruct (Hco rule Hr) as [(q & Hq & Hwq)|?]; [|by right]. left. exists q. split; [done|]. intros Hw.
        rewrite lookup_insert_is_Some'. right. by apply Hwq.
      * left. exists p. split; [done|]. intros _. rewrite lookup_insert_eq. by eexists.
Qed.

Lemma peer_loop_ok base stale f0 rules : forall done_ st, Forall rule_wf rules ->
  loop_ok base stale f0 done_ st -> loop_ok base stale f0 (done_ ++ rules) (foldl apply_peer_rule st rules).
Proof.
  induction rules as [|r rules IH]; intros done_ st Hwf Hok; [by rewrite app_nil_r|].
  apply Forall_cons in Hwf as [Hr Hwf]. cbn [foldl].
  replace (done_ ++ r :: rules) with ((done_ ++ [r]) ++ rules) by by rewrite <- app_assoc.
  apply IH; [done|]. by apply apply_peer_rule_ok.
Qed.

(** ** Deleting what the map no longer asks for *)

(** The firewall has failed to delete a rule that is in force. *)
Definition delete_fails (r : R) (e : fw_error) : Prop :=
  exists f, fw_inv f /\ peer_installed f r /\ (fwDeletePeerRule r f).2 = Some e.

Lemma delete_rules_spec rules : forall f f' failed, fw_inv f -> NoDup rules ->
  (forall r, r ∈ rules -> peer_installed f r) -> delete_rules rules f = (f', failed) ->
  fw_inv f' /\ fwIsStateful f' = fwIsStateful f /\
  (forall x, route_installed f' x <-> route_installed f x) /\
  (forall r, peer_installed f' r -> peer_installed f r) /\
  (forall r, r ∉ rules -> peer_installed f r -> peer_installed f' r) /\
  (forall r, r ∈ rules -> peer_installed f' r -> r ∈ failed.*1) /\
  (forall r e, (r, e) ∈ failed -> delete_fails r e).
Proof.
  induction rules as [|r0 rules IH]; intros f f' failed Hi Hnd Hall; cbn [delete_rules].
  { intros [= <- <-]. split_and!; try done; set_solver. }
  apply NoDup_cons in Hnd as [Hn Hnd].
  pose proof (Hall r0 ltac:(by left)) as Hr0.
  pose proof (del_peer_spec f r0 Hi Hr0) as Hd.
  destruct (fwDeletePeerRule r0 f) as [f1 err] eqn:Ed. destruct Hd as (Hi1 & Hs1 & Hr1 & Hl1 & Hp1 & Hg1).
  destruct (delete_rules rules f1) as [f2 failed2] eqn:E2.
  destruct (IH f1 f2 failed2 Hi1 Hnd) as (Hi2 & Hs2 & Hr2 & Hl2 & Hp2 & Hf2 & Hw2); [|done|].
  { intros r Hr. apply Hp1; [by intros ->|]. apply Hall. by right. }
  intros [= <- <-]. split_and!; [done|congruence|intros x; by rewrite Hr2|auto| | |].
  - intros r [H1 H2]%not_elem_of_cons Hin. apply Hp2; [done|]. by apply Hp1.
  - intros r [->|Hr]%elem_of_cons Hin.
    + apply Hl2 in Hin. destruct err as [e|]; [by left|]. by destruct (Hg1 eq_refl).
    + destruct err; [right|]; by apply Hf2.
  - intros r e Hre. destruct err as [e0|]; [|by apply Hw2].
    apply elem_of_cons in Hre as [[= -> ->]|?]; [|by apply Hw2]. exists f. by rewrite Ed.
Qed.

Lemma delete_rules_app l1 l2 f : delete_rules (l1 ++ l2) f =
  let '(f1, failed1) := delete_rules l1 f in
  let '(f2, failed2) := delete_rules l2 f1 in (f2, failed1 ++ failed2).
Proof.
  revert f. induction l1 as [|r l1 IH]; intros f; cbn [delete_rules app].
  { by destruct (delete_rules l2 f). }
  destruct (fwDeletePeerRule r f) as [f1 err]. rewrite IH.
  destruct (delete_rules l1 f1) as [f2 failed1]. destruct (delete_rules l2 f2). by destruct err.
Qed.

Definition stale_rules (new : gmap string (list R)) (pairs : list (string * list R)) : list R :=
  pairs ≫= fun x => if decide (is_Some (new !! x.1)) then [] else x.2.

Lemma delete_stale_rules new pairs : forall f,
  delete_stale new pairs f = delete_rules (stale_rules new pairs) f.
Proof.
  induction pairs as [|[id rs] pairs IH]; intros f; [done|]. cbn [delete_stale].
  unfold stale_rules. rewrite bind_cons, delete_rules_app. cbn [fst snd]. case_decide; cbn [delete_rules].
  - rewrite IH. by destruct (delete_rules _ f).
  - destruct (delete_rules rs f) as [f1 failed1]. by rewrite IH.
Qed.

Lemma elem_stale new pairs r : r ∈ stale_rules new pairs <->
  exists id rs, (id, rs) ∈ pairs /\ new !! id = None /\ r ∈ rs.
Proof.
  unfold stale_rules. rewrite list_elem_of_bind. split.
  - intros ([id rs] & Hr & Hin). cbn in Hr. case_decide as E; [set_solver|].
    exists id, rs. split_and!; [done|by apply eq_None_not_Some|done].
  - intros (id & rs & Hin & Hn & Hr). exists (id, rs). split; [|done]. cbn.
    rewrite decide_False; [done|]. by rewrite Hn; intros [].
Qed.

Lemma stale_NoDup base stale new pairs f l : pairs_ok base stale pairs f -> l ≡ₚ map_to_list pairs ->
  NoDup (stale_rules new l).
Proof.
  intros Hok Hl. apply NoDup_bind.
  - intros [id rs] [id' rs'] r H1 H2 Hr1 Hr2. rewrite Hl in H1, H2.
    apply elem_of_map_to_list in H1, H2. cbn in Hr1, Hr2.
    destruct (decide (is_Some (new !! id))); [by apply not_elem_of_nil in Hr1|].
    destruct (decide (is_Some (new !! id'))); [by apply not_elem_of_nil in Hr2|].
    assert (id = id') as -> by (eapply (pk_disjoint _ _ _ _ Hok); eauto). congruence.
  - intros [id rs] Hin. rewrite Hl in Hin. apply elem_of_map_to_list in Hin. cbn. case_decide; [constructor|].
    by destruct (pk_pair _ _ _ _ Hok id rs Hin) as (_ & ? & _).
  - rewrite Hl. apply NoDup_map_to_list.
Qed.

(** Deleting the stale pairs leaves the pairs of the new map and what could
    not be deleted. *)
Lemma delete_stale_ok base stale new pairs f f' failed : pairs_ok base stale pairs f -> new ⊆ pairs ->
  delete_stale new (ord (map_to_list pairs)) f = (f', failed) ->
  pairs_ok base (stale ++ failed.*1) new f' /\ fwIsStateful f' = fwIsStateful f /\
  (forall x, route_installed f' x <-> route_installed f x) /\
  (forall r e, (r, e) ∈ failed -> delete_fails r e).
Proof.
  intros Hok Hsub. rewrite delete_stale_rules.
  set (l := ord (map_to_list pairs)). assert (l ≡ₚ map_to_list pairs) as Hl by apply ord_perm.
  assert (forall r, r ∈ stale_rules new l <->
    exists id rs, pairs !! id = Some rs /\ new !! id = None /\ r ∈ rs) as Hst.
  { intros r. rewrite elem_stale. by setoid_rewrite Hl; setoid_rewrite elem_of_map_to_list. }
  pose proof Hok as [Hi Hpair Hdis Hcov Hbase]. intros E.
  destruct (delete_rules_spec (stale_rules new l) f f' failed Hi) as (Hi' & Hs' & Hr' & Hl' & Hp' & Hf' & Hw'); [| |done|].
  { by eapply stale_NoDup. }
  { intros r (id & rs & Hin & _ & Hr)%Hst.
    destruct (Hpair id rs Hin) as (_ & _ & p & _ & _ & _ & Hall). by apply Hall. }
  split_and!; [|done..]. constructor; [done| | | |].
  - intros id rs Hn'. assert (pairs !! id = Some rs) as Hin by by eapply lookup_weaken.
    destruct (Hpair id rs Hin) as (? & ? & p & ? & ? & ? & Hall).
    split_and!; [done..|]. exists p. rewrite Hs'. split_and!; [done..|]. intros r Hr.
    destruct (Hall r Hr) as (? & ? & ?). split_and!; [|done..]. apply Hp'; [|done].
    intros (id' & rs' & Hin' & Hn & Hr1)%Hst.
    assert (id = id') as -> by by eapply Hdis. congruence.
  - intros id id' rs rs' r H1 H2. eapply Hdis; by eapply lookup_weaken.
  - intros r Hr. rewrite elem_of_app.
    destruct (Hcov r (Hl' r Hr)) as [?|[?|(id & rs & Hin & Hrs)]]; [by left|by right; left; left|].
    right. destruct (new !! id) as [rs'|] eqn:En.
    + right. exists id, rs. split; [|done]. rewrite En. f_equal.
      assert (pairs !! id = Some rs') by by eapply lookup_weaken. congruence.
    + left. right. apply Hf'; [|done]. apply Hst. by exists id, rs.
  - intros r Hb. apply Hp'; [|by apply Hbase]. intros (id & rs & Hin & _ & Hr)%Hst.
    destruct (Hpair id rs Hin) as (_ & _ & p & _ & _ & _ & Hall).
    destruct (Hall r Hr) as (_ & _ & Hnb). by apply Hnb.
Qed.

Definition map_wf (nm : NetworkMap) : Prop := Forall rule_wf (nm_FirewallRules nm).

Lemma effective_rules_wf nm : map_wf nm -> Forall rule_wf (effective_rules nm).
Proof.
  intros Hwf. unfold effective_rules. case_decide; [|done]. apply Forall_app. split; [done|].
  repeat (apply Forall_cons; split); [..|constructor]; (split; [constructor|]); [by left|by right].
Qed.

Lemma applyPeerACLs_ok base stale nm counter pairs f counter' pairs' f' errs failed :
  map_wf nm -> pairs_ok base stale pairs f ->
  applyPeerACLs nm counter pairs f = (counter', pairs', f', errs, failed) ->
  pairs_ok base (stale ++ failed.*1) pairs' f' /\ fwIsStateful f' = fwIsStateful f /\
  (forall x, route_installed f' x <-> route_installed f x) /\
  (forall id, is_Some (pairs' !! id) -> exists rule p, rule ∈ effective_rules nm /\
     convertRule rule = Ok p /\ id = getPeerRuleID p) /\
  (forall rule, rule ∈ effective_rules nm ->
     (exists p, convertRule rule = Ok p /\
       (wanted (fwIsStateful f) p -> is_Some (pairs' !! getPeerRuleID p))) \/
     exists e, e ∈ errs /\ refused rule e) /\
  (forall r e, (r, e) ∈ failed -> delete_fails r e).
Proof.
  intros Hwf Hok. unfold applyPeerACLs.
  assert (loop_ok base stale f [] (mkLoop f counter pairs ∅ ∅ [])) as H0.
  { constructor; cbn; try done.
    - apply map_empty_subseteq.
    - intros id [? ?]. by rewrite lookup_empty in *.
    - intros rule Hr. by apply not_elem_of_nil in Hr. }
  destruct (peer_loop_ok base stale f (effective_rules nm) [] _ (effective_rules_wf nm Hwf) H0)
    as [Hp Hs Hr Hn Hfr Hco].
  set (st := foldl apply_peer_rule _ _) in *. clearbody st.
  destruct (delete_stale _ _ _) as [f1 failed1] eqn:Ed.
  destruct (delete_stale_ok base stale _ _ _ _ _ Hp Hn Ed) as (Hp' & Hs' & Hr' & Hw').
  intros [= <- <- <- <- <-]. split_and!; [done|congruence| |done|done|done].
  intros x. by rewrite Hr', Hr.
Qed.

(** ** Route rules *)
Lemma convertRouteRule_ok rule dyn args : convertRouteRule rule dyn = Ok args ->
  port_wf (ra_dPort args) /\ ra_sPort args = None.
Proof.
  unfold convertRouteRule. case_decide; [done|].
  destruct (mapM ParsePrefix _); cbn [mbind res_bind]; [|done].
  destruct (determineDestination _ _ _); cbn [mbind res_bind]; [|done..].
  destruct (convertToFirewallProtocol _); cbn [mbind res_bind]; [|done..].
  destruct (convertFirewallAction _); cbn [mbind res_bind]; [|done..].
  intros [= <-]. split; [|done]. apply port_form_wf, convertPortInfo_form.
Qed.

Definition route_from (rules : list RouteFirewallRule) (dyn : bool) (id : string) : Prop :=
  exists rule args, rule ∈ rules /\ convertRouteRule rule dyn = Ok args /\ route_implements id args.

(** The state after some calls of the route operations: the peer rules are
    untouched. *)
Definition same_peers (f f' : F) : Prop :=
  fw_inv f' /\ fwIsStateful f' = fwIsStateful f /\
  forall r, peer_installed f' r <-> peer_installed f r.

Lemma same_peers_trans f1 f2 f3 : same_peers f1 f2 -> same_peers f2 f3 -> same_peers f1 f3.
Proof.
  intros (_ & Hs & Hp) (Hi & Hs' & Hp'). split_and!; [done|congruence|].
  intros r. by rewrite Hp'.
Qed.

Lemma applyRouteACL_spec rule dyn f f' res : fw_inv f -> applyRouteACL rule dyn f = (f', res) ->
  same_peers f f' /\
  match res with
  | inl e => (forall x, route_installed f' x <-> route_installed f x) /\
             (e = ErrSourceRangesEmpty <-> length (rfr_SourceRanges rule) = 0)
  | inr id => (forall x, route_installed f' x <-> route_installed f x \/ x = id) /\
              exists args, convertRouteRule rule dyn = Ok args /\ route_implements id args
  end.
Proof.
  intros Hi. unfold applyRouteACL.
  assert (forall e, convertRouteRule rule dyn = Err e ->
    (e = ErrSourceRangesEmpty <-> length (rfr_SourceRanges rule) = 0)) as He.
  { intros e. unfold convertRouteRule. case_decide as Hl; [by intros [= <-]|].
    intros E. split; [|done]. intros ->. revert E.
    destruct (mapM ParsePrefix _); cbn [mbind res_bind]; [|done].
    destruct (determineDestination _ _ _) eqn:Ed; cbn [mbind res_bind]; [|intros [= ->]|done].
    2:{ unfold determineDestination in Ed. repeat case_match; congruence. }
    destruct (convertToFirewallProtocol _) eqn:Ep; cbn [mbind res_bind]; [|intros [= ->]|done].
    2:{ unfold convertToFirewallProtocol in Ep. repeat case_decide; congruence. }
    destruct (convertFirewallAction _) eqn:Ea; cbn [mbind res_bind]; [done|intros [= ->]|done].
    unfold convertFirewallAction in Ea. repeat case_decide; congruence. }
  destruct (convertRouteRule rule dyn) as [args|e|] eqn:Ec.
  - destruct (convertRouteRule_ok _ _ _ Ec) as [Hp Hs].
    pose proof (add_route_spec f args Hi Hp Hs) as Ha.
    destruct (fwAddRouteFiltering args f) as [f1 res1]. destruct Ha as (Hi1 & Hs1 & Hp1 & Hr1).
    destruct res1 as [e|id]; intros [= <- <-]; (split; [done|]).
    + split; [done|]. split; [done|]. intros Hl. unfold convertRouteRule in Ec.
      by rewrite decide_True in Ec.
    + destruct Hr1 as [Hr1 Hri]. split; [done|]. by exists args.
  - intros [= <- <-]. split; [done|]. split; [done|]. by apply He.
  - intros [= <- <-]. split; [done|]. split; [done|]. split; [done|]. intros Hl.
    unfold convertRouteRule in Ec. by rewrite decide_True in Ec.
Qed.

Lemma add_routes_spec rules dyn : forall new f f' new' errs, fw_inv f ->
  (forall x, x ∈ new -> route_installed f x) -> add_routes rules dyn new f = (f', new', errs) ->
  same_peers f f' /\ new ⊆ new' /\
  (forall x, route_installed f' x <-> route_installed f x \/ x ∈ new') /\
  (forall x, x ∈ new' -> x ∈ new \/ route_from rules dyn x) /\
  (errs = [] -> forall rule, rule ∈ rules -> length (rfr_SourceRanges rule) <> 0 ->
     exists args id, convertRouteRule rule dyn = Ok args /\ id ∈ new' /\ route_implements id args).
Proof.
  induction rules as [|rule rules IH]; intros new f f' new' errs Hi Hnew; cbn [add_routes].
  { intros [= <- <- <-]. split_and!; [done|done| |by left|].
    - intros x. split; [by left|]. intros [?|?]; [done|by apply Hnew].
    - intros _ rule Hr. by apply not_elem_of_nil in Hr. }
  destruct (applyRouteACL rule dyn f) as [f1 res] eqn:Ea.
  destruct (applyRouteACL_spec rule dyn f f1 res Hi Ea) as [Hsp Hres].
  assert (forall x, route_from rules dyn x -> route_from (rule :: rules) dyn x) as Hmono.
  { intros x (r & a & ? & ? & ?). exists r, a. split_and!; [by apply list_elem_of_further|done..]. }
  destruct res as [e|id].
  - destruct Hres as [Hr He].
    destruct (add_routes rules dyn new f1) as [[f2 new2] errs2] eqn:E2.
    destruct (IH new f1 f2 new2 errs2) as (Hsp2 & Hsub & Hr2 & Hf2 & Hc2); [apply Hsp|..|done|].
    { intros x Hx. apply Hr. by apply Hnew. }
    intros [= <- <- <-]. split_and!; [by eapply same_peers_trans|done| | |].
    + intros x. by rewrite Hr2, Hr.
    + intros x Hx. destruct (Hf2 x Hx); [by left|right; by apply Hmono].
    + intros Herr r [-> |Hin]%elem_of_cons Hl.
      * destruct e; try done. by destruct Hl; apply He.
      * apply Hc2; [by destruct e|done..].
  - destruct Hres as [Hr (args & Hc & Him)]. intros E2.
    destruct (IH ({[id]} ∪ new) f1 f' new' errs) as (Hsp2 & Hsub & Hr2 & Hf2 & Hc2); [apply Hsp|..|done|].
    { intros x Hx. apply Hr. apply elem_of_union in Hx as [->%elem_of_singleton|Hx]; [by right|].
      left. by apply Hnew. }
    assert (id ∈ new') as Hid by set_solver.
    split_and!; [by eapply same_peers_trans|set_solver| | |].
    + intros x. rewrite Hr2, Hr. split; [intros [[?| ->]|?]; auto|intros [?|?]; auto].
    + intros x Hx. destruct (Hf2 x Hx) as [[->%elem_of_singleton|?]%elem_of_union|?]; [|by left|].
      * right. exists rule, args. split_and!; [by left|done..].
      * right. by apply Hmono.
    + intros Herr r [-> |Hin]%elem_of_cons Hl; [by exists args, id|by apply Hc2].
Qed.

Definition delete_route_fails (x : string) (e : fw_error) : Prop :=
  exists f, fw_inv f /\ route_installed f x /\ (fwDeleteRouteRule x f).2 = Some e.

Lemma delete_routes_spec new ids : forall f f' failed, fw_inv f -> NoDup ids ->
  (forall x, x ∈ ids -> route_installed f x) -> delete_routes new ids f = (f', failed) ->
  same_peers f f' /\
  (forall x, x ∈ new \/ x ∉ ids -> route_installed f' x <-> route_installed f x) /\
  (forall x, x ∈ ids -> x ∉ new -> route_installed f' x -> x ∈ failed.*1) /\
  (forall x e, (x, e) ∈ failed -> delete_route_fails x e).
Proof.
  induction ids as [|id ids IH]; intros f f' failed Hi Hnd Hin; cbn [delete_routes].
  { intros [= <- <-]. split_and!; try done; set_solver. }
  apply NoDup_cons in Hnd as [Hn Hnd]. case_decide as Hid.
  - intros E. destruct (IH f f' failed) as (Hs & Hr & Hf & Hw); [done|done|by intros x Hx; apply Hin; right|done|].
    split_and!; [done| | |done].
    + intros x Hx. apply Hr. destruct Hx as [?|[_ ?]%not_elem_of_cons]; auto.
    + intros x [->|Hx]%elem_of_cons Hnx; [done|by apply Hf].
  - pose proof (Hin id ltac:(by left)) as Hid0.
    pose proof (del_route_spec f id Hi Hid0) as Hd.
    destruct (fwDeleteRouteRule id f) as [f1 err] eqn:Ed. destruct Hd as (Hi1 & Hs1 & Hp1 & Hr1 & Hg1).
    destruct (delete_routes new ids f1) as [f2 failed2] eqn:E2.
    destruct (IH f1 f2 failed2) as (Hs & Hr & Hf & Hw); [done|done| |done|].
    { intros x Hx. apply Hr1; [by intros ->|]. apply Hin. by right. }
    intros [= <- <-]. split_and!; [by eapply same_peers_trans; [|exact Hs]| | |].
    + intros x Hx. assert (x <> id) as Hne by (intros ->; destruct Hx as [?|Hx]; [done|by apply Hx; left]).
      rewrite Hr, Hr1; [done..|]. destruct Hx as [?|[_ ?]%not_elem_of_cons]; auto.
    + intros x [->|Hx]%elem_of_cons Hnx Hinst.
      * rewrite Hr in Hinst by by right. destruct err as [e|]; [by left|]. by destruct (Hg1 eq_refl).
      * destruct err; [right|]; by apply Hf.
    + intros x e Hxe. destruct err as [e0|]; [|by apply Hw].
      apply elem_of_cons in Hxe as [[= -> ->]|?]; [|by apply Hw]. exists f. by rewrite Ed.
Qed.

(** The route rules that the maps applied so far asked for. *)
Definition claimed (hist : list (NetworkMap * bool)) (x : string) : Prop :=
  exists nm flag, (nm, flag) ∈ hist /\ route_from (nm_RoutesFirewallRules nm) flag x.

(** The managed route rules: [rbase] are the rules of others; one of them is
    deleted only with a route rule of a map that has its identifier. *)
Record routes_ok (rbase : string -> Prop) (hist : list (NetworkMap * bool)) (rstale : list string)
    (ids : gset string) (f : F) : Prop := {
  rk_ids : forall x, x ∈ ids -> route_installed f x /\ claimed hist x;
  rk_covers : forall x, route_installed f x -> rbase x \/ x ∈ rstale \/ x ∈ ids;
  rk_base : forall x, rbase x -> claimed hist x \/ route_installed f x }.

Lemma routes_ok_frame rbase hist rstale ids f f' : routes_ok rbase hist rstale ids f ->
  (forall x, route_installed f' x <-> route_installed f x) -> routes_ok rbase hist rstale ids f'.
Proof. intros [H1 H2 H3] Hr. constructor; intros x; rewrite ?Hr; auto. Qed.

Lemma claimed_cons m hist x : claimed hist x -> claimed (m :: hist) x.
Proof. intros (nm & flag & ? & ?). exists nm, flag. split; [by right|done]. Qed.

Lemma applyRouteACLs_ok rbase hist rstale nm dyn old f new f' errs failed :
  fw_inv f -> routes_ok rbase hist rstale old f ->
  applyRouteACLs (nm_RoutesFirewallRules nm) dyn old f = (new, f', errs, failed) ->
  same_peers f f' /\ routes_ok rbase ((nm, dyn) :: hist) (rstale ++ failed.*1) new f' /\
  (forall x, x ∈ new -> route_from (nm_RoutesFirewallRules nm) dyn x) /\
  (errs = [] -> forall rule, rule ∈ nm_RoutesFirewallRules nm -> length (rfr_SourceRanges rule) <> 0 ->
     exists args id, convertRouteRule rule dyn = Ok args /\ id ∈ new /\ route_implements id args).
Proof.
  intros Hi [Ho1 Ho2 Ho3]. unfold applyRouteACLs.
  destruct (add_routes _ dyn ∅ f) as [[f1 new1] errs1] eqn:E1.
  destruct (add_routes_spec (nm_RoutesFirewallRules nm) dyn ∅ f f1 new1 errs1 Hi) as (Hs1 & _ & Hr1 & Hf1 & Hc1);
    [set_solver|done|].
  destruct (delete_routes new1 (rord (elements old)) f1) as [f2 failed2] eqn:E2.
  assert (forall x, x ∈ rord (elements old) <-> x ∈ old) as Hold.
  { intros x. by rewrite rord_perm, elem_of_elements. }
  destruct (delete_routes_spec new1 (rord (elements old)) f1 f2 failed2) as (Hs2 & Hr2 & Hd2 & _);
    [apply Hs1|rewrite rord_perm; apply NoDup_elements| |done|].
  { intros x Hx%Hold. apply Hr1. left. by apply Ho1. }
  setoid_rewrite Hold in Hr2. setoid_rewrite Hold in Hd2.
  assert (forall x, x ∈ new1 -> route_from (nm_RoutesFirewallRules nm) dyn x) as Hfrom.
  { intros x Hx. destruct (Hf1 x Hx); [set_solver|done]. }
  intros [= <- <- <- <-]. split_and!; [by eapply same_peers_trans| |done|done].
  constructor.
  - intros x Hx. split; [apply Hr2; [by left|]; apply Hr1; by right|]. exists nm, dyn. split; [by left|auto].
  - intros x Hx. rewrite elem_of_app. destruct (decide (x ∈ new1)); [by right; right|].
    destruct (decide (x ∈ old)); [by right; left; right; apply Hd2|].
    rewrite Hr2, Hr1 in Hx by by right. destruct Hx as [Hx|?]; [|done].
    destruct (Ho2 x Hx) as [?|[?|?]]; [by left|by right; left; left|done].
  - intros x Hb. destruct (decide (x ∈ old)) as [Hx|Hx].
    { left. apply claimed_cons. by apply Ho1. }
    destruct (Ho3 x Hb) as [?|Hin]; [left; by apply claimed_cons|]. right.
    rewrite Hr2 by by right. apply Hr1. by left.
Qed.

(** ** The manager's states *)

(** The states that a history of maps, the last first, can reach, with the
    rules whose deletion failed on the way. *)
Inductive acl_reach (base : R -> Prop) (rbase : string -> Prop) :
    list (NetworkMap * bool) -> list R -> list string -> DefaultManager -> Prop :=
| acl_new f : fw_inv f -> (forall r, peer_installed f r <-> base r) ->
    (forall x, route_installed f x <-> rbase x) ->
    acl_reach base rbase [] [] [] (NewDefaultManager (Some f))
| acl_apply hist stale rstale nm flag d d' log : acl_reach base rbase hist stale rstale d -> map_wf nm ->
    ApplyFiltering nm flag d = (d', log) ->
    acl_reach base rbase ((nm, flag) :: hist) (stale ++ (al_failed log).*1)
      (rstale ++ (al_route_failed log).*1) d'.

Definition manager_ok (base : R -> Prop) (rbase : string -> Prop) (hist : list (NetworkMap * bool))
    (stale : list R) (rstale : list string) (d : DefaultManager) : Prop :=
  exists f, dm_firewall d = Some f /\ pairs_ok base stale (dm_peerRulesPairs d) f /\
    routes_ok rbase hist rstale (dm_routeRules d) f.

(** What holds of the firewall after the map [nm] was applied: the rules in
    force are those of others, those of the map and those that could not be
    deleted; the rules of others stay; every rule of the map is in force
    unless the log says why not; and the same of route rules. *)
Record enforces (base : R -> Prop) (rbase : string -> Prop) (hist : list (NetworkMap * bool))
    (stale : list R) (rstale : list string) (nm : NetworkMap) (flag : bool) (log : acl_log) (f : F) : Prop := {
  en_from : forall r, peer_installed f r -> base r \/ r ∈ stale \/
    exists rule p, rule ∈ effective_rules nm /\ convertRule rule = Ok p /\
      wanted (fwIsStateful f) p /\ realizes r p;
  en_base : forall r, base r -> peer_installed f r;
  en_complete : forall rule, rule ∈ effective_rules nm ->
    (exists p, convertRule rule = Ok p /\
      (wanted (fwIsStateful f) p -> exists r, peer_installed f r /\ realizes r p)) \/
    exists e, e ∈ al_errors log /\ refused rule e;
  en_route_from : forall x, route_installed f x ->
    rbase x \/ x ∈ rstale \/ route_from (nm_RoutesFirewallRules nm) flag x;
  en_route_base : forall x, rbase x -> claimed hist x \/ route_installed f x;
  en_route_complete : al_route_errors log = [] -> forall rule, rule ∈ nm_RoutesFirewallRules nm ->
    length (rfr_SourceRanges rule) <> 0 ->
    exists args id, convertRouteRule rule flag = Ok args /\ route_installed f id /\
      route_implements id args }.

(** The pair under the identifier of a rule realizes that rule. *)
Lemma pair_realizes base stale nm pairs f rule p rs : map_wf nm -> pairs_ok base stale pairs f ->
  rule ∈ effective_rules nm -> convertRule rule = Ok p -> pairs !! getPeerRuleID p = Some rs ->
  wanted (fwIsStateful f) p /\ rs <> [] /\
  forall r, r ∈ rs -> peer_installed f r /\ realizes r p /\ ~ base r.
Proof.
  intros Hwf Hok Hin Hc Hl.
  destruct (pk_pair _ _ _ _ Hok _ _ Hl) as (Hne & _ & q & Hq & Hw & Hid & Hall).
  assert (rule_wf rule) as Hr by (eapply Forall_forall in Hin; [exact Hin|by apply effective_rules_wf]).
  apply getPeerRuleID_inj in Hid as <-; [done|by eapply convertRule_ok|done].
Qed.

Lemma ApplyFiltering_ok base rbase hist stale rstale nm flag d d' log :
  manager_ok base rbase hist stale rstale d -> map_wf nm -> ApplyFiltering nm flag d = (d', log) ->
  let stale' := stale ++ (al_failed log).*1 in let rstale' := rstale ++ (al_route_failed log).*1 in
  manager_ok base rbase ((nm, flag) :: hist) stale' rstale' d' /\
  (exists f', dm_firewall d' = Some f' /\ fw_inv f' /\
     enforces base rbase ((nm, flag) :: hist) stale' rstale' nm flag log f') /\
  (forall r e, (r, e) ∈ al_failed log -> delete_fails r e).
Proof.
  intros (f & Hf & Hp & Hr) Hwf. unfold ApplyFiltering. rewrite Hf.
  destruct (applyPeerACLs _ _ _ f) as [[[[c pairs] f1] e1] failed] eqn:E1.
  destruct (applyPeerACLs_ok base stale nm _ _ _ _ _ _ _ _ Hwf Hp E1) as (Hp1 & Hs1 & Hr1 & Hfrom & Hcomp & Hdf).
  destruct (applyRouteACLs _ _ _ f1) as [[[routes f2] e2] rfailed] eqn:E2.
  destruct (applyRouteACLs_ok rbase hist rstale nm _ _ _ _ _ _ _ (pk_inv _ _ _ _ Hp1)
    (routes_ok_frame _ _ _ _ _ _ Hr Hr1) E2) as ((Hi2 & Hs2 & Hpe2) & Hro2 & Hrf & Hrc).
  pose proof (flush_spec f2 Hi2) as Hfl. destruct (fwFlush f2) as [f3 e3].
  destruct Hfl as (Hi3 & Hs3 & Hpe3 & Hr3).
  assert (pairs_ok base (stale ++ failed.*1) pairs f3) as Hp3.
  { eapply pairs_ok_frame; [exact Hp1|done|congruence|]. intros r. by rewrite Hpe3. }
  pose proof (routes_ok_frame _ _ _ _ _ _ Hro2 Hr3) as Hro3.
  intros [= <- <-]. cbn zeta. cbn [al_failed al_route_failed]. split_and!; [by exists f3| |done].
  exists f3. split_and!; [done..|].
  assert (fwIsStateful f3 = fwIsStateful f) as Hst by congruence.
  constructor; cbn [al_errors al_route_errors].
  - intros r Hin. destruct (pk_covers _ _ _ _ Hp3 r Hin) as [?|[?|(id & rs & Hl & Hrs)]]; [by left|by right; left|].
    right. right. destruct (Hfrom id ltac:(by eexists)) as (rule & p & Hr' & Hc & ->).
    destruct (pair_realizes base _ nm pairs f3 rule p rs Hwf Hp3) as (Hw & _ & Hall); [done..|].
    exists rule, p. split_and!; [done..|]. by apply Hall.
  - apply (pk_base _ _ _ _ Hp3).
  - intros rule Hin. destruct (Hcomp rule Hin) as [(p & Hc & Hw)|?]; [|by right]. left. exists p. split; [done|].
    rewrite Hst. intros [rs Hl]%Hw.
    destruct (pair_realizes base _ nm pairs f3 rule p rs Hwf Hp3) as (_ & Hne & Hall); [done..|].
    destruct rs as [|r rs]; [done|]. exists r. by destruct (Hall r ltac:(by left)) as (? & ? & _).
  - intros x Hx. destruct (rk_covers _ _ _ _ _ Hro3 x Hx) as [?|[?|Hx']]; [by left|by right; left|].
    right. right. by apply Hrf.
  - apply (rk_base _ _ _ _ _ Hro3).
  - intros He rule Hin Hl. destruct (Hrc He rule Hin Hl) as (args & id & ? & Hid & ?).
    exists args, id. split_and!; [done| |done]. by apply (rk_ids _ _ _ _ _ Hro3).
Qed.

Lemma acl_reach_ok base rbase hist stale rstale d :
  acl_reach base rbase hist stale rstale d -> manager_ok base rbase hist stale rstale d.
Proof.
  induction 1 as [f Hi Hp Hr|hist stale rstale nm flag d d' log _ IH Hwf E].
  - exists f. split; [done|]. split; constructor; cbn.
    + done.
    + intros id rs Hl. by rewrite lookup_empty in Hl.
    + intros id id' rs rs' r Hl. by rewrite lookup_empty in Hl.
    + intros r Hin. left. by apply Hp.
    + intros r Hb. by apply Hp.
    + set_solver.
    + intros x Hx. left. by apply Hr.
    + intros x Hb. right. by apply Hr.
  - by destruct (ApplyFiltering_ok base rbase hist stale rstale nm flag d d' log IH Hwf E) as (? & _).
Qed.

(** With a firewall whose deletions do not fail nothing stale is left. *)
Lemma acl_reach_reliable base rbase hist stale rstale d : (forall r e, ~ delete_fails r e) ->
  acl_reach base rbase hist stale rstale d -> stale = [].
Proof.
  intros Hrel. induction 1 as [f Hi Hp Hr|hist stale rstale nm flag d d' log Hd IH Hwf E]; [done|].
  destruct (ApplyFiltering_ok base rbase hist stale rstale nm flag d d' log (acl_reach_ok _ _ _ _ _ _ Hd) Hwf E)
    as (_ & _ & Hf).
  rewrite IH. destruct (al_failed log) as [|[r e] l]; [done|]. destruct (Hrel r e). apply Hf. by left.
Qed.

(** C5: the firewall follows the network map.  After any history of updates,
    applying a network map leaves the following.  A peer rule is in force
    only if it belongs to another component, if a rule of this map asks for
    it, or if the firewall reported an error when it was to be deleted, now
    or earlier; the peer rules of other components stay in force; and every
    rule of this map that the firewall needs is in force, unless the log has
    the error for which it could not be converted or added.  The same holds
    for route rules, except that a route rule of another component goes when
    the maps asked for a rule with its identifier and no longer do; and all
    route rules of the map with sources are in force if no error is logged.
    This is proved against the firewall interface, for every firewall that
    keeps its promises, every iteration order of the maps and every grouping
    of rules. *)
Theorem acl_enforces_map (base : R -> Prop) (rbase : string -> Prop) (hist : list (NetworkMap * bool))
    (stale : list R) (rstale : list string) (d d' : DefaultManager) (nm : NetworkMap) (flag : bool) (log : acl_log) :
  acl_reach base rbase hist stale rstale d -> map_wf nm -> ApplyFiltering nm flag d = (d', log) ->
  exists f, dm_firewall d' = Some f /\
    enforces base rbase ((nm, flag) :: hist) (stale ++ (al_failed log).*1) (rstale ++ (al_route_failed log).*1)
      nm flag log f.
Proof.
  intros Hr%acl_reach_ok Hwf E.
  destruct (ApplyFiltering_ok base rbase hist stale rstale nm flag d d' log Hr Hwf E) as (_ & (f & ? & _ & ?) & _).
  by exists f.
Qed.

End manager.
