(* ===== verification/AclUsp.v ===== *)
(** * The ACL manager over the userspace firewall

    The userspace firewall keeps the promises that the ACL manager relies on:
    it is an instance of [FirewallSpec].  Composing both gives the verdict of
    the firewall on a packet in terms of the network map. *)

From Stdlib Require Import ZArith Lia Ascii.
From stdpp Require Import base gmap strings numbers countable sorting pretty list.
From S2P Require Import Prelude Netip NetipUtil ConntrackTCP Checksum UspPacket UspNat UspRules UspFilter GoStrings AddrText AclManager.

(** ** The rule tables as sets of rules *)
Definition in_table (m : gmap Addr (gmap string PeerRule)) (r : PeerRule) : Prop :=
  exists rs, m !! pr_ip r = Some rs /\ rs !! pr_id r = Some r.

Definition rule_table (t : RuleTables) (drop_ : bool) : gmap Addr (gmap string PeerRule) :=
  if drop_ then incomingDenyRules t else incomingRules t.

Lemma in_table_add m r r' : (forall rs, m !! pr_ip r = Some rs -> rs !! pr_id r = None) ->
  in_table (<[pr_ip r := <[pr_id r := r]> (default ∅ (m !! pr_ip r))]> m) r' <->
  in_table m r' \/ r' = r.
Proof.
  intros Hnew. unfold in_table. destruct (decide (pr_ip r' = pr_ip r)) as [Ei|Ei].
  - rewrite Ei, lookup_insert_eq. split.
    + intros (rs & [= <-] & Hl). destruct (decide (pr_id r' = pr_id r)) as [Ej|Ej].
      * rewrite Ej, lookup_insert_eq in Hl. right. congruence.
      * rewrite lookup_insert_ne in Hl by done. left.
        destruct (m !! pr_ip r) as [rs|]; [by exists rs|]. cbn in Hl. by rewrite lookup_empty in Hl.
    + intros [(rs & Hm & Hl)| ->]; eexists; (split; [done|]).
      * rewrite Hm. cbn. rewrite lookup_insert_ne; [done|]. intros Ej. apply Hnew in Hm. congruence.
      * by rewrite lookup_insert_eq.
  - rewrite lookup_insert_ne by done. split; [by left|]. intros [?| ->]; done.
Qed.

Lemma in_table_delete m r m' r' : in_table m r -> delete_from m r = Ok m' ->
  in_table m' r' <-> in_table m r' /\ ~ (pr_ip r' = pr_ip r /\ pr_id r' = pr_id r).
Proof.
  intros _ (rs & Hm & _ & ->)%delete_from_spec. unfold in_table.
  destruct (decide (pr_ip r' = pr_ip r)) as [Ei|Ei].
  - rewrite Ei. case_decide as Ed.
    + rewrite lookup_delete_eq. split; [by intros (? & ? & _)|].
      intros [(rs' & Hm' & Hl) Hne]. rewrite Hm in Hm'. injection Hm' as <-.
      assert (delete (pr_id r) rs !! pr_id r' = Some r') as Hd.
      { rewrite lookup_delete_ne; [done|]. intros E. by apply Hne. }
      by rewrite Ed, lookup_empty in Hd.
    + rewrite lookup_insert_eq. split.
      * intros (rs' & [= <-] & Hl). apply lookup_delete_Some in Hl as [Hne Hl].
        split; [by exists rs|]. intros [_ E]. congruence.
      * intros [(rs' & Hm' & Hl) Hne]. rewrite Hm in Hm'. injection Hm' as <-.
        eexists. split; [done|]. apply lookup_delete_Some. split; [|done].
        intros E. by apply Hne.
  - assert (forall x, (if decide (delete (pr_id r) rs = ∅) then delete (pr_ip r) m
      else <[pr_ip r := delete (pr_id r) rs]> m) !! pr_ip r' = x <-> m !! pr_ip r' = x) as Hsame.
    { intros x. case_decide; [by rewrite lookup_delete_ne|by rewrite lookup_insert_ne]. }
    split.
    + intros (rs' & Hl & Hr). apply Hsame in Hl. split; [by exists rs'|]. by intros [? _].
    + intros [(rs' & Hl & Hr) _]. exists rs'. split; [by apply Hsame|done].
Qed.

Lemma in_table_can_delete m r : in_table m r -> exists m', delete_from m r = Ok m'.
Proof.
  intros (rs & Hm & Hl). unfold delete_from. rewrite Hm, Hl. by eexists.
Qed.

(** ** The userspace firewall as a [Firewall] *)
Section usp.
Context (ruleKey : list Prefix -> Network -> Protocol -> option Port -> option Port ->
  Action -> string).
Context (native_add : list Prefix -> Network -> Action -> M string)
  (native_delete : string -> M unit).
(** [uuid.New().String()]: the n-th value of the generator; values do not
    repeat. *)
Context (uuid : nat -> string) (uuid_inj : forall i j, uuid i = uuid j -> i = j).

(** The firewall and the number of uuids drawn. *)
Definition UspFw : Type := Manager * nat.

Definition usp_AddPeerFiltering (a : peer_args) (f : UspFw) : UspFw * (fw_error + list PeerRule) :=
  match AddPeerFiltering (uuid f.2) (pa_policy a) (pa_ip a) (pa_proto a) (pa_sPort a) (pa_dPort a)
          (pa_action a) (tables f.1) with
  | Ok (t, r) => ((set_tables t f.1, S f.2), inr [r])
  | _ => (f, inl "invalid IP"%string)
  end.

Definition usp_DeletePeerRule (r : PeerRule) (f : UspFw) : UspFw * option fw_error :=
  match DeletePeerRule r (tables f.1) with
  | Ok t => ((set_tables t f.1, f.2), None)
  | _ => (f, Some "delete rule: no rule with such id"%string)
  end.

Definition usp_AddRouteFiltering (a : route_args) (f : UspFw) : UspFw * (fw_error + string) :=
  match m_addRouteFiltering ruleKey native_add (ra_policy a) (ra_sources a) (ra_destination a)
          (ra_proto a) (ra_sPort a) (ra_dPort a) (ra_action a) f.1 with
  | Ok (m, id) => ((m, f.2), inr id)
  | _ => (f, inl "native firewall"%string)
  end.

Definition usp_DeleteRouteRule (id : string) (f : UspFw) : UspFw * option fw_error :=
  match m_deleteRouteRule native_delete id f.1 with
  | Ok m => ((m, f.2), None)
  | _ => (f, Some "route rule not found"%string)
  end.

#[export] Instance usp_firewall : Firewall UspFw PeerRule := {
  fwAddPeerFiltering := usp_AddPeerFiltering;
  fwDeletePeerRule := usp_DeletePeerRule;
  fwAddRouteFiltering := usp_AddRouteFiltering;
  fwDeleteRouteRule := usp_DeleteRouteRule;
  fwFlush := fun f => (f, None);
  fwIsStateful := fun f => stateful f.1 }.

(** The rule that the firewall builds for its arguments. *)
Definition build_rule (id : string) (a : peer_args) : PeerRule :=
  let i := Unmap (AddrFromSlice (pa_ip a)) in
  let ipLayer := if Is4 i then LayerTypeIPv4 else LayerTypeIPv6 in
  mkPeerRule id (pa_policy a) i ipLayer
    (negb (bool_decide (i = IPv4Unspecified) || bool_decide (i = IPv6Unspecified)))
    (protoToLayer (pa_proto a) ipLayer) (pa_sPort a) (pa_dPort a)
    (bool_decide (pa_action a = ActionDrop)).

Definition usp_peer_installed (f : UspFw) (r : PeerRule) : Prop :=
  in_table (rule_table (tables f.1) (pr_drop r)) r.
Definition usp_route_installed (f : UspFw) (id : string) : Prop :=
  is_Some (routeRulesMap (tables f.1) !! id).

(** The tables are consistent, the rules carry drawn uuids, and route rules
    are not delegated to a native firewall. *)
Record usp_inv (f : UspFw) : Prop := {
  ui_tables : tables_inv (tables f.1);
  ui_uuids : forall r, usp_peer_installed f r -> exists k, k < f.2 /\ pr_id r = uuid k;
  ui_native : nativeRouter f.1 && nativeFirewall f.1 = false }.

Lemma AddPeerFiltering_builds a id t : IsValid (AddrFromSlice (pa_ip a)) = true ->
  let r := build_rule id a in
  AddPeerFiltering id (pa_policy a) (pa_ip a) (pa_proto a) (pa_sPort a) (pa_dPort a) (pa_action a) t =
  Ok (if pr_drop r
      then mkTables (<[pr_ip r := <[id := r]> (default ∅ (incomingDenyRules t !! pr_ip r))]>
             (incomingDenyRules t)) (incomingRules t) (rr_heap t) (rr_next t) (routeRules t)
             (routeRulesMap t)
      else mkTables (incomingDenyRules t)
             (<[pr_ip r := <[id := r]> (default ∅ (incomingRules t !! pr_ip r))]> (incomingRules t))
             (rr_heap t) (rr_next t) (routeRules t) (routeRulesMap t), r).
Proof. intros Hv. unfold AddPeerFiltering. rewrite Hv. reflexivity. Qed.

(** The tables after an addition: one table has the rule, the other is as
    before. *)
Lemma add_tables r t : let t' :=
    if pr_drop r
    then mkTables (<[pr_ip r := <[pr_id r := r]> (default ∅ (incomingDenyRules t !! pr_ip r))]>
           (incomingDenyRules t)) (incomingRules t) (rr_heap t) (rr_next t) (routeRules t)
           (routeRulesMap t)
    else mkTables (incomingDenyRules t)
           (<[pr_ip r := <[pr_id r := r]> (default ∅ (incomingRules t !! pr_ip r))]> (incomingRules t))
           (rr_heap t) (rr_next t) (routeRules t) (routeRulesMap t) in
  (forall rs, rule_table t (pr_drop r) !! pr_ip r = Some rs -> rs !! pr_id r = None) ->
  forall r', in_table (rule_table t' (pr_drop r')) r' <->
             in_table (rule_table t (pr_drop r')) r' \/ r' = r.
Proof.
  intros t' Hnew r'. unfold t'. destruct (pr_drop r) eqn:Ed, (pr_drop r') eqn:Ed';
    cbn [rule_table incomingDenyRules incomingRules] in *.
  - by apply in_table_add.
  - split; [by left|]. intros [?| ->]; [done|congruence].
  - split; [by left|]. intros [?| ->]; [done|congruence].
  - by apply in_table_add.
Qed.

Lemma usp_add_ok f a : usp_inv f -> args_ok a ->
  let '(f', res) := usp_AddPeerFiltering a f in
  usp_inv f' /\ stateful f'.1 = stateful f.1 /\
  (forall x, usp_route_installed f' x <-> usp_route_installed f x) /\
  match res with
  | inl _ => forall r, usp_peer_installed f' r <-> usp_peer_installed f r
  | inr rs =>
      (forall r, usp_peer_installed f' r <-> usp_peer_installed f r \/ r ∈ rs) /\ rs <> [] /\
      NoDup rs /\ forall r, r ∈ rs -> ~ usp_peer_installed f r /\ r = build_rule (pr_id r) a
  end.
Proof.
  intros [Ht Hu Hn] (Hv & Hsp & Hdp). unfold usp_AddPeerFiltering.
  pose proof (AddPeerFiltering_builds a (uuid f.2) (tables f.1) Hv) as E. cbv zeta in E.
  rewrite E. set (r := build_rule (uuid f.2) a) in *.
  assert (forall r', usp_peer_installed f r' -> pr_id r' <> uuid f.2) as Hfresh.
  { intros r' Hr' Eid. destruct (Hu r' Hr') as (k & Hk & Hid). rewrite Hid in Eid.
    apply uuid_inj in Eid. lia. }
  assert (forall rs, rule_table (tables f.1) (pr_drop r) !! pr_ip r = Some rs -> rs !! pr_id r = None) as Hnew.
  { intros rs Hrs. destruct (rs !! pr_id r) as [r'|] eqn:Er; [|done].
    assert (pr_id r' = pr_id r /\ pr_ip r' = pr_ip r /\ pr_drop r' = pr_drop r) as (E1 & E2 & E3).
    { unfold rule_table in Hrs. destruct (pr_drop r).
      - destruct (ti_deny _ Ht _ _ Hrs) as [_ Hall]. destruct (Hall _ _ Er) as (? & ? & ? & _). done.
      - destruct (ti_accept _ Ht _ _ Hrs) as [_ Hall]. destruct (Hall _ _ Er) as (? & ? & ? & _). done. }
    destruct (Hfresh r'); [|exact E1]. unfold usp_peer_installed. rewrite E3. exists rs.
    rewrite E1, E2. done. }
  pose proof (add_tables r (tables f.1) Hnew) as Hadd. cbv zeta in Hadd.
  set (t' := if pr_drop r then _ else _) in *.
  assert (tables_inv t') as Ht'.
  { unfold t'. destruct (pr_drop r) eqn:Ed; (apply tables_inv_peers; [done|..]).
    - by apply (peer_table_add true _ (pr_ip r) r (ti_deny _ Ht)).
    - apply (ti_accept _ Ht).
    - apply (ti_deny _ Ht).
    - by apply (peer_table_add false _ (pr_ip r) r (ti_accept _ Ht)). }
  assert (routeRulesMap t' = routeRulesMap (tables f.1)) as Hrm by (unfold t'; by destruct (pr_drop r)).
  clearbody t'.
  assert (forall r', usp_peer_installed (set_tables t' f.1, S f.2) r' <->
    usp_peer_installed f r' \/ r' = r) as Hin by exact Hadd.
  split_and!.
  - constructor; [done| |done]. intros r' [Hr'| ->]%Hin.
    + destruct (Hu r' Hr') as (k & Hk & ?). exists k. split; [cbn; lia|done].
    + exists f.2. split; [cbn; lia|done].
  - done.
  - intros x. unfold usp_route_installed. cbn. by rewrite Hrm.
  - intros r'. by rewrite Hin, list_elem_of_singleton.
  - done.
  - apply NoDup_singleton.
  - intros r' ->%list_elem_of_singleton. split; [|done]. intros Hr'. by apply (Hfresh r).
Qed.

Lemma usp_delete_ok f r : usp_inv f -> usp_peer_installed f r ->
  let '(f', err) := usp_DeletePeerRule r f in
  err = None /\ usp_inv f' /\ stateful f'.1 = stateful f.1 /\
  (forall x, usp_route_installed f' x <-> usp_route_installed f x) /\
  (forall r', usp_peer_installed f' r' <-> usp_peer_installed f r' /\ r' <> r).
Proof.
  intros [Ht Hu Hn] Hr. unfold usp_DeletePeerRule, DeletePeerRule.
  destruct (in_table_can_delete _ _ Hr) as [m' Hd].
  set (t' := if pr_drop r
             then mkTables m' (incomingRules (tables f.1)) (rr_heap (tables f.1)) (rr_next (tables f.1))
                    (routeRules (tables f.1)) (routeRulesMap (tables f.1))
             else mkTables (incomingDenyRules (tables f.1)) m' (rr_heap (tables f.1))
                    (rr_next (tables f.1)) (routeRules (tables f.1)) (routeRulesMap (tables f.1))).
  assert ((if pr_drop r
           then m ← delete_from (incomingDenyRules (tables f.1)) r;
                Ok (mkTables m (incomingRules (tables f.1)) (rr_heap (tables f.1))
                      (rr_next (tables f.1)) (routeRules (tables f.1)) (routeRulesMap (tables f.1)))
           else m ← delete_from (incomingRules (tables f.1)) r;
                Ok (mkTables (incomingDenyRules (tables f.1)) m (rr_heap (tables f.1))
                      (rr_next (tables f.1)) (routeRules (tables f.1)) (routeRulesMap (tables f.1))))
          = Ok t') as E.
  { unfold t'. unfold rule_table in Hd. destruct (pr_drop r); by rewrite Hd. }
  rewrite E. clear E.
  assert (tables_inv t') as Ht'.
  { unfold t', rule_table in *. destruct (pr_drop r); (apply tables_inv_peers; [done|..]).
    - by eapply peer_table_delete; [apply (ti_deny _ Ht)|].
    - apply (ti_accept _ Ht).
    - apply (ti_deny _ Ht).
    - by eapply peer_table_delete; [apply (ti_accept _ Ht)|]. }
  assert (forall r', in_table (rule_table t' (pr_drop r')) r' <->
    in_table (rule_table (tables f.1) (pr_drop r')) r' /\ r' <> r) as Hin.
  { intros r'. destruct (decide (pr_drop r' = pr_drop r)) as [Edr|Edr].
    - assert (rule_table t' (pr_drop r') = m') as -> by (unfold t'; rewrite Edr; by destruct (pr_drop r)).
      rewrite Edr, (in_table_delete _ r m' r' Hr Hd). split; intros [Ha Hb]; (split; [done|]).
      + intros ->. by apply Hb.
      + intros [E1 E2]. apply Hb. destruct Ha as (rs & Hl & Hi), Hr as (rs' & Hl' & Hi').
        rewrite E1, Hl' in Hl. injection Hl as <-. rewrite E2, Hi' in Hi. congruence.
    - assert (rule_table t' (pr_drop r') = rule_table (tables f.1) (pr_drop r')) as ->.
      { unfold t'. destruct (pr_drop r), (pr_drop r'); done. }
      split; [intros ?; split; [done|by intros ->]|by intros [? _]]. }
  assert (routeRulesMap t' = routeRulesMap (tables f.1)) as Hrm by (unfold t'; by destruct (pr_drop r)).
  clearbody t'. split_and!; [done| |done| |exact Hin].
  - constructor; [done| |done]. intros r' [Hr' _]%Hin. by apply Hu.
  - intros x. unfold usp_route_installed. cbn. by rewrite Hrm.
Qed.

Definition usp_route_key (a : route_args) : string :=
  ruleKey (ra_sources a) (ra_destination a) (ra_proto a) (ra_sPort a) (ra_dPort a) (ra_action a).

Lemma usp_peer_frame m n t' r : incomingDenyRules t' = incomingDenyRules (tables m) ->
  incomingRules t' = incomingRules (tables m) ->
  usp_peer_installed (set_tables t' m, n) r <-> usp_peer_installed (m, n) r.
Proof. intros E1 E2. unfold usp_peer_installed, rule_table. cbn. by rewrite E1, E2. Qed.

Lemma usp_add_route_ok f a : usp_inv f -> port_wf (ra_dPort a) -> ra_sPort a = None ->
  let '(f', res) := usp_AddRouteFiltering a f in
  usp_inv f' /\ stateful f'.1 = stateful f.1 /\
  (forall r, usp_peer_installed f' r <-> usp_peer_installed f r) /\
  match res with
  | inl _ => forall x, usp_route_installed f' x <-> usp_route_installed f x
  | inr id => (forall x, usp_route_installed f' x <-> usp_route_installed f x \/ x = id) /\
              id = usp_route_key a
  end.
Proof.
  intros [Ht Hu Hn] Hdp Hsp. unfold usp_AddRouteFiltering, m_addRouteFiltering. rewrite Hn.
  destruct (addRouteFiltering _ _ _ _ _ _ _ _ _) as [t' l] eqn:E.
  assert (tables_inv t') as Ht'.
  { eapply addRouteFiltering_inv; [exact Ht| |exact Hdp|exact E]. by rewrite Hsp. }
  destruct f as [m n]. cbn [fst snd] in *. unfold addRouteFiltering in E. fold (usp_route_key a) in E.
  destruct (routeRulesMap (tables m) !! usp_route_key a) as [ex|] eqn:Em; injection E as <- <-.
  - pose proof (proj1 (ti_index _ Ht _ _) Em) as [_ Eid].
    assert (forall r, usp_peer_installed (set_tables (tables m) m, n) r <->
      usp_peer_installed (m, n) r) as Hp by (intros r; by apply usp_peer_frame).
    split_and!; [|done|done| |done].
    + constructor; [done| |done]. intros r Hr%Hp. by apply Hu.
    + intros x. unfold usp_route_installed. cbn. rewrite Eid. split; [by left|].
      intros [?| ->]; [done|by eexists].
  - set (t1 := mkTables _ _ _ _ _ _) in *.
    assert (forall r, usp_peer_installed (set_tables t1 m, n) r <->
      usp_peer_installed (m, n) r) as Hp by (intros r; by apply usp_peer_frame).
    assert (rr_id (rr_heap t1 !!! rr_next (tables m)) = usp_route_key a) as Eid.
    { unfold t1. cbn. by rewrite lookup_total_insert_eq. }
    rewrite Eid. split_and!; [|done|done| |done].
    + constructor; [done| |done]. intros r Hr%Hp. by apply Hu.
    + intros x. unfold usp_route_installed. cbn [fst snd tables set_tables]. unfold t1. cbn.
      rewrite lookup_insert_is_Some'. split; [intros [?|?]|intros [?|?]]; auto.
Qed.

Lemma usp_delete_route_ok f id : usp_inv f -> usp_route_installed f id ->
  let '(f', err) := usp_DeleteRouteRule id f in
  err = None /\ usp_inv f' /\ stateful f'.1 = stateful f.1 /\
  (forall r, usp_peer_installed f' r <-> usp_peer_installed f r) /\
  (forall x, usp_route_installed f' x <-> usp_route_installed f x /\ x <> id).
Proof.
  intros [Ht Hu Hn] [l Hl]. unfold usp_DeleteRouteRule, m_deleteRouteRule. rewrite Hn.
  assert (exists t', deleteRouteRule id (tables f.1) = Ok t') as [t' E].
  { unfold deleteRouteRule. rewrite Hl. apply (ti_index _ Ht) in Hl as [Hin Hid].
    destruct (list_find _ _) as [[i x]|] eqn:Ef; [by eexists|].
    rewrite list_find_None in Ef. eapply Forall_forall in Ef; [|exact Hin]. done. }
  rewrite E. cbn [mbind res_bind]. destruct f as [m n]. cbn [fst snd] in *.
  pose proof (deleteRouteRule_inv _ _ _ Ht E) as Ht'.
  apply deleteRouteRule_cases in E as (i & l' & _ & _ & ->).
  set (t1 := mkTables _ _ _ _ _ _) in *.
  assert (forall r, usp_peer_installed (set_tables t1 m, n) r <->
    usp_peer_installed (m, n) r) as Hp by (intros r; by apply usp_peer_frame).
  split_and!; [done| |done|done|].
  - constructor; [done| |done]. intros r Hr%Hp. by apply Hu.
  - intros x. unfold usp_route_installed. cbn [fst snd tables set_tables]. unfold t1. cbn.
    rewrite lookup_delete_is_Some. split; intros [? ?]; split; auto.
Qed.

(** The userspace firewall keeps the promises of the interface. *)
#[export] Instance usp_firewall_spec : FirewallSpec UspFw PeerRule.
Proof.
  refine (Build_FirewallSpec _ _ _ usp_inv usp_peer_installed usp_route_installed
    (fun r a => r = build_rule (pr_id r) a) (fun id a => id = usp_route_key a) _ _ _ _ _).
  - intros f a Hi Ha. exact (usp_add_ok f a Hi Ha).
  - intros f r Hi Hr. pose proof (usp_delete_ok f r Hi Hr) as Hd. cbn.
    destruct (usp_DeletePeerRule r f) as [f' err]. destruct Hd as (_ & ? & ? & ? & Hp).
    split_and!; try done; [by intros r' [? _]%Hp|by intros r' ? ?; apply Hp|by intros _ [_ ?]%Hp].
  - intros f a Hi Hd Hs. exact (usp_add_route_ok f a Hi Hd Hs).
  - intros f id Hi Hr. pose proof (usp_delete_route_ok f id Hi Hr) as Hd. cbn.
    destruct (usp_DeleteRouteRule id f) as [f' err]. destruct Hd as (_ & ? & ? & ? & Hp).
    split_and!; try done; [|by intros _ [_ ?]%Hp].
    intros x Hx. rewrite Hp. split; [by intros [? _]|done].
  - intros f Hi. cbn. done.
Defined.

(** It deletes every rule in force and adds every rule it is asked for. *)
Lemma usp_deletes r e : ~ delete_fails r e.
Proof.
  intros (f & Hi & Hr & E). pose proof (usp_delete_ok f r Hi Hr) as Hd. cbn in E.
  destruct (usp_DeletePeerRule r f) as [f' err]. destruct Hd as [-> _]. done.
Qed.

Lemma usp_adds e : ~ add_fails e.
Proof.
  intros (f & a & Hi & (Hv & _) & E). cbn in E. unfold usp_AddPeerFiltering in E.
  by rewrite (AddPeerFiltering_builds a (uuid f.2) (tables f.1) Hv) in E.
Qed.

(** ** From the network map to the verdict on a packet *)

(** The rule of a map entry, up to its identifier and its policy. *)
Definition acl_rule (p : peer_params) : PeerRule :=
  build_rule EmptyString (rule_args p [] EmptyString).

Lemma realizes_rule r p : realizes r p ->
  pr_ip r = pr_ip (acl_rule p) /\ pr_drop r = bool_decide (pp_action p = ActionDrop) /\
  forall src d l1, peer_match src d l1 r = peer_match src d l1 (acl_rule p).
Proof.
  intros (pol & ips & E). cbn in E. revert E. generalize (pr_id r). intros id ->.
  unfold acl_rule, rule_args. case_decide; done.
Qed.

(** What a map says of a packet from [src]: some accept rule for its source
    or for everyone matches and no drop rule for its source does. *)
Definition map_admits (nm : NetworkMap) (stateful_ : bool) (src : Addr) (d : Layers)
    (l1 : LayerType) : Prop :=
  (forall rule p, rule ∈ effective_rules nm -> convertRule rule = Ok p -> wanted stateful_ p ->
     pp_action p = ActionDrop -> pr_ip (acl_rule p) = src ->
     peer_match src d l1 (acl_rule p) = false) /\
  (exists rule p, rule ∈ effective_rules nm /\ convertRule rule = Ok p /\ wanted stateful_ p /\
     pp_action p = ActionAccept /\ pr_ip (acl_rule p) ∈ [src; IPv4Unspecified; IPv6Unspecified] /\
     peer_match src d l1 (acl_rule p) = true).

Lemma peer_in_installed f b a r : usp_inv f ->
  peer_in (rule_table (tables f.1) b) a r <->
  usp_peer_installed f r /\ pr_drop r = b /\ pr_ip r = a.
Proof.
  intros [Ht _ _]. unfold peer_in, usp_peer_installed, in_table. split.
  - intros (rs & id & Hl & Hr).
    assert (pr_id r = id /\ pr_ip r = a /\ pr_drop r = b) as (E1 & E2 & E3).
    { destruct b; [destruct (ti_deny _ Ht _ _ Hl) as [_ Hall]|destruct (ti_accept _ Ht _ _ Hl) as [_ Hall]];
        destruct (Hall _ _ Hr) as (? & ? & ? & _); done. }
    rewrite E1, E2, E3. split; [by exists rs|done].
  - intros ((rs & Hl & Hr) & <- & <-). by exists rs, (pr_id r).
Qed.

(** The parameters of the manager. *)
Context (selector : FirewallRule -> string) (unicode_lower : gostring -> gostring)
  (sha256 : gostring -> list Z) (safeString : list gostring -> string)
  (mord : list (string * list PeerRule) -> list (string * list PeerRule))
  (rord : list string -> list string)
  (mord_perm : forall l, mord l ≡ₚ l) (rord_perm : forall l, rord l ≡ₚ l).

(** If the firewall holds the rules of the map and nothing else, its tables
    admit what the map admits. *)
Lemma admits_tables nm f src d l1 : usp_inv f ->
  (forall r, usp_peer_installed f r -> exists rule p, rule ∈ effective_rules nm /\ convertRule rule = Ok p /\
     wanted (stateful f.1) p /\ realizes r p) ->
  (forall rule p, rule ∈ effective_rules nm -> convertRule rule = Ok p -> wanted (stateful f.1) p ->
     exists r, usp_peer_installed f r /\ realizes r p) ->
  map_admits nm (stateful f.1) src d l1 <->
  (forall r, peer_in (incomingDenyRules (tables f.1)) src r -> peer_match src d l1 r = false) /\
  (exists a r, a ∈ [src; IPv4Unspecified; IPv6Unspecified] /\
     peer_in (incomingRules (tables f.1)) a r /\ peer_match src d l1 r = true).
Proof.
  intros Hi Hfrom Hall.
  pose proof (fun a r => peer_in_installed f true a r Hi) as Hdeny.
  pose proof (fun a r => peer_in_installed f false a r Hi) as Haccept.
  cbn [rule_table] in Hdeny, Haccept. unfold map_admits. split; intros [H1 H2]; split.
  - intros r (Hr & Hd & Hip)%Hdeny.
    destruct (Hfrom r Hr) as (rule & p & Hin & Hc & Hw & Hre).
    destruct (realizes_rule r p Hre) as (E1 & E2 & E3). rewrite E3.
    apply (H1 rule p); [done..| |congruence].
    rewrite E2 in Hd. by apply bool_decide_eq_true in Hd.
  - destruct H2 as (rule & p & Hin & Hc & Hw & Ha & Hip & Hm).
    destruct (Hall rule p Hin Hc Hw) as (r & Hr & Hre). destruct (realizes_rule r p Hre) as (E1 & E2 & E3).
    exists (pr_ip r), r. split_and!; [by rewrite E1| |by rewrite E3].
    apply Haccept. split_and!; [done| |done]. rewrite E2, Ha. done.
  - intros rule p Hin Hc Hw Ha Hip.
    destruct (Hall rule p Hin Hc Hw) as (r & Hr & Hre). destruct (realizes_rule r p Hre) as (E1 & E2 & E3).
    rewrite <- E3. apply H1. apply Hdeny. split_and!; [done| |congruence].
    rewrite E2, Ha. done.
  - destruct H2 as (a & r & Hin & (Hr & Hd & Hip)%Haccept & Hm).
    destruct (Hfrom r Hr) as (rule & p & Hin' & Hc & Hw & Hre).
    destruct (realizes_rule r p Hre) as (E1 & E2 & E3).
    exists rule, p. split_and!; [done..| | |].
    + rewrite E2 in Hd. apply bool_decide_eq_false in Hd. by destruct (pp_action p).
    + by rewrite <- E1, Hip.
    + by rewrite <- E3.
Qed.

(** C4: the network map decides which packets reach the host.  Start with a
    userspace firewall without peer rules and apply any history of network
    maps.  Then the peer ACLs of the firewall give every packet a verdict
    without a panic, and admit it exactly if it is one of the special ICMP
    messages, or, among the rules of the last map that convert to firewall
    rules, an accept rule for its source or for everyone matches it and no
    drop rule for exactly its source does.  A drop rule for everyone has no
    effect.  The verdict does not depend on earlier maps, on the iteration
    order of any map, or on the grouping of rules into sets. *)
Theorem acl_packet_verdict (d d' : DefaultManager) (hist : list (NetworkMap * bool)) (stale : list PeerRule)
    (rstale : list string) (nm : NetworkMap) (flag : bool) (rbase : string -> Prop) (log : acl_log) :
  acl_reach selector unicode_lower sha256 safeString mord rord (fun _ => False) rbase hist stale rstale d ->
  map_wf nm ->
  ApplyFiltering selector unicode_lower sha256 safeString mord rord nm flag d = (d', log) ->
  exists f : UspFw, dm_firewall d' = Some f /\
    forall (ord : list PeerRule -> list PeerRule) (src : Addr) (l : Layers) (l1 : LayerType),
      (forall l, ord l ≡ₚ l) -> layer_at l 1 = Ok l1 ->
      exists id blocked special, isSpecialICMP l = Ok special /\
        peerACLsBlock ord src l (tables f.1) = Ok (id, blocked) /\
        (blocked = false <-> special = true \/ map_admits nm (stateful f.1) src l l1).
Proof.
  intros Hr Hwf E.
  pose proof (acl_reach_reliable _ _ _ _ _ _ mord_perm rord_perm _ _ _ _ _ _ usp_deletes
    (acl_apply _ _ _ _ _ _ _ _ _ _ _ nm flag d d' log Hr Hwf E)) as Hst.
  apply acl_reach_ok in Hr; [|done..].
  destruct (ApplyFiltering_ok _ _ _ _ _ _ mord_perm rord_perm _ _ _ _ _ _ _ _ _ _ Hr Hwf E)
    as (_ & (f & Hf & Hi & [Hfrom _ Hall _ _ _]) & _).
  exists f. split; [done|]. intros ord src l l1 Hord Hl.
  destruct (peerACLsBlock_spec (tables f.1) ord src l l1 (ui_tables _ Hi) Hord Hl)
    as (id & blocked & special & H1 & H2 & H3).
  exists id, blocked, special. split_and!; [done..|].
  rewrite H3, <- (admits_tables nm f src l l1 Hi); [done| |].
  - intros r Hin. destruct (Hfrom r Hin) as [[]|[Hs|?]]; [|done]. rewrite Hst in Hs. by apply not_elem_of_nil in Hs.
  - intros rule p Hin Hc Hw. destruct (Hall rule Hin) as [(p' & Hc' & Hinst)|(e & _ & Hre)].
    + rewrite Hc in Hc'. injection Hc' as <-. by apply Hinst.
    + unfold refused in Hre. rewrite Hc in Hre. destruct Hre as (e' & _ & Hadd). by apply usp_adds in Hadd.
Qed.

End usp.

(** ** Concrete instances *)
Definition w_uuid (n : nat) : string := ("u" +:+ pretty n)%string.

Lemma w_uuid_inj i j : w_uuid i = w_uuid j -> i = j.
Proof. intros H. unfold w_uuid in H. injection H as H. by apply (inj pretty). Qed.

Definition w_native_add (_ : list Prefix) (_ : Network) (_ : Action) : M string := Err ErrRuleNotFound.
Definition w_native_delete (_ : string) : M unit := Err ErrRuleNotFound.

#[local] Instance w_firewall : Firewall UspFw PeerRule :=
  usp_firewall wkey w_native_add w_native_delete w_uuid.
#[local] Instance w_spec : FirewallSpec UspFw PeerRule :=
  usp_firewall_spec wkey w_native_add w_native_delete w_uuid w_uuid_inj.

Definition w_apply (nm : NetworkMap) (d : @DefaultManager UspFw PeerRule)
    : @DefaultManager UspFw PeerRule * @acl_log PeerRule :=
  ApplyFiltering (fun r => String.string_of_list_ascii (fr_PeerIP r)) (fun s => s) (fun _ => [])
    (fun _ => EmptyString) (fun l => l) (fun l => l) nm true d.

Definition w_rule (ip : gostring) (action protocol : Z) (port : option PortInfo) : FirewallRule :=
  mkFirewallRule ip RuleDirection_IN action protocol [] port [] [].

(** First web traffic of one peer is accepted; then everything of everyone,
    but the web traffic of that peer is dropped. *)
Definition w_map1 : NetworkMap :=
  mkNetworkMap [w_rule (lit "100.64.0.2") RuleAction_ACCEPT RuleProtocol_TCP (Some (PIPort 80))] false [].
Definition w_map2 : NetworkMap :=
  mkNetworkMap
    [w_rule (lit "0.0.0.0") RuleAction_ACCEPT RuleProtocol_ALL None;
     w_rule (lit "100.64.0.2") RuleAction_DROP RuleProtocol_TCP (Some (PIPort 80))] false [].

Definition w_start : @DefaultManager UspFw PeerRule := NewDefaultManager (Some (demo_base, 0)).
Definition w_state : @DefaultManager UspFw PeerRule := (w_apply w_map1 w_start).1.

Lemma w_map_wf : map_wf w_map1 /\ map_wf w_map2.
Proof.
  split; repeat (apply Forall_cons; split; [split; [constructor|by left]|]); constructor.
Qed.

Lemma w_direction rule p : rule ∈ effective_rules w_map2 -> convertRule rule = Ok p ->
  pp_direction p = RuleDirection_IN.
Proof.
  intros Hin Hc. destruct (convertRule_ok rule p) as [_ ->]; [|done|].
  - eapply Forall_forall in Hin; [exact Hin|]. apply effective_rules_wf, w_map_wf.
  - apply elem_of_cons in Hin as [->|Hin]; [done|]. by apply list_elem_of_singleton in Hin as ->.
Qed.

Lemma w_no_peer_rules r : ~ usp_peer_installed (demo_base, 0) r.
Proof.
  intros (rs & Hl & _). assert (rule_table (tables demo_base) (pr_drop r) = ∅) as E.
  { destruct (pr_drop r); vm_compute; reflexivity. }
  cbn [fst] in Hl. rewrite E in Hl. by rewrite lookup_empty in Hl.
Qed.

Lemma w_reach : acl_reach (fun r => String.string_of_list_ascii (fr_PeerIP r)) (fun s => s)
  (fun _ => []) (fun _ => EmptyString) (fun l => l) (fun l => l) (fun _ => False)
  (usp_route_installed (demo_base, 0)) [(w_map1, true)] ([] ++ (al_failed (w_apply w_map1 w_start).2).*1)
  ([] ++ (al_route_failed (w_apply w_map1 w_start).2).*1) w_state.
Proof.
  apply (acl_apply _ _ _ _ _ _ _ _ _ _ _ w_map1 true w_start); [|apply w_map_wf|by apply surjective_pairing]. apply acl_new.
  - change (usp_inv w_uuid (demo_base, 0)). constructor.
    + assert (tables demo_base = NewTables) as E by (vm_compute; reflexivity).
      change (tables (demo_base, 0).1) with (tables demo_base). rewrite E. apply NewTables_inv.
    + intros r Hr. by destruct (w_no_peer_rules r).
    + vm_compute. reflexivity.
  - intros r. split; [|done]. apply w_no_peer_rules.
  - done.
Qed.

(** The second map is applied without an error: its two rules are in force
    and the rule of the first map is gone. *)
Lemma acl_enforces_map_witness :
  exists f, dm_firewall (w_apply w_map2 w_state).1 = Some f /\
    (forall r, usp_peer_installed f r ->
      exists rule p, rule ∈ effective_rules w_map2 /\ convertRule rule = Ok p /\ realizes r p) /\
    (forall rule, rule ∈ effective_rules w_map2 ->
      exists p, convertRule rule = Ok p /\ exists r, usp_peer_installed f r /\ realizes r p).
Proof.
  destruct (acl_enforces_map _ _ _ _ _ _ (fun l => Permutation_refl l) (fun l => Permutation_refl l)
    (fun _ => False) (usp_route_installed (demo_base, 0)) _ _ _ w_state (w_apply w_map2 w_state).1 w_map2
    true (w_apply w_map2 w_state).2 w_reach (proj2 w_map_wf))
    as (f & Hf & [Hfrom _ Hall _ _ _]); [apply surjective_pairing|].
  assert (al_failed (w_apply w_map1 w_start).2 = []) as E1 by (vm_compute; reflexivity).
  assert (al_failed (w_apply w_map2 w_state).2 = []) as E2 by (vm_compute; reflexivity).
  assert (al_errors (w_apply w_map2 w_state).2 = []) as E3 by (vm_compute; reflexivity).
  exists f. split; [exact Hf|]. split.
  - intros r Hr. destruct (Hfrom r Hr) as [[]|[Hs|(rule & p & H1 & H2 & _ & H3)]].
    + rewrite E1, E2 in Hs. exact (False_ind _ (not_elem_of_nil r Hs)).
    + exists rule, p. split; [exact H1|]. split; [exact H2|exact H3].
  - intros rule Hin. destruct (Hall rule Hin) as [(p & Hc & Hw)|(e & He & _)].
    + exists p. split; [exact Hc|]. apply Hw. left.
      by apply (w_direction rule p).
    + rewrite E3 in He. exact (False_ind _ (not_elem_of_nil e He)).
Defined.

(** The web traffic of the peer is dropped, everything else is accepted. *)
Lemma acl_packet_verdict_witness :
  exists f, dm_firewall (w_apply w_map2 w_state).1 = Some f /\
    exists id, peerACLsBlock (fun l => l) wpeer wlayers (tables f.1) = Ok (id, true).
Proof.
  destruct (acl_packet_verdict wkey w_native_add w_native_delete w_uuid w_uuid_inj _ _ _ _ _ _
    (fun l => Permutation_refl l) (fun l => Permutation_refl l) w_state _ _ _ _ w_map2 true _ _
    w_reach (proj2 w_map_wf) (surjective_pairing (w_apply w_map2 w_state))) as (f & Hf & Hv).
  exists f. split; [exact Hf|].
  destruct (Hv (fun l => l) wpeer wlayers LayerTypeTCP) as (id & blocked & special & _ & H & _);
    [done|done|].
  assert (match dm_firewall (w_apply w_map2 w_state).1 with
          | Some f => match peerACLsBlock (fun l => l) wpeer wlayers (tables f.1) with
                      | Ok (_, b) => b | _ => false end
          | None => false end = true) as Hb by (vm_compute; reflexivity).
  rewrite Hf in Hb. rewrite H in Hb. exists id. by rewrite <- Hb.
Defined.
