(* ===== verification/I2pConn.v ===== *)
(** * Peer connections over I2P datagrams
      (client/internal/peer/i2p_datagram_conn.go)

    All peers that are reached with one local I2P destination share a datagram
    session.  A registry keeps a manager per destination and counts its users;
    the manager runs a receive loop that hands every datagram to the
    connection registered for its source; the last connection that is closed
    closes the manager and its session.

    Goroutines share all of this.  A thread is the list of the operations it
    still has to perform, and [exec] performs the first of them: one critical
    section, channel operation or call of the session, which may call others
    (they are put in front of the rest) and start a goroutine.  [isClosed] is
    read inside the registry's critical section; as [closed] is never reset and
    nothing else in that section depends on it, reading it is one step with the
    section.  What the environment decides (the results of the session, the
    clock, the choice of a [select] with several ready cases, the iteration
    order of a map) is the argument [denv] of [exec].

    Managers and connections are numbered in the order of their allocation, a
    number being a pointer.  A manager stands for its session too: each
    session belongs to one manager. *)

From Stdlib Require Import ZArith Lia.
From stdpp Require Import base gmap strings numbers countable sorting list.
From S2P Require Import Prelude Netip GoStrings AddrText AnonPolicy I2pSam.

(** ** Data *)
Definition anonymousI2PDatagramNetwork : gostring := lit "i2p-datagram".
Definition readChSize : nat := 256.

Inductive dg_error : Type :=
| DgUnsupported (type : gostring)
| DgLocalEmpty
| DgRemoteEmpty
| DgInvalid (v : violation)
| DgSession (e : sam_error)
| DgRegistered (short : gostring)
| DgClosed
| DgEOF
| DgShortBuffer
| DgDeadlineExceeded
| DgPanic.

(** [sync.Once] *)
Inductive once : Type := New | Running | Done.

#[global] Instance once_eq_dec : EqDecision once.
Proof. solve_decision. Defined.

(** [m_sessionCloses] counts the calls of [session.Close], [m_wg] is the
    counter of the wait group, [m_cfg] the configuration of the session. *)
Record i2pDatagramManager : Type := mkManager {
  m_key : gostring;
  m_cfg : DatagramConfig;
  m_refs : nat;
  m_closed : bool;
  m_cancelled : bool;
  m_wg : nat;
  m_peers : gmap gostring nat;
  m_sessionCloses : nat }.

(** A deadline [None] is the zero time.  [p_transport] is not a field of the
    code: it is the transport that [OpenPeerConn] was called with. *)
Record i2pDatagramPeerConn : Type := mkPeerConn {
  p_manager : nat;
  p_remoteKey : gostring;
  p_dest : gostring;
  p_readCh : list gostring;
  p_done : bool;
  p_once : once;
  p_releaseOnce : once;
  p_readDeadline : option Z;
  p_writeDeadline : option Z;
  p_readErr : dg_error;
  p_transport : TransportConfig }.

(** The registry, all managers and connections, and what happened outside:
    the datagrams received by each session and the payloads sent, as session,
    destination and payload; the payloads taken out of each [readCh]; the
    sessions of which [Receive] returned an error.  The newest is last.
    [h_panic]: a goroutine panicked. *)
Record heap : Type := mkHeap {
  h_managers : gmap gostring nat;
  h_mgrs : list i2pDatagramManager;
  h_conns : list i2pDatagramPeerConn;
  h_received : list (nat * gostring * gostring);
  h_sent : list (nat * gostring * gostring);
  h_read : list (nat * gostring);
  h_errors : list nat;
  h_panic : bool }.

Definition empty_heap : heap := mkHeap ∅ [] [] [] [] [] [] false.

Inductive dg_ret : Type :=
| RetNil
| RetOpen (r : dg_error + nat)
| RetRead (data : gostring) (e : option dg_error)
| RetWrite (n : nat) (e : option dg_error).

(** The operations of a thread. *)
Inductive op : Type :=
(* OpenPeerConn, retainManager, register *)
| IOpen (tr : TransportConfig) (remoteKey dest : gostring)
| IRetain (key : gostring) (tr : TransportConfig) (remoteKey dest : gostring)
| INewSession (key : gostring) (tr : TransportConfig) (remoteKey dest : gostring)
| IInstall (m : nat) (tr : TransportConfig) (remoteKey dest : gostring)
| IStart (m : nat)
| IRegister (m : nat) (tr : TransportConfig) (remoteKey dest : gostring)
(* releaseManager, manager.close *)
| IRelease (m : nat)
| IMgrClose (m : nat)
| ICancel (m : nat)
| ISessionClose (m : nat)
| IWait (m : nat)
| IClosePeers (m : nat) (e : dg_error)
(* closeWithError *)
| ICloseWith (c : nat) (e : dg_error)
| ISetErr (c : nat) (e : dg_error)
| ICloseDone (c : nat)
(* Close *)
| IClose (c : nat)
| IReleaseOnce (c : nat)
| IUnregister (c : nat)
| IReleaseDone (c : nat)
(* receiveLoop, deliver *)
| IReceive (m : nat)
| ILookup (m : nat) (source payload : gostring)
| IDeliver (c : nat) (payload : gostring)
| IPush (c : nat) (payload : gostring)
| IWgDone (m : nat)
(* Read, Write, deadlines *)
| IRead (c : nat) (cap : nat)
| IReadWait (c : nat) (cap : nat) (deadline : option Z)
| IWrite (c : nat) (p : gostring)
| IWriteDeadline (c : nat) (p : gostring)
| ISend (c : nat) (p : gostring)
| ISessionSend (m : nat) (dest p : gostring)
| ISetDeadline (c : nat) (read write : bool) (t : option Z)
| IRet (r : dg_ret).

Notation thread := (list op).

(** The environment of a step: the results of the factory, of [Receive] and of
    [Send] ([None] from the factory and [Send]: no error; from [Receive]: an
    error), the time, the case of a [select] to try, the order of a map. *)
Record denv : Type := mkDenv {
  dv_session : option sam_error;
  dv_receive : option Datagram;
  dv_send : option sam_error;
  dv_now : Z;
  dv_pick : nat;
  dv_order : list nat }.

(** ** Field updates *)
Definition set_refs (n : nat) (m : i2pDatagramManager) : i2pDatagramManager :=
  mkManager (m_key m) (m_cfg m) n (m_closed m) (m_cancelled m) (m_wg m) (m_peers m)
    (m_sessionCloses m).
Definition set_closed (m : i2pDatagramManager) : i2pDatagramManager :=
  mkManager (m_key m) (m_cfg m) (m_refs m) true (m_cancelled m) (m_wg m) (m_peers m)
    (m_sessionCloses m).
Definition set_cancelled (m : i2pDatagramManager) : i2pDatagramManager :=
  mkManager (m_key m) (m_cfg m) (m_refs m) (m_closed m) true (m_wg m) (m_peers m)
    (m_sessionCloses m).
Definition set_wg (n : nat) (m : i2pDatagramManager) : i2pDatagramManager :=
  mkManager (m_key m) (m_cfg m) (m_refs m) (m_closed m) (m_cancelled m) n (m_peers m)
    (m_sessionCloses m).
Definition set_peers (p : gmap gostring nat) (m : i2pDatagramManager) : i2pDatagramManager :=
  mkManager (m_key m) (m_cfg m) (m_refs m) (m_closed m) (m_cancelled m) (m_wg m) p
    (m_sessionCloses m).
Definition count_session_close (m : i2pDatagramManager) : i2pDatagramManager :=
  mkManager (m_key m) (m_cfg m) (m_refs m) (m_closed m) (m_cancelled m) (m_wg m) (m_peers m)
    (S (m_sessionCloses m)).

Definition set_readCh (q : list gostring) (c : i2pDatagramPeerConn) : i2pDatagramPeerConn :=
  mkPeerConn (p_manager c) (p_remoteKey c) (p_dest c) q (p_done c) (p_once c) (p_releaseOnce c)
    (p_readDeadline c) (p_writeDeadline c) (p_readErr c) (p_transport c).
Definition set_once (o : once) (c : i2pDatagramPeerConn) : i2pDatagramPeerConn :=
  mkPeerConn (p_manager c) (p_remoteKey c) (p_dest c) (p_readCh c) (p_done c) o (p_releaseOnce c)
    (p_readDeadline c) (p_writeDeadline c) (p_readErr c) (p_transport c).
Definition set_releaseOnce (o : once) (c : i2pDatagramPeerConn) : i2pDatagramPeerConn :=
  mkPeerConn (p_manager c) (p_remoteKey c) (p_dest c) (p_readCh c) (p_done c) (p_once c) o
    (p_readDeadline c) (p_writeDeadline c) (p_readErr c) (p_transport c).
Definition set_readErr (e : dg_error) (c : i2pDatagramPeerConn) : i2pDatagramPeerConn :=
  mkPeerConn (p_manager c) (p_remoteKey c) (p_dest c) (p_readCh c) (p_done c) (p_once c)
    (p_releaseOnce c) (p_readDeadline c) (p_writeDeadline c) e (p_transport c).
(** [close(c.done)], the end of the body of [once]. *)
Definition set_done (c : i2pDatagramPeerConn) : i2pDatagramPeerConn :=
  mkPeerConn (p_manager c) (p_remoteKey c) (p_dest c) (p_readCh c) true Done (p_releaseOnce c)
    (p_readDeadline c) (p_writeDeadline c) (p_readErr c) (p_transport c).
Definition set_deadlines (read write : bool) (t : option Z) (c : i2pDatagramPeerConn)
    : i2pDatagramPeerConn :=
  mkPeerConn (p_manager c) (p_remoteKey c) (p_dest c) (p_readCh c) (p_done c) (p_once c)
    (p_releaseOnce c) (if read then t else p_readDeadline c)
    (if write then t else p_writeDeadline c) (p_readErr c) (p_transport c).

Definition on_mgr (f : i2pDatagramManager -> i2pDatagramManager) (m : nat) (h : heap) : heap :=
  mkHeap (h_managers h) (alter f m (h_mgrs h)) (h_conns h) (h_received h) (h_sent h) (h_read h)
    (h_errors h) (h_panic h).
Definition on_conn (f : i2pDatagramPeerConn -> i2pDatagramPeerConn) (c : nat) (h : heap) : heap :=
  mkHeap (h_managers h) (h_mgrs h) (alter f c (h_conns h)) (h_received h) (h_sent h) (h_read h)
    (h_errors h) (h_panic h).
Definition set_managers (r : gmap gostring nat) (h : heap) : heap :=
  mkHeap r (h_mgrs h) (h_conns h) (h_received h) (h_sent h) (h_read h) (h_errors h) (h_panic h).
Definition add_mgr (m : i2pDatagramManager) (h : heap) : heap :=
  mkHeap (h_managers h) (h_mgrs h ++ [m]) (h_conns h) (h_received h) (h_sent h) (h_read h)
    (h_errors h) (h_panic h).
Definition add_conn (c : i2pDatagramPeerConn) (h : heap) : heap :=
  mkHeap (h_managers h) (h_mgrs h) (h_conns h ++ [c]) (h_received h) (h_sent h) (h_read h)
    (h_errors h) (h_panic h).
Definition log_received (m : nat) (source payload : gostring) (h : heap) : heap :=
  mkHeap (h_managers h) (h_mgrs h) (h_conns h) (h_received h ++ [(m, source, payload)])
    (h_sent h) (h_read h) (h_errors h) (h_panic h).
Definition log_sent (m : nat) (dest payload : gostring) (h : heap) : heap :=
  mkHeap (h_managers h) (h_mgrs h) (h_conns h) (h_received h)
    (h_sent h ++ [(m, dest, payload)]) (h_read h) (h_errors h) (h_panic h).
Definition log_read (c : nat) (payload : gostring) (h : heap) : heap :=
  mkHeap (h_managers h) (h_mgrs h) (h_conns h) (h_received h) (h_sent h)
    (h_read h ++ [(c, payload)]) (h_errors h) (h_panic h).
Definition log_error (m : nat) (h : heap) : heap :=
  mkHeap (h_managers h) (h_mgrs h) (h_conns h) (h_received h) (h_sent h) (h_read h)
    (h_errors h ++ [m]) (h_panic h).
Definition panicked (h : heap) : heap :=
  mkHeap (h_managers h) (h_mgrs h) (h_conns h) (h_received h) (h_sent h) (h_read h) (h_errors h) true.

Definition outcome : Type := option (heap * list op * list thread).
Definition next (h : heap) (l : list op) : outcome := Some (h, l, []).

Section datagrams.
(** The lower-case mapping of strings that are not pure ASCII; SHA-256 with
    hexadecimal output, of 64 characters. *)
Context (unicode_lower : gostring -> gostring) (sha256_hex : gostring -> gostring).

(** ** Keys and addresses *)
(** The joined fields of which the manager key is the digest. *)
Definition key_text (tr : TransportConfig) : gostring :=
  let nul := [Ascii.zero] in
  I2PSAM tr ++ nul ++ I2PDestinationPrivate tr ++ nul ++ Itoa (I2PTunnelLength tr) ++ nul ++
  Itoa (I2PTunnelQuantity tr).

Definition i2pDatagramManagerKey (tr : TransportConfig) : gostring := sha256_hex (key_text tr).

Definition shortI2PDestination (destination : gostring) : gostring :=
  let destination := TrimSpace destination in
  if decide (destination = []) then [] else take 16 (sha256_hex destination).

(** [i2pDatagramAddr.String] *)
Definition i2pDatagramAddr_String (destination : gostring) : gostring :=
  anonymousI2PDatagramNetwork ++ lit ":" ++ shortI2PDestination destination.

Definition sessionConfig (key : gostring) (tr : TransportConfig) : DatagramConfig :=
  mkDatagramConfig (I2PSAM tr) [] 0 DatagramStyleRepliable (lit "anonbird-wg-" ++ take 16 key)
    (I2PDestinationPrivate tr) 0 0 0 (I2PTunnelLength tr) (I2PTunnelLength tr)
    (I2PTunnelQuantity tr) (I2PTunnelQuantity tr).

(** [newI2PDatagramManager] *)
Definition newI2PDatagramManager (key : gostring) (cfg : DatagramConfig) : i2pDatagramManager :=
  mkManager key cfg 0 false false 0 ∅ 0.

(** The connection that [register] allocates. *)
Definition newPeerConn (m : nat) (tr : TransportConfig) (remoteKey dest : gostring)
    : i2pDatagramPeerConn :=
  mkPeerConn m (TrimSpace remoteKey) dest [] false New New None None DgEOF tr.

(** ** Opening a connection *)
(** The guards of [OpenPeerConn], which then retains the manager. *)
Definition OpenPeerConn (tr : TransportConfig) (remoteKey dest : gostring) : list op :=
  let tr := NormalizeTransport unicode_lower tr in
  let dest' := TrimSpace dest in
  if decide (Type_ tr <> TransportI2PDatagram) then [IRet (RetOpen (inl (DgUnsupported (Type_ tr))))]
  else if decide (TrimSpace (I2PDestinationPrivate tr) = []) then [IRet (RetOpen (inl DgLocalEmpty))]
  else if decide (dest' = []) then [IRet (RetOpen (inl DgRemoteEmpty))]
  else match ValidateTransport unicode_lower tr with
       | Err v => [IRet (RetOpen (inl (DgInvalid v)))]
       | Panic => [IRet (RetOpen (inl DgPanic))]
       | Ok _ => [IRetain (i2pDatagramManagerKey tr) tr remoteKey dest']
       end.

(** [manager != nil && !manager.isClosed()] for [r.managers[key]]. *)
Definition usable (h : heap) (key : gostring) : option nat :=
  match h_managers h !! key with
  | Some m => match h_mgrs h !! m with
              | Some mgr => if m_closed mgr then None else Some m
              | None => None
              end
  | None => None
  end.

Definition add_ref (m : nat) (h : heap) : heap := on_mgr (fun x => set_refs (S (m_refs x)) x) m h.

(** [retainManager]: the two critical sections with the creation of the session
    between them. *)
Definition retainManager (ev : denv) (o : op) (h : heap) : outcome :=
  match o with
  | IRetain key tr rk dest =>
      match usable h key with
      | Some m => next (add_ref m h) [IRegister m tr rk dest]
      | None => next h [INewSession key tr rk dest]
      end
  | INewSession key tr rk dest =>
      match dv_session ev with
      | Some e => next h [IRet (RetOpen (inl (DgSession e)))]
      | None => next (add_mgr (newI2PDatagramManager key (sessionConfig key tr)) h)
                  [IInstall (length (h_mgrs h)) tr rk dest]
      end
  | IInstall m tr rk dest =>
      match h_mgrs h !! m with
      | Some mgr =>
          match usable h (m_key mgr) with
          | Some existing =>
              next (add_ref existing h) [ISessionClose m; ICancel m; IRegister existing tr rk dest]
          | None =>
              next (set_managers (<[m_key mgr := m]> (h_managers h)) (on_mgr (set_refs 1) m h))
                [IStart m; IRegister m tr rk dest]
          end
      | None => None
      end
  | _ => None
  end.

(** [start]: the goroutine runs [receiveLoop], whose deferred [closePeers] is
    before [wg.Done]. *)
Definition start (m : nat) (h : heap) : outcome :=
  Some (on_mgr (fun x => set_wg (S (m_wg x)) x) m h, [],
        [[IReceive m; IClosePeers m DgEOF; IWgDone m]]).

(** [register], and what [OpenPeerConn] does with its result. *)
Definition register (m : nat) (tr : TransportConfig) (rk dest : gostring) (h : heap) : outcome :=
  let dest := TrimSpace dest in
  let refuse e := next h [IRelease m; IRet (RetOpen (inl e))] in
  if decide (dest = []) then refuse DgRemoteEmpty else
  match h_mgrs h !! m with
  | None => None
  | Some mgr =>
      if m_closed mgr then refuse DgClosed
      else match m_peers mgr !! dest with
           | Some _ => refuse (DgRegistered (shortI2PDestination dest))
           | None =>
               let c := length (h_conns h) in
               next (on_mgr (set_peers (<[dest := c]> (m_peers mgr))) m
                       (add_conn (newPeerConn m tr rk dest) h))
                 [IRet (RetOpen (inr c))]
           end
  end.

(** ** Releasing and closing *)
Definition releaseManager (m : nat) (h : heap) : outcome :=
  match h_mgrs h !! m with
  | None => None
  | Some mgr =>
      let refs := if decide (0 < m_refs mgr) then m_refs mgr - 1 else m_refs mgr in
      let h := on_mgr (set_refs refs) m h in
      if decide (refs = 0 /\ h_managers h !! m_key mgr = Some m)
      then next (set_managers (delete (m_key mgr) (h_managers h)) h) [IMgrClose m]
      else next h []
  end.

(** [manager.close], and the calls it makes. *)
Definition manager_close (ev : denv) (o : op) (h : heap) : outcome :=
  match o with
  | IMgrClose m =>
      match h_mgrs h !! m with
      | None => None
      | Some mgr =>
          if m_closed mgr then next h []
          else next (on_mgr set_closed m h)
                 [ICancel m; ISessionClose m; IWait m; IClosePeers m DgClosed]
      end
  | ICancel m => next (on_mgr set_cancelled m h) []
  | ISessionClose m => next (on_mgr count_session_close m h) []
  | IWait m =>
      match h_mgrs h !! m with
      | Some mgr => if decide (m_wg mgr = 0) then next h [] else None
      | None => None
      end
  | _ => None
  end.

Definition closePeers (ev : denv) (m : nat) (e : dg_error) (h : heap) : outcome :=
  match h_mgrs h !! m with
  | None => None
  | Some mgr =>
      if decide (dv_order ev ≡ₚ (map_to_list (m_peers mgr)).*2)
      then next (on_mgr set_closed m h) (map (fun c => ICloseWith c e) (dv_order ev))
      else None
  end.

(** [closeWithError]: the entry of [once.Do], which waits for a running body,
    and the body.  The error is never nil. *)
Definition closeWithError (o : op) (h : heap) : outcome :=
  match o with
  | ICloseWith c e =>
      match h_conns h !! c with
      | None => None
      | Some pc =>
          match p_once pc with
          | New => next (on_conn (set_once Running) c h) [ISetErr c e; ICloseDone c]
          | Running => None
          | Done => next h []
          end
      end
  | ISetErr c e => next (on_conn (set_readErr e) c h) []
  | ICloseDone c =>
      match h_conns h !! c with
      | None => None
      | Some pc => if p_done pc then next (panicked h) [] else next (on_conn set_done c h) []
      end
  | _ => None
  end.

Definition unregister (c : nat) (h : heap) : outcome :=
  match h_conns h !! c with
  | None => None
  | Some pc =>
      next (on_mgr (fun mgr => if decide (m_peers mgr !! p_dest pc = Some c)
                               then set_peers (delete (p_dest pc) (m_peers mgr)) mgr else mgr)
              (p_manager pc) h) []
  end.

(** [Close] *)
Definition conn_Close (o : op) (h : heap) : outcome :=
  match o with
  | IClose c => next h [ICloseWith c DgClosed; IReleaseOnce c; IRet RetNil]
  | IReleaseOnce c =>
      match h_conns h !! c with
      | None => None
      | Some pc =>
          match p_releaseOnce pc with
          | New => next (on_conn (set_releaseOnce Running) c h)
                     [IUnregister c; IRelease (p_manager pc); IReleaseDone c]
          | Running => None
          | Done => next h []
          end
      end
  | IReleaseDone c => next (on_conn (set_releaseOnce Done) c h) []
  | _ => None
  end.

(** ** Receiving *)
Definition receiveLoop (ev : denv) (o : op) (h : heap) : outcome :=
  match o with
  | IReceive m =>
      match dv_receive ev with
      | None => next (log_error m h) []
      | Some d =>
          let source := TrimSpace (dg_Source d) in
          let h := log_received m source (dg_Payload d) h in
          if decide (source = []) then next h [IReceive m]
          else next h [ILookup m source (dg_Payload d)]
      end
  | ILookup m source payload =>
      match h_mgrs h !! m with
      | None => None
      | Some mgr =>
          match m_peers mgr !! source with
          | Some c => next h [IDeliver c payload; IReceive m]
          | None => next h [IReceive m]
          end
      end
  | IWgDone m =>
      match h_mgrs h !! m with
      | Some mgr =>
          if decide (m_wg mgr = 0) then next (panicked h) []
          else next (on_mgr (set_wg (m_wg mgr - 1)) m h) []
      | None => None
      end
  | _ => None
  end.

(** [deliver]: its two selects.  In the second, a ready [done] and a free
    buffer slot are chosen between by the environment. *)
Definition deliver (ev : denv) (o : op) (h : heap) : outcome :=
  match o with
  | IDeliver c payload =>
      match h_conns h !! c with
      | None => None
      | Some pc => next h (if p_done pc then [] else [IPush c payload])
      end
  | IPush c payload =>
      match h_conns h !! c with
      | None => None
      | Some pc =>
          if p_done pc && bool_decide (dv_pick ev = 0) then next h []
          else if decide (length (p_readCh pc) < readChSize)
          then next (on_conn (set_readCh (p_readCh pc ++ [payload])) c h) []
          else next h []
      end
  | _ => None
  end.

(** ** Reading and writing *)
(** [!time.Now().Before(deadline)] for a deadline that is set. *)
Definition expired (now : Z) (deadline : option Z) : bool :=
  match deadline with Some d => bool_decide (d <= now)%Z | None => false end.

(** [Read] with a buffer of [cap] bytes. *)
Definition conn_Read (ev : denv) (o : op) (h : heap) : outcome :=
  match o with
  | IRead c cap =>
      match h_conns h !! c with
      | None => None
      | Some pc =>
          next h [if expired (dv_now ev) (p_readDeadline pc)
                  then IRet (RetRead [] (Some DgDeadlineExceeded))
                  else IReadWait c cap (p_readDeadline pc)]
      end
  | IReadWait c cap deadline =>
      match h_conns h !! c with
      | None => None
      | Some pc =>
          match dv_pick ev with
          | 0 =>
              match p_readCh pc with
              | [] => None
              | payload :: rest =>
                  next (log_read c payload (on_conn (set_readCh rest) c h))
                    [IRet (RetRead (take cap payload)
                             (if decide (cap < length payload) then Some DgShortBuffer else None))]
              end
          | 1 => if p_done pc then next h [IRet (RetRead [] (Some (p_readErr pc)))] else None
          | _ => if expired (dv_now ev) deadline
                 then next h [IRet (RetRead [] (Some DgDeadlineExceeded))] else None
          end
      end
  | _ => None
  end.

(** [Write], up to its call of [manager.send]. *)
Definition conn_Write (ev : denv) (o : op) (h : heap) : outcome :=
  match o with
  | IWrite c p =>
      match h_conns h !! c with
      | None => None
      | Some pc =>
          next h [if p_done pc then IRet (RetWrite 0 (Some DgClosed))
                  else if decide (p = []) then IRet (RetWrite 0 None)
                  else IWriteDeadline c p]
      end
  | IWriteDeadline c p =>
      match h_conns h !! c with
      | None => None
      | Some pc =>
          next h [if expired (dv_now ev) (p_writeDeadline pc)
                  then IRet (RetWrite 0 (Some DgDeadlineExceeded)) else ISend c p]
      end
  | _ => None
  end.

(** [manager.send], and what [Write] returns. *)
Definition manager_send (ev : denv) (o : op) (h : heap) : outcome :=
  match o with
  | ISend c p =>
      match h_conns h !! c with
      | None => None
      | Some pc =>
          match h_mgrs h !! p_manager pc with
          | None => None
          | Some mgr =>
              next h [if m_closed mgr then IRet (RetWrite 0 (Some DgClosed))
                      else ISessionSend (p_manager pc) (p_dest pc) p]
          end
      end
  | ISessionSend m dest p =>
      match dv_send ev with
      | Some e => next h [IRet (RetWrite 0 (Some (DgSession e)))]
      | None => next (log_sent m dest p h) [IRet (RetWrite (length p) None)]
      end
  | _ => None
  end.

(** [exec ev o h]: the heap after [o], the operations that [o] calls, and the
    threads it starts; [None] when [o] has to wait. *)
Definition exec (ev : denv) (o : op) (h : heap) : outcome :=
  match o with
  | IOpen tr rk dest => next h (OpenPeerConn tr rk dest)
  | IRetain _ _ _ _ | INewSession _ _ _ _ | IInstall _ _ _ _ => retainManager ev o h
  | IStart m => start m h
  | IRegister m tr rk dest => register m tr rk dest h
  | IRelease m => releaseManager m h
  | IMgrClose _ | ICancel _ | ISessionClose _ | IWait _ => manager_close ev o h
  | IClosePeers m e => closePeers ev m e h
  | ICloseWith _ _ | ISetErr _ _ | ICloseDone _ => closeWithError o h
  | IClose _ | IReleaseOnce _ | IReleaseDone _ => conn_Close o h
  | IUnregister c => unregister c h
  | IReceive _ | ILookup _ _ _ | IWgDone _ => receiveLoop ev o h
  | IDeliver _ _ | IPush _ _ => deliver ev o h
  | IRead _ _ | IReadWait _ _ _ => conn_Read ev o h
  | IWrite _ _ | IWriteDeadline _ _ => conn_Write ev o h
  | ISend _ _ | ISessionSend _ _ _ => manager_send ev o h
  | ISetDeadline c rd wr t => next (on_conn (set_deadlines rd wr t) c h) [IRet RetNil]
  | IRet _ => None
  end.

(** ** The running system *)
Record sys : Type := mkSys { sy_heap : heap; sy_threads : list thread }.

(** The calls from outside, which start at any time and in any number: those
    on a connection need the connection. *)
Definition call_ok (h : heap) (o : op) : bool :=
  match o with
  | IOpen _ _ _ => true
  | IClose c | IRead c _ | IWrite c _ | ISetDeadline c _ _ _ =>
      bool_decide (c < length (h_conns h))
  | _ => false
  end.

Definition run (ev : denv) (i : nat) (s : sys) : option sys :=
  match sy_threads s !! i with
  | Some (o :: k) =>
      match exec ev o (sy_heap s) with
      | Some (h, l, spawned) => Some (mkSys h (<[i := l ++ k]> (sy_threads s) ++ spawned))
      | None => None
      end
  | _ => None
  end.

Inductive step (s : sys) : sys -> Prop :=
| step_run i ev s' : run ev i s = Some s' -> step s s'
| step_call o : call_ok (sy_heap s) o = true -> step s (mkSys (sy_heap s) (sy_threads s ++ [[o]])).

Definition reachable (s : sys) : Prop := rtc step (mkSys empty_heap []) s.

End datagrams.
