(* ===== verification/I2pConnInv.v ===== *)
(** * Steps of the peer connections over I2P datagrams

    The counting invariants of the system of [I2pConn]: what the reference
    count of a manager counts, which thread has the duty to close a session,
    how many receive loops run.  Each is an equation between a field of the
    heap and the number of occurrences of operations in the threads, and is
    preserved because each step moves as much from one side to the other. *)

From Stdlib Require Import ZArith Lia.
From stdpp Require Import base gmap strings numbers countable sorting list.
From S2P Require Import Prelude GoStrings AddrText AnonPolicy I2pSam I2pConn.

(** ** Weights of operations, summed over all threads *)
Definition W (f : op -> nat) (ths : list thread) : nat := sum_list_with (sum_list_with f) ths.

Definition same (n m : nat) : nat := if decide (n = m) then 1 else 0.

Definition hold (m : nat) (o : op) : nat :=
  match o with IRegister m' _ _ _ | IRelease m' => same m' m | _ => 0 end.
Definition priv (m : nat) (o : op) : nat := match o with IInstall m' _ _ _ => same m' m | _ => 0 end.
Definition sclose (m : nat) (o : op) : nat := match o with ISessionClose m' => same m' m | _ => 0 end.
Definition charge (m : nat) (o : op) : nat :=
  match o with IInstall m' _ _ _ | IMgrClose m' | ISessionClose m' => same m' m | _ => 0 end.
Definition starts (m : nat) (o : op) : nat := match o with IStart m' => same m' m | _ => 0 end.
Definition loops (m : nat) (o : op) : nat :=
  match o with IReceive m' | ILookup m' _ _ => same m' m | _ => 0 end.
Definition late (m : nat) (o : op) : nat := match o with IClosePeers m' _ => same m' m | _ => 0 end.
Definition wgdone (m : nat) (o : op) : nat := match o with IWgDone m' => same m' m | _ => 0 end.
Definition closing (c : nat) (o : op) : nat := match o with ICloseDone c' => same c' c | _ => 0 end.
Definition releasing (c : nat) (o : op) : nat := match o with IReleaseDone c' => same c' c | _ => 0 end.

(** The connections of a manager that were not given back yet. *)
Definition unreleased (m : nat) (p : i2pDatagramPeerConn) : nat :=
  if decide (p_releaseOnce p = New) then same (p_manager p) m else 0.
Definition open_conns (h : heap) (m : nat) : nat := sum_list_with (unreleased m) (h_conns h).

Definition in_map (h : heap) (m : nat) (M : i2pDatagramManager) : nat :=
  if decide (h_managers h !! m_key M = Some m) then 1 else 0.

(** The duty to close the session of [m]: the thread that created it, the
    registry, or the thread that took it out of the registry. *)
Definition duty (h : heap) (ths : list thread) (m : nat) (M : i2pDatagramManager) : nat :=
  m_sessionCloses M + W (charge m) ths + in_map h m M.

(** ** Lemmas on sums *)
Lemma W_run f ths i o k l sp : ths !! i = Some (o :: k) ->
  W f (<[i := l ++ k]> ths ++ sp) + f o = W f ths + sum_list_with f l + W f sp.
Proof.
  unfold W. rewrite sum_list_with_app. revert i.
  induction ths as [|t ths IH]; intros [|i] H; simplify_eq/=.
  - rewrite sum_list_with_app. lia.
  - apply IH in H. unfold insert in *. lia.
Qed.

Lemma W_call f ths o : W f (ths ++ [[o]]) = W f ths + f o.
Proof. unfold W. rewrite sum_list_with_app. simpl. lia. Qed.

Lemma W_elem f ths t o : t ∈ ths -> o ∈ t -> f o <= W f ths.
Proof.
  intros Ht Ho. unfold W. induction Ht as [t ths|t u ths _ IH]; simpl; [|specialize (IH Ho); lia].
  clear -Ho. assert (f o <= sum_list_with f t); [|lia].
  induction Ho; simpl; lia.
Qed.

Lemma W_zero f ths (P : op -> Prop) :
  Forall (Forall P) ths -> (forall o, P o -> f o = 0) -> W f ths = 0.
Proof.
  intros H Hf. unfold W. induction H as [|t ths Ht _ IH]; simpl; [done|]. rewrite IH.
  induction Ht as [|o t Ho _ IHt]; simpl; [done|]. rewrite Hf by done. lia.
Qed.

Lemma W_pos f ths : 0 < W f ths -> exists i t o, ths !! i = Some t /\ o ∈ t /\ 0 < f o.
Proof.
  unfold W. induction ths as [|t ths IH]; simpl; [lia|]. intros H.
  destruct (decide (0 < sum_list_with f t)) as [Ht|].
  - exists 0, t. clear -Ht. induction t as [|o t IHt]; simpl in *; [lia|].
    destruct (decide (0 < f o)); [exists o; repeat split; [|done]; left|].
    destruct IHt as (o' & _ & ? & ?); [lia|]. exists o'. repeat split; [|done]. by right.
  - destruct IH as (i & u & o & ? & ? & ?); [lia|]. exists (S i), u, o. auto.
Qed.

Lemma sum_alter {A} (g : A -> nat) f l i x : l !! i = Some x ->
  sum_list_with g (alter f i l) + g x = sum_list_with g l + g (f x).
Proof.
  revert i. induction l as [|y l IH]; intros [|i] H; simplify_eq/=; [lia|].
  specialize (IH _ H). unfold alter in *. lia.
Qed.

Lemma sum_alter_same {A} (g : A -> nat) f l i :
  (forall x, g (f x) = g x) -> sum_list_with g (alter f i l) = sum_list_with g l.
Proof.
  intros Hg. revert i. induction l as [|y l IH]; intros [|i]; simpl; [done..| |].
  - by rewrite Hg.
  - f_equal. apply IH.
Qed.

Lemma alter_Some {A} (f : A -> A) (l : list A) (i j : nat) (y : A) :
  alter f i l !! j = Some y <-> exists x, l !! j = Some x /\ y = if decide (i = j) then f x else x.
Proof.
  rewrite list_lookup_alter. case_decide as Hij; [subst|].
  - rewrite fmap_Some. done.
  - split; [intros H; by exists y|by intros (x & -> & ->)].
Qed.

Lemma alter_lookup {A} (f : A -> A) (l : list A) (i j : nat) (x : A) :
  l !! j = Some x -> alter f i l !! j = Some (if decide (i = j) then f x else x).
Proof. intros H. apply alter_Some. eauto. Qed.

Lemma same_refl n : same n n = 1.
Proof. unfold same. by rewrite decide_True. Qed.

Lemma sum_close_with f l e : (forall c, f (ICloseWith c e) = 0) ->
  sum_list_with f (map (fun c => ICloseWith c e) l) = 0.
Proof. intros H. induction l as [|c l IH]; simpl; [done|]. by rewrite H, IH. Qed.

(** ** The cases of one step *)
Ltac exec_cases E :=
  unfold exec, retainManager, start, register, releaseManager, manager_close, closePeers,
    closeWithError, conn_Close, unregister, receiveLoop, deliver, conn_Read, conn_Write, manager_send,
    next in E;
  repeat (match type of E with context [match ?x with _ => _ end] => destruct x eqn:? end;
          simplify_eq/=); simplify_eq/=; try done.

(** Lookups in an updated heap, in terms of the old one. *)
Ltac heap_simpl :=
  repeat match goal with
  | H : alter _ _ _ !! _ = Some _ |- _ => apply alter_Some in H as (? & ? & ?)
  | H : (_ ++ [_]) !! _ = Some _ |- _ =>
      apply lookup_app_Some in H as [?|[? ?%list_lookup_singleton_Some]]; destruct_and?
  end; simplify_eq/=.

(** ** Well-formed heaps and threads *)
(** The pointers of an operation. *)
Definition op_valid (h : heap) (o : op) : Prop :=
  match o with
  | IInstall m _ _ _ | IStart m | IRegister m _ _ _ | IRelease m | IMgrClose m | ICancel m
  | ISessionClose m | IWait m | IClosePeers m _ | IReceive m | ILookup m _ _ | IWgDone m
  | ISessionSend m _ _ => m < length (h_mgrs h)
  | ICloseWith c _ | ISetErr c _ | ICloseDone c | IClose c | IReleaseOnce c | IUnregister c
  | IReleaseDone c | IDeliver c _ | IPush c _ | IRead c _ | IReadWait c _ _ | IWrite c _
  | IWriteDeadline c _ | ISend c _ | ISetDeadline c _ _ _ => c < length (h_conns h)
  | IOpen _ _ _ | IRetain _ _ _ _ | INewSession _ _ _ _ | IRet _ => True
  end.

Record heap_ok (h : heap) : Prop := {
  ok_manager : forall c p, h_conns h !! c = Some p -> p_manager p < length (h_mgrs h);
  ok_peers : forall m M d c, h_mgrs h !! m = Some M -> m_peers M !! d = Some c ->
    exists p, h_conns h !! c = Some p /\ p_manager p = m /\ p_dest p = d;
  ok_registry : forall k m, h_managers h !! k = Some m ->
    exists M, h_mgrs h !! m = Some M /\ m_key M = k }.

Section invariants.
Context {unicode_lower sha256_hex : gostring -> gostring}.
Notation exec := (I2pConn.exec unicode_lower sha256_hex).

Lemma exec_grows ev o h h' l sp : exec ev o h = Some (h', l, sp) ->
  length (h_mgrs h) <= length (h_mgrs h') /\ length (h_conns h) <= length (h_conns h').
Proof.
  intros E. destruct o; exec_cases E; rewrite ?length_alter, ?length_app; simpl; lia.
Qed.

Lemma op_valid_grows h h' o :
  length (h_mgrs h) <= length (h_mgrs h') -> length (h_conns h) <= length (h_conns h') ->
  op_valid h o -> op_valid h' o.
Proof. destruct o; simpl; try done; lia. Qed.

(** What stays of a manager and of a connection. *)
Lemma exec_mgr ev o h h' l sp m M : exec ev o h = Some (h', l, sp) -> h_mgrs h !! m = Some M ->
  exists M', h_mgrs h' !! m = Some M' /\ m_key M' = m_key M /\ m_cfg M' = m_cfg M /\
    (m_closed M = true -> m_closed M' = true) /\ m_sessionCloses M <= m_sessionCloses M'.
Proof.
  intros E HM. destruct o; exec_cases E;
    (eexists; split; [eauto using alter_lookup, lookup_app_l_Some|]);
    repeat case_decide; simpl; auto with lia.
Qed.

Lemma exec_conn ev o h h' l sp c p : exec ev o h = Some (h', l, sp) -> h_conns h !! c = Some p ->
  exists p', h_conns h' !! c = Some p' /\ p_manager p' = p_manager p /\ p_dest p' = p_dest p /\
    p_transport p' = p_transport p.
Proof.
  intros E Hp. destruct o; exec_cases E;
    (eexists; split; [eauto using alter_lookup, lookup_app_l_Some|]);
    repeat case_decide; simpl; auto.
Qed.

Lemma usable_None h key m M : usable h key = None -> h_managers h !! key = Some m ->
  h_mgrs h !! m = Some M -> m_closed M = true.
Proof. unfold usable. intros Hu Hk HM. rewrite Hk, HM in Hu. by destruct (m_closed M). Qed.

Lemma usable_Some h key m : usable h key = Some m ->
  h_managers h !! key = Some m /\ exists M, h_mgrs h !! m = Some M /\ m_closed M = false.
Proof. unfold usable. intros H. repeat case_match; simplify_eq. eauto. Qed.

Lemma exec_heap_ok ev o h h' l sp :
  exec ev o h = Some (h', l, sp) -> op_valid h o -> heap_ok h -> heap_ok h'.
Proof.
  intros E V [Hm Hp Hr]. pose proof (exec_grows _ _ _ _ _ _ E) as [Gm Gc].
  constructor.
  - intros c p H. assert (p_manager p < length (h_mgrs h)); [|lia].
    destruct o; exec_cases E; heap_simpl; repeat case_decide; simpl; eauto.
  - intros m M' d c HM Hd.
    assert ((exists M, h_mgrs h !! m = Some M /\ m_peers M !! d = Some c) \/
            exists p, h_conns h' !! c = Some p /\ p_manager p = m /\ p_dest p = d) as [(M & HM0 & Hd0)|?];
      [|destruct (Hp _ _ _ _ HM0 Hd0) as (p & Hc & <- & <-);
        destruct (exec_conn _ _ _ _ _ _ _ _ E Hc) as (p' & ? & ? & ? & _); eauto|done].
    destruct o; exec_cases E; heap_simpl; repeat case_decide; simplify_eq/=; eauto.
    + apply lookup_insert_Some in Hd as [[<- <-]|[? ?]]; [right|by eauto].
      eexists. rewrite lookup_app_r, Nat.sub_diag by done. simpl. eauto.
    + apply lookup_delete_Some in Hd as [? ?]. eauto.
  - intros k m Hk.
    assert ((h_managers h !! k = Some m) \/ exists M, h_mgrs h !! m = Some M /\ m_key M = k)
      as [Hk0|(M & HM & <-)].
    + destruct o; exec_cases E; eauto;
        first [apply lookup_insert_Some in Hk as [[<- <-]|[? ?]]
              |apply lookup_delete_Some in Hk as [? ?]]; eauto.
    + destruct (Hr _ _ Hk0) as (M & HM & <-).
      destruct (exec_mgr _ _ _ _ _ _ _ _ E HM) as (M' & ? & ? & _). eauto.
    + destruct (exec_mgr _ _ _ _ _ _ _ _ E HM) as (M' & ? & ? & _). eauto.
Qed.

(** What a call of [OpenPeerConn] starts with. *)
Lemma OpenPeerConn_cases tr rk dest : let tr' := NormalizeTransport unicode_lower tr in
  (exists e, OpenPeerConn unicode_lower sha256_hex tr rk dest = [IRet (RetOpen (inl e))]) \/
  (OpenPeerConn unicode_lower sha256_hex tr rk dest =
     [IRetain (i2pDatagramManagerKey sha256_hex tr') tr' rk (TrimSpace dest)] /\
   Type_ tr' = TransportI2PDatagram /\ I2PDestinationPrivate tr' <> [] /\ TrimSpace dest <> [] /\
   ValidateTransport unicode_lower tr' = Ok tt).
Proof.
  intros tr'. unfold OpenPeerConn. fold tr'.
  destruct (decide (Type_ tr' <> TransportI2PDatagram)) as [|Ht]; [eauto|].
  destruct (decide (TrimSpace (I2PDestinationPrivate tr') = [])) as [|Hp]; [eauto|].
  destruct (decide (TrimSpace dest = [])) as [|Hd]; [eauto|].
  destruct (ValidateTransport unicode_lower tr') as [[]| |]; [|eauto..].
  right. repeat split; try done; [by apply dec_stable|]. intros H. by rewrite H in Hp.
Qed.

Lemma exec_spawn ev o h h' l sp : exec ev o h = Some (h', l, sp) ->
  sp = [] \/ exists m, o = IStart m /\ sp = [[IReceive m; IClosePeers m DgEOF; IWgDone m]].
Proof. intros E. destruct o; exec_cases E; eauto. Qed.

Lemma exec_valid ev o h h' l sp :
  exec ev o h = Some (h', l, sp) -> op_valid h o -> heap_ok h ->
  Forall (op_valid h') l /\ Forall (Forall (op_valid h')) sp.
Proof.
  intros E V [Hm Hp Hr]. pose proof (exec_grows _ _ _ _ _ _ E) as [Gm Gc]. split.
  2:{ destruct (exec_spawn _ _ _ _ _ _ E) as [->|(m & -> & ->)]; [done|].
      simpl in *. repeat constructor; simpl; lia. }
  assert (forall k m, usable h k = Some m -> m < length (h_mgrs h)) as Hu.
  { intros k m (_ & M & HM & _)%usable_Some. by eapply lookup_lt_Some. }
  assert (forall m M d c, h_mgrs h !! m = Some M -> m_peers M !! d = Some c ->
    c < length (h_conns h)) as Hc.
  { intros m M d c HM Hd. destruct (Hp _ _ _ _ HM Hd) as (p & ? & _). by eapply lookup_lt_Some. }
  destruct o; try (exec_cases E; repeat case_match; repeat constructor; simpl;
    rewrite ?length_alter, ?length_app; simpl; try lia; eauto; fail).
  - simpl in E. unfold next in E. simplify_eq.
    by destruct (OpenPeerConn_cases tr remoteKey dest) as [[e ->]|[-> _]]; repeat constructor.
  - exec_cases E. match goal with H : _ ≡ₚ _ |- _ => rename H into HP end.
    apply Forall_forall. intros o (c & -> & Hin)%list_elem_of_fmap. simpl.
    rewrite HP in Hin. apply list_elem_of_fmap in Hin as ([d c'] & -> & Hin%elem_of_map_to_list).
    eauto.
Qed.

(** ** The counting invariants *)
Record mgr_counts (h : heap) (ths : list thread) (m : nat) (M : i2pDatagramManager) : Prop := {
  n_refs : m_refs M = open_conns h m + W (hold m) ths;
  n_duty : duty h ths m M <= 1;
  n_lost : duty h ths m M = 0 -> m_closed M = true;
  n_idle : 0 < m_sessionCloses M + W (charge m) ths -> m_refs M = 0;
  n_map : 0 < in_map h m M -> 0 < m_refs M;
  n_priv : 0 < W (priv m) ths -> m_closed M = false /\ W (late m) ths = 0;
  n_loop : W (loops m) ths + W (starts m) ths + W (priv m) ths <= 1;
  n_wg : m_wg M = W (wgdone m) ths }.

Lemma sum_open f tr rk dest :
  (forall r, f (IRet r) = 0) -> (forall k t a b, f (IRetain k t a b) = 0) ->
  sum_list_with f (OpenPeerConn unicode_lower sha256_hex tr rk dest) = 0.
Proof.
  intros H1 H2. destruct (OpenPeerConn_cases tr rk dest) as [[e ->]|[-> _]]; simpl;
    by rewrite ?H1, ?H2.
Qed.

(** A step in which manager [m] was there before. *)
Ltac mgr_cases E HM :=
  pose proof (lookup_lt_Some _ _ _ HM);
  exec_cases E; heap_simpl; try lia;
  rewrite ?sum_list_with_app, ?sum_alter_same, ?sum_open, ?sum_close_with by done;
  unfold same in *; simpl in *; repeat first [case_decide|case_match]; simplify_eq/=.

(** One step, seen from manager [m]: the references and the duty to close move
    between the heap and the operations. *)
Lemma exec_refs ev o h h' l sp m M M' : exec ev o h = Some (h', l, sp) -> op_valid h o ->
  h_mgrs h !! m = Some M -> h_mgrs h' !! m = Some M' ->
  (0 < hold m o -> 0 < m_refs M) -> (0 < priv m o -> m_refs M = 0) ->
  (forall c p, o = IReleaseDone c -> h_conns h !! c = Some p -> p_releaseOnce p <> New) ->
  m_refs M' + hold m o + open_conns h m = m_refs M + sum_list_with (hold m) l + open_conns h' m.
Proof.
  intros E V HM HM' H1 H2 H3. unfold open_conns.
  destruct o; try (mgr_cases E HM; unfold unreleased, same; simpl; repeat case_decide;
    simplify_eq/=; lia).
  - exec_cases E; heap_simpl.
    match goal with H : h_conns h !! c = Some ?p |- _ =>
      pose proof (sum_alter (unreleased m) (set_releaseOnce Running) _ _ _ H) as HS end.
    unfold unreleased in HS at 2 4. simpl in HS. rewrite decide_True in HS by done. lia.
  - exec_cases E; heap_simpl. destruct (lookup_lt_is_Some_2 _ _ V) as [p Hc].
    pose proof (sum_alter (unreleased m) (set_releaseOnce Done) _ _ _ Hc) as HS.
    unfold unreleased in HS at 2 4. simpl in HS. specialize (H3 _ _ eq_refl Hc).
    rewrite !decide_False in HS by done. lia.
Qed.

Lemma exec_duty ev o h h' l sp m M M' : exec ev o h = Some (h', l, sp) -> heap_ok h ->
  h_mgrs h !! m = Some M -> h_mgrs h' !! m = Some M' ->
  charge m o + in_map h m M <= 1 ->
  let d := m_sessionCloses M + charge m o + in_map h m M in
  let d' := m_sessionCloses M' + sum_list_with (charge m) l + in_map h' m M' in
  d' = d \/ (S d' = d /\ m_closed M = true /\ m_sessionCloses M' = m_sessionCloses M).
Proof.
  intros E [_ _ Hr] HM HM' H1 d d'. subst d d'. unfold in_map in *.
  destruct o; try (mgr_cases E HM; auto with lia; fail).
  - mgr_cases E HM; auto with lia;
      match goal with H : context [<[_ := _]> (h_managers h) !! _] |- _ =>
        rewrite lookup_insert_Some in H end; [tauto| |naive_solver].
    destruct (decide (m_key i = m_key M)) as [Hk|]; [|tauto].
    right. rewrite Hk in *. eauto using usable_None with lia.
  - mgr_cases E HM; auto with lia; destruct_and?;
      repeat match goal with H : context [delete _ _ !! _] |- _ => rewrite lookup_delete in H end;
      repeat case_decide; try congruence; tauto.
Qed.

Lemma usable_in_map h key m M : heap_ok h -> usable h key = Some m -> h_mgrs h !! m = Some M ->
  m_key M = key /\ h_managers h !! m_key M = Some m.
Proof.
  intros [_ _ Hr] (Hk & _)%usable_Some HM. destruct (Hr _ _ Hk) as (M' & ? & <-). by simplify_eq.
Qed.

(** The reference count is zero where somebody has to close, and positive in the
    registry; [c] is what the other threads contribute. *)
Lemma exec_idle ev o h h' l sp m M M' c : exec ev o h = Some (h', l, sp) -> heap_ok h ->
  h_mgrs h !! m = Some M -> h_mgrs h' !! m = Some M' ->
  c + m_sessionCloses M + charge m o + in_map h m M <= 1 ->
  (0 < c + m_sessionCloses M + charge m o -> m_refs M = 0) ->
  (0 < in_map h m M -> 0 < m_refs M) -> (0 < hold m o -> 0 < m_refs M) ->
  (0 < c + m_sessionCloses M' + sum_list_with (charge m) l -> m_refs M' = 0) /\
  (0 < in_map h' m M' -> 0 < m_refs M').
Proof.
  intros E Hok HM HM' H1 H2 H3 H4.
  assert (forall k n, usable h k = Some n -> n = m -> h_managers h !! m_key M = Some m) as Hu.
  { intros k n Hk ->. by eapply usable_in_map. }
  unfold in_map in *.
  destruct o; try (mgr_cases E HM; split; intros; try lia; fail).
  - mgr_cases E HM; split; intros; try lia; exfalso; eauto.
  - mgr_cases E HM; repeat match goal with H : context [<[_ := _]> (h_managers h) !! _] |- _ =>
      rewrite lookup_insert_Some in H end; split; intros; try lia; try tauto; naive_solver lia.
  - mgr_cases E HM; destruct_and?;
      repeat match goal with H : context [delete _ _ !! _] |- _ => rewrite lookup_delete in H end;
      repeat case_decide; split; intros; try lia; try congruence.
    match goal with |- 0 < ?x => destruct (decide (x = 0)); [exfalso|lia] end.
    match goal with H : ~ (_ /\ _) |- _ => by apply H end.
Qed.

Lemma exec_loops ev o h h' l sp m M : exec ev o h = Some (h', l, sp) ->
  h_mgrs h !! m = Some M ->
  sum_list_with (loops m) l + W (loops m) sp + sum_list_with (starts m) l + W (starts m) sp +
    sum_list_with (priv m) l + W (priv m) sp <= loops m o + starts m o + priv m o /\
  sum_list_with (priv m) l + W (priv m) sp = 0 /\ W (charge m) sp = 0 /\ W (hold m) sp = 0.
Proof.
  intros E HM. destruct o; mgr_cases E HM; auto with lia.
Qed.

Lemma exec_wg ev o h h' l sp m M M' : exec ev o h = Some (h', l, sp) ->
  h_mgrs h !! m = Some M -> h_mgrs h' !! m = Some M' -> (0 < wgdone m o -> 0 < m_wg M) ->
  m_wg M' + wgdone m o = m_wg M + sum_list_with (wgdone m) l + W (wgdone m) sp.
Proof. intros E HM HM' H1. destruct o; mgr_cases E HM; auto with lia. Qed.

(** Who closes a manager, and who walks over its peers. *)
Lemma exec_closed ev o h h' l sp m M M' : exec ev o h = Some (h', l, sp) ->
  h_mgrs h !! m = Some M -> h_mgrs h' !! m = Some M' -> m_closed M = false ->
  (m_closed M' = true -> charge m o = 1 /\ priv m o = 0 \/ late m o = 1) /\
  (0 < sum_list_with (late m) l + W (late m) sp ->
     charge m o = 1 /\ priv m o = 0 \/ starts m o = 1).
Proof.
  intros E HM HM' H1. destruct o; mgr_cases E HM; split; intros; first [congruence|lia].
Qed.

Lemma exec_sclose ev o h h' l sp m M M' : exec ev o h = Some (h', l, sp) ->
  h_mgrs h !! m = Some M -> h_mgrs h' !! m = Some M' -> m_closed M = true -> priv m o = 0 ->
  sum_list_with (sclose m) l + W (sclose m) sp = 0 /\
  m_sessionCloses M' = m_sessionCloses M + sclose m o.
Proof. intros E HM HM' H1 H2. destruct o; mgr_cases E HM; split; first [congruence|lia]. Qed.

(** A connection closes its [done] channel once and is given back once. *)
Definition running (o : once) : nat := if decide (o = Running) then 1 else 0.

Record conn_counts (ths : list thread) (c : nat) (p : i2pDatagramPeerConn) : Prop := {
  k_closing : W (closing c) ths = running (p_once p);
  k_done : p_done p = bool_decide (p_once p = Done);
  k_releasing : W (releasing c) ths = running (p_releaseOnce p) }.

Lemma exec_once_counts ev o h h' l sp c p p' : exec ev o h = Some (h', l, sp) ->
  h_conns h !! c = Some p -> h_conns h' !! c = Some p' ->
  closing c o <= running (p_once p) -> p_done p = bool_decide (p_once p = Done) ->
  releasing c o <= running (p_releaseOnce p) ->
  sum_list_with (closing c) l + W (closing c) sp + running (p_once p) =
    closing c o + running (p_once p') /\
  p_done p' = bool_decide (p_once p' = Done) /\
  sum_list_with (releasing c) l + W (releasing c) sp + running (p_releaseOnce p) =
    releasing c o + running (p_releaseOnce p').
Proof.
  intros E Hp Hp' H1 H2 H3. unfold running in *.
  destruct o; mgr_cases E Hp; auto with lia; split_and!; congruence.
Qed.

(** No step closes a closed channel or counts a wait group below zero. *)
Lemma exec_panic ev o h h' l sp : exec ev o h = Some (h', l, sp) ->
  (forall c p, 0 < closing c o -> h_conns h !! c = Some p -> p_done p = false) ->
  (forall m M, 0 < wgdone m o -> h_mgrs h !! m = Some M -> 0 < m_wg M) ->
  h_panic h' = h_panic h.
Proof.
  intros E H1 H2. destruct o; exec_cases E.
  - assert (p_done i = false); [|congruence]. apply (H1 c); [rewrite same_refl; lia|done].
  - assert (0 < m_wg i); [|lia]. apply (H2 m); [rewrite same_refl; lia|done].
Qed.

End invariants.
