(* ===== verification/I2pConnSafe.v ===== *)
(** * Safety of the peer connections over I2P datagrams

    The invariant of the system of [I2pConn] and what follows from it: a session
    is closed at most once and never under an open connection; at rest every
    session without connections is closed, unless its receive loop stopped
    first. *)

From Stdlib Require Import ZArith Lia.
From stdpp Require Import base gmap strings numbers countable sorting list relations.
From S2P Require Import Prelude GoStrings AddrText AnonPolicy I2pSam I2pConn I2pConnInv.

Section safety.
Context (unicode_lower sha256_hex : gostring -> gostring).
Notation exec := (I2pConn.exec unicode_lower sha256_hex).
Notation run := (I2pConn.run unicode_lower sha256_hex).
Notation step := (I2pConn.step unicode_lower sha256_hex).
Notation reachable := (I2pConn.reachable unicode_lower sha256_hex).

(** ** The invariant of the system *)
Record inv (s : sys) : Prop := {
  inv_heap : heap_ok (sy_heap s);
  inv_valid : Forall (Forall (op_valid (sy_heap s))) (sy_threads s);
  inv_mgrs : forall m M, h_mgrs (sy_heap s) !! m = Some M -> mgr_counts (sy_heap s) (sy_threads s) m M;
  inv_conns : forall c p, h_conns (sy_heap s) !! c = Some p -> conn_counts (sy_threads s) c p;
  inv_panic : h_panic (sy_heap s) = false }.

(** Nothing counts for a manager or a connection that is not allocated. *)
Lemma fresh_mgr h ths : heap_ok h -> Forall (Forall (op_valid h)) ths ->
  let m := length (h_mgrs h) in
  W (hold m) ths = 0 /\ W (charge m) ths = 0 /\ W (priv m) ths = 0 /\ W (starts m) ths = 0 /\
  W (loops m) ths = 0 /\ W (late m) ths = 0 /\ W (wgdone m) ths = 0 /\ open_conns h m = 0.
Proof.
  intros [Hm _ _] V m.
  assert (forall n, n < m -> same n m = 0) as Hs by (intros; unfold same; case_decide; lia).
  split_and!; try (apply (W_zero _ _ _ V); intros [] ?; simpl in *; auto).
  unfold open_conns. assert (Forall (fun p => p_manager p < m) (h_conns h)) as Hc.
  { apply Forall_lookup. eauto. }
  clear -Hc Hs. induction Hc as [|p l Hp _ IH]; simpl; [done|].
  unfold unreleased at 1. case_decide; rewrite ?Hs by done; done.
Qed.

Lemma fresh_conn h ths : Forall (Forall (op_valid h)) ths ->
  let c := length (h_conns h) in W (closing c) ths = 0 /\ W (releasing c) ths = 0.
Proof.
  intros V c.
  assert (forall n, n < c -> same n c = 0) as Hs by (intros; unfold same; case_decide; lia).
  split; apply (W_zero _ _ _ V); intros [] ?; simpl in *; auto.
Qed.

Lemma W_plus f g1 g2 ths : (forall o, f o = g1 o + g2 o) -> W f ths = W g1 ths + W g2 ths.
Proof.
  intros H. unfold W. induction ths as [|t ths IH]; simpl; [done|]. rewrite IH.
  assert (sum_list_with f t = sum_list_with g1 t + sum_list_with g2 t); [|lia].
  clear -H. induction t as [|o t IH]; simpl; [done|]. rewrite IH, H. lia.
Qed.

Lemma charge_split m ths :
  W (charge m) ths = W (priv m) ths + W (fun o => charge m o - priv m o) ths.
Proof. apply W_plus. intros []; simpl; lia. Qed.

Lemma mgr_counts_run h ths i o k ev h' l sp m M M' :
  heap_ok h -> op_valid h o -> mgr_counts h ths m M -> ths !! i = Some (o :: k) ->
  exec ev o h = Some (h', l, sp) -> h_mgrs h !! m = Some M -> h_mgrs h' !! m = Some M' ->
  (forall c p, o = IReleaseDone c -> h_conns h !! c = Some p -> p_releaseOnce p <> New) ->
  mgr_counts h' (<[i := l ++ k]> ths ++ sp) m M'.
Proof.
  intros Hok V [Nr Nd Nl Ni Nm Np No Nw] Hi E HM HM' Hrel.
  assert (o ∈ o :: k) as Ho by left. pose proof (list_elem_of_lookup_2 _ _ _ Hi) as Ht.
  pose proof (fun f => W_elem f ths _ o Ht Ho) as He.
  pose proof (fun f => W_run f ths i o k l sp Hi) as HW.
  destruct (exec_loops _ _ _ _ _ _ _ _ E HM) as (L1 & L2 & L3 & L4).
  pose proof (He (hold m)). pose proof (He (charge m)). pose proof (He (priv m)).
  pose proof (He (wgdone m)). pose proof (He (late m)). pose proof (He (starts m)).
  pose proof (HW (hold m)) as Wh. pose proof (HW (charge m)) as Wc. pose proof (HW (priv m)) as Wp.
  pose proof (HW (wgdone m)) as Ww. pose proof (HW (late m)) as Wl. pose proof (HW (starts m)) as Ws.
  pose proof (HW (loops m)) as Wo. unfold duty in *.
  assert (priv m o <= charge m o) by (destruct o; simpl; lia).
  pose proof (charge_split m ths). pose proof (He (fun o => charge m o - priv m o)) as Hch.
  cbn beta in Hch.
  destruct (exec_idle _ _ _ _ _ _ _ _ _ (W (charge m) ths - charge m o) E Hok HM HM')
    as [Id1 Id2]; try lia.
  destruct (exec_mgr _ _ _ _ _ _ _ _ E HM) as (M'' & HM'' & _ & _ & Hcl & Hcs).
  simplify_eq.
  pose proof (exec_duty _ _ _ _ _ _ _ _ _ E Hok HM HM' ltac:(lia)) as Hdu. cbv zeta in Hdu.
  constructor; unfold duty.
  - assert (0 < priv m o -> m_refs M = 0) as Hpr by (intros; apply Ni; lia).
    assert (0 < hold m o -> 0 < m_refs M) as Hho by lia.
    pose proof (exec_refs _ _ _ _ _ _ _ _ _ E V HM HM' Hho Hpr Hrel). lia.
  - lia.
  - destruct Hdu as [?|(? & ? & ?)]; auto. intros. apply Hcl, Nl. lia.
  - intros. apply Id1. lia.
  - done.
  - intros Hp. destruct (Np ltac:(lia)) as [Hf Hl].
    destruct (exec_closed _ _ _ _ _ _ _ _ _ E HM HM' Hf) as [C1 C2]. split; [|lia].
    destruct (m_closed M'); [|done]. lia.
  - lia.
  - pose proof (exec_wg _ _ _ _ _ _ _ _ _ E HM HM' ltac:(lia)). lia.
Qed.

Lemma exec_new_mgr ev o h h' l sp m M : exec ev o h = Some (h', l, sp) ->
  h_mgrs h !! m = None -> h_mgrs h' !! m = Some M ->
  exists key tr rk dest, o = INewSession key tr rk dest /\ m = length (h_mgrs h) /\
    M = newI2PDatagramManager key (sessionConfig key tr) /\ h' = add_mgr M h /\
    l = [IInstall m tr rk dest] /\ sp = [].
Proof.
  intros E Hn HM. destruct o; exec_cases E; heap_simpl.
  exists key, tr, remoteKey, dest.
  assert (m = length (h_mgrs h)) as ->; [|done].
  apply lookup_ge_None in Hn. lia.
Qed.

Lemma exec_new_conn ev o h h' l sp c p : exec ev o h = Some (h', l, sp) ->
  h_conns h !! c = None -> h_conns h' !! c = Some p ->
  exists m tr rk dest, o = IRegister m tr rk dest /\ c = length (h_conns h) /\
    p = newPeerConn m tr rk (TrimSpace dest) /\ l = [IRet (RetOpen (inr c))] /\ sp = [].
Proof.
  intros E Hn Hp. destruct o; exec_cases E; heap_simpl; try congruence.
  exists m, tr, remoteKey, dest. assert (c = length (h_conns h)) as -> by lia. done.
Qed.

Lemma mgr_counts_new h ths i o k ev h' l sp m M :
  heap_ok h -> Forall (Forall (op_valid h)) ths -> ths !! i = Some (o :: k) ->
  exec ev o h = Some (h', l, sp) -> h_mgrs h !! m = None -> h_mgrs h' !! m = Some M ->
  mgr_counts h' (<[i := l ++ k]> ths ++ sp) m M.
Proof.
  intros Hok V Hi E Hn HM.
  destruct (exec_new_mgr _ _ _ _ _ _ _ _ E Hn HM) as (key & tr & rk & dest & -> & -> & -> & -> & -> & ->).
  destruct (fresh_mgr _ _ Hok V) as (F1 & F2 & F3 & F4 & F5 & F6 & F7 & F8). set (m := length _) in *.
  pose proof (fun f => W_run f ths i _ k [IInstall m tr rk dest] [] Hi) as HW.
  pose proof (HW (hold m)). pose proof (HW (charge m)). pose proof (HW (priv m)).
  pose proof (HW (wgdone m)). pose proof (HW (late m)). pose proof (HW (starts m)).
  pose proof (HW (loops m)). clear HW.
  assert (in_map (add_mgr (newI2PDatagramManager key (sessionConfig key tr)) h) m
            (newI2PDatagramManager key (sessionConfig key tr)) = 0) as Him.
  { unfold in_map. simpl. case_decide as Hk; [|done].
    destruct (ok_registry _ Hok _ _ Hk) as (M' & HM' & _). subst m. congruence. }
  simpl in *. rewrite same_refl in *. change (W _ []) with 0 in *.
  assert (open_conns (add_mgr (newI2PDatagramManager key (sessionConfig key tr)) h) m = 0) by exact F8.
  constructor; unfold duty; rewrite ?Him; simpl; lia.
Qed.

Lemma conn_counts_run h ths i o k ev h' l sp c p :
  Forall (Forall (op_valid h)) ths ->
  (forall p, h_conns h !! c = Some p -> conn_counts ths c p) -> ths !! i = Some (o :: k) ->
  exec ev o h = Some (h', l, sp) -> h_conns h' !! c = Some p ->
  conn_counts (<[i := l ++ k]> ths ++ sp) c p.
Proof.
  intros V Hc Hi E Hp. assert (o ∈ o :: k) as Ho by left.
  pose proof (list_elem_of_lookup_2 _ _ _ Hi) as Ht.
  pose proof (W_run (closing c) ths i o k l sp Hi). pose proof (W_run (releasing c) ths i o k l sp Hi).
  pose proof (W_elem (closing c) ths _ o Ht Ho). pose proof (W_elem (releasing c) ths _ o Ht Ho).
  destruct (h_conns h !! c) as [p0|] eqn:Hp0.
  - destruct (Hc p0 eq_refl) as [K1 K2 K3].
    destruct (exec_once_counts _ _ _ _ _ _ _ _ _ E Hp0 Hp) as (? & ? & ?); [lia|done|lia|].
    constructor; [lia|done|lia].
  - destruct (exec_new_conn _ _ _ _ _ _ _ _ E Hp0 Hp) as (m & tr & rk & dest & -> & -> & -> & -> & ->).
    destruct (fresh_conn _ _ V). simpl in *. change (W _ []) with 0 in *.
    constructor; simpl; [unfold running; simpl; lia|done|unfold running; simpl; lia].
Qed.

Lemma insert_Forall {A} (P Q : A -> Prop) (l : list A) (i : nat) x :
  Forall P l -> (forall y, P y -> Q y) -> Q x -> Forall Q (<[i := x]> l).
Proof.
  intros Hl HPQ Hx. apply Forall_insert; [|done]. by eapply Forall_impl.
Qed.

Lemma sys_inv_run s ev i s' : inv s -> run ev i s = Some s' -> inv s'.
Proof.
  intros [Hok V Im Ic Ip] R. unfold I2pConn.run in R.
  destruct (sy_threads s !! i) as [[|o k]|] eqn:Hi; [done| |done].
  destruct (exec ev o (sy_heap s)) as [[[h' l] sp]|] eqn:E; simplify_eq.
  pose proof (Forall_lookup_1 _ _ _ _ V Hi) as [Vo Vk]%Forall_cons.
  destruct (exec_grows _ _ _ _ _ _ E) as [Gm Gc].
  destruct (exec_valid _ _ _ _ _ _ E Vo Hok) as [Vl Vs].
  assert (o ∈ o :: k) as Ho by left. pose proof (list_elem_of_lookup_2 _ _ _ Hi) as Ht.
  constructor; simpl.
  - by eapply exec_heap_ok.
  - apply Forall_app. split; [|done].
    eapply insert_Forall; [exact V| |].
    + intros t Hv. eapply Forall_impl; [exact Hv|]. eauto using op_valid_grows.
    + apply Forall_app. split; [done|]. eapply Forall_impl; [exact Vk|]. eauto using op_valid_grows.
  - intros m M' HM'. destruct (h_mgrs (sy_heap s) !! m) as [M|] eqn:HM.
    + eapply mgr_counts_run; eauto. intros c p -> Hc Hn.
      pose proof (k_releasing _ _ _ (Ic _ _ Hc)) as K. rewrite Hn in K.
      pose proof (W_elem (releasing c) _ _ _ Ht Ho) as He. simpl in He. rewrite same_refl in He.
      unfold running in K. simpl in K. lia.
    + by eapply mgr_counts_new.
  - intros c p Hp. eapply conn_counts_run; eauto.
  - rewrite (exec_panic _ _ _ _ _ _ E); [done| |].
    + intros c p Hcl Hc. destruct (Ic _ _ Hc) as [K1 K2 _]. rewrite K2.
      pose proof (W_elem (closing c) _ _ _ Ht Ho). unfold running in K1.
      apply bool_decide_eq_false. intros Hd. rewrite Hd in K1. simpl in K1. lia.
    + intros m M Hw HM. pose proof (n_wg _ _ _ _ (Im _ _ HM)).
      pose proof (W_elem (wgdone m) _ _ _ Ht Ho). lia.
Qed.

Lemma inv_call s o : inv s -> call_ok (sy_heap s) o = true ->
  inv (mkSys (sy_heap s) (sy_threads s ++ [[o]])).
Proof.
  intros [Hok V Im Ic Ip] Hc. constructor; simpl; try done.
  - apply Forall_app. split; [done|]. repeat constructor.
    destruct o; simpl in *; try done; by apply bool_decide_eq_true in Hc.
  - intros m M HM. destruct (Im _ _ HM) as [Nr Nd Nl Ni Nm Np No Nw].
    constructor; unfold duty in *; rewrite ?W_call; destruct o; simpl in *; try done; rewrite ?Nat.add_0_r; auto.
  - intros c p Hp. destruct (Ic _ _ Hp) as [K1 K2 K3].
    constructor; rewrite ?W_call; [|done|]; destruct o; simpl in *; try done; lia.
Qed.

Lemma reachable_inv s : reachable s -> inv s.
Proof.
  intros H. refine (rtc_ind_r (fun s => inv s) _ _ _ s H).
  - constructor; simpl; try done; try set_solver.
  - intros s1 s2 _ [i ev s2' R|o Hc] IH; [by eapply sys_inv_run|by apply inv_call].
Qed.

(** ** How receive loops end *)
Definition session_closed (h : heap) (m : nat) : Prop :=
  exists M, h_mgrs h !! m = Some M /\ 0 < m_sessionCloses M.

(** The session was closed, or [Receive] returned an error. *)
Definition ended (h : heap) (m : nat) : Prop := session_closed h m \/ m ∈ h_errors h.

(** A thread walks over the peers of a manager after [Receive] or the call
    that closes the session. *)
Fixpoint peers_after (ok : nat -> Prop) (t : thread) : Prop :=
  match t with
  | [] => True
  | (IReceive m | ILookup m _ _ | ISessionClose m) :: k => peers_after (fun n => n = m \/ ok n) k
  | IClosePeers m _ :: k => ok m /\ peers_after ok k
  | _ :: k => peers_after ok k
  end.

Lemma peers_after_mono (ok ok' : nat -> Prop) t : (forall n, ok n -> ok' n) -> peers_after ok t -> peers_after ok' t.
Proof.
  revert ok ok'. induction t as [|o t IH]; intros ok ok' H; [done|].
  destruct o; simpl; try (by apply IH); try (apply IH; intuition).
  intros [? ?]. split; [auto|by eapply IH].
Qed.

Lemma peers_after_app ok l k : peers_after ok l -> peers_after ok k -> peers_after ok (l ++ k).
Proof.
  revert ok. induction l as [|o l IH]; intros ok Hl Hk; [done|].
  destruct o; simpl in *; auto; try (apply IH; [done|]; eapply peers_after_mono; [|done]; auto).
  destruct Hl. auto.
Qed.

Lemma peers_after_closes ok cs e : peers_after ok (map (fun c => ICloseWith c e) cs).
Proof. induction cs; simpl; auto. Qed.

Lemma session_closed_step ev o h h' l sp m :
  exec ev o h = Some (h', l, sp) -> session_closed h m -> session_closed h' m.
Proof.
  intros E (M & HM & Hc). destruct (exec_mgr _ _ _ _ _ _ _ _ E HM) as (M' & ? & _ & _ & _ & ?).
  exists M'. split; [done|lia].
Qed.

Lemma ended_step ev o h h' l sp m : exec ev o h = Some (h', l, sp) -> ended h m -> ended h' m.
Proof.
  intros E [H|H]; [left; by eapply session_closed_step|right].
  destruct o; exec_cases E; rewrite ?elem_of_app; auto.
Qed.

Lemma session_close_step ev m h h' l sp : op_valid h (ISessionClose m) ->
  exec ev (ISessionClose m) h = Some (h', l, sp) -> session_closed h' m /\ l = [].
Proof.
  intros V E. exec_cases E. destruct (lookup_lt_is_Some_2 _ _ V) as [M HM]. split; [|done].
  exists (count_session_close M). simpl. rewrite list_lookup_alter_eq, HM. simpl. split; [done|lia].
Qed.

Lemma peers_after_step ev o h h' l sp k : op_valid h o -> exec ev o h = Some (h', l, sp) ->
  peers_after (ended h) (o :: k) -> peers_after (ended h') (l ++ k).
Proof.
  intros V E H. pose proof (fun n => ended_step _ _ _ _ _ _ n E) as Hst.
  assert (forall m, peers_after (fun n => n = m \/ ended h n) k -> peers_after (fun n => n = m \/ ended h' n) k) as Hm.
  { intros m. apply peers_after_mono. intuition. }
  assert (forall m, ended h' m -> peers_after (fun n => n = m \/ ended h n) k -> peers_after (ended h') k) as Hd.
  { intros m He. apply peers_after_mono. intros n [->|?]; auto. }
  assert (peers_after (ended h) k -> peers_after (ended h') l -> peers_after (ended h') (l ++ k)) as Happ.
  { intros Hk Hl. apply peers_after_app; [done|]. by eapply peers_after_mono. }
  destruct o; cbn [peers_after] in H; try (apply Happ; [done|]; exec_cases E; simpl; auto; by repeat case_match).
  - apply Happ; [done|]. simpl in E. unfold next in E. simplify_eq.
    by destruct (OpenPeerConn_cases (unicode_lower := unicode_lower) (sha256_hex := sha256_hex)
        tr remoteKey dest) as [[e ->]|[-> _]].
  - destruct (session_close_step _ _ _ _ _ _ V E) as [Hs ->]. apply (Hd m); [by left|done].
  - destruct H as [_ H]. apply Happ; [done|]. exec_cases E. apply peers_after_closes.
  - exec_cases E; cbn [app peers_after]; auto. apply (Hd m); [|done]. right. simpl. apply elem_of_app. right. by left.
  - exec_cases E; cbn [app peers_after]; auto.
Qed.

(** Before a manager is closed, it is not yet installed, about to start its
    loop or running it, or its session is closed because it lost the race of
    installation. *)
Definition early (m : nat) (o : op) : nat := sclose m o + late m o + starts m o + priv m o.

Lemma exec_early ev o h h' l sp m M M' : exec ev o h = Some (h', l, sp) ->
  h_mgrs h !! m = Some M -> h_mgrs h' !! m = Some M' -> m_closed M' = false ->
  m_sessionCloses M' + sum_list_with (early m) l + W (early m) sp <= m_sessionCloses M + early m o /\ m_closed M = false.
Proof.
  intros E HM HM' Hc. unfold early. pose proof (lookup_lt_Some _ _ _ HM).
  destruct (exec_mgr _ _ _ _ _ _ _ _ E HM) as (M'' & HM'' & _ & _ & Hcl & _). rewrite HM' in HM''. injection HM'' as <-.
  split; [|destruct (m_closed M); [|done]; rewrite Hcl in Hc; done].
  destruct o; exec_cases E; heap_simpl; try lia;
    rewrite ?sum_open, ?sum_close_with by done; unfold same in *; simpl in *;
    repeat first [case_decide|case_match]; simplify_eq/=; try lia; try congruence.
Qed.

Record ends (s : sys) : Prop := {
  e_after : Forall (peers_after (ended (sy_heap s))) (sy_threads s);
  e_closed : forall m M, h_mgrs (sy_heap s) !! m = Some M -> m_closed M = true ->
    ended (sy_heap s) m \/ 0 < W (sclose m) (sy_threads s);
  e_open : forall m M, h_mgrs (sy_heap s) !! m = Some M -> m_closed M = false ->
    m_sessionCloses M + W (early m) (sy_threads s) <= 1 }.

(** The step that closes a manager: the walk of its receive loop, or the
    call that will close the session. *)
Lemma ends_closing ths i ev o h h' l sp k m M M' : ths !! i = Some (o :: k) -> exec ev o h = Some (h', l, sp) ->
  peers_after (ended h) (o :: k) -> h_mgrs h !! m = Some M -> h_mgrs h' !! m = Some M' ->
  m_closed M = false -> m_closed M' = true -> ended h' m \/ 0 < W (sclose m) (<[i := l ++ k]> ths ++ sp).
Proof.
  intros Hi E Hpa HM HM' H1 H2. pose proof (W_run (sclose m) _ _ _ _ l sp Hi) as HW.
  destruct (exec_closed _ _ _ _ _ _ _ _ _ E HM HM' H1) as [Hc _]. pose proof (fun n => ended_step _ _ _ _ _ _ n E) as Hst.
  destruct o; simpl in *; try (by destruct (Hc H2) as [[? ?]|?]); unfold same in *;
    (case_decide; [subst|by destruct (Hc H2) as [[? ?]|?]]); try (by destruct (Hc H2) as [[? ?]|?]).
  - right. exec_cases E; simpl in *; unfold same in *; rewrite ?decide_True in * by done; first [lia|congruence].
  - exec_cases E. heap_simpl. rewrite decide_True in * by done. subst. simpl in *. congruence.
  - destruct Hpa. auto.
Qed.

Lemma fresh_early h ths : Forall (Forall (op_valid h)) ths -> W (early (length (h_mgrs h))) ths = 0.
Proof.
  intros V. assert (forall n, n < length (h_mgrs h) -> same n (length (h_mgrs h)) = 0) as Hs
    by (intros; unfold same; case_decide; lia).
  apply (W_zero _ _ _ V). intros [] ?; unfold early; simpl in *; auto; by rewrite Hs.
Qed.

Lemma ends_run s ev i s' : inv s -> ends s -> run ev i s = Some s' -> ends s'.
Proof.
  intros I [Ea Ec Eo] R. unfold I2pConn.run in R.
  destruct (sy_threads s !! i) as [[|o k]|] eqn:Hi; [done| |done].
  destruct (exec ev o (sy_heap s)) as [[[h' l] sp]|] eqn:E; simplify_eq.
  pose proof (Forall_lookup_1 _ _ _ _ (inv_valid _ I) Hi) as [Vo _]%Forall_cons.
  pose proof (Forall_lookup_1 _ _ _ _ Ea Hi) as Hpa.
  pose proof (list_elem_of_lookup_2 _ _ _ Hi) as Ht. assert (o ∈ o :: k) as Ho by left.
  constructor; simpl.
  - apply Forall_app. split.
    + eapply insert_Forall; [exact Ea| |by eapply peers_after_step].
      intros t. apply peers_after_mono. intros n. by eapply ended_step.
    + destruct (exec_spawn _ _ _ _ _ _ E) as [->|(m & -> & ->)]; [done|]. apply Forall_singleton. simpl. auto.
  - intros m M' HM' Hcl. destruct (h_mgrs (sy_heap s) !! m) as [M|] eqn:HM.
    2:{ by destruct (exec_new_mgr _ _ _ _ _ _ _ _ E HM HM') as (? & ? & ? & ? & _ & _ & -> & _). }
    destruct (m_closed M) eqn:HcM; [|by eapply ends_closing].
    destruct (Ec _ _ HM HcM) as [H|H]; [left; by eapply ended_step|].
    pose proof (W_run (sclose m) _ _ _ _ l sp Hi).
    destruct (decide (sclose m o = 0)) as [Hne|Hne]; [right; lia|].
    destruct o; simpl in Hne; try done. unfold same in Hne. case_decide; [subst|done].
    destruct (session_close_step _ _ _ _ _ _ Vo E). by left; left.
  - intros m M' HM' Hcl. pose proof (W_run (early m) _ _ _ _ l sp Hi) as HW.
    destruct (h_mgrs (sy_heap s) !! m) as [M|] eqn:HM.
    + destruct (exec_early _ _ _ _ _ _ _ _ _ E HM HM' Hcl) as [H1 H2]. specialize (Eo _ _ HM H2). lia.
    + destruct (exec_new_mgr _ _ _ _ _ _ _ _ E HM HM') as (key & tr & rk & dest & -> & -> & -> & _ & -> & ->).
      pose proof (fresh_early _ _ (inv_valid _ I)) as F. simpl in *. rewrite F in HW.
      unfold early in HW at 3. simpl in HW. rewrite same_refl in HW. change (W _ []) with 0 in HW. lia.
Qed.

Lemma ends_call s o : ends s -> call_ok (sy_heap s) o = true -> ends (mkSys (sy_heap s) (sy_threads s ++ [[o]])).
Proof.
  intros [Ea Ec Eo] Hc. constructor; simpl.
  - apply Forall_app. split; [done|]. apply Forall_singleton. destruct o; simpl in *; done || auto.
  - intros m M HM Hcl. rewrite W_call. destruct (Ec _ _ HM Hcl); [by left|right; lia].
  - intros m M HM Hcl. rewrite W_call. specialize (Eo _ _ HM Hcl).
    assert (early m o = 0); [destruct o; simpl in *; done|lia].
Qed.

Lemma reachable_ends s : reachable s -> ends s.
Proof.
  intros H. refine (rtc_ind_r (fun s => ends s) _ _ _ s H).
  - constructor; simpl; try done; set_solver.
  - intros s1 s2 R [i ev s2' Hr|o Hc] IH; [eapply ends_run; eauto using reachable_inv|by apply ends_call].
Qed.

(** ** Sessions and their connections *)
Lemma unreleased_open h c p : h_conns h !! c = Some p -> p_releaseOnce p = New ->
  0 < open_conns h (p_manager p).
Proof.
  intros Hc Hn. unfold open_conns. apply list_elem_of_lookup_2 in Hc.
  induction Hc as [|p p' l _ IH]; simpl; [|specialize (IH Hn); lia].
  unfold unreleased at 1. rewrite decide_True, same_refl by done. lia.
Qed.

(** A closed manager whose session nobody is about to close keeps its session. *)
Definition orphaned (m : nat) (s : sys) : Prop :=
  exists M, h_mgrs (sy_heap s) !! m = Some M /\ m_closed M = true /\ m_sessionCloses M = 0 /\
    W (sclose m) (sy_threads s) = 0.

Lemma orphaned_step m s s' : inv s -> orphaned m s -> step s s' -> orphaned m s'.
Proof.
  intros I (M & HM & Hcl & Hcs & HW) [i ev s2 R|o Hc].
  2:{ exists M. simpl. rewrite W_call. destruct o; simpl in *; try done; rewrite HW; auto. }
  unfold I2pConn.run in R.
  destruct (sy_threads s !! i) as [[|o k]|] eqn:Hi; [done| |done].
  destruct (exec ev o (sy_heap s)) as [[[h' l] sp]|] eqn:E; simplify_eq.
  pose proof (list_elem_of_lookup_2 _ _ _ Hi) as Ht. assert (o ∈ o :: k) as Ho by left.
  destruct (exec_mgr _ _ _ _ _ _ _ _ E HM) as (M' & HM' & _ & _ & Hcl' & _).
  pose proof (W_elem (priv m) _ _ _ Ht Ho). pose proof (W_elem (sclose m) _ _ _ Ht Ho).
  assert (W (priv m) (sy_threads s) = 0) as Hp.
  { destruct (decide (W (priv m) (sy_threads s) = 0)); [done|].
    destruct (n_priv _ _ _ _ (inv_mgrs _ I _ _ HM)) as [? _]; [lia|congruence]. }
  destruct (exec_sclose _ _ _ _ _ _ _ _ _ E HM HM' Hcl ltac:(lia)).
  pose proof (W_run (sclose m) _ _ _ _ l sp Hi).
  exists M'. simpl. repeat split; auto; lia.
Qed.

Lemma reachable_step s s' : reachable s -> step s s' -> reachable s'.
Proof. intros. by eapply rtc_r. Qed.

Lemma early_split m ths : W (early m) ths = W (sclose m) ths + W (late m) ths + W (starts m) ths + W (priv m) ths.
Proof.
  rewrite (W_plus (early m) (fun o => sclose m o + late m o + starts m o) (priv m)) by done.
  rewrite (W_plus (fun o => sclose m o + late m o + starts m o) (fun o => sclose m o + late m o) (starts m)) by done.
  by rewrite (W_plus (fun o => sclose m o + late m o) (sclose m) (late m)).
Qed.

(** C21: In every interleaving of openings, closings, receive loops and transfers
    no goroutine panics, a datagram session is closed at most once, and the
    session of a connection that was not given back by [Close] is open; a
    manager in the registry is kept under its key and has users. *)
Theorem i2p_session_safety s :
  reachable s ->
  let h := sy_heap s in
  h_panic h = false /\
  (forall m M, h_mgrs h !! m = Some M -> m_sessionCloses M <= 1) /\
  (forall c p, h_conns h !! c = Some p -> p_releaseOnce p = New ->
     exists M, h_mgrs h !! p_manager p = Some M /\ 0 < m_refs M /\ m_sessionCloses M = 0) /\
  (forall k m, h_managers h !! k = Some m ->
     exists M, h_mgrs h !! m = Some M /\ m_key M = k /\ 0 < m_refs M /\ m_sessionCloses M = 0).
Proof.
  intros R%reachable_inv h. destruct R as [Hok V Im Ic Ip]. fold h in Hok, V, Im, Ic, Ip.
  split_and!; [done| | |].
  - intros m M HM. pose proof (n_duty _ _ _ _ (Im _ _ HM)). unfold duty in *. lia.
  - intros c p Hc Hn. destruct (lookup_lt_is_Some_2 _ _ (ok_manager _ Hok _ _ Hc)) as [M HM].
    exists M. destruct (Im _ _ HM) as [Nr _ _ Ni _ _ _ _]. pose proof (unreleased_open _ _ _ Hc Hn).
    split_and!; [done|lia|]. destruct (decide (m_sessionCloses M = 0)); [done|lia].
  - intros k m Hk. destruct (ok_registry _ Hok _ _ Hk) as (M & HM & <-). exists M.
    destruct (Im _ _ HM) as [_ Nd _ _ Nm _ _ _]. unfold duty, in_map in *.
    rewrite decide_True in * by done. split_and!; [done..|lia|lia].
Qed.

(** C25: A receive loop that ends by itself leaks its session.  Take the
    deferred cleanup of a receive loop, about to run on a manager that no call
    of [close] has marked closed.  Then [Receive] had returned an error while
    the session was open, and after the cleanup no step of any run closes the
    session, not even the [Close] of the last connection. *)
Theorem receive_error_leaks_session s i ev m e k M s1 s' :
  reachable s -> sy_threads s !! i = Some (IClosePeers m e :: k) ->
  h_mgrs (sy_heap s) !! m = Some M -> m_closed M = false ->
  run ev i s = Some s1 -> rtc step s1 s' ->
  m ∈ h_errors (sy_heap s) /\ m_sessionCloses M = 0 /\
  exists M', h_mgrs (sy_heap s') !! m = Some M' /\ m_closed M' = true /\ m_sessionCloses M' = 0.
Proof.
  intros R Hi HM Hcl Hrun Hr. pose proof (reachable_ends _ R) as [Ea _ Eo]. specialize (Eo _ _ HM Hcl).
  pose proof (list_elem_of_lookup_2 _ _ _ Hi) as Ht.
  assert (1 <= W (late m) (sy_threads s)) as Hl.
  { pose proof (W_elem (late m) _ _ (IClosePeers m e) Ht ltac:(left)) as H. simpl in H. by rewrite same_refl in H. }
  rewrite early_split in Eo. assert (m_sessionCloses M = 0) as H0 by lia.
  assert (m ∈ h_errors (sy_heap s)) as He.
  { destruct (Forall_lookup_1 _ _ _ _ Ea Hi) as [[(M' & HM' & ?)|?] _]; [|done]. simplify_eq. lia. }
  split; [done|]. split; [done|].
  assert (orphaned m s1) as Ho.
  { unfold I2pConn.run in Hrun. rewrite Hi in Hrun.
    destruct (exec ev (IClosePeers m e) (sy_heap s)) as [[[h' l] sp]|] eqn:E; simplify_eq.
    pose proof (W_run (sclose m) _ _ _ _ l sp Hi) as HW. simpl in E. unfold closePeers in E. rewrite HM in E.
    case_decide; [|done]. injection E as <- <- <-. exists (set_closed M). simpl.
    rewrite list_lookup_alter_eq, HM. split_and!; try done.
    rewrite sum_close_with in HW by done. change (W _ []) with 0 in HW. lia. }
  assert (orphaned m s') as (M' & ? & ? & ? & _); [|eauto].
  assert (reachable s1) as R1 by (eapply rtc_r; [exact R|by econstructor]).
  clear -R1 Ho Hr. induction Hr as [|s1 s2 s3 Hs _ IH]; [done|].
  apply IH; [eapply orphaned_step; eauto using reachable_inv|by eapply reachable_step].
Qed.

End safety.

(** ** Scripts: concrete runs *)
Inductive move : Type := MRun (i : nat) (ev : denv) | MCall (o : op).

Section scripts.
Context (unicode_lower sha256_hex : gostring -> gostring).

Definition play1 (s : sys) (m : move) : option sys :=
  match m with
  | MRun i ev => run unicode_lower sha256_hex ev i s
  | MCall o => if call_ok (sy_heap s) o then Some (mkSys (sy_heap s) (sy_threads s ++ [[o]])) else None
  end.

Fixpoint play (s : sys) (ms : list move) : option sys :=
  match ms with
  | [] => Some s
  | m :: ms => match play1 s m with Some s => play s ms | None => None end
  end.

Lemma play_steps s ms s' : play s ms = Some s' -> rtc (step unicode_lower sha256_hex) s s'.
Proof.
  revert s. induction ms as [|m ms IH]; intros s H; simpl in H; [by simplify_eq|].
  destruct (play1 s m) as [s1|] eqn:E; [|done]. eapply rtc_l; [|by apply IH].
  destruct m as [i ev|o]; simpl in E; [by econstructor|].
  destruct (call_ok (sy_heap s) o) eqn:Hc; [|done]. injection E as <-. by constructor.
Qed.

Definition script_end (ms : list move) : sys :=
  default (mkSys empty_heap []) (play (mkSys empty_heap []) ms).

Lemma script_reachable ms : reachable unicode_lower sha256_hex (script_end ms).
Proof.
  unfold script_end. destruct (play _ ms) as [s|] eqn:E; simpl; [by eapply play_steps|constructor].
Qed.
End scripts.

Definition sample_fold (s : gostring) : gostring := s.
Definition sample_transport : TransportConfig :=
  mkTransport TransportI2PDatagram true [] [] 0 0 (lit "public") (lit "private") [] [] [].
Definition sample_env (d : option Datagram) (pick : nat) (order : list nat) : denv :=
  mkDenv None d None 0 pick order.
Definition quiet : denv := sample_env None 0 [].
Definition sample_datagram : Datagram := mkDatagram (lit "peer") (lit "hello") 0 0 0 false.

(** Open a connection to "peer": thread 0 opens it, thread 1 is the loop. *)
Definition script_open : list move :=
  MCall (IOpen sample_transport (lit "key") (lit " peer ")) :: replicate 6 (MRun 0 quiet).
(** A datagram arrives. *)
Definition script_receive : list move :=
  replicate 4 (MRun 1 (sample_env (Some sample_datagram) 1 [])).
(** [Receive] fails; the loop closes the manager and its connection. *)
Definition failing : denv := sample_env None 0 [0].
Definition script_cleanup : list move := replicate 4 (MRun 1 failing).

(** ** Witnesses *)
Lemma i2p_session_safety_witness : exists M,
  h_mgrs (sy_heap (script_end sample_fold sample_fold script_open)) !! 0 = Some M /\
  m_refs M = 1 /\ m_sessionCloses M = 0.
Proof.
  destruct (i2p_session_safety sample_fold sample_fold _
    (script_reachable sample_fold sample_fold script_open)) as (_ & _ & H & _).
  destruct (H 0 _ ltac:(vm_compute; reflexivity) eq_refl) as (M & HM & _ & Hc).
  exists M. split; [exact HM|]. split; [|exact Hc].
  vm_compute in HM. injection HM as <-. reflexivity.
Defined.

(** The connection is closed after the receive loop failed: the last reference
    is gone, the session is open for good. *)
Definition script_close : list move := MCall (IClose 0) :: replicate 7 (MRun 2 quiet).

Definition script_failed : list move := script_open ++ [MRun 1 failing].
Definition after_failure : list move := script_cleanup ++ script_close.

Lemma receive_error_leaks_session_witness : exists M,
  h_mgrs (sy_heap (script_end sample_fold sample_fold ((script_failed ++ [MRun 1 failing]) ++ after_failure))) !! 0 =
    Some M /\ m_refs M = 0 /\ m_closed M = true /\ m_sessionCloses M = 0.
Proof.
  destruct (receive_error_leaks_session sample_fold sample_fold
    (script_end sample_fold sample_fold script_failed) 1 failing 0 DgEOF _ _
    (script_end sample_fold sample_fold (script_failed ++ [MRun 1 failing]))
    (script_end sample_fold sample_fold ((script_failed ++ [MRun 1 failing]) ++ after_failure))
    (script_reachable _ _ _) ltac:(vm_compute; reflexivity) ltac:(vm_compute; reflexivity) eq_refl
    ltac:(vm_compute; reflexivity)
    ltac:(apply (play_steps _ _ _ after_failure); vm_compute; reflexivity)) as (_ & _ & M & HM & Hcl & Hcs).
  exists M. split; [exact HM|]. split; [|split; [exact Hcl|exact Hcs]].
  vm_compute in HM. injection HM as <-. reflexivity.
Defined.
