(* ===== verification/I2pConnLive.v ===== *)
(** * Shutdown of the peer connections over I2P datagrams

    The system of [I2pConn] never gets stuck: from every reachable state the
    threads can run until each call has returned, waits for data, or is a
    receive loop on an open session.  The waiting of [once.Do], of [wg.Wait] and
    of [Receive] is resolved by following who is waited for: the thread in the
    body of [once], the receive loop, the session. *)

From Stdlib Require Import ZArith Lia.
From stdpp Require Import base gmap strings numbers countable sorting list relations.
From S2P Require Import Prelude GoStrings AddrText AnonPolicy I2pSam I2pConn I2pConnInv I2pConnSafe.

(** ** The shape of threads *)
(** The body of [once] in [closeWithError]. *)
Definition in_once (o : op) : bool :=
  match o with ISetErr _ _ | ICloseDone _ => true | _ => false end.

(** The operations of the receive loop of [m]; those that only it has. *)
Definition loop_op (m : nat) (o : op) : bool :=
  match o with
  | IReceive m' | ILookup m' _ _ | IWgDone m' | IClosePeers m' _ => bool_decide (m' = m)
  | IDeliver _ _ | IPush _ _ | ICloseWith _ _ | ISetErr _ _ | ICloseDone _ => true
  | _ => false
  end.
Definition loop_mark (o : op) : bool :=
  match o with
  | IReceive _ | ILookup _ _ _ | IWgDone _ | IDeliver _ _ | IPush _ _ => true
  | _ => false
  end.

(** The operations that end in a return of the call. *)
Definition final (o : op) : bool :=
  match o with
  | IOpen _ _ _ | IRetain _ _ _ _ | INewSession _ _ _ _ | IInstall _ _ _ _ | IRegister _ _ _ _
  | IClose _ | IRead _ _ | IReadWait _ _ _ | IWrite _ _ | IWriteDeadline _ _ | ISend _ _
  | ISessionSend _ _ _ | ISetDeadline _ _ _ _ | IRet _ => true
  | _ => false
  end.

Definition close_call (o : op) : nat :=
  match o with IClose _ | IReleaseOnce _ | IReleaseDone _ => 1 | _ => 0 end.

Fixpoint final_last (t : thread) : Prop :=
  match t with [] => True | o :: k => (final o = true -> k = []) /\ final_last k end.

(** [IWait m] comes directly after [ISessionClose m]. *)
Fixpoint waits_after (prev : option nat) (t : thread) : Prop :=
  match t with
  | [] => True
  | IWait m :: k => prev = Some m /\ waits_after None k
  | ISessionClose m :: k => waits_after (Some m) k
  | _ :: k => waits_after None k
  end.

Definition once_ok (t : thread) : Prop :=
  match t with
  | ISetErr c _ :: k =>
      match k with
      | ICloseDone _ :: k' => Forall (fun o => in_once o = false) k'
      | _ => False
      end
  | _ :: k => Forall (fun o => in_once o = false) k
  | [] => True
  end.

Definition wait_ok (h : heap) (t : thread) : Prop :=
  match t with
  | IWait m :: k => session_closed h m /\ waits_after None k
  | _ => waits_after None t
  end.

Record thread_ok (h : heap) (t : thread) : Prop := {
  t_done : once_ok t;
  t_kind : (exists m, Forall (fun o => loop_op m o = true) t) \/
           Forall (fun o => loop_mark o = false) t;
  t_close : sum_list_with close_call t <= 1;
  t_final : final_last t;
  t_wait : wait_ok h t }.

Lemma closes_all cs e (P : op -> Prop) :
  (forall c, P (ICloseWith c e)) -> Forall P (map (fun c => ICloseWith c e) cs).
Proof. intros H. induction cs; constructor; auto. Qed.

Lemma final_last_none t : Forall (fun o => final o = false) t -> final_last t.
Proof. induction 1 as [|o t Ho _ IH]; simpl; [done|]. split; [congruence|done]. Qed.

Lemma final_last_app l k : Forall (fun o => final o = false) l -> final_last k -> final_last (l ++ k).
Proof. induction 1 as [|o t Ho _ IH]; simpl; [done|]. split; [congruence|auto]. Qed.

Lemma waits_app p l k : waits_after p l -> waits_after None k -> l <> [] ->
  (forall m, last l <> Some (ISessionClose m)) -> waits_after p (l ++ k).
Proof.
  revert p. induction l as [|o l IH]; intros p Hl Hk Hn Hs; [done|].
  destruct l as [|o' l].
  - destruct o; simpl in *; try tauto. by destruct (Hs m).
  - destruct o; simpl app; cbn [waits_after]; cbn [waits_after] in Hl; try (apply IH; auto; fail).
    destruct Hl. split; [done|]. apply IH; auto.
Qed.

Section liveness.
Context {unicode_lower sha256_hex : gostring -> gostring}.
Notation exec := (I2pConn.exec unicode_lower sha256_hex).
Notation run := (I2pConn.run unicode_lower sha256_hex).
Notation step := (I2pConn.step unicode_lower sha256_hex).
Notation reachable := (I2pConn.reachable unicode_lower sha256_hex).

(** What one step puts in front of the thread. *)
Lemma exec_shape ev o h h' l sp : exec ev o h = Some (h', l, sp) ->
  (match l with
   | ISetErr _ _ :: k =>
       exists c, k = [ICloseDone c]
   | _ => Forall (fun o => in_once o = false) l
   end) /\
  (forall m, loop_op m o = true -> Forall (fun o => loop_op m o = true) l) /\
  (loop_mark o = false -> Forall (fun o => loop_mark o = false) l) /\
  sum_list_with close_call l <= close_call o /\
  final_last l /\ (final o = false -> Forall (fun o => final o = false) l).
Proof.
  intros E. destruct o.
  1:{ simpl in E. unfold next in E. simplify_eq.
      destruct (OpenPeerConn_cases (unicode_lower := unicode_lower) (sha256_hex := sha256_hex)
        tr remoteKey dest) as [[e ->]|[-> _]]; simpl; split_and!; auto; repeat constructor; lia. }
  all: try (exec_cases E; repeat case_match; simplify_eq; split_and!; simpl in *; intros;
    first [done|lia|by eexists|repeat (apply Forall_cons; split; [done|]); by apply Forall_nil
          |by split_and!]; fail).
  exec_cases E. pose proof (closes_all (dv_order ev) e) as HC.
  assert (Forall (fun o => final o = false) (map (fun c => ICloseWith c e) (dv_order ev))) as HF
    by by apply HC.
  split_and!; intros; try (by apply HC); auto using final_last_none; [|by rewrite sum_close_with].
  specialize (HC (fun o => in_once o = false) ltac:(done)). by destruct (dv_order ev).
Qed.

Lemma waits_closes cs e : waits_after None (map (fun c => ICloseWith c e) cs).
Proof. induction cs; simpl; auto. Qed.

Lemma exec_waits ev o h h' l sp : exec ev o h = Some (h', l, sp) ->
  waits_after None l /\ forall m, last l <> Some (ISessionClose m).
Proof.
  intros E. destruct o; try (exec_cases E; repeat case_match; simplify_eq/=; auto; fail).
  - simpl in E. unfold next in E. simplify_eq.
    by destruct (OpenPeerConn_cases (unicode_lower := unicode_lower) (sha256_hex := sha256_hex)
        tr remoteKey dest) as [[e ->]|[-> _]].
  - exec_cases E. split; [apply waits_closes|]. intros m' Hl.
    apply last_Some in Hl as [cs Hl].
    assert (Forall (fun o => sclose m' o = 0) (map (fun c => ICloseWith c e) (dv_order ev))) as HF
      by by apply closes_all.
    rewrite Hl in HF. apply Forall_app in HF as [_ [HF _]%Forall_cons].
    simpl in HF. by rewrite same_refl in HF.
Qed.

Lemma waits_ok h k : waits_after None k -> wait_ok h k.
Proof. destruct k as [|[] k]; simpl; naive_solver. Qed.

Lemma wait_ok_step ev o h h' l sp k : op_valid h o ->
  exec ev o h = Some (h', l, sp) -> wait_ok h (o :: k) -> wait_ok h' (l ++ k).
Proof.
  intros V E Hw. destruct (exec_waits _ _ _ _ _ _ E) as [Wl Hl].
  assert (waits_after None k -> wait_ok h' (l ++ k)) as Hk.
  { intros Hk. apply waits_ok. destruct l as [|o' l]; [done|]. by apply waits_app. }
  destruct o; try (apply Hk; by destruct k); try (simpl in Hw; tauto).
  clear Hk. exec_cases E. destruct k as [|[] k]; simpl in *; try done.
  destruct Hw as [[= ->] Hw]. split; [|done].
  destruct (lookup_lt_is_Some_2 _ _ V) as [M HM]. unfold session_closed. simpl.
  exists (count_session_close M). rewrite list_lookup_alter_eq, HM. simpl. split; [done|lia].
Qed.

Lemma once_ok_app l k : Forall (fun o => in_once o = false) k ->
  (match l with
   | ISetErr _ _ :: k => exists c, k = [ICloseDone c]
   | _ => Forall (fun o => in_once o = false) l
   end) -> once_ok (l ++ k).
Proof.
  intros Hk Hl. destruct l as [|o l].
  - destruct k as [|o k]; [done|]. apply Forall_cons in Hk as [Ho Hk]. by destruct o.
  - destruct o; simpl in *; try (apply Forall_cons in Hl as [_ Hl]; by apply Forall_app).
    by destruct Hl as [c' ->].
Qed.

Lemma thread_ok_step ev o h h' l sp k : op_valid h o ->
  exec ev o h = Some (h', l, sp) -> thread_ok h (o :: k) -> thread_ok h' (l ++ k).
Proof.
  intros V E [Td Tk Tc Tf Tw]. destruct (exec_shape _ _ _ _ _ _ E) as (S1 & S2 & S3 & S4 & S5 & S6).
  constructor.
  - destruct o; try by apply once_ok_app. exec_cases E. by destruct k as [|[] k].
  - destruct Tk as [[m [Ho Hk]%Forall_cons]|[Ho Hk]%Forall_cons]; [left; exists m|right];
      apply Forall_app; auto.
  - rewrite sum_list_with_app. simpl in Tc. lia.
  - destruct Tf as [Hf Hk]. destruct (final o) eqn:Ho.
    + rewrite Hf, app_nil_r by done. done.
    + apply final_last_app; auto.
  - by eapply wait_ok_step.
Qed.

Definition threads_ok (s : sys) : Prop := Forall (thread_ok (sy_heap s)) (sy_threads s).

Lemma thread_ok_other ev o h h' l sp t :
  exec ev o h = Some (h', l, sp) -> thread_ok h t -> thread_ok h' t.
Proof.
  intros E [Td Tk Tc Tf Tw]. constructor; auto.
  destruct t as [|[] t]; simpl in *; try done. destruct Tw. split; [|done].
  by eapply session_closed_step.
Qed.

Lemma threads_ok_step s s' : inv s -> threads_ok s -> step s s' -> threads_ok s'.
Proof.
  intros I Ht [i ev s2 R|o Hc]; unfold threads_ok in *; simpl.
  - unfold I2pConn.run in R.
    destruct (sy_threads s !! i) as [[|o k]|] eqn:Hi; [done| |done].
    destruct (exec ev o (sy_heap s)) as [[[h' l] sp]|] eqn:E; simplify_eq. simpl.
    pose proof (Forall_lookup_1 _ _ _ _ Ht Hi) as Hok.
    pose proof (Forall_lookup_1 _ _ _ _ (inv_valid _ I) Hi) as [Vo _]%Forall_cons.
    apply Forall_app. split.
    + eapply insert_Forall; [exact Ht| |by eapply thread_ok_step].
      intros t Hx. by eapply thread_ok_other.
    + destruct (exec_spawn _ _ _ _ _ _ E) as [->|(m & -> & ->)]; [done|].
      apply Forall_singleton. constructor; simpl; [by repeat constructor| |lia|done|done].
      left. exists m. repeat constructor; simpl; by apply bool_decide_eq_true.
  - apply Forall_app. split; [done|].
    apply Forall_singleton. destruct o; simpl in Hc; try done; constructor; simpl; auto.
Qed.

Lemma reachable_threads_ok s : reachable s -> threads_ok s.
Proof.
  intros H. cut (inv s /\ threads_ok s); [tauto|].
  refine (rtc_ind_r (fun s => inv s /\ threads_ok s) _ _ _ s H).
  - split; [|constructor]. apply (reachable_inv unicode_lower sha256_hex). constructor.
  - intros s1 s2 Hr Hs [I T]. split; [|by eapply threads_ok_step].
    apply (reachable_inv unicode_lower sha256_hex). by eapply rtc_r.
Qed.

(** ** Progress *)
(** A step of a thread, with any result of the session. *)
Definition act (s s' : sys) : Prop := exists i ev, run ev i s = Some s'.

(** A step that needs nothing from outside: no datagram, and no failure of a
    session that is open.  [Receive] returns once the session is closed. *)
Definition settle (s s' : sys) : Prop :=
  exists i ev, run ev i s = Some s' /\ dv_receive ev = None /\
    forall m k, sy_threads s !! i = Some (IReceive m :: k) -> session_closed (sy_heap s) m.

(** A thread that has returned, waits for data on an open connection, or waits
    in [Receive] of an open session. *)
Definition rest (h : heap) (t : thread) : bool :=
  match t with
  | [] | IRet _ :: _ => true
  | IReadWait c _ _ :: _ =>
      match h_conns h !! c with
      | Some p => bool_decide (p_readCh p = []) && negb (p_done p)
      | None => false
      end
  | IReceive m :: _ =>
      match h_mgrs h !! m with
      | Some M => bool_decide (m_sessionCloses M = 0)
      | None => false
      end
  | _ => false
  end.

Definition at_rest (s : sys) : Prop := Forall (fun t => rest (sy_heap s) t = true) (sy_threads s).

(** What an operation may wait for. *)
Inductive waits_for (h : heap) : op -> Prop :=
| wf_ret r : waits_for h (IRet r)
| wf_once c e p : h_conns h !! c = Some p -> p_once p = Running -> waits_for h (ICloseWith c e)
| wf_release c p : h_conns h !! c = Some p -> p_releaseOnce p = Running ->
    waits_for h (IReleaseOnce c)
| wf_loop m M : h_mgrs h !! m = Some M -> 0 < m_wg M -> waits_for h (IWait m)
| wf_data c cap d p : h_conns h !! c = Some p -> p_readCh p = [] -> p_done p = false ->
    waits_for h (IReadWait c cap d).

Definition calm (pick : nat) (order : list nat) : denv := mkDenv None None None 0 pick order.

Definition enabled (h : heap) (o : op) : Prop :=
  exists ev r, dv_receive ev = None /\ exec ev o h = Some r.

Lemma enabled_calm h o pick order : is_Some (exec (calm pick order) o h) -> enabled h o.
Proof. intros [r E]. by exists (calm pick order), r. Qed.

Lemma exec_enabled h o : heap_ok h -> op_valid h o -> enabled h o \/ waits_for h o.
Proof.
  intros Hok V. destruct o; simpl in V;
    try (destruct (lookup_lt_is_Some_2 _ _ V) as [x Hx]);
    try (left; eapply (enabled_calm _ _ 0 []); simpl; unfold releaseManager, register, unregister, next;
         rewrite ?Hx; repeat case_match; simplify_eq; by eauto).
  - destruct (decide (m_wg x = 0)) as [Hw|]; [left|right; eapply wf_loop; eauto; lia].
    apply (enabled_calm _ _ 0 []). simpl. by rewrite Hx, decide_True by done.
  - left. apply (enabled_calm _ _ 0 (map_to_list (m_peers x)).*2). simpl. unfold closePeers. simpl.
    by rewrite Hx, decide_True by done.
  - destruct (p_once x) eqn:Ho; [left|right; by eapply wf_once|left];
      apply (enabled_calm _ _ 0 []); simpl; by rewrite Hx, Ho.
  - destruct (p_releaseOnce x) eqn:Ho; [left|right; by eapply wf_release|left];
      apply (enabled_calm _ _ 0 []); simpl; by rewrite Hx, Ho.
  - destruct (p_readCh x) as [|y q] eqn:Hq.
    + destruct (p_done x) eqn:Hd; [left|right; by eapply wf_data].
      apply (enabled_calm _ _ 1 []). simpl. by rewrite Hx, Hd.
    + left. apply (enabled_calm _ _ 0 []). simpl. by rewrite Hx, Hq.
  - left. destruct (lookup_lt_is_Some_2 _ _ (ok_manager _ Hok _ _ Hx)) as [M HM].
    apply (enabled_calm _ _ 0 []). simpl. by rewrite Hx, HM.
  - right. constructor.
Qed.

(** A thread whose next operation is enabled can take a step. *)
Lemma enabled_settles s i o k : sy_threads s !! i = Some (o :: k) -> enabled (sy_heap s) o ->
  (forall m, o = IReceive m -> session_closed (sy_heap s) m) -> exists s', settle s s'.
Proof.
  intros Hi (ev & [[h l] sp] & Hev & E) Hr. eexists. exists i, ev. split_and!; [|done|].
  - unfold I2pConn.run. rewrite Hi, E. done.
  - intros m k' Hi'. rewrite Hi in Hi'. simplify_eq. auto.
Qed.

Section progress.
Context (s : sys) (I : inv s) (T : threads_ok s).

Lemma head_valid i o k : sy_threads s !! i = Some (o :: k) -> op_valid (sy_heap s) o.
Proof. intros Hi. by pose proof (Forall_lookup_1 _ _ _ _ (inv_valid _ I) Hi) as [? _]%Forall_cons. Qed.

(** Somebody is in the body of [once]: that thread can go on. *)
Lemma once_progress c p : h_conns (sy_heap s) !! c = Some p -> p_once p = Running ->
  exists s', settle s s'.
Proof.
  intros Hc Ho. pose proof (k_closing _ _ _ (inv_conns _ I _ _ Hc)) as K. rewrite Ho in K.
  destruct (W_pos (closing c) (sy_threads s)) as (i & t & o & Hi & Hin & Hcl).
  { rewrite K. unfold running. simpl. lia. }
  destruct o; simpl in Hcl; try lia. clear Hcl.
  pose proof (Forall_lookup_1 _ _ _ _ T Hi) as [Td _ _ _ _].
  assert (exists o k, t = o :: k /\ in_once o = true) as (o & k & -> & Hon).
  { destruct t as [|o k]; [by apply not_elem_of_nil in Hin|]. exists o, k. split; [done|].
    apply elem_of_cons in Hin as [<-|Hin]; [done|].
    destruct o; simpl in *; try done; rewrite Forall_forall in Td; by apply Td in Hin. }
  destruct (exec_enabled _ _ (inv_heap _ I) (head_valid _ _ _ Hi)) as [He|Hw].
  - eapply enabled_settles; eauto. intros m ->. done.
  - destruct Hw; done.
Qed.

(** The receive loop of a closed session can go on. *)
Lemma loop_progress i m o k : sy_threads s !! i = Some (o :: k) -> loop_op m o = true ->
  session_closed (sy_heap s) m -> exists s', settle s s'.
Proof.
  intros Hi Hl Hs. destruct (exec_enabled _ _ (inv_heap _ I) (head_valid _ _ _ Hi)) as [He|Hw].
  - eapply enabled_settles; eauto. intros m' ->. simpl in Hl. apply bool_decide_eq_true in Hl.
    by subst.
  - destruct Hw; try done. by eapply once_progress.
Qed.

Lemma wait_progress m M : h_mgrs (sy_heap s) !! m = Some M -> 0 < m_wg M ->
  session_closed (sy_heap s) m -> exists s', settle s s'.
Proof.
  intros HM Hw Hs. rewrite (n_wg _ _ _ _ (inv_mgrs _ I _ _ HM)) in Hw.
  destruct (W_pos _ _ Hw) as (i & t & o & Hi & Hin & Ho). destruct o; simpl in Ho; try lia.
  unfold same in Ho. case_decide; [subst|lia].
  pose proof (Forall_lookup_1 _ _ _ _ T Hi) as [_ Tk _ _ _].
  destruct Tk as [[m' Hl]|Hl]; rewrite Forall_forall in Hl; pose proof (Hl _ Hin) as Hm; [|done].
  simpl in Hm. apply bool_decide_eq_true in Hm as <-.
  destruct t as [|o k]; [by apply not_elem_of_nil in Hin|].
  eapply loop_progress; eauto. apply Hl. left.
Qed.

Lemma release_progress c p : h_conns (sy_heap s) !! c = Some p -> p_releaseOnce p = Running ->
  exists s', settle s s'.
Proof.
  intros Hc Ho. pose proof (k_releasing _ _ _ (inv_conns _ I _ _ Hc)) as K. rewrite Ho in K.
  destruct (W_pos (releasing c) (sy_threads s)) as (i & t & o & Hi & Hin & Hcl).
  { rewrite K. unfold running. simpl. lia. }
  destruct o; simpl in Hcl; try lia. clear Hcl.
  pose proof (Forall_lookup_1 _ _ _ _ T Hi) as [_ Tk Tc Tf Tw].
  destruct Tk as [[m Hl]|Hl]; rewrite Forall_forall in Hl; [by pose proof (Hl _ Hin)|].
  destruct t as [|o k]; [by apply not_elem_of_nil in Hin|].
  destruct (exec_enabled _ _ (inv_heap _ I) (head_valid _ _ _ Hi)) as [He|Hw].
  - eapply enabled_settles; eauto. intros m ->. pose proof (Hl (IReceive m) ltac:(left)). done.
  - assert (o = IReleaseDone c0 \/ IReleaseDone c0 ∈ k) as [->|Hin'] by (by apply elem_of_cons in Hin as [<-|?]; [left|right]); [inversion Hw|].
    destruct Hw; simpl in *.
    + destruct Tf as [Tf _]. rewrite Tf in Hin' by done. by apply not_elem_of_nil in Hin'.
    + by eapply once_progress.
    + apply (sum_list_with_in _ close_call) in Hin'. simpl in Hin'. lia.
    + destruct Tw. by eapply wait_progress.
    + destruct Tf as [Tf _]. rewrite Tf in Hin' by done. by apply not_elem_of_nil in Hin'.
Qed.

Lemma progress : ~ at_rest s -> exists s', settle s s'.
Proof.
  intros Hn. apply not_Forall_Exists in Hn; [|apply _].
  apply Exists_exists in Hn as (t & Ht & Hr). apply list_elem_of_lookup in Ht as [i Hi].
  cbn beta in Hr. unfold compose in Hr.
  destruct t as [|o k]; [by destruct Hr|].
  pose proof (Forall_lookup_1 _ _ _ _ T Hi) as [_ _ _ _ Tw].
  pose proof (head_valid _ _ _ Hi) as V.
  destruct (exec_enabled _ _ (inv_heap _ I) V) as [He|Hw].
  - eapply enabled_settles; eauto. intros m ->. simpl in *.
    destruct (lookup_lt_is_Some_2 _ _ V) as [M HM]. exists M. split; [done|].
    rewrite HM in Hr. destruct (m_sessionCloses M); [by destruct Hr|lia].
  - destruct Hw as [r|c e p Hp Ho|c p Hp Ho|m M HM Hw|c cap d p Hp Hq Hd]; simpl in *.
    + by destruct Hr.
    + by eapply once_progress.
    + by eapply release_progress.
    + destruct Tw. by eapply wait_progress.
    + rewrite Hp, Hq, Hd in Hr. by destruct Hr.
Qed.
End progress.

(** ** Termination *)
(** The calls that may still create a connection. *)
Definition opening (o : op) : nat :=
  match o with
  | IOpen _ _ _ | IRetain _ _ _ _ | INewSession _ _ _ _ | IInstall _ _ _ _ | IRegister _ _ _ _ => 1
  | _ => 0
  end.

Definition room (s : sys) : nat := length (h_conns (sy_heap s)) + W opening (sy_threads s).

(** The number of steps an operation can lead to, with at most [n] connections
    to close. *)
Definition cost (n : nat) (o : op) : nat :=
  match o with
  | IOpen _ _ _ => 6 * n + 15
  | IRetain _ _ _ _ => 6 * n + 14
  | INewSession _ _ _ _ => 6 * n + 13
  | IInstall _ _ _ _ => 6 * n + 12
  | IStart _ => 3 * n + 4
  | IRegister _ _ _ _ => 3 * n + 7
  | IRelease _ => 3 * n + 6
  | IMgrClose _ => 3 * n + 5
  | IClosePeers _ _ => 3 * n + 1
  | ICloseWith _ _ => 3
  | IClose _ => 3 * n + 13
  | IReleaseOnce _ => 3 * n + 9
  | ILookup _ _ _ => 4
  | IDeliver _ _ | IRead _ _ | ISend _ _ => 2
  | IWrite _ _ => 4
  | IWriteDeadline _ _ => 3
  | IRet _ => 0
  | _ => 1
  end.

Lemma cost_mono n n' o : n <= n' -> cost n o <= cost n' o.
Proof. destruct o; simpl; lia. Qed.

Lemma W_mono f g ths : (forall o, f o <= g o) -> W f ths <= W g ths.
Proof.
  intros H. unfold W. induction ths as [|t ths IH]; simpl; [done|].
  assert (sum_list_with f t <= sum_list_with g t); [|lia].
  clear -H. induction t as [|o t IH]; simpl; [done|]. specialize (H o). lia.
Qed.

Lemma peers_bound h m M : heap_ok h -> h_mgrs h !! m = Some M ->
  length (map_to_list (m_peers M)).*2 <= length (h_conns h).
Proof.
  intros Hok HM. rewrite <- (length_seq (length (h_conns h)) 0).
  apply submseteq_length, NoDup_submseteq.
  - apply NoDup_fmap_2_strong; [|apply NoDup_map_to_list].
    intros [d1 c1] [d2 c2] H1%elem_of_map_to_list H2%elem_of_map_to_list Hc. simpl in Hc. subst.
    destruct (ok_peers _ Hok _ _ _ _ HM H1) as (p & Hp & _ & <-).
    destruct (ok_peers _ Hok _ _ _ _ HM H2) as (p' & Hp' & _ & <-). by simplify_eq.
  - intros c ([d c'] & -> & H%elem_of_map_to_list)%list_elem_of_fmap.
    destruct (ok_peers _ Hok _ _ _ _ HM H) as (p & Hp & _). apply elem_of_seq.
    apply lookup_lt_Some in Hp. simpl. lia.
Qed.

Lemma sum_closes n cs e : sum_list_with (cost n) (map (fun c => ICloseWith c e) cs) = 3 * length cs.
Proof. induction cs as [|c cs IH]; simpl; [done|]. rewrite IH. lia. Qed.

(** Every step costs; the reception of a datagram pays for its delivery. *)
Lemma exec_cost ev o h h' l sp n : exec ev o h = Some (h', l, sp) -> heap_ok h -> length (h_conns h) <= n ->
  sum_list_with (cost n) l + W (cost n) sp + 4 * length (h_received h) < cost n o + 4 * length (h_received h').
Proof.
  intros E Hok Hn. destruct o;
    try (exec_cases E; repeat case_match; simplify_eq/=; rewrite ?length_app; simpl; lia).
  - simpl in E. unfold next in E. simplify_eq.
    destruct (OpenPeerConn_cases (unicode_lower := unicode_lower) (sha256_hex := sha256_hex)
        tr remoteKey dest) as [[e ->]|[-> _]]; simpl; lia.
  - exec_cases E. rewrite sum_closes. match goal with H : _ ≡ₚ _ |- _ => rewrite H end.
    match goal with H : h_mgrs _ !! _ = _ |- _ => pose proof (peers_bound _ _ _ Hok H) end. lia.
Qed.

Lemma exec_opening ev o h h' l sp : exec ev o h = Some (h', l, sp) ->
  length (h_conns h') + sum_list_with opening l + W opening sp <= length (h_conns h) + opening o.
Proof.
  intros E. destruct o;
    try (exec_cases E; repeat case_match; simplify_eq/=;
         rewrite ?length_alter, ?length_app, ?sum_close_with by done; simpl; lia).
  simpl in E. unfold next in E. simplify_eq.
  destruct (OpenPeerConn_cases (unicode_lower := unicode_lower) (sha256_hex := sha256_hex)
      tr remoteKey dest) as [[e ->]|[-> _]]; simpl; lia.
Qed.

Definition measure (s : sys) : nat := W (cost (room s)) (sy_threads s).

Definition received (s : sys) : nat := length (h_received (sy_heap s)).

Lemma act_measure s s' : inv s -> act s s' -> measure s' + 4 * received s < measure s + 4 * received s'.
Proof.
  intros I (i & ev & R). unfold I2pConn.run in R.
  destruct (sy_threads s !! i) as [[|o k]|] eqn:Hi; [done| |done].
  destruct (exec ev o (sy_heap s)) as [[[h' l] sp]|] eqn:E; simplify_eq.
  pose proof (exec_opening _ _ _ _ _ _ E) as Ho. pose proof (W_run opening _ _ _ _ l sp Hi) as HW.
  unfold measure. set (s' := mkSys _ _). assert (room s' <= room s) as Hn by (unfold room; simpl; lia).
  pose proof (exec_cost _ _ _ _ _ _ (room s) E (inv_heap _ I) ltac:(unfold room; lia)).
  pose proof (W_run (cost (room s)) _ _ _ _ l sp Hi).
  pose proof (W_mono (cost (room s')) (cost (room s)) (sy_threads s')
    (fun o => cost_mono _ _ o Hn)).
  subst s'. unfold received. simpl in *. lia.
Qed.

Lemma acts_received s s' : rtc act s s' -> received s <= received s'.
Proof.
  induction 1 as [|s1 s2 s3 (i & ev & R) _ IH]; [done|]. transitivity (received s2); [|done].
  unfold I2pConn.run in R. destruct (sy_threads s1 !! i) as [[|o k]|]; [done| |done].
  destruct (exec ev o (sy_heap s1)) as [[[h' l] sp]|] eqn:E; simplify_eq. unfold received. simpl.
  destruct o; exec_cases E; rewrite ?length_app; lia.
Qed.

Lemma act_step s s' : act s s' -> step s s'.
Proof. intros (i & ev & R). by econstructor. Qed.

Lemma acts_reachable s s' : reachable s -> rtc act s s' -> reachable s'.
Proof.
  intros R Hs. unfold I2pConn.reachable. trans s; [done|]. clear -Hs.
  induction Hs; [constructor|]. eapply rtc_l; [by apply act_step|done].
Qed.

Lemma acts_bound n s s' : reachable s -> nsteps act n s s' -> n + 4 * received s <= measure s + 4 * received s'.
Proof.
  intros R H. revert R. induction H as [s|n s1 s2 s3 H _ IH]; intros R; [lia|].
  pose proof (act_measure _ _ (reachable_inv _ _ _ R) H).
  specialize (IH ltac:(eapply rtc_r; [exact R|by apply act_step])). lia.
Qed.

(** ** What is left at rest *)
Lemma rest_weight h t (f : op -> nat) : thread_ok h t -> rest h t = true ->
  (forall r, f (IRet r) = 0) -> (forall c n d, f (IReadWait c n d) = 0) ->
  (forall o m, loop_op m o = true -> f o = 0) -> sum_list_with f t = 0.
Proof.
  intros [_ Tk _ Tf _] Hr Hf1 Hf2 Hl. destruct t as [|o k]; [done|].
  destruct (final o) eqn:Ho.
  - destruct Tf as [Tf _]. rewrite (Tf Ho). destruct o; simpl in *; try done; rewrite ?Hf1, ?Hf2; done.
  - destruct o; simpl in Hr; try done.
    destruct Tk as [[m' Hk]|[Hk _]%Forall_cons]; [|done].
    clear -Hk Hl. induction Hk as [|o t Ho _ IH]; simpl; [done|]. by rewrite (Hl o m' Ho), IH.
Qed.

Lemma at_rest_weight s (f : op -> nat) : threads_ok s -> at_rest s ->
  (forall r, f (IRet r) = 0) -> (forall c n d, f (IReadWait c n d) = 0) ->
  (forall o m, loop_op m o = true -> f o = 0) -> W f (sy_threads s) = 0.
Proof.
  intros T R Hf1 Hf2 Hl. unfold threads_ok, at_rest in *. unfold W.
  induction (sy_threads s) as [|t ths IH]; simpl; [done|].
  apply Forall_cons in T as [Tt T], R as [Rt R]. by rewrite IH, (rest_weight _ _ f Tt Rt).
Qed.

Lemma at_rest_counts s m M : reachable s -> threads_ok s -> at_rest s ->
  h_mgrs (sy_heap s) !! m = Some M ->
  m_refs M = open_conns (sy_heap s) m /\
  (open_conns (sy_heap s) m = 0 ->
   m_sessionCloses M = 1 \/ (m_sessionCloses M = 0 /\ m ∈ h_errors (sy_heap s))).
Proof.
  intros Hs T R HM. pose proof (reachable_inv _ _ _ Hs) as I.
  destruct (inv_mgrs _ I _ _ HM) as [Nr Nd Nl Ni Nm _ _ _].
  assert (W (hold m) (sy_threads s) = 0) as Hh
    by (apply at_rest_weight; auto; intros []; simpl; done).
  assert (W (charge m) (sy_threads s) = 0) as Hc
    by (apply at_rest_weight; auto; intros []; simpl; done).
  unfold duty in *. split; [lia|]. intros H0.
  destruct (decide (m_sessionCloses M = 1)); [by left|right]. split; [lia|].
  destruct (decide (in_map (sy_heap s) m M = 0)); [|lia].
  destruct (e_closed _ (reachable_ends _ _ _ Hs) m M HM (Nl ltac:(lia))) as [[(M' & HM' & ?)|?]|Hsc]; [|done|].
  - simplify_eq. lia.
  - pose proof (W_mono (sclose m) (charge m) (sy_threads s)) as Hle.
    assert (W (sclose m) (sy_threads s) <= W (charge m) (sy_threads s)) by (apply Hle; intros []; simpl; lia). lia.
Qed.

(** C22: The system of peer connections never hangs.  From every reachable
    state, a run of [n] steps without new calls, in which sessions may deliver
    datagrams and fail at any time, is bounded: [n] is at most a number that
    depends on the state, and four more for each datagram received.  At every
    point of it some thread can go on without anything from outside, unless
    each call has returned, is a [Read] that waits for data on an open
    connection, or is a receive loop on an open session.  In that case the
    reference count of each manager is the number of its connections that are
    not closed, and a session without connections has been closed exactly
    once, unless [Receive] returned an error while it was open. *)
Theorem i2p_settles s :
  reachable s ->
  (forall n s', nsteps act n s s' -> n <= measure s + 4 * (received s' - received s)) /\
  forall s', rtc act s s' ->
    (at_rest s' \/ exists s'', settle s' s'') /\
    (at_rest s' -> forall m M, h_mgrs (sy_heap s') !! m = Some M ->
      m_refs M = open_conns (sy_heap s') m /\
      (open_conns (sy_heap s') m = 0 ->
       m_sessionCloses M = 1 \/ (m_sessionCloses M = 0 /\ m ∈ h_errors (sy_heap s')))).
Proof.
  intros R. split.
  - intros n s' H. pose proof (acts_bound _ _ _ R H).
    pose proof (acts_received _ _ (rtc_nsteps_2 n _ _ H)). lia.
  - intros s' Hs. pose proof (acts_reachable _ _ R Hs) as R'.
    pose proof (reachable_inv _ _ _ R') as I. pose proof (reachable_threads_ok _ R') as T. split.
    + destruct (decide (at_rest s')) as [|Hr]; [by left|right]. by apply progress.
    + intros Hr m M HM. by apply at_rest_counts.
Qed.

End liveness.

(** ** Witness *)
Definition is_run (m : move) : bool := match m with MRun _ _ => true | MCall _ => false end.

Lemma play_acts u h s ms s' : forallb is_run ms = true -> play u h s ms = Some s' ->
  rtc (act (unicode_lower := u) (sha256_hex := h)) s s'.
Proof.
  revert s. induction ms as [|m ms IH]; intros s Hm H; simpl in H; [simplify_eq; apply rtc_refl|].
  destruct (play1 u h s m) as [s1|] eqn:E; [|done]. apply andb_true_iff in Hm as [Hm Hms].
  eapply rtc_l; [|by apply IH]. destruct m as [i ev|o]; [by exists i, ev|done].
Qed.

(** The connection is closed, and all threads run to the end. *)
Definition closing_state : sys := script_end sample_fold sample_fold (script_open ++ [MCall (IClose 0)]).
Definition closing_run : list move :=
  replicate 10 (MRun 2 quiet) ++ replicate 3 (MRun 1 quiet) ++ replicate 3 (MRun 2 quiet).

Definition closing_end : sys := default closing_state (play sample_fold sample_fold closing_state closing_run).

Lemma i2p_settles_witness : exists M,
  at_rest closing_end /\ h_mgrs (sy_heap closing_end) !! 0 = Some M /\
  m_refs M = open_conns (sy_heap closing_end) 0 /\ m_sessionCloses M = 1.
Proof.
  destruct (i2p_settles (unicode_lower := sample_fold) (sha256_hex := sample_fold) closing_state
    (script_reachable _ _ _)) as [_ H].
  destruct (H closing_end) as [_ Hr].
  { apply (play_acts _ _ _ closing_run); vm_compute; reflexivity. }
  assert (at_rest closing_end) as Hrest by (unfold at_rest; by_decide).
  destruct (h_mgrs (sy_heap closing_end) !! 0) as [M|] eqn:HM; [|by vm_compute in HM].
  destruct (Hr Hrest 0 M HM) as [Hrefs _]. exists M. split; [exact Hrest|]. split; [reflexivity|].
  split; [exact Hrefs|]. vm_compute in HM. injection HM as <-. reflexivity.
Defined.
