(* ===== verification/I2pConnData.v ===== *)
(** * Data of the peer connections over I2P datagrams

    What a [Read] returns was sent by the peer of the connection, in order; what
    a [Write] sends goes to that peer, through a session with the local
    destination of the transport the connection was opened with. *)

From Stdlib Require Import ZArith Lia Ascii.
From stdpp Require Import base gmap strings numbers countable sorting list relations.
From S2P Require Import Prelude GoStrings AddrText AnonPolicy I2pSam I2pConn I2pConnInv I2pConnSafe.

(** ** Streams *)
(** The sources and payloads received by session [m]; the payloads of one
    source; the payloads taken out of the queue of connection [c]. *)
Definition session_log (m : nat) (l : list (nat * gostring * gostring)) : list (gostring * gostring) :=
  omap (fun '(m', d, x) => if decide (m' = m) then Some (d, x) else None) l.
Definition from (d : gostring) (l : list (gostring * gostring)) : list gostring :=
  omap (fun '(d', x) => if decide (d' = d) then Some x else None) l.
Definition taken (c : nat) (l : list (nat * gostring)) : list gostring :=
  omap (fun '(c', x) => if decide (c' = c) then Some x else None) l.

(** What came through a connection: read by the user or still queued. *)
Definition delivered (h : heap) (c : nat) (p : i2pDatagramPeerConn) : list gostring :=
  taken c (h_read h) ++ p_readCh p.

(** Session [m] received [x] from [d] last, and none of its connections has it
    yet. *)
Definition pending (h : heap) (m : nat) (d x : gostring) : Prop :=
  exists pre, session_log m (h_received h) = pre ++ [(d, x)] /\
    forall c p, h_conns h !! c = Some p -> p_manager p = m ->
      delivered h c p `sublist_of` from (p_dest p) pre.

Definition carries (o : op) : bool :=
  match o with ILookup _ _ _ | IDeliver _ _ | IPush _ _ => true | _ => false end.

Definition carrier_ok (h : heap) (t : thread) : Prop :=
  match t with
  | ILookup m d x :: k => pending h m d x /\ Forall (fun o => carries o = false) k
  | IDeliver c x :: k | IPush c x :: k =>
      Forall (fun o => carries o = false) k /\
      exists p k', h_conns h !! c = Some p /\ k = IReceive (p_manager p) :: k' /\
        pending h (p_manager p) (p_dest p) x
  | t => Forall (fun o => carries o = false) t
  end.

Record streams (s : sys) : Prop := {
  st_delivered : forall c p, h_conns (sy_heap s) !! c = Some p ->
    delivered (sy_heap s) c p
      `sublist_of` from (p_dest p) (session_log (p_manager p) (h_received (sy_heap s)));
  st_queue : forall c p, h_conns (sy_heap s) !! c = Some p -> length (p_readCh p) <= readChSize;
  st_read : Forall (fun '(c, _) => c < length (h_conns (sy_heap s))) (h_read (sy_heap s));
  st_threads : Forall (carrier_ok (sy_heap s)) (sy_threads s) }.

Lemma session_log_app m l m' d x :
  session_log m (l ++ [(m', d, x)]) = session_log m l ++ (if decide (m' = m) then [(d, x)] else []).
Proof. unfold session_log. rewrite omap_app. simpl. by case_decide. Qed.

Lemma from_app d l d' x :
  from d (l ++ [(d', x)]) = from d l ++ (if decide (d' = d) then [x] else []).
Proof. unfold from. rewrite omap_app. simpl. by case_decide. Qed.

Lemma taken_app c l c' x :
  taken c (l ++ [(c', x)]) = taken c l ++ (if decide (c' = c) then [x] else []).
Proof. unfold taken. rewrite omap_app. simpl. by case_decide. Qed.

Lemma taken_fresh n l : Forall (fun '(c, _) => c < n) l -> taken n l = [].
Proof.
  induction 1 as [|[c x] l Hc _ IH]; [done|]. unfold taken in *. simpl.
  rewrite decide_False by lia. done.
Qed.

Lemma W_two f (ths : list thread) i j t u : i <> j -> ths !! i = Some t -> ths !! j = Some u ->
  sum_list_with f t + sum_list_with f u <= W f ths.
Proof.
  unfold W. revert i j. induction ths as [|x ths IH]; intros [|i] [|j] Hij Hi Hj; simplify_eq/=.
  - apply list_elem_of_lookup_2, (sum_list_with_in _ (sum_list_with f)) in Hj. lia.
  - apply list_elem_of_lookup_2, (sum_list_with_in _ (sum_list_with f)) in Hi. lia.
  - assert (i <> j) by congruence. specialize (IH i j ltac:(done) Hi Hj). lia.
Qed.

Section data.
Context {unicode_lower sha256_hex : gostring -> gostring}.
Notation exec := (I2pConn.exec unicode_lower sha256_hex).
Notation run := (I2pConn.run unicode_lower sha256_hex).
Notation step := (I2pConn.step unicode_lower sha256_hex).
Notation reachable := (I2pConn.reachable unicode_lower sha256_hex).

Lemma exec_read_log ev o h h' l sp : exec ev o h = Some (h', l, sp) -> op_valid h o ->
  Forall (fun '(c, _) => c < length (h_conns h)) (h_read h) ->
  Forall (fun '(c, _) => c < length (h_conns h')) (h_read h').
Proof.
  intros E V Hr. destruct (exec_grows _ _ _ _ _ _ E) as [_ G].
  assert (Forall (fun '(c, _) => c < length (h_conns h')) (h_read h)) as Hr'.
  { eapply Forall_impl; [exact Hr|]. intros [c x] ?. lia. }
  destruct o; exec_cases E.
  apply Forall_app. split; [done|]. apply Forall_singleton. by rewrite length_alter.
Qed.

(** Only [IPush] adds to what came through a connection. *)
Lemma exec_delivered ev o h h' l sp c p' : exec ev o h = Some (h', l, sp) ->
  Forall (fun '(c, _) => c < length (h_conns h)) (h_read h) -> h_conns h' !! c = Some p' ->
  (exists p, h_conns h !! c = Some p /\ p_manager p' = p_manager p /\ p_dest p' = p_dest p /\
     (delivered h' c p' = delivered h c p \/
      exists x, o = IPush c x /\ delivered h' c p' = delivered h c p ++ [x])) \/
  delivered h' c p' = [].
Proof.
  intros E Hr Hp'. destruct (h_conns h !! c) as [p|] eqn:Hp.
  - left. destruct (exec_conn _ _ _ _ _ _ _ _ E Hp) as (p1 & Hp1 & Hm & Hd & _).
    rewrite Hp' in Hp1. simplify_eq. exists p. split_and!; [done..|].
    unfold delivered. pose proof (lookup_lt_Some _ _ _ Hp).
    destruct o; exec_cases E; heap_simpl; repeat case_decide; simplify_eq/=; auto; try lia;
      try (right; eexists; split; [done|]; by rewrite <- app_assoc).
    + left. rewrite taken_app, decide_True by done.
      match goal with H : p_readCh _ = _ :: _ |- _ => rewrite H end. by rewrite <- app_assoc.
    + left. rewrite taken_app, decide_False by done. by rewrite app_nil_r.
  - right. destruct (exec_new_conn _ _ _ _ _ _ _ _ _ _ E Hp Hp') as (m & tr & rk & dest & -> & -> & -> & -> & ->).
    unfold delivered. simpl. rewrite app_nil_r.
    assert (h_read h' = h_read h) as -> by (exec_cases E). by apply taken_fresh.
Qed.

Lemma exec_session_log ev o h h' l sp m : exec ev o h = Some (h', l, sp) ->
  session_log m (h_received h') = session_log m (h_received h) \/
  exists d, o = IReceive m /\ dv_receive ev = Some d /\
    session_log m (h_received h') =
      session_log m (h_received h) ++ [(TrimSpace (dg_Source d), dg_Payload d)].
Proof.
  intros E. destruct o; exec_cases E; auto; rewrite session_log_app;
    match goal with |- context [decide (?x = m)] => destruct (decide (x = m)) as [->|] end;
    [right; by eexists|left; by rewrite app_nil_r|right; by eexists|left; by rewrite app_nil_r].
Qed.

(** ** The invariant *)
Lemma exec_pending ev o h h' l sp m d x : exec ev o h = Some (h', l, sp) ->
  Forall (fun '(c, _) => c < length (h_conns h)) (h_read h) -> pending h m d x ->
  o <> IReceive m ->
  (forall c p y, o = IPush c y -> h_conns h !! c = Some p -> p_manager p <> m) ->
  pending h' m d x.
Proof.
  intros E Hr (pre & Hl & Hd) H1 H2. exists pre. split.
  - by destruct (exec_session_log _ _ _ _ _ _ m E) as [->|(? & ? & _)].
  - intros c p' Hp' Hm.
    destruct (exec_delivered _ _ _ _ _ _ _ _ E Hr Hp')
      as [(p & Hp & Em & -> & [-> |(y & -> & _)])| ->]; [| |apply sublist_nil_l].
    + apply Hd; [done|congruence].
    + destruct (H2 c p y); congruence.
Qed.

Lemma carrier_frame h h' t : carrier_ok h t ->
  (forall c p, h_conns h !! c = Some p -> exists p', h_conns h' !! c = Some p' /\
     p_manager p' = p_manager p /\ p_dest p' = p_dest p) ->
  (forall m d x, 0 < sum_list_with (loops m) t -> pending h m d x -> pending h' m d x) ->
  carrier_ok h' t.
Proof.
  intros Hc Hf Hp. destruct t as [|o k]; [done|]. destruct o; simpl in Hc; try done.
  - destruct Hc as [Hpe ?]. split; [|done]. apply Hp; [|done]. simpl. rewrite same_refl. lia.
  - destruct Hc as (? & p & k' & Hpc & -> & Hpe). split; [done|].
    destruct (Hf _ _ Hpc) as (p' & ? & Em & Ed). exists p', k'. rewrite Em, Ed.
    split_and!; [done..|]. apply Hp; [|done]. simpl. rewrite same_refl. lia.
  - destruct Hc as (? & p & k' & Hpc & -> & Hpe). split; [done|].
    destruct (Hf _ _ Hpc) as (p' & ? & Em & Ed). exists p', k'. rewrite Em, Ed.
    split_and!; [done..|]. apply Hp; [|done]. simpl. rewrite same_refl. lia.
Qed.

Local Ltac no_carry := repeat (apply Forall_cons; split; [done|]); by apply Forall_nil.

(** What the stepping thread carries afterwards. *)
Lemma exec_carries ev o h h' l sp : exec ev o h = Some (h', l, sp) ->
  Forall (fun o => carries o = false) l \/
  (exists m d, o = IReceive m /\ dv_receive ev = Some d /\ h' = log_received m (TrimSpace (dg_Source d)) (dg_Payload d) h /\
     l = [ILookup m (TrimSpace (dg_Source d)) (dg_Payload d)]) \/
  (exists m d x M c, o = ILookup m d x /\ h' = h /\ h_mgrs h !! m = Some M /\ m_peers M !! d = Some c /\
     l = [IDeliver c x; IReceive m]) \/
  (exists c x, o = IDeliver c x /\ h' = h /\ l = [IPush c x]).
Proof.
  intros E. destruct o.
  1:{ simpl in E. unfold next in E. simplify_eq. left.
      by destruct (OpenPeerConn_cases (unicode_lower := unicode_lower) (sha256_hex := sha256_hex)
        tr remoteKey dest) as [[e ->]|[-> _]]; repeat constructor. }
  all: try (left; exec_cases E; repeat case_match; no_carry).
  - left. exec_cases E. apply Forall_forall. by intros o (c & -> & _)%list_elem_of_fmap.
  - exec_cases E; try (left; no_carry). right; left. by eexists _, _.
  - exec_cases E; try (left; no_carry). right; right; left. by eexists _, _, _, _, _.
  - exec_cases E; case_match; [left; no_carry|]. do 3 right. by eexists _, _.
Qed.

Lemma carrier_tail h o k : carrier_ok h (o :: k) -> Forall (fun o => carries o = false) k.
Proof. destruct o; simpl; try (by intros [_ ?]%Forall_cons); tauto. Qed.

Lemma carrier_none h t : Forall (fun o => carries o = false) t -> carrier_ok h t.
Proof.
  intros Ht. destruct t as [|o t]; [done|].
  pose proof Ht as [Ho _]%Forall_cons. destruct o; simpl in Ho; done.
Qed.

Lemma from_sublist d l l' : l `sublist_of` l' -> from d l `sublist_of` from d l'.
Proof.
  unfold from. induction 1 as [|[d' x] l l' _ IH|[d' x] l l' _ IH]; simpl; [constructor|..].
  - case_decide; [by constructor|done].
  - case_decide; [by constructor|done].
Qed.

Lemma exec_queue ev o h h' l sp c p' : exec ev o h = Some (h', l, sp) ->
  (forall p, h_conns h !! c = Some p -> length (p_readCh p) <= readChSize) ->
  h_conns h' !! c = Some p' -> length (p_readCh p') <= readChSize.
Proof.
  intros E Hq Hp'. destruct o; exec_cases E; heap_simpl; repeat case_decide; simplify_eq/=; eauto;
    rewrite ?length_app; simpl; try lia.
  match goal with H : h_conns h !! _ = Some _ |- _ => specialize (Hq _ H) end.
  match goal with H : p_readCh _ = _ :: _ |- _ => rewrite H in Hq end. simpl in Hq. lia.
Qed.

(** The thread that runs [o] is the only one in the receive loops it touches. *)
Lemma other_pending s i j t o k m d x ev h' l sp :
  inv s -> streams s -> i <> j ->
  sy_threads s !! i = Some (o :: k) -> sy_threads s !! j = Some t ->
  exec ev o (sy_heap s) = Some (h', l, sp) ->
  0 < sum_list_with (loops m) t -> pending (sy_heap s) m d x -> pending h' m d x.
Proof.
  intros I S Hij Hi Hj E Ht Hpe. destruct S as [_ _ Sr St].
  pose proof (Forall_lookup_1 _ _ _ _ (inv_valid _ I) Hi) as Vi.
  pose proof (Forall_lookup_1 _ _ _ _ St Hi) as Ci.
  assert (IReceive m ∈ o :: k -> False) as Hno.
  { intros Hin. pose proof (proj1 (Forall_forall _ _) Vi _ Hin) as Vm. simpl in Vm.
    destruct (lookup_lt_is_Some_2 _ _ Vm) as [M HM].
    pose proof (n_loop _ _ _ _ (inv_mgrs _ I _ _ HM)).
    pose proof (W_two (loops m) _ _ _ _ _ Hij Hi Hj).
    apply (sum_list_with_in _ (loops m)) in Hin. simpl in Hin. rewrite same_refl in Hin. simpl in *. lia. }
  eapply exec_pending; eauto.
  - intros ->. apply Hno. left.
  - intros c p y -> Hp <-. simpl in Ci. destruct Ci as (_ & p1 & k' & Hp1 & -> & _).
    simplify_eq. apply Hno. right; left.
Qed.

Lemma own_carrier s i o k ev h' l sp :
  inv s -> streams s -> sy_threads s !! i = Some (o :: k) ->
  exec ev o (sy_heap s) = Some (h', l, sp) -> carrier_ok h' (l ++ k).
Proof.
  intros I [Sd _ _ St] Hi E. pose proof (Forall_lookup_1 _ _ _ _ St Hi) as Ci.
  pose proof (carrier_tail _ _ _ Ci) as Hk.
  destruct (exec_carries _ _ _ _ _ _ E)
    as [Hl|[(m & d & -> & _ & -> & ->)|[(m & d & x & M & c & -> & -> & HM & Hd & ->)|(c & x & -> & -> & ->)]]].
  - apply carrier_none. by apply Forall_app.
  - split; [|done]. exists (session_log m (h_received (sy_heap s))). simpl.
    rewrite session_log_app, decide_True by done. split; [done|].
    intros c p Hp <-. by apply Sd.
  - destruct (ok_peers _ (inv_heap _ I) _ _ _ _ HM Hd) as (p & Hp & <- & <-).
    simpl in Ci. split; [by constructor|]. exists p, k. by destruct Ci.
  - done.
Qed.

Lemma streams_run s ev i s' : inv s -> streams s -> run ev i s = Some s' -> streams s'.
Proof.
  intros I S R. unfold I2pConn.run in R.
  destruct (sy_threads s !! i) as [[|o k]|] eqn:Hi; [done| |done].
  destruct (exec ev o (sy_heap s)) as [[[h' l] sp]|] eqn:E; simplify_eq.
  pose proof (Forall_lookup_1 _ _ _ _ (inv_valid _ I) Hi) as [Vo _]%Forall_cons.
  pose proof S as [Sd Sq Sr St]. constructor; simpl.
  - intros c p' Hp'.
    destruct (exec_delivered _ _ _ _ _ _ _ _ E Sr Hp')
      as [(p & Hp & -> & -> & [-> |(x & -> & ->)])| ->]; [| |apply sublist_nil_l].
    + etrans; [by apply Sd|]. apply from_sublist.
      destruct (exec_session_log _ _ _ _ _ _ (p_manager p) E) as [->|(d & _ & _ & ->)]; [done|].
      by apply sublist_inserts_r.
    + pose proof (Forall_lookup_1 _ _ _ _ St Hi) as (_ & p1 & k' & Hp1 & _ & pre & Hl & Hd).
      simplify_eq. assert (h_received h' = h_received (sy_heap s)) as -> by (by exec_cases E).
      rewrite Hl, from_app, decide_True by done. apply sublist_app; [|done]. by apply Hd.
  - intros c p' Hp'. eapply exec_queue; eauto.
  - by eapply exec_read_log.
  - apply Forall_app. split.
    + apply Forall_lookup. intros j t Hj. destruct (decide (i = j)) as [<-|Hij].
      * rewrite list_lookup_insert_eq in Hj by (by eapply lookup_lt_Some). simplify_eq.
        eapply own_carrier; eauto.
      * rewrite list_lookup_insert_ne in Hj by done. eapply carrier_frame.
        -- by eapply Forall_lookup_1.
        -- intros c p Hp. destruct (exec_conn _ _ _ _ _ _ _ _ E Hp) as (p' & ? & ? & ? & _). eauto.
        -- intros m d x. by eapply other_pending.
    + destruct (exec_spawn _ _ _ _ _ _ E) as [->|(m & -> & ->)]; [done|].
      apply Forall_singleton. by repeat constructor.
Qed.

Lemma reachable_streams s : reachable s -> streams s.
Proof.
  intros H. cut (inv s /\ streams s); [tauto|].
  refine (rtc_ind_r (fun s => inv s /\ streams s) _ _ _ s H).
  - split; [apply (reachable_inv unicode_lower sha256_hex); constructor|].
    constructor; simpl; [done..|constructor|constructor].
  - intros s1 s2 Hr Hs [I S].
    split; [apply (reachable_inv unicode_lower sha256_hex); by eapply rtc_r|].
    destruct Hs as [i ev s2 R|o Hc]; [by eapply streams_run|].
    destruct S as [Sd Sq Sr St]. constructor; simpl; auto.
    apply Forall_app. split; [done|]. apply Forall_singleton.
    destruct o; simpl in Hc; try done; by repeat constructor.
Qed.

(** ** Destinations and sessions *)
Notation manager_key := (i2pDatagramManagerKey sha256_hex).

(** The transports that [OpenPeerConn] accepts, normalized. *)
Definition transport_ok (tr : TransportConfig) : Prop :=
  Type_ tr = TransportI2PDatagram /\ I2PDestinationPrivate tr <> [] /\
  ValidateTransport unicode_lower tr = Ok tt.

Definition has_conn (h : heap) (m : nat) (d : gostring) : Prop :=
  exists c p, h_conns h !! c = Some p /\ p_manager p = m /\ p_dest p = d.

Definition keyed (h : heap) (m : nat) (tr : TransportConfig) : Prop :=
  transport_ok tr /\ exists M, h_mgrs h !! m = Some M /\ m_key M = manager_key tr.

Definition op_routed (h : heap) (o : op) : Prop :=
  match o with
  | IRetain key tr _ _ | INewSession key tr _ _ => key = manager_key tr /\ transport_ok tr
  | IInstall m tr _ _ | IRegister m tr _ _ => keyed h m tr
  | ISessionSend m d _ => has_conn h m d
  | _ => True
  end.

Record routed (s : sys) : Prop := {
  ro_sent : Forall (fun '(m, d, _) => has_conn (sy_heap s) m d) (h_sent (sy_heap s));
  ro_mgrs : forall m M, h_mgrs (sy_heap s) !! m = Some M ->
    exists tr, transport_ok tr /\ m_key M = manager_key tr /\
      m_cfg M = sessionConfig (manager_key tr) tr;
  ro_conns : forall c p, h_conns (sy_heap s) !! c = Some p ->
    keyed (sy_heap s) (p_manager p) (p_transport p) /\ p_dest p <> [];
  ro_threads : Forall (Forall (op_routed (sy_heap s))) (sy_threads s) }.

Lemma keyed_step ev o h h' l sp m tr : exec ev o h = Some (h', l, sp) ->
  keyed h m tr -> keyed h' m tr.
Proof.
  intros E [Ht (M & HM & Hk)]. split; [done|].
  destruct (exec_mgr _ _ _ _ _ _ _ _ E HM) as (M' & ? & ? & _). exists M'. split; [done|congruence].
Qed.

Lemma has_conn_step ev o h h' l sp m d : exec ev o h = Some (h', l, sp) ->
  has_conn h m d -> has_conn h' m d.
Proof.
  intros E (c & p & Hp & <- & <-).
  destruct (exec_conn _ _ _ _ _ _ _ _ E Hp) as (p' & ? & ? & ? & _). by exists c, p'.
Qed.

Lemma op_routed_step ev o h h' l sp o' : exec ev o h = Some (h', l, sp) ->
  op_routed h o' -> op_routed h' o'.
Proof. intros E. destruct o'; simpl; eauto using keyed_step, has_conn_step. Qed.

Lemma usable_keyed h m tr : heap_ok h -> transport_ok tr -> usable h (manager_key tr) = Some m ->
  keyed h m tr.
Proof.
  intros Hok Ht (Hk & _)%usable_Some. split; [done|].
  by destruct (ok_registry _ Hok _ _ Hk) as (M & ? & ?); exists M.
Qed.

Lemma exec_routed ev o h h' l sp : exec ev o h = Some (h', l, sp) -> heap_ok h ->
  op_routed h o -> Forall (op_routed h') l.
Proof.
  intros E Hok Ho. pose proof (fun m tr => keyed_step _ _ _ _ _ _ m tr E) as Hks.
  destruct o; try (exec_cases E; repeat case_match; no_carry); simpl in Ho.
  - simpl in E. unfold next in E. simplify_eq.
    destruct (OpenPeerConn_cases (unicode_lower := unicode_lower) (sha256_hex := sha256_hex)
        tr remoteKey dest) as [[e ->]|(-> & ? & ? & _ & ?)]; apply Forall_singleton; [done|].
    by split.
  - destruct Ho as [-> Ht]. exec_cases E; apply Forall_singleton; [|done].
    apply Hks. by apply usable_keyed.
  - destruct Ho as [-> Ht]. exec_cases E; apply Forall_singleton; [done|].
    split; [done|]. simpl. exists (newI2PDatagramManager (manager_key tr) (sessionConfig (manager_key tr) tr)).
    by rewrite lookup_app_r, Nat.sub_diag by done.
  - destruct Ho as [Ht (M & HM & Hk)]. exec_cases E.
    + repeat (apply Forall_cons; split; [done|]). apply Forall_singleton, Hks.
      apply usable_keyed; [done..|]. by rewrite <- Hk.
    + apply Forall_cons; split; [done|]. apply Forall_singleton, Hks. split; [done|]. by exists M.
  - exec_cases E. apply Forall_forall. by intros o (c & -> & _)%list_elem_of_fmap.
  - exec_cases E. case_match; apply Forall_singleton; [done|]. by eexists _, _.
Qed.

Lemma routed_run s ev i s' : inv s -> routed s -> run ev i s = Some s' -> routed s'.
Proof.
  intros I [Rs Rm Rc Rt] R. unfold I2pConn.run in R.
  destruct (sy_threads s !! i) as [[|o k]|] eqn:Hi; [done| |done].
  destruct (exec ev o (sy_heap s)) as [[[h' l] sp]|] eqn:E; simplify_eq.
  pose proof (Forall_lookup_1 _ _ _ _ Rt Hi) as [Ro Rk]%Forall_cons.
  pose proof (exec_routed _ _ _ _ _ _ E (inv_heap _ I) Ro) as Rl.
  constructor; simpl.
  - assert (Forall (fun '(m, d, _) => has_conn h' m d) (h_sent (sy_heap s))) as Rs'.
    { eapply Forall_impl; [exact Rs|]. intros [[m d] x]. by apply (has_conn_step _ _ _ _ _ _ _ _ E). }
    pose proof (op_routed_step _ _ _ _ _ _ o E Ro) as Ro'.
    destruct o; exec_cases E. apply Forall_app. split; [done|]. by apply Forall_singleton.
  - intros m M HM. destruct (h_mgrs (sy_heap s) !! m) as [M0|] eqn:HM0.
    + destruct (exec_mgr _ _ _ _ _ _ _ _ E HM0) as (M1 & ? & Hk & Hc & _). simplify_eq.
      destruct (Rm _ _ HM0) as (tr & ? & ? & ?). exists tr. split_and!; congruence.
    + destruct (exec_new_mgr _ _ _ _ _ _ _ _ _ _ E HM0 HM) as (key & tr & rk & dest & -> & _ & -> & _).
      destruct Ro as [-> Ht]. by exists tr.
  - intros c p Hp. destruct (h_conns (sy_heap s) !! c) as [p0|] eqn:Hp0.
    + destruct (exec_conn _ _ _ _ _ _ _ _ E Hp0) as (p1 & ? & Em & Ed & Et); simplify_eq.
      rewrite Em, Ed, Et. destruct (Rc _ _ Hp0). split; [by eapply keyed_step|done].
    + destruct (exec_new_conn _ _ _ _ _ _ _ _ _ _ E Hp0 Hp) as (m & tr & rk & dest & -> & _ & -> & _).
      split; [by eapply (keyed_step _ _ _ _ _ _ m tr E)|]. simpl. clear -E Hp Hp0.
      exec_cases E; congruence.
  - apply Forall_app. split.
    + eapply insert_Forall; [exact Rt| |].
      * intros t Ht. eapply Forall_impl; [exact Ht|]. intros o'. by apply (op_routed_step _ _ _ _ _ _ _ E).
      * apply Forall_app. split; [done|]. eapply Forall_impl; [exact Rk|].
        intros o'. by apply (op_routed_step _ _ _ _ _ _ _ E).
    + destruct (exec_spawn _ _ _ _ _ _ E) as [->|(m & -> & ->)]; [done|]. by repeat constructor.
Qed.

Lemma reachable_routed s : reachable s -> routed s.
Proof.
  intros H. cut (inv s /\ routed s); [tauto|].
  refine (rtc_ind_r (fun s => inv s /\ routed s) _ _ _ s H).
  - split; [apply (reachable_inv unicode_lower sha256_hex); constructor|].
    constructor; simpl; [constructor|done..|constructor].
  - intros s1 s2 Hr Hs [I S].
    split; [apply (reachable_inv unicode_lower sha256_hex); by eapply rtc_r|].
    destruct Hs as [i ev s2 R|o Hc]; [by eapply routed_run|].
    destruct S as [Rs Rm Rc Rt]. constructor; simpl; auto.
    apply Forall_app. split; [done|]. constructor; [|done]. constructor; [|done].
    by destruct o.
Qed.

(** ** Keys *)
Definition no_nul (s : gostring) : Prop := Ascii.zero ∉ s.

Lemma nul_split a a' b b' : no_nul a -> no_nul a' ->
  a ++ [Ascii.zero] ++ b = a' ++ [Ascii.zero] ++ b' -> a = a' /\ b = b'.
Proof.
  unfold no_nul. revert a'. induction a as [|x a IH]; intros [|x' a'] Ha Ha' H; simplify_eq/=.
  - done.
  - destruct Ha'. left.
  - destruct Ha. left.
  - apply not_elem_of_cons in Ha as [_ Ha], Ha' as [_ Ha'].
    match goal with H : _ ++ _ = _ ++ _ |- _ => by destruct (IH a' Ha Ha' H) as [-> ->] end.
Qed.

Lemma Itoa_no_nul z : (0 <= z)%Z -> no_nul (Itoa z).
Proof.
  intros Hz Hin. pose proof (proj1 (Forall_forall _ _) (Itoa_digits z Hz) _ Hin) as [? _].
  unfold byte_of in *. by vm_compute in H.
Qed.

(** The text of which the key of a session is the digest, from the
    configuration of the session. *)
Definition config_text (cfg : DatagramConfig) : gostring :=
  let nul := [Ascii.zero] in
  dc_SAMAddress cfg ++ nul ++ dc_PrivateKey cfg ++ nul ++ Itoa (dc_InboundLength cfg) ++ nul ++
  Itoa (dc_InboundQuantity cfg).

Lemma config_text_session key tr : config_text (sessionConfig key tr) = key_text tr.
Proof. done. Qed.

Lemma count_nul s : count_byte Ascii.zero s = 0 <-> no_nul s.
Proof.
  unfold count_byte, no_nul. rewrite length_zero_iff_nil. split.
  - intros H. by eapply filter_nil_not_elem_of.
  - intros H. induction s as [|c s IH]; [done|]. apply not_elem_of_cons in H as [Hc Hs].
    by rewrite filter_cons_False, IH by done.
Qed.

Lemma count_app c s t : count_byte c (s ++ t) = count_byte c s + count_byte c t.
Proof. unfold count_byte. by rewrite filter_app, length_app. Qed.

(** The fields of a text with three separators have none inside. *)
Lemma key_text_fields t1 t2 :
  no_nul (I2PSAM t1) -> no_nul (I2PDestinationPrivate t1) ->
  (0 <= I2PTunnelLength t1)%Z -> (0 <= I2PTunnelQuantity t1)%Z -> key_text t1 = key_text t2 ->
  no_nul (I2PSAM t2) /\ no_nul (I2PDestinationPrivate t2).
Proof.
  intros S1 P1 L1 Q1 H. apply (f_equal (count_byte Ascii.zero)) in H. unfold key_text in H.
  rewrite !count_app in H.
  assert (forall s, no_nul s -> count_byte Ascii.zero s = 0) as Hz by (intros; by apply count_nul).
  rewrite !(Hz (I2PSAM t1)), !(Hz (I2PDestinationPrivate t1)) in H by done.
  rewrite (Hz (Itoa (I2PTunnelLength t1))), (Hz (Itoa (I2PTunnelQuantity t1))) in H by (by apply Itoa_no_nul).
  change (count_byte Ascii.zero [Ascii.zero]) with 1 in H. rewrite <- !count_nul. lia.
Qed.

Lemma key_text_inj t1 t2 :
  no_nul (I2PSAM t1) -> no_nul (I2PDestinationPrivate t1) ->
  (0 <= I2PTunnelLength t1)%Z -> (0 <= I2PTunnelQuantity t1)%Z -> (0 <= I2PTunnelLength t2)%Z ->
  key_text t1 = key_text t2 ->
  I2PSAM t1 = I2PSAM t2 /\ I2PDestinationPrivate t1 = I2PDestinationPrivate t2 /\
  I2PTunnelLength t1 = I2PTunnelLength t2 /\ I2PTunnelQuantity t1 = I2PTunnelQuantity t2.
Proof.
  intros S1 P1 L1 Q1 L2 H. destruct (key_text_fields t1 t2 S1 P1 L1 Q1 H) as [S2 P2]. unfold key_text in H.
  apply nul_split in H as [HS H]; [|done..]. apply nul_split in H as [HP H]; [|done..].
  apply nul_split in H as [HL HQ]; [|by apply Itoa_no_nul..].
  split_and!; [done..|by apply Itoa_inj|by apply Itoa_inj].
Qed.

(** C23: Peers are isolated.  What came through a connection (read or queued) is
    a subsequence, in order and without repetition, of the payloads that its
    session received from the destination of that connection, and at most 256
    payloads are queued; every payload sent by a session went to the
    destination of a connection of that session. *)
Theorem i2p_delivery s :
  reachable s ->
  let h := sy_heap s in
  (forall c p, h_conns h !! c = Some p ->
     delivered h c p `sublist_of` from (p_dest p) (session_log (p_manager p) (h_received h)) /\
     length (p_readCh p) <= readChSize) /\
  (forall m d x, (m, d, x) ∈ h_sent h ->
     exists c p, h_conns h !! c = Some p /\ p_manager p = m /\ p_dest p = d).
Proof.
  intros R h. destruct (reachable_streams _ R) as [Sd Sq _ _].
  destruct (reachable_routed _ R) as [Rs _ _ _]. split; [eauto|].
  intros m d x Hin. exact (proj1 (Forall_forall _ _) Rs _ Hin).
Qed.

(** C24: Connections share a session only with their own identity.  Take a
    connection whose transport has no NUL byte in its SAM address and private
    destination, and suppose that SHA-256 does not collide on two texts: the
    one of this transport and the one of the session behind the connection.
    (Tunnel lengths and quantities are unsigned.)  Then that session was
    created with the SAM address, the private destination and the tunnel
    parameters of the transport that the connection was opened with, which was
    validated and has a private destination. *)
Theorem i2p_session_identity s c p M :
  reachable s -> h_conns (sy_heap s) !! c = Some p -> h_mgrs (sy_heap s) !! p_manager p = Some M ->
  let tr := p_transport p in
  let cfg := m_cfg M in
  (sha256_hex (key_text tr) = sha256_hex (config_text cfg) -> key_text tr = config_text cfg) ->
  no_nul (I2PSAM tr) -> no_nul (I2PDestinationPrivate tr) ->
  (0 <= I2PTunnelLength tr)%Z -> (0 <= I2PTunnelQuantity tr)%Z -> (0 <= dc_InboundLength cfg)%Z ->
  transport_ok tr /\ dc_PrivateKey cfg <> [] /\ cfg = sessionConfig (manager_key tr) tr.
Proof.
  intros R Hp HM tr cfg Hsha N1 N2 N3 N4 N5.
  destruct (reachable_routed _ R) as [_ Rm Rc _].
  destruct (Rc _ _ Hp) as [[Ht (M' & HM' & Hk)] _]. rewrite HM in HM'. injection HM' as <-.
  destruct (Rm _ _ HM) as (tr0 & Ht0 & Hk0 & Hc0). fold tr in Hk, Ht. fold cfg in Hc0.
  rewrite Hc0, config_text_session in Hsha.
  assert (key_text tr = key_text tr0) as Hkey.
  { apply Hsha. rewrite Hk in Hk0. exact Hk0. }
  rewrite Hc0 in N5. simpl in N5.
  destruct (key_text_inj _ _ N1 N2 N3 N4 N5 Hkey) as (E1 & E2 & E3 & E4).
  split_and!; [done| |].
  - rewrite Hc0. simpl. apply Ht0.
  - rewrite Hc0, <- Hk0, Hk. unfold sessionConfig. by rewrite E1, E2, E3, E4.
Qed.

End data.

(** ** Witnesses *)
Lemma i2p_delivery_witness : exists p,
  h_conns (sy_heap (script_end sample_fold sample_fold (script_open ++ script_receive))) !! 0 = Some p /\
  p_readCh p = [lit "hello"] /\
  delivered (sy_heap (script_end sample_fold sample_fold (script_open ++ script_receive))) 0 p
    `sublist_of` [lit "hello"].
Proof.
  destruct (i2p_delivery _ (script_reachable sample_fold sample_fold (script_open ++ script_receive)))
    as [H _].
  eexists. split; [vm_compute; reflexivity|]. split; [reflexivity|].
  exact (proj1 (H 0 _ ltac:(vm_compute; reflexivity))).
Defined.

(** A digest of 64 characters, which is not injective. *)
Definition sample_digest (s : gostring) : gostring := take 64 (s ++ replicate 64 "0"%char).

Lemma i2p_session_identity_witness : exists p M,
  h_conns (sy_heap (script_end sample_fold sample_digest script_open)) !! 0 = Some p /\
  h_mgrs (sy_heap (script_end sample_fold sample_digest script_open)) !! 0 = Some M /\
  m_cfg M = sessionConfig (i2pDatagramManagerKey sample_digest (p_transport p)) (p_transport p).
Proof.
  eexists _, _. split; [vm_compute; reflexivity|]. split; [vm_compute; reflexivity|].
  refine (proj2 (proj2 (i2p_session_identity
    (script_end sample_fold sample_digest script_open) 0 _ _
    (script_reachable sample_fold sample_digest script_open) ltac:(vm_compute; reflexivity)
    ltac:(vm_compute; reflexivity) (fun _ => eq_refl) _ _ _ _ _)));
    first [by_decide|vm_compute; discriminate].
Defined.
