(* ===== verification/NetMapTypes.v ===== *)
(** * The data of the network map calculation
      (management/server/types: policy.go, policyrule.go, group.go,
      firewall_rule.go, route_firewall_rule.go, parts of account.go;
      management/server/peer/peer.go; route/route.go; dns/nameserver.go;
      shared/management/domain)

    The records keep the fields the calculation reads or returns.  A pointer
    that is never changed after it was stored is the value it points to; the
    values of [Peers] and [Groups] may be nil pointers and are options.  The
    IDN conversions of golang.org/x/net/idna and the version comparison of
    hashicorp/go-version are parameters of the definitions that use them. *)

From Stdlib Require Import ZArith Lia Ascii String.
From stdpp Require Import base gmap strings numbers list fin_maps.
From S2P Require Import Prelude Netip GoStrings AddrText I2pSam.

(** ** Peers *)
Definition PeerCapabilityIPv6Overlay : Z := 2.

(** The parts of [PeerSystemMeta] and [Location] that posture checks read; the
    address of the connection is a byte slice. *)
Record NetworkAddress : Type := mkNetworkAddress { na_NetIP : Prefix; na_Mac : gostring }.

Record File : Type := mkFile { f_Path : gostring; f_Exist : bool; f_ProcessIsRunning : bool }.

Record PeerSystemMeta : Type := mkMeta {
  m_GoOS : gostring;
  m_OSVersion : gostring;
  m_KernelVersion : gostring;
  m_NetworkAddresses : list NetworkAddress;
  m_Files : list File }.

Record PeerLocation : Type := mkPeerLocation {
  pl_ConnectionIP : list Z;
  pl_CountryCode : gostring;
  pl_CityName : gostring }.

#[global] Instance NetworkAddress_eq_dec : EqDecision NetworkAddress.
Proof. solve_decision. Defined.

#[global] Instance File_eq_dec : EqDecision File.
Proof. solve_decision. Defined.

#[global] Instance PeerSystemMeta_eq_dec : EqDecision PeerSystemMeta.
Proof. solve_decision. Defined.

#[global] Instance PeerLocation_eq_dec : EqDecision PeerLocation.
Proof. solve_decision. Defined.

Record Peer : Type := mkPeer {
  p_ID : gostring;
  p_Key : gostring;
  p_IP : Addr;
  p_IPv6 : Addr;
  p_WtVersion : gostring;
  p_ServerSSHAllowed : bool;
  p_DisableIPv6 : bool;
  p_Capabilities : list Z;
  p_UserID : gostring;
  p_SSHEnabled : bool;
  p_LoginExpirationEnabled : bool;
  p_LastLogin : option Z;
  p_Meta : PeerSystemMeta;
  p_Location : PeerLocation }.

#[global] Instance Peer_eq_dec : EqDecision Peer.
Proof. solve_decision. Defined.

Definition AddedWithSSOLogin (p : Peer) : bool := negb (bool_decide (p_UserID p = [])).

Definition HasCapability (p : Peer) (capability : Z) : bool :=
  bool_decide (capability ∈ p_Capabilities p).

Definition SupportsIPv6 (p : Peer) : bool :=
  negb (p_DisableIPv6 p) && HasCapability p PeerCapabilityIPv6Overlay.

(** [time.Time{}], in nanoseconds from 1970, and [time.Time.Sub], which
    saturates at the range of [time.Duration]. *)
Definition zero_time : Z := (-62135596800 * 1000000000)%Z.

Definition time_Sub (t u : Z) : Z := Z.max (- 2 ^ 63) (Z.min (2 ^ 63 - 1) (t - u)).

Definition GetLastLogin (p : Peer) : Z := default zero_time (p_LastLogin p).

(** [now] is what [time.Now] returns. *)
Definition LoginExpired (now : Z) (p : Peer) (expiresIn : Z) : bool * Z :=
  if negb (AddedWithSSOLogin p) || negb (p_LoginExpirationEnabled p) then (false, 0%Z)
  else let timeLeft := time_Sub (GetLastLogin p + expiresIn) now in
       (bool_decide (timeLeft <= 0)%Z, timeLeft).

(** ** Groups *)
Record Group : Type := mkGroup {
  g_ID : gostring;
  g_Name : gostring;
  g_Peers : list gostring }.

Definition GroupAllName : gostring := lit "All".

Definition IsGroupAll (g : Group) : bool := bool_decide (g_Name g = GroupAllName).

(** ** Policies *)
Definition ResourceTypePeer : gostring := lit "peer".
Definition PolicyTrafficActionAccept : gostring := lit "accept".
Definition PolicyRuleProtocolALL : gostring := lit "all".
Definition PolicyRuleProtocolTCP : gostring := lit "tcp".
Definition PolicyRuleProtocolNetbirdSSH : gostring := lit "netbird-ssh".

Record Resource : Type := mkResource { res_ID : gostring; res_Type : gostring }.

#[global] Instance Resource_eq_dec : EqDecision Resource.
Proof. solve_decision. Defined.

(** Both bounds are 16-bit. *)
Record RulePortRange : Type := mkRange { rp_Start : Z; rp_End : Z }.

#[global] Instance RulePortRange_eq_dec : EqDecision RulePortRange.
Proof. solve_decision. Defined.

Record PolicyRule : Type := mkRule {
  pr_ID : gostring;
  pr_PolicyID : gostring;
  pr_Name : gostring;
  pr_Description : gostring;
  pr_Enabled : bool;
  pr_Action : gostring;
  pr_Destinations : list gostring;
  pr_DestinationResource : Resource;
  pr_Sources : list gostring;
  pr_SourceResource : Resource;
  pr_Bidirectional : bool;
  pr_Protocol : gostring;
  pr_Ports : list gostring;
  pr_PortRanges : list RulePortRange;
  pr_AuthorizedGroups : gmap gostring (list gostring);
  pr_AuthorizedUser : gostring }.

Record Policy : Type := mkPolicy {
  po_ID : gostring;
  po_AccountID : gostring;
  po_Name : gostring;
  po_Description : gostring;
  po_Enabled : bool;
  po_Rules : list PolicyRule;
  po_SourcePostureChecks : list gostring }.

(** [rule.SourceResource.Type == ResourceTypePeer && rule.SourceResource.ID != ""] *)
Definition isPeerResource (r : Resource) : bool :=
  bool_decide (res_Type r = ResourceTypePeer) && negb (bool_decide (res_ID r = [])).

(** ** Firewall rules *)
Definition FirewallRuleDirectionIN : Z := 0.
Definition FirewallRuleDirectionOUT : Z := 1.

Record FirewallRule : Type := mkFirewallRule {
  fr_PolicyID : gostring;
  fr_PeerIP : gostring;
  fr_Direction : Z;
  fr_Action : gostring;
  fr_Protocol : gostring;
  fr_Port : gostring;
  fr_PortRange : RulePortRange }.

#[global] Instance FirewallRule_eq_dec : EqDecision FirewallRule.
Proof. solve_decision. Defined.

Record RouteFirewallRule : Type := mkRouteFirewallRule {
  rf_PolicyID : gostring;
  rf_RouteID : gostring;
  rf_SourceRanges : list gostring;
  rf_Action : gostring;
  rf_Destination : gostring;
  rf_Protocol : gostring;
  rf_Port : Z;
  rf_PortRange : RulePortRange;
  rf_Domains : option (list gostring);
  rf_IsDynamic : bool }.

#[global] Instance RouteFirewallRule_eq_dec : EqDecision RouteFirewallRule.
Proof. solve_decision. Defined.

Definition with_Port (f : FirewallRule) (port : gostring) : FirewallRule :=
  mkFirewallRule (fr_PolicyID f) (fr_PeerIP f) (fr_Direction f) (fr_Action f) (fr_Protocol f)
    port (fr_PortRange f).

Definition with_PortRange (f : FirewallRule) (r : RulePortRange) : FirewallRule :=
  mkFirewallRule (fr_PolicyID f) (fr_PeerIP f) (fr_Direction f) (fr_Action f) (fr_Protocol f)
    (fr_Port f) r.

(** ** Ports of a rule, by the version of the peer *)
Definition firewallRuleMinPortRangesVer : gostring := lit "0.48.0".
Definition firewallRuleMinNativeSSHVer : gostring := lit "0.60.0".
Definition nativeSSHPortString : gostring := lit "22022".
Definition nativeSSHPortNumber : Z := 22022.
Definition defaultSSHPortString : gostring := lit "22".
Definition defaultSSHPortNumber : Z := 22.

Definition sanitizeVersion (version : gostring) : gostring :=
  match split_on "-" version with part :: _ => part | [] => [] end.

Record supportedFeatures : Type := mkFeatures { nativeSSH : bool; portRanges : bool }.

Definition portRangeIncludesSSH (prs : list RulePortRange) : bool :=
  existsb (fun pr =>
    ((rp_Start pr <=? defaultSSHPortNumber)%Z && (defaultSSHPortNumber <=? rp_End pr)%Z)
    || ((rp_Start pr <=? nativeSSHPortNumber)%Z && (nativeSSHPortNumber <=? rp_End pr)%Z)) prs.

Definition portsIncludesSSH (ports : list gostring) : bool :=
  existsb (fun port => bool_decide (port = defaultSSHPortString)
                       || bool_decide (port = nativeSSHPortString)) ports.

Definition policyRuleImpliesLegacySSH (rule : PolicyRule) : bool :=
  bool_decide (pr_Protocol rule = PolicyRuleProtocolALL)
  || (bool_decide (pr_Protocol rule = PolicyRuleProtocolTCP)
      && (portsIncludesSSH (pr_Ports rule) || portRangeIncludesSSH (pr_PortRanges rule))).

Definition isPortInRule (portString : gostring) (portInt : Z) (rule : FirewallRule) : bool :=
  bool_decide (fr_Port rule = portString)
  || ((rp_Start (fr_PortRange rule) <=? portInt)%Z && (portInt <=? rp_End (fr_PortRange rule))%Z).

Definition shouldCheckRulesForNativeSSH (supportsNative : bool) (rule : PolicyRule) (peer : Peer) : bool :=
  supportsNative && p_SSHEnabled peer && p_ServerSSHAllowed peer
  && bool_decide (pr_Protocol rule = PolicyRuleProtocolTCP).

(** The loop of [addNativeSSHRule]: [None] when a rule already has the native
    port, otherwise whether some rule has port 22. *)
Fixpoint scanSSH (expanded : list FirewallRule) (shouldAdd : bool) : option bool :=
  match expanded with
  | [] => Some shouldAdd
  | fr :: rest =>
      if isPortInRule nativeSSHPortString 22022 fr then None
      else scanSSH rest (if isPortInRule defaultSSHPortString 22 fr then true else shouldAdd)
  end.

Definition addNativeSSHRule (base : FirewallRule) (expanded : list FirewallRule) : list FirewallRule :=
  match scanSSH expanded false with
  | Some true => expanded ++ [with_Port base nativeSSHPortString]
  | _ => expanded
  end.

Section ports.
(** hashicorp/go-version: whether a version satisfies [>= minVer]; [None] when
    one of them does not parse. *)
Context (version_check : gostring -> gostring -> option bool).

Definition MeetsMinVersion (minVer peerVer : gostring) : option bool :=
  version_check (sanitizeVersion minVer) (sanitizeVersion peerVer).

Definition peerSupportedFirewallFeatures (peerVer : gostring) : supportedFeatures :=
  if Contains peerVer (lit "dev") then mkFeatures true true else
  let native := default false (MeetsMinVersion firewallRuleMinNativeSSHVer peerVer) in
  if native then mkFeatures true true
  else mkFeatures false (default false (MeetsMinVersion firewallRuleMinPortRangesVer peerVer)).

(** The loop over the port ranges, for a rule without ports. *)
Definition expandRange (features : supportedFeatures) (base : FirewallRule) (r : RulePortRange) :
    list FirewallRule :=
  if portRanges features then [with_PortRange base r]
  else if decide (rp_Start r <> rp_End r) then []
  else [with_Port base (Itoa (rp_Start r))].

Definition expandPortsAndRanges (base : FirewallRule) (rule : PolicyRule) (peer : Peer) :
    list FirewallRule :=
  let features := peerSupportedFirewallFeatures (p_WtVersion peer) in
  let expanded := (with_Port base <$> pr_Ports rule) ++
    (if decide (0 < length (pr_Ports rule)) then []
     else pr_PortRanges rule ≫= expandRange features base) in
  if shouldCheckRulesForNativeSSH (nativeSSH features) rule peer
     || bool_decide (pr_Protocol rule = PolicyRuleProtocolNetbirdSSH)
  then addNativeSSHRule base expanded else expanded.
End ports.

(** ** Routes *)
Inductive NetworkType : Type := InvalidNetwork | IPv4Network | IPv6Network | DomainNetwork.

#[global] Instance NetworkType_eq_dec : EqDecision NetworkType.
Proof. solve_decision. Defined.

(** [Domains]: [None] is the nil list. *)
Record Route : Type := mkRoute {
  r_ID : gostring;
  r_AccountID : gostring;
  r_Network : Prefix;
  r_Domains : option (list gostring);
  r_KeepRoute : bool;
  r_NetID : gostring;
  r_Description : gostring;
  r_Peer : gostring;
  r_PeerID : gostring;
  r_PeerGroups : list gostring;
  r_NetworkType : NetworkType;
  r_Masquerade : bool;
  r_Metric : Z;
  r_Enabled : bool;
  r_Groups : list gostring;
  r_AccessControlGroups : list gostring;
  r_SkipAutoApply : bool }.

#[global] Instance Route_eq_dec : EqDecision Route.
Proof. solve_decision. Defined.

Definition Route_Copy (r : Route) : Route :=
  mkRoute (r_ID r) (r_AccountID r) (r_Network r) (r_Domains r) (r_KeepRoute r) (r_NetID r)
    (r_Description r) (r_Peer r) (r_PeerID r) (r_PeerGroups r) (r_NetworkType r)
    (r_Masquerade r) (r_Metric r) (r_Enabled r) (r_Groups r) (r_AccessControlGroups r)
    (r_SkipAutoApply r).

(** Assignments to the fields of a fresh copy. *)
Definition set_Peer (peer : gostring) (r : Route) : Route :=
  mkRoute (r_ID r) (r_AccountID r) (r_Network r) (r_Domains r) (r_KeepRoute r) (r_NetID r)
    (r_Description r) peer (r_PeerID r) (r_PeerGroups r) (r_NetworkType r)
    (r_Masquerade r) (r_Metric r) (r_Enabled r) (r_Groups r) (r_AccessControlGroups r)
    (r_SkipAutoApply r).

Definition set_PeerGroups_ID (groups : list gostring) (id : gostring) (r : Route) : Route :=
  mkRoute id (r_AccountID r) (r_Network r) (r_Domains r) (r_KeepRoute r) (r_NetID r)
    (r_Description r) (r_Peer r) (r_PeerID r) groups (r_NetworkType r)
    (r_Masquerade r) (r_Metric r) (r_Enabled r) (r_Groups r) (r_AccessControlGroups r)
    (r_SkipAutoApply r).

Definition set_Network (id netID : gostring) (n : Prefix) (t : NetworkType) (r : Route) : Route :=
  mkRoute id (r_AccountID r) n (r_Domains r) (r_KeepRoute r) netID
    (r_Description r) (r_Peer r) (r_PeerID r) (r_PeerGroups r) t
    (r_Masquerade r) (r_Metric r) (r_Enabled r) (r_Groups r) (r_AccessControlGroups r)
    (r_SkipAutoApply r).

(** [netip.Prefix.String] *)
Definition Prefix_String (p : Prefix) : gostring :=
  if PIsValid p then Addr_String (PAddr p) ++ "/"%char :: Itoa (PBits p) else lit "invalid Prefix".

Definition IsDynamic (r : Route) : bool := bool_decide (r_NetworkType r = DomainNetwork).

(** [strings.Split(string(r.ID), ":")[0]] *)
Definition GetResourceID (r : Route) : gostring :=
  match split_on ":" (r_ID r) with part :: _ => part | [] => [] end.

Definition haSeparator : gostring := lit "|".

(** [strings.Join] with a separator of any length. *)
Fixpoint strings_Join (l : list gostring) (sep : gostring) : gostring :=
  match l with
  | [] => []
  | [x] => x
  | x :: rest => x ++ sep ++ strings_Join rest sep
  end.

Section domains.
(** golang.org/x/net/idna, and [strings.ToLower] beyond ASCII. *)
Context (idna_ToUnicode idna_ToASCII : gostring -> option gostring)
  (unicode_lower : gostring -> gostring).

Definition Domain_FromString (s : gostring) : option gostring :=
  ascii ← idna_ToASCII s; Some (ToLower unicode_lower ascii).

(** The appended list starts as nil. *)
Definition FromStringList (s : list gostring) : option (option (list gostring)) :=
  l ← mapM Domain_FromString s;
  Some (match l with [] => None | _ => Some l end).

Definition ToStringList (d : list gostring) : option (list gostring) := mapM idna_ToUnicode d.

Definition List_SafeString (d : list gostring) : gostring :=
  match ToStringList d with
  | Some l => strings_Join l (lit ", ")
  | None => strings_Join d (lit ", ")
  end.

Definition NetString (r : Route) : gostring :=
  match r_Domains r with
  | Some ds => if IsDynamic r then List_SafeString ds else Prefix_String (r_Network r)
  | None => Prefix_String (r_Network r)
  end.

Definition GetHAUniqueID (r : Route) : gostring := r_NetID r ++ haSeparator ++ NetString r.
End domains.

(** ** Networks, resources and routers *)
Definition Host : gostring := lit "host".
Definition Subnet : gostring := lit "subnet".
Definition Domain : gostring := lit "domain".

Record NetworkResource : Type := mkNetworkResource {
  nr_ID : gostring;
  nr_NetworkID : gostring;
  nr_AccountID : gostring;
  nr_Name : gostring;
  nr_Description : gostring;
  nr_Type : gostring;
  nr_Domain : gostring;
  nr_Prefix : Prefix;
  nr_Enabled : bool }.

Record NetworkRouter : Type := mkNetworkRouter {
  rt_Masquerade : bool;
  rt_Metric : Z }.

(** ** DNS *)
Record NameServer : Type := mkNameServer { ns_IP : Addr; ns_NSType : Z; ns_Port : Z }.

Record NameServerGroup : Type := mkNameServerGroup {
  nsg_ID : gostring;
  nsg_AccountID : gostring;
  nsg_Name : gostring;
  nsg_Description : gostring;
  nsg_NameServers : list NameServer;
  nsg_Groups : list gostring;
  nsg_Primary : bool;
  nsg_Domains : list gostring;
  nsg_Enabled : bool;
  nsg_SearchDomainsEnabled : bool }.

(** [Copy] leaves [AccountID] empty. *)
Definition NameServerGroup_Copy (g : NameServerGroup) : NameServerGroup :=
  mkNameServerGroup (nsg_ID g) [] (nsg_Name g) (nsg_Description g) (nsg_NameServers g)
    (nsg_Groups g) (nsg_Primary g) (nsg_Domains g) (nsg_Enabled g) (nsg_SearchDomainsEnabled g).

Record SimpleRecord : Type := mkSimpleRecord {
  sr_Name : gostring; sr_Type : Z; sr_Class : gostring; sr_TTL : Z; sr_RData : gostring }.

Record CustomZone : Type := mkCustomZone {
  cz_Domain : gostring;
  cz_Records : list SimpleRecord;
  cz_SearchDomainDisabled : bool;
  cz_NonAuthoritative : bool }.

Record DNSConfig : Type := mkDNSConfig {
  dc_ServiceEnable : bool;
  dc_NameServerGroups : list NameServerGroup;
  dc_CustomZones : list CustomZone;
  dc_ForwarderPort : Z }.

(** ** The network *)
Record Network : Type := mkNetwork {
  nw_Identifier : gostring;
  nw_Net : Prefix;
  nw_NetV6 : Prefix;
  nw_Dns : gostring;
  nw_Serial : Z }.

Definition Network_Copy (n : Network) : Network :=
  mkNetwork (nw_Identifier n) (nw_Net n) (nw_NetV6 n) (nw_Dns n) (nw_Serial n).
