(* ===== verification/NetMapPolicy.v ===== *)
(** * Policies and groups
      (management/server/types: policy.go, policyrule.go, group.go)

    The text form of rules, the comparison of policies by which updates are
    detected, and the membership operations of groups. *)

From Stdlib Require Import ZArith Lia Ascii String.
From stdpp Require Import base gmap strings numbers list fin_maps sorting.
From S2P Require Import Prelude Netip GoStrings AddrText I2pSam NetMapTypes.

(** ** Rule texts *)
Inductive policy_error : Type :=
| ErrRuleFormat
| ErrICMPPorts
| ErrRuleProtocol (protoStr : gostring)
| ErrPortRange (portStr : gostring)
| ErrPortRangeOrder (start end_ : Z)
| ErrEmptyPort
| ErrInvalidPort (portStr : gostring)
| ErrPortOutOfRange (p : Z).

Definition PolicyRuleProtocolUDP : gostring := lit "udp".
Definition PolicyRuleProtocolICMP : gostring := lit "icmp".

Definition parsePort (portStr : gostring) : res policy_error Z :=
  if decide (portStr = []) then Err ErrEmptyPort else
  match Atoi portStr with
  | None => Err (ErrInvalidPort portStr)
  | Some p => if decide (p < 1 \/ 65535 < p)%Z then Err (ErrPortOutOfRange p) else Ok p
  end.

Definition parsePortRange (portStr : gostring) : res policy_error RulePortRange :=
  if Contains portStr (lit "-") then
    match split_on "-" portStr with
    | [first; second] =>
        start ← parsePort (TrimSpace first);
        end_ ← parsePort (TrimSpace second);
        if decide (end_ < start)%Z then Err (ErrPortRangeOrder start end_)
        else Ok (mkRange (u16 start) (u16 end_))
    | _ => Err (ErrPortRange portStr)
    end
  else
    p ← parsePort portStr;
    Ok (mkRange (u16 p) (u16 p)).

(** The switch on the protocol. *)
Definition parseWithPorts (protoStr portStr : gostring) : res policy_error (gostring * RulePortRange) :=
  if decide (protoStr = lit "tcp") then
    r ← parsePortRange portStr; Ok (PolicyRuleProtocolTCP, r)
  else if decide (protoStr = lit "udp") then
    r ← parsePortRange portStr; Ok (PolicyRuleProtocolUDP, r)
  else if decide (protoStr = lit "icmp") then Err ErrICMPPorts
  else if decide (protoStr = lit "netbird-ssh") then
    Ok (PolicyRuleProtocolNetbirdSSH, mkRange nativeSSHPortNumber nativeSSHPortNumber)
  else Err (ErrRuleProtocol protoStr).

Definition ParseRuleString (unicode_lower : gostring -> gostring) (rule : gostring) :
    res policy_error (gostring * RulePortRange) :=
  let rule := TrimSpace (ToLower unicode_lower rule) in
  if decide (rule = lit "all") then Ok (PolicyRuleProtocolALL, mkRange 0 0) else
  if decide (rule = lit "icmp") then Ok (PolicyRuleProtocolICMP, mkRange 0 0) else
  match split_on "/" rule with
  | [first; second] => parseWithPorts (TrimSpace first) (TrimSpace second)
  | _ => Err ErrRuleFormat
  end.

(** ** Groups of a policy *)
Definition RuleGroups (p : Policy) : list gostring :=
  po_Rules p ≫= fun rule => pr_Sources rule ++ pr_Destinations rule.

(** [UpgradeAndFix] on one rule. *)
Definition upgradeRule (r : PolicyRule) : PolicyRule :=
  let protocol := if decide (pr_Protocol r = []) then PolicyRuleProtocolALL else pr_Protocol r in
  let bidirectional := if decide (protocol = PolicyRuleProtocolALL /\ pr_Bidirectional r = false)
                       then true else pr_Bidirectional r in
  mkRule (pr_ID r) (pr_PolicyID r) (pr_Name r) (pr_Description r) (pr_Enabled r) (pr_Action r)
    (pr_Destinations r) (pr_DestinationResource r) (pr_Sources r) (pr_SourceResource r)
    bidirectional protocol (pr_Ports r) (pr_PortRanges r) (pr_AuthorizedGroups r) (pr_AuthorizedUser r).

Definition UpgradeAndFix (p : Policy) : Policy :=
  mkPolicy (po_ID p) (po_AccountID p) (po_Name p) (po_Description p) (po_Enabled p)
    (upgradeRule <$> po_Rules p) (po_SourcePostureChecks p).

(** ** Comparison

    [slices.Sort] orders strings by bytes; only that it sorts by a total order
    matters. *)
Fixpoint string_le (a b : gostring) : bool :=
  match a, b with
  | [], _ => true
  | _ :: _, [] => false
  | x :: a, y :: b =>
      if decide (byte_of x < byte_of y)%N then true
      else if decide (byte_of y < byte_of x)%N then false
      else string_le a b
  end.

Definition le_string (a b : gostring) : Prop := string_le a b = true.

#[global] Instance le_string_dec a b : Decision (le_string a b).
Proof. unfold le_string. apply _. Defined.

Definition stringSlicesEqualUnordered (a b : list gostring) : bool :=
  if decide (length a <> length b) then false else
  if decide (length a = 0) then true else
  bool_decide (merge_sort le_string a = merge_sort le_string b).

(** [cmp(x, y) <= 0] *)
Definition le_range (x y : RulePortRange) : Prop :=
  (rp_Start x < rp_Start y \/ (rp_Start x = rp_Start y /\ rp_End x <= rp_End y))%Z.

#[global] Instance le_range_dec x y : Decision (le_range x y).
Proof. unfold le_range. apply _. Defined.

Definition portRangeSlicesEqualUnordered (a b : list RulePortRange) : bool :=
  if decide (length a <> length b) then false else
  if decide (length a = 0) then true else
  bool_decide (merge_sort le_range a = merge_sort le_range b).

Definition authorizedGroupsEqual (a b : gmap gostring (list gostring)) : bool :=
  if decide (size a <> size b) then false else
  bool_decide (map_Forall (fun k va =>
    match b !! k with Some vb => stringSlicesEqualUnordered va vb | None => false end = true) a).

Definition PolicyRule_Equal (pm other : option PolicyRule) : bool :=
  match pm, other with
  | Some pm, Some other =>
      bool_decide (pr_ID pm = pr_ID other) && bool_decide (pr_PolicyID pm = pr_PolicyID other)
      && bool_decide (pr_Name pm = pr_Name other) && bool_decide (pr_Description pm = pr_Description other)
      && bool_decide (pr_Enabled pm = pr_Enabled other) && bool_decide (pr_Action pm = pr_Action other)
      && bool_decide (pr_Bidirectional pm = pr_Bidirectional other)
      && bool_decide (pr_Protocol pm = pr_Protocol other)
      && bool_decide (pr_SourceResource pm = pr_SourceResource other)
      && bool_decide (pr_DestinationResource pm = pr_DestinationResource other)
      && bool_decide (pr_AuthorizedUser pm = pr_AuthorizedUser other)
      && stringSlicesEqualUnordered (pr_Sources pm) (pr_Sources other)
      && stringSlicesEqualUnordered (pr_Destinations pm) (pr_Destinations other)
      && stringSlicesEqualUnordered (pr_Ports pm) (pr_Ports other)
      && portRangeSlicesEqualUnordered (pr_PortRanges pm) (pr_PortRanges other)
      && authorizedGroupsEqual (pr_AuthorizedGroups pm) (pr_AuthorizedGroups other)
  | None, None => true
  | _, _ => false
  end.

(** The map from ids to the rules of the other policy: the last one wins. *)
Definition rulesByID (rules : list PolicyRule) : gmap gostring PolicyRule :=
  foldl (fun m r => <[pr_ID r := r]> m) ∅ rules.

Definition Policy_Equal (p other : Policy) : bool :=
  bool_decide (po_ID p = po_ID other) && bool_decide (po_AccountID p = po_AccountID other)
  && bool_decide (po_Name p = po_Name other) && bool_decide (po_Description p = po_Description other)
  && bool_decide (po_Enabled p = po_Enabled other)
  && stringSlicesEqualUnordered (po_SourcePostureChecks p) (po_SourcePostureChecks other)
  && bool_decide (length (po_Rules p) = length (po_Rules other))
  && forallb (fun r => match rulesByID (po_Rules other) !! pr_ID r with
                       | None => false
                       | Some otherRule => PolicyRule_Equal (Some r) (Some otherRule)
                       end) (po_Rules p).

(** ** Group membership *)
Definition with_Peers (g : Group) (peers : list gostring) : Group := mkGroup (g_ID g) (g_Name g) peers.

Definition AddPeer (g : Group) (peerID : gostring) : Group * bool :=
  if decide (peerID = []) then (g, false) else
  if decide (peerID ∈ g_Peers g) then (g, false) else
  (with_Peers g (g_Peers g ++ [peerID]), true).

(** Removes the first occurrence. *)
Fixpoint removeFirst (peerID : gostring) (l : list gostring) : option (list gostring) :=
  match l with
  | [] => None
  | x :: rest => if decide (x = peerID) then Some rest else cons x <$> removeFirst peerID rest
  end.

Definition RemovePeer (g : Group) (peerID : gostring) : Group * bool :=
  match removeFirst peerID (g_Peers g) with
  | Some peers => (with_Peers g peers, true)
  | None => (g, false)
  end.

(** ** Proofs: comparison *)
Lemma char_byte_inj x y : byte_of x = byte_of y -> x = y.
Proof. intros H. unfold byte_of in H. rewrite <- (Ascii.ascii_N_embedding x), <- (Ascii.ascii_N_embedding y). congruence. Qed.

#[global] Instance le_string_total : Total le_string.
Proof.
  unfold le_string. intros a. induction a as [|x a IH]; intros [|y b]; cbn; auto.
  destruct (decide (byte_of x < byte_of y)%N); [by left|].
  destruct (decide (byte_of y < byte_of x)%N); [by right|apply IH].
Qed.

#[global] Instance le_string_trans : Transitive le_string.
Proof.
  unfold le_string. intros a. induction a as [|x a IH]; intros [|y b] [|z c]; cbn; auto; [done..|].
  repeat case_decide; try done; try lia. apply IH.
Qed.

#[global] Instance le_string_antisymm : AntiSymm (=) le_string.
Proof.
  unfold le_string. intros a. induction a as [|x a IH]; intros [|y b]; cbn; try done.
  repeat case_decide; try done; try lia. intros H1 H2. f_equal; [|by apply IH].
  apply char_byte_inj. lia.
Qed.

#[global] Instance le_range_total : Total le_range.
Proof. intros x y. unfold le_range. lia. Qed.

#[global] Instance le_range_trans : Transitive le_range.
Proof. intros x y z. unfold le_range. lia. Qed.

#[global] Instance le_range_antisymm : AntiSymm (=) le_range.
Proof. intros [a b] [c d]. unfold le_range. cbn. intros. f_equal; lia. Qed.

(** Lists with the same sorted form are permutations of each other. *)
Lemma sorted_forms {A} (R : relation A) `{!RelDecision R, !Total R, !Transitive R, !AntiSymm (=) R}
    (a b : list A) :
  merge_sort R a = merge_sort R b <-> a ≡ₚ b.
Proof.
  split.
  - intros H. rewrite <- (merge_sort_Permutation R a), <- (merge_sort_Permutation R b). by rewrite H.
  - intros H. apply (StronglySorted_unique R).
    + by apply StronglySorted_merge_sort.
    + by apply StronglySorted_merge_sort.
    + by rewrite !merge_sort_Permutation.
Qed.

Lemma stringSlicesEqual_spec a b : stringSlicesEqualUnordered a b = true <-> a ≡ₚ b.
Proof.
  unfold stringSlicesEqualUnordered. destruct (decide (length a <> length b)) as [H|H].
  { split; [done|]. intros Hp. by apply Permutation_length in Hp. }
  apply dec_stable in H. destruct (decide (length a = 0)) as [H0|H0].
  { apply nil_length_inv in H0 as ->. symmetry in H. apply nil_length_inv in H as ->. done. }
  rewrite bool_decide_eq_true. apply (sorted_forms le_string).
Qed.

Lemma portRangeSlicesEqual_spec a b : portRangeSlicesEqualUnordered a b = true <-> a ≡ₚ b.
Proof.
  unfold portRangeSlicesEqualUnordered. destruct (decide (length a <> length b)) as [H|H].
  { split; [done|]. intros Hp. by apply Permutation_length in Hp. }
  apply dec_stable in H. destruct (decide (length a = 0)) as [H0|H0].
  { apply nil_length_inv in H0 as ->. symmetry in H. apply nil_length_inv in H as ->. done. }
  rewrite bool_decide_eq_true. apply (sorted_forms le_range).
Qed.

(** Two rules that say the same, up to the order of their lists. *)
Definition same_groups (a b : gmap gostring (list gostring)) : Prop :=
  forall k, match a !! k, b !! k with
            | Some va, Some vb => va ≡ₚ vb
            | None, None => True
            | _, _ => False
            end.

Record same_rule (r s : PolicyRule) : Prop := {
  sr_scalars : pr_ID r = pr_ID s /\ pr_PolicyID r = pr_PolicyID s /\ pr_Name r = pr_Name s /\
    pr_Description r = pr_Description s /\ pr_Enabled r = pr_Enabled s /\ pr_Action r = pr_Action s /\
    pr_Bidirectional r = pr_Bidirectional s /\ pr_Protocol r = pr_Protocol s /\
    pr_SourceResource r = pr_SourceResource s /\ pr_DestinationResource r = pr_DestinationResource s /\
    pr_AuthorizedUser r = pr_AuthorizedUser s;
  sr_lists : pr_Sources r ≡ₚ pr_Sources s /\ pr_Destinations r ≡ₚ pr_Destinations s /\
    pr_Ports r ≡ₚ pr_Ports s /\ pr_PortRanges r ≡ₚ pr_PortRanges s;
  sr_groups : same_groups (pr_AuthorizedGroups r) (pr_AuthorizedGroups s) }.

Record same_policy (p q : Policy) : Prop := {
  sp_scalars : po_ID p = po_ID q /\ po_AccountID p = po_AccountID q /\ po_Name p = po_Name q /\
    po_Description p = po_Description q /\ po_Enabled p = po_Enabled q;
  sp_checks : po_SourcePostureChecks p ≡ₚ po_SourcePostureChecks q;
  sp_left : forall r, r ∈ po_Rules p -> exists s, s ∈ po_Rules q /\ same_rule r s;
  sp_right : forall s, s ∈ po_Rules q -> exists r, r ∈ po_Rules p /\ same_rule r s }.

Lemma authorizedGroupsEqual_spec a b : authorizedGroupsEqual a b = true <-> same_groups a b.
Proof.
  unfold authorizedGroupsEqual, same_groups. split.
  - destruct (decide (size a <> size b)) as [|Hs]; [done|]. apply dec_stable in Hs.
    intros Hall%bool_decide_eq_true k.
    assert (dom a = dom b) as Hdom.
    { apply set_subseteq_size_eq; [|rewrite !size_dom; lia].
      intros j Hj. apply elem_of_dom in Hj as [va Hva]. specialize (Hall j va Hva). cbn in Hall.
      apply elem_of_dom. destruct (b !! j); [by eexists|done]. }
    destruct (a !! k) as [va|] eqn:Ha.
    + specialize (Hall k va Ha). cbn in Hall. destruct (b !! k); [|done]. by apply stringSlicesEqual_spec.
    + apply not_elem_of_dom in Ha. rewrite Hdom in Ha. apply not_elem_of_dom in Ha. by rewrite Ha.
  - intros Hsame.
    assert (dom a = dom b) as Hdom.
    { apply leibniz_equiv. intros k. rewrite !elem_of_dom. specialize (Hsame k).
      destruct (a !! k), (b !! k); try done; split; intros; by eexists. }
    rewrite decide_False by (rewrite <- !size_dom, Hdom; lia).
    apply bool_decide_eq_true. intros k va Ha. specialize (Hsame k). rewrite Ha in Hsame.
    destruct (b !! k); [|done]. by apply stringSlicesEqual_spec.
Qed.

Lemma PolicyRule_Equal_spec r s : PolicyRule_Equal (Some r) (Some s) = true <-> same_rule r s.
Proof.
  cbn [PolicyRule_Equal]. rewrite !andb_true_iff, !bool_decide_eq_true, !stringSlicesEqual_spec,
    portRangeSlicesEqual_spec, authorizedGroupsEqual_spec.
  split; [intros H; split; tauto|]. intros [H1 H2 H3]. tauto.
Qed.

Lemma rulesByID_lookup rules r : NoDup (pr_ID <$> rules) -> r ∈ rules ->
  rulesByID rules !! pr_ID r = Some r.
Proof.
  induction rules as [|x rules IH] using rev_ind; intros Hnd Hin; [by apply elem_of_nil in Hin|].
  rewrite fmap_app in Hnd. apply NoDup_app in Hnd as (Hnd & Hdis & _).
  unfold rulesByID in *. rewrite foldl_app. cbn [foldl].
  apply elem_of_app in Hin as [Hin|Hin].
  - rewrite lookup_insert_ne; [by apply IH|]. intros Heq. apply (Hdis (pr_ID r)).
    + apply list_elem_of_fmap. eauto.
    + rewrite <- Heq. by left.
  - apply list_elem_of_singleton in Hin as ->. apply lookup_insert_eq.
Qed.

Lemma rulesByID_elem rules id r : rulesByID rules !! id = Some r -> r ∈ rules /\ pr_ID r = id.
Proof.
  induction rules as [|x rules IH] using rev_ind; [by cbn; rewrite lookup_empty|].
  unfold rulesByID in *. rewrite foldl_app. cbn [foldl]. rewrite lookup_insert_Some, elem_of_app.
  intros [[<- <-]|[_ [? ?]%IH]]; [|by auto]. split; [right; by left|done].
Qed.

(** The converse half: equally many rules with distinct ids. *)
Lemma rules_onto (ps qs : list PolicyRule) : NoDup (pr_ID <$> ps) -> NoDup (pr_ID <$> qs) ->
  length ps = length qs ->
  (forall r, r ∈ ps -> exists s, s ∈ qs /\ same_rule r s) ->
  forall s, s ∈ qs -> exists r, r ∈ ps /\ same_rule r s.
Proof.
  intros Hp Hq Hlen Hall s Hs.
  assert ((pr_ID <$> ps) ≡ₚ (pr_ID <$> qs)) as Hperm.
  { apply submseteq_length_Permutation; [|by rewrite !length_fmap, Hlen]. apply NoDup_submseteq; [done|].
    intros id (r & -> & Hr)%list_elem_of_fmap. destruct (Hall r Hr) as (s' & Hs' & [[E _] _ _]).
    apply list_elem_of_fmap. eauto. }
  assert (pr_ID s ∈ pr_ID <$> ps) as Hin by (rewrite Hperm; apply list_elem_of_fmap; eauto).
  apply list_elem_of_fmap in Hin as (r & Heq & Hr). exists r. split; [done|].
  destruct (Hall r Hr) as (s' & Hs' & Hsame). assert (pr_ID s' = pr_ID s) as E.
  { destruct Hsame as [[E _] _ _]. congruence. }
  assert (s' = s) as <-; [|done].
  pose proof (rulesByID_lookup qs s' Hq Hs') as L1. pose proof (rulesByID_lookup qs s Hq Hs) as L2. congruence.
Qed.

(** C37: The comparison of policies, by which an update is recognised as a
    change, is exact: for policies whose rules have distinct ids it returns
    true if and only if the policies say the same up to the order of their
    rules and of the lists in them. *)
Theorem policy_comparison_exact p q :
  NoDup (pr_ID <$> po_Rules p) -> NoDup (pr_ID <$> po_Rules q) ->
  Policy_Equal p q = true <-> same_policy p q.
Proof.
  intros Hp Hq. unfold Policy_Equal.
  rewrite !andb_true_iff, !bool_decide_eq_true, stringSlicesEqual_spec, forallb_forall. split.
  - intros [[[Hsc Hch] Hlen] Hall].
    assert (forall r, r ∈ po_Rules p -> exists s, s ∈ po_Rules q /\ same_rule r s) as Hleft.
    { intros r Hr. specialize (Hall r (proj1 (list_elem_of_In _ _) Hr)).
      destruct (rulesByID _ !! pr_ID r) as [s|] eqn:Hl; [|done]. apply rulesByID_elem in Hl as [Hs _].
      exists s. split; [done|]. by apply PolicyRule_Equal_spec. }
    split; [tauto|done|done|]. by apply rules_onto.
  - intros [Hsc Hch Hl Hr]. split_and!; try tauto.
    + assert ((pr_ID <$> po_Rules p) ≡ₚ (pr_ID <$> po_Rules q)) as Hperm.
      2:{ apply Permutation_length in Hperm. by rewrite !length_fmap in Hperm. }
      apply NoDup_Permutation; [done..|]. intros id. rewrite !list_elem_of_fmap. split.
      * intros (r & -> & (s & Hs & [[E _] _ _])%Hl). eauto.
      * intros (s & -> & (r & Hr' & [[E _] _ _])%Hr). eauto.
    + intros r Hin%list_elem_of_In. destruct (Hl r Hin) as (s & Hs & Hsame).
      pose proof Hsame as [[E _] _ _]. rewrite E, (rulesByID_lookup _ s Hq Hs). by apply PolicyRule_Equal_spec.
Qed.

Definition w_rule (id : string) (ports : list gostring) : PolicyRule :=
  mkRule (lit id) (lit "p") [] [] true (lit "accept") [] (mkResource [] []) [] (mkResource [] [])
    false (lit "tcp") ports [] ∅ [].

Definition w_policy (rules : list PolicyRule) : Policy := mkPolicy (lit "p") [] [] [] true rules [].

Lemma policy_comparison_exact_witness :
  same_policy (w_policy [w_rule "a" [lit "22"; lit "80"]; w_rule "b" []])
    (w_policy [w_rule "b" []; w_rule "a" [lit "80"; lit "22"]]).
Proof.
  refine (proj1 (policy_comparison_exact _ _ _ _) _).
  - apply (bool_decide_unpack _). by vm_compute.
  - apply (bool_decide_unpack _). by vm_compute.
  - by vm_compute.
Defined.

(** ** Rule texts *)
Lemma parsePort_ok s p : parsePort s = Ok p <-> Atoi s = Some p /\ (1 <= p <= 65535)%Z.
Proof.
  unfold parsePort. case_decide as He; [subst; split; [done|by intros [? _]]|].
  destruct (Atoi s) as [q|]; [|split; [done|by intros [? _]]].
  case_decide as Hr; split; try done.
  - intros [[= ->] ?]. lia.
  - intros [= ->]. split; [done|lia].
  - by intros [[= ->] _].
Qed.

Lemma split_two sep s a b : split_on sep s = [a; b] <-> s = a ++ sep :: b /\ sep ∉ a /\ sep ∉ b.
Proof.
  split.
  - revert a. induction s as [|c s IH]; intros a; cbn [split_on]; [done|]. case_decide as Hc.
    + intros [= <- Hs]. subst c. assert (sep ∉ s) as Hn.
      { intros Hin. apply list_elem_of_split_l in Hin as (l1 & l2 & -> & Hl1).
        rewrite split_on_app in Hs by done. injection Hs as _ Hs. by destruct l2; simpl in Hs; repeat case_match. }
      rewrite split_on_none in Hs by done. injection Hs as ->. split_and!; [done|apply not_elem_of_nil|done].
    + destruct (split_on sep s) as [|x l] eqn:Hs; [done|]. intros [= <- ->].
      destruct (IH x eq_refl) as (-> & Ha & Hb). split_and!; [done| |done]. apply not_elem_of_cons. auto.
  - intros (-> & Ha & Hb). by rewrite split_on_app, split_on_none.
Qed.

Lemma Contains_byte s c : I2pSam.Contains s [c] = true <-> c ∈ s.
Proof.
  induction s as [|d s IH]; cbn [I2pSam.Contains HasPrefix].
  - split; [done|by intros ?%not_elem_of_nil].
  - rewrite orb_true_iff, IH, elem_of_cons.
    destruct (decide (c = d)) as [->|Hne]; [by destruct s; split; left|].
    split; intros [?|?]; try done; by right.
Qed.

(** What a text of ports means: one port, or two with a hyphen between
    them. *)
Inductive ports_text : gostring -> RulePortRange -> Prop :=
| one_port s p : "-"%char ∉ s -> Atoi s = Some p -> (1 <= p <= 65535)%Z -> ports_text s (mkRange p p)
| port_range a b x y : "-"%char ∉ a -> "-"%char ∉ b ->
    Atoi (TrimSpace a) = Some x -> Atoi (TrimSpace b) = Some y -> (1 <= x <= y)%Z -> (y <= 65535)%Z ->
    ports_text (a ++ "-"%char :: b) (mkRange x y).

(** What a rule text means, in lower case and without surrounding space: a
    protocol without ports, tcp or udp with ports behind a slash, or
    netbird-ssh, whose ports are not read. *)
Inductive text_means : gostring -> gostring -> RulePortRange -> Prop :=
| text_all : text_means (lit "all") PolicyRuleProtocolALL (mkRange 0 0)
| text_icmp : text_means (lit "icmp") PolicyRuleProtocolICMP (mkRange 0 0)
| text_tcp a b r : "/"%char ∉ a -> "/"%char ∉ b -> TrimSpace a = lit "tcp" -> ports_text (TrimSpace b) r ->
    text_means (a ++ "/"%char :: b) PolicyRuleProtocolTCP r
| text_udp a b r : "/"%char ∉ a -> "/"%char ∉ b -> TrimSpace a = lit "udp" -> ports_text (TrimSpace b) r ->
    text_means (a ++ "/"%char :: b) PolicyRuleProtocolUDP r
| text_ssh a b : "/"%char ∉ a -> "/"%char ∉ b -> TrimSpace a = lit "netbird-ssh" ->
    text_means (a ++ "/"%char :: b) PolicyRuleProtocolNetbirdSSH (mkRange 22022 22022).

Lemma u16_port z : (1 <= z <= 65535)%Z -> u16 z = z.
Proof. intros Hz. unfold u16. apply Z.mod_small. change (2 ^ 16)%Z with 65536%Z. lia. Qed.

Lemma parsePortRange_ok s r : parsePortRange s = Ok r <-> ports_text s r.
Proof.
  unfold parsePortRange. destruct (Contains s (lit "-")) eqn:Hc.
  - apply Contains_byte in Hc. split.
    + destruct (split_on "-" s) as [|a [|b [|? ?]]] eqn:Hs; try done. apply split_two in Hs as (-> & Ha & Hb).
      destruct (parsePort (TrimSpace a)) as [x| |] eqn:Hx; [|done..].
      destruct (parsePort (TrimSpace b)) as [y| |] eqn:Hy; cbn [mbind res_bind]; [|done..].
      apply parsePort_ok in Hx as [Hx ?], Hy as [Hy ?]. case_decide; [done|]. intros [= <-].
      rewrite !u16_port by lia. constructor; try done; lia.
    + intros Ht. destruct Ht as [s p Hn|a b x y Ha Hb Hx Hy Hxy Hy']; [done|].
      rewrite (proj2 (split_two _ _ a b)) by done.
      rewrite (proj2 (parsePort_ok (TrimSpace a) x)) by (split; [done|lia]). cbn [mbind res_bind].
      rewrite (proj2 (parsePort_ok (TrimSpace b) y)) by (split; [done|lia]). cbn [mbind res_bind].
      rewrite decide_False by lia. by rewrite !u16_port by lia.
  - assert ("-"%char ∉ s) as Hn.
    { intros H%Contains_byte. change (Contains s (lit "-") = true) in H. congruence. }
    split.
    + destruct (parsePort s) as [p| |] eqn:Hp; cbn [mbind res_bind]; [|done..].
      apply parsePort_ok in Hp as [Hp Hr]. intros [= <-]. rewrite u16_port by done. by constructor.
    + intros Ht. destruct Ht as [s p _ Hp Hr|a b x y]; [|destruct Hn; apply elem_of_app; right; by left].
      rewrite (proj2 (parsePort_ok s p)) by done. cbn [mbind res_bind]. by rewrite !u16_port.
Qed.

Lemma parsePortRange_returns s : parsePortRange s <> Panic.
Proof.
  assert (forall x, parsePort x <> Panic) as Hp.
  { intros x. unfold parsePort. case_decide; [done|]. destruct (Atoi x); [|done]. by case_decide. }
  unfold parsePortRange. destruct (Contains s (lit "-")).
  - destruct (split_on "-" s) as [|a [|b [|? ?]]]; try done.
    pose proof (Hp (TrimSpace a)). pose proof (Hp (TrimSpace b)).
    destruct (parsePort (TrimSpace a)); [|done..]. destruct (parsePort (TrimSpace b)); cbn [mbind res_bind]; [|done..].
    by case_decide.
  - pose proof (Hp s). by destruct (parsePort s).
Qed.

Lemma parseWithPorts_ok a b proto r : "/"%char ∉ a -> "/"%char ∉ b ->
  parseWithPorts (TrimSpace a) (TrimSpace b) = Ok (proto, r) <->
  (TrimSpace a = lit "tcp" /\ proto = PolicyRuleProtocolTCP /\ ports_text (TrimSpace b) r) \/
  (TrimSpace a = lit "udp" /\ proto = PolicyRuleProtocolUDP /\ ports_text (TrimSpace b) r) \/
  (TrimSpace a = lit "netbird-ssh" /\ proto = PolicyRuleProtocolNetbirdSSH /\ r = mkRange 22022 22022).
Proof.
  intros Ha Hb. unfold parseWithPorts. rewrite <- (parsePortRange_ok (TrimSpace b) r).
  destruct (decide (TrimSpace a = lit "tcp")) as [E|E].
  { rewrite E. destruct (parsePortRange (TrimSpace b)) as [r'| |]; cbn [mbind res_bind]; split; try done.
    - intros [= <- <-]. by left.
    - intros [(_ & -> & [= ->])|[[? _]|[? _]]]; done.
    - intros [(_ & _ & ?)|[[? _]|[? _]]]; done.
    - intros [(_ & _ & ?)|[[? _]|[? _]]]; done. }
  destruct (decide (TrimSpace a = lit "udp")) as [E'|E'].
  { rewrite E'. destruct (parsePortRange (TrimSpace b)) as [r'| |]; cbn [mbind res_bind]; split; try done.
    - intros [= <- <-]. by right; left.
    - intros [[? _]|[(_ & -> & [= ->])|[? _]]]; done.
    - intros [[? _]|[(_ & _ & ?)|[? _]]]; done.
    - intros [[? _]|[(_ & _ & ?)|[? _]]]; done. }
  case_decide as E1; [rewrite E1; split; [done|]; by intros [[? _]|[[? _]|[? _]]]|].
  case_decide as E2; [|split; [done|]; intros [[? _]|[[? _]|[? _]]]; congruence].
  split; [intros [= <- <-]; by right; right|]. intros [[? _]|[[? _]|(_ & -> & ->)]]; congruence || done.
Qed.

Lemma text_no_slash t proto r : "/"%char ∉ t -> text_means t proto r ->
  (t = lit "all" /\ proto = PolicyRuleProtocolALL /\ r = mkRange 0 0) \/
  (t = lit "icmp" /\ proto = PolicyRuleProtocolICMP /\ r = mkRange 0 0).
Proof.
  intros Hn Ht. destruct Ht as [| |a b r|a b r|a b]; [by left|by right|..];
    destruct Hn; apply elem_of_app; right; by left.
Qed.

(** C39: Rule texts are read exactly.  A text is accepted with a protocol and a
    range of ports if and only if, in lower case and without surrounding space,
    it is all or icmp (then the range is 0 to 0, no ports), tcp or udp, a slash
    and a port or a range of ports that are numbers with
    1 <= start <= end <= 65535, or netbird-ssh, a slash and anything without a
    slash (then the range is the native SSH port alone); space around a part
    does not matter.  Every other text is an error; no text makes the parser
    panic. *)
Theorem rule_text_exact unicode_lower s :
  ParseRuleString unicode_lower s <> Panic /\
  forall proto r, ParseRuleString unicode_lower s = Ok (proto, r) <->
    text_means (TrimSpace (ToLower unicode_lower s)) proto r.
Proof.
  unfold ParseRuleString. set (t := TrimSpace _). clearbody t. split.
  - do 2 (case_decide; [done|]). destruct (split_on "/" t) as [|a [|b [|? ?]]]; try done.
    unfold parseWithPorts. pose proof (parsePortRange_returns (TrimSpace b)).
    repeat case_decide; try done; by destruct (parsePortRange (TrimSpace b)).
  - intros proto r. case_decide as E1.
    { rewrite E1. split; [intros [= <- <-]; constructor|].
      by intros [(? & -> & ->)|(? & -> & ->)]%text_no_slash; [..|by_decide]. }
    case_decide as E2.
    { rewrite E2. split; [intros [= <- <-]; constructor|].
      by intros [(? & -> & ->)|(? & -> & ->)]%text_no_slash; [..|by_decide]. }
    split.
    + destruct (split_on "/" t) as [|a [|b [|? ?]]] eqn:Hs; try done. apply split_two in Hs as (-> & Ha & Hb).
      intros [(? & -> & ?)|[(? & -> & ?)|(? & -> & ->)]]%parseWithPorts_ok; try done; by constructor.
    + intros Ht. destruct Ht as [| |a b r Ha Hb E Hr|a b r Ha Hb E Hr|a b Ha Hb E]; [done..| | |];
        rewrite (proj2 (split_two _ _ a b)) by done; apply parseWithPorts_ok; auto 6.
Qed.

Lemma rule_text_exact_witness :
  ParseRuleString (fun t => t) (lit "TCP/80-443") = Ok (PolicyRuleProtocolTCP, mkRange 80 443) /\
  text_means (lit "tcp/80-443") PolicyRuleProtocolTCP (mkRange 80 443) /\
  (forall proto r, ~ text_means (lit "udp/443-80") proto r).
Proof.
  split_and!; [by vm_compute| |].
  - apply (proj1 (proj2 (rule_text_exact (fun t => t) (lit "TCP/80-443")) _ _)). by vm_compute.
  - intros proto r Ht. apply (proj2 (proj2 (rule_text_exact (fun t => t) (lit "udp/443-80")) _ _)) in Ht.
    by vm_compute in Ht.
Defined.

(** ** Groups *)
Lemma removeFirst_spec id l : NoDup l ->
  match removeFirst id l with
  | Some l' => id ∈ l /\ NoDup l' /\ forall x, x ∈ l' <-> x ∈ l /\ x <> id
  | None => id ∉ l
  end.
Proof.
  induction l as [|y l IH]; intros Hnd; cbn [removeFirst]; [by intros []%elem_of_nil|].
  apply NoDup_cons in Hnd as [Hy Hnd]. destruct (decide (y = id)) as [->|Hne].
  - split; [by left|]. split; [done|]. intros x. rewrite elem_of_cons. split.
    + intros Hx. split; [by right|]. intros ->. done.
    + intros [[->|?] ?]; done.
  - specialize (IH Hnd). destruct (removeFirst id l) as [l'|]; cbn [fmap option_fmap option_map].
    + destruct IH as (H1 & H2 & H3). split; [by right|]. split.
      * apply NoDup_cons. split; [|done]. by intros [? _]%H3.
      * intros x. rewrite !elem_of_cons, H3. naive_solver.
    + intros [?|?]%elem_of_cons; [congruence|done].
Qed.

(** The peers of a group stay without duplicates, and adding and removing a
    peer change its membership and no other. *)
Theorem group_membership g id : NoDup (g_Peers g) ->
  (let '(g', added) := AddPeer g id in
   NoDup (g_Peers g') /\ (added = true <-> id <> [] /\ id ∉ g_Peers g) /\
   (forall x, x ∈ g_Peers g' <-> x ∈ g_Peers g \/ (id <> [] /\ x = id))) /\
  (let '(g', removed) := RemovePeer g id in
   NoDup (g_Peers g') /\ (removed = true <-> id ∈ g_Peers g) /\
   (forall x, x ∈ g_Peers g' <-> x ∈ g_Peers g /\ x <> id)).
Proof.
  intros Hnd. split.
  - unfold AddPeer. destruct (decide (id = [])) as [->|Hid]; [split_and!; [done|split; [done|by intros [? _]]|]|].
    { intros x. split; [by left|]. by intros [?|[? _]]. }
    destruct (decide (id ∈ g_Peers g)) as [Hin|Hin].
    + split_and!; [done|split; [done|by intros [_ ?]]|]. intros x. split; [by left|]. by intros [?|[_ ->]].
    + cbn. split_and!; [|done|].
      * apply NoDup_app. split_and!; [done| |apply NoDup_singleton]. by intros x Hx ->%list_elem_of_singleton.
      * intros x. rewrite elem_of_app, list_elem_of_singleton. tauto.
  - unfold RemovePeer. pose proof (removeFirst_spec id (g_Peers g) Hnd) as H.
    destruct (removeFirst id (g_Peers g)) as [l'|]; cbn.
    + destruct H as (H1 & H2 & H3). done.
    + split_and!; [done|done|]. intros x. split; [|tauto]. intros Hx. split; [done|]. by intros ->.
Qed.
