(* ===== verification/Posture.v ===== *)
(** * Posture checks (management/server/posture)

    What the management service demands of a peer before a policy applies to
    it: a minimal client or system version, a location, a network, running
    processes.  An error is a failed check with a reason; the version
    comparison of hashicorp/go-version is a parameter. *)

From Stdlib Require Import ZArith Lia Ascii String.
From stdpp Require Import base strings numbers list.
From S2P Require Import Prelude Netip GoStrings AddrText I2pSam NetMapTypes.

(** ** The definitions of checks *)
Definition CheckActionAllow : gostring := lit "allow".
Definition CheckActionDeny : gostring := lit "deny".

Record Location : Type := mkLocation { loc_CountryCode : gostring; loc_CityName : gostring }.

Record Process : Type := mkProcess {
  pc_LinuxPath : gostring; pc_MacPath : gostring; pc_WindowsPath : gostring }.

(** Each of [MinVersionCheck] and [MinKernelVersionCheck] has one field. *)
Record OSVersionCheck : Type := mkOSVersionCheck {
  os_Android : option gostring;
  os_Darwin : option gostring;
  os_Ios : option gostring;
  os_Linux : option gostring;
  os_Windows : option gostring }.

(** The values of the interface [Check]. *)
Inductive Check : Type :=
| NBVersionCheck (MinVersion : gostring)
| OSVersion (c : OSVersionCheck)
| GeoLocationCheck (Locations : list Location) (Action : gostring)
| PeerNetworkRangeCheck (Action : gostring) (Ranges : list Prefix)
| ProcessCheck (Processes : list Process).

Record ChecksDefinition : Type := mkChecksDefinition {
  cd_NBVersionCheck : option gostring;
  cd_OSVersionCheck : option OSVersionCheck;
  cd_GeoLocationCheck : option (list Location * gostring);
  cd_PeerNetworkRangeCheck : option (gostring * list Prefix);
  cd_ProcessCheck : option (list Process) }.

Record Checks : Type := mkChecks { ck_ID : gostring; ck_Checks : ChecksDefinition }.

Definition GetChecks (pc : Checks) : list Check :=
  let d := ck_Checks pc in
  option_list (NBVersionCheck <$> cd_NBVersionCheck d)
  ++ option_list (OSVersion <$> cd_OSVersionCheck d)
  ++ option_list (uncurry GeoLocationCheck <$> cd_GeoLocationCheck d)
  ++ option_list (uncurry PeerNetworkRangeCheck <$> cd_PeerNetworkRangeCheck d)
  ++ option_list (ProcessCheck <$> cd_ProcessCheck d).

(** ** Errors *)
Inductive posture_error : Type :=
| ErrVersion
| ErrNoLocation
| ErrNoAddresses
| ErrAction (action : gostring)
| ErrSystem (goos : gostring)
| ErrInvalidCheck.

Notation verdict := (res posture_error bool).

(** ** Locations *)

(** The switch on the action when an entry of the list matches. *)
Definition onMatch (action : gostring) : verdict :=
  if decide (action = CheckActionDeny) then Ok false
  else if decide (action = CheckActionAllow) then Ok true
  else Err (ErrAction action).

(** The end of the list. *)
Definition onNoMatch (action : gostring) : verdict :=
  if decide (action = CheckActionDeny) then Ok true
  else if decide (action = CheckActionAllow) then Ok false
  else Err (ErrAction action).

Definition matchLocation (peer : PeerLocation) (loc : Location) : bool :=
  bool_decide (loc_CountryCode loc = pl_CountryCode peer)
  && (bool_decide (loc_CityName loc = []) || bool_decide (loc_CityName loc = pl_CityName peer)).

Definition checkGeoLocation (locations : list Location) (action : gostring) (peer : Peer) : verdict :=
  let l := p_Location peer in
  if decide (pl_CountryCode l = [] /\ pl_CityName l = []) then Err ErrNoLocation
  else if existsb (matchLocation l) locations then onMatch action
  else onNoMatch action.

(** ** Network ranges *)
Definition prefixContains (outer inner : Prefix) : bool :=
  let outer := Masked outer in
  let inner := Masked inner in
  (PBits outer <=? PBits inner)%Z && (BitLen (PAddr outer) =? BitLen (PAddr inner))%Z
  && Netip.Contains outer (PAddr inner).

(** The prefixes of the interfaces, and the address of the connection. *)
Definition peerPrefixes (peer : Peer) : list Prefix :=
  (na_NetIP <$> m_NetworkAddresses (p_Meta peer)) ++
  (let connIP := pl_ConnectionIP (p_Location peer) in
   if decide (0 < length connIP) then
     let addr := AddrFromSlice connIP in
     if IsValid addr then let addr := Unmap addr in [PrefixFrom addr (BitLen addr)] else []
   else []).

Definition checkNetworkRange (action : gostring) (ranges : list Prefix) (peer : Peer) : verdict :=
  let prefixes := peerPrefixes peer in
  if decide (length prefixes = 0) then Err ErrNoAddresses
  else if existsb (fun p => existsb (fun r => prefixContains r p) ranges) prefixes
  then onMatch action else onNoMatch action.

(** ** Processes *)
Definition extractPeerActiveProcesses (files : list File) : list gostring :=
  f_Path <$> filter (fun f => f_ProcessIsRunning f = true) files.

Definition areAllProcessesRunning (processes : list Process) (activeProcesses : list gostring)
    (pathSelector : Process -> gostring) : bool :=
  forallb (fun process => let path := pathSelector process in
    negb (bool_decide (path = [])) && bool_decide (path ∈ activeProcesses)) processes.

Definition checkProcesses (processes : list Process) (peer : Peer) : verdict :=
  let active := extractPeerActiveProcesses (m_Files (p_Meta peer)) in
  let goos := m_GoOS (p_Meta peer) in
  if decide (goos = lit "linux") then Ok (areAllProcessesRunning processes active pc_LinuxPath)
  else if decide (goos = lit "darwin") then Ok (areAllProcessesRunning processes active pc_MacPath)
  else if decide (goos = lit "windows") then Ok (areAllProcessesRunning processes active pc_WindowsPath)
  else Err (ErrSystem goos).

Section versions.
Context (version_check : gostring -> gostring -> option bool) (version_valid : gostring -> bool).

(** ** Versions

    [version_check min v]: whether [v] satisfies [>= min], [None] when one of
    them does not parse. *)
Definition checkMinVersion (peerVersion : gostring) (check : option gostring) : verdict :=
  match check with
  | None => Ok false
  | Some min => match version_check min peerVersion with Some b => Ok b | None => Err ErrVersion end
  end.

Definition checkMinKernelVersion (peerVersion : gostring) (check : option gostring) : verdict :=
  match check with
  | None => Ok false
  | Some min => match version_check min peerVersion with Some b => Ok b | None => Err ErrVersion end
  end.

Definition checkOSVersion (c : OSVersionCheck) (peer : Peer) : verdict :=
  let m := p_Meta peer in
  let goos := m_GoOS m in
  if decide (goos = lit "android") then checkMinVersion (m_OSVersion m) (os_Android c)
  else if decide (goos = lit "darwin") then checkMinVersion (m_OSVersion m) (os_Darwin c)
  else if decide (goos = lit "ios") then checkMinVersion (m_OSVersion m) (os_Ios c)
  else if decide (goos = lit "linux") then
    checkMinKernelVersion (match split_on "-" (m_KernelVersion m) with v :: _ => v | [] => [] end) (os_Linux c)
  else if decide (goos = lit "windows") then checkMinKernelVersion (m_KernelVersion m) (os_Windows c)
  else Ok true.

Definition checkNBVersion (min : gostring) (peer : Peer) : verdict :=
  match MeetsMinVersion version_check min (p_WtVersion peer) with
  | Some b => Ok b
  | None => Err ErrVersion
  end.

(** [check.Check(ctx, peer)] *)
Definition Check_Check (check : Check) (peer : Peer) : verdict :=
  match check with
  | NBVersionCheck min => checkNBVersion min peer
  | OSVersion c => checkOSVersion c peer
  | GeoLocationCheck locations action => checkGeoLocation locations action peer
  | PeerNetworkRangeCheck action ranges => checkNetworkRange action ranges peer
  | ProcessCheck processes => checkProcesses processes peer
  end.

(** [isValid, _ := check.Check(ctx, *peer)] *)
Definition isValid (check : Check) (peer : Peer) : bool :=
  match Check_Check check peer with Ok b => b | _ => false end.

(** ** Validation of the definitions *)

(** [^[a-zA-Z]{2}$] *)
Definition is_letter (c : ascii) : bool :=
  let n := byte_of c in ((65 <=? n)%N && (n <=? 90)%N) || ((97 <=? n)%N && (n <=? 122)%N).

Definition countryCodeRegex (s : gostring) : bool :=
  match s with [a; b] => is_letter a && is_letter b | _ => false end.

Definition validAction (action : gostring) : bool :=
  bool_decide (action = CheckActionAllow) || bool_decide (action = CheckActionDeny).

Definition validVersion (v : option gostring) : bool := match v with Some v => version_valid v | None => true end.

(** [Validate() == nil], of each check. *)
Definition validateNBVersion (min : gostring) : bool := negb (bool_decide (min = [])) && version_valid min.

Definition validateOSVersion (c : OSVersionCheck) : bool :=
  negb (bool_decide (os_Android c = None /\ os_Darwin c = None /\ os_Ios c = None
                     /\ os_Linux c = None /\ os_Windows c = None))
  && validVersion (os_Android c) && validVersion (os_Ios c) && validVersion (os_Darwin c)
  && validVersion (os_Linux c) && validVersion (os_Windows c).

(** An empty country code does not match the expression. *)
Definition validateGeoLocation (locations : list Location) (action : gostring) : bool :=
  validAction action && negb (bool_decide (length locations = 0))
  && forallb (fun loc => countryCodeRegex (loc_CountryCode loc)) locations.

Definition validateNetworkRange (action : gostring) (ranges : list Prefix) : bool :=
  validAction action && negb (bool_decide (length ranges = 0)).

Definition validateProcesses (processes : list Process) : bool :=
  negb (bool_decide (length processes = 0))
  && forallb (fun p => negb (bool_decide (pc_LinuxPath p = [] /\ pc_MacPath p = []
                                          /\ pc_WindowsPath p = []))) processes.

Definition Validate (check : Check) : bool :=
  match check with
  | NBVersionCheck min => validateNBVersion min
  | OSVersion c => validateOSVersion c
  | GeoLocationCheck locations action => validateGeoLocation locations action
  | PeerNetworkRangeCheck action ranges => validateNetworkRange action ranges
  | ProcessCheck processes => validateProcesses processes
  end.
End versions.

(** ** Ranges as sets of addresses *)
Lemma shiftr_more v m n : (0 <= m <= n)%Z -> Z.shiftr v n = Z.shiftr (Z.shiftr v m) (n - m).
Proof. intros H. rewrite Z.shiftr_shiftr by lia. f_equal. lia. Qed.

Lemma mask_shiftr width bits v s :
  (0 <= width - bits <= s)%Z -> Z.shiftr (mask_bits width bits v) s = Z.shiftr v s.
Proof.
  intros H. unfold mask_bits. rewrite (shiftr_more _ (width - bits) s), (shiftr_more v (width - bits) s) by lia.
  by rewrite Z.shiftr_shiftl_l, Z.sub_diag, Z.shiftl_0_r by lia.
Qed.

Lemma masked_valid p : prefix_wf p ->
  PBits (Masked p) = PBits p /\ BitLen (PAddr (Masked p)) = BitLen (PAddr p) /\
  addr_bits (PAddr (Masked p)) = mask_bits (BitLen (PAddr p)) (PBits p) (addr_bits (PAddr p)) /\
  hasZone (PAddr (Masked p)) = false /\ IsValid (PAddr (Masked p)) = true.
Proof.
  intros (_ & Hz & Hb & Hv). unfold Masked, PIsValid. rewrite (proj2 (Z.leb_le 0 _)) by lia.
  by destruct (PAddr p).
Qed.

(** [Contains] by numbers. *)
Lemma contains_bits p a : prefix_wf p ->
  Netip.Contains p a = true <->
  hasZone a = false /\ BitLen (PAddr p) = BitLen a /\
  Z.shiftr (addr_bits (PAddr p)) (BitLen (PAddr p) - PBits p) =
  Z.shiftr (addr_bits a) (BitLen (PAddr p) - PBits p).
Proof.
  intros (_ & _ & Hb & Hv). unfold Netip.Contains, PIsValid. rewrite (proj2 (Z.leb_le 0 _)) by lia.
  rewrite !andb_true_iff, negb_true_iff, !Z.eqb_eq. split.
  - intros [[[[_ H1] H2] _] H3]. by rewrite H2.
  - intros (H1 & H2 & H3). rewrite <- H2. split_and!; try done.
    destruct a; [|done..]. by destruct (PAddr p).
Qed.

Lemma prefix_contains_bits o i : prefix_wf o -> prefix_wf i ->
  prefixContains o i = true <->
  (PBits o <= PBits i)%Z /\ BitLen (PAddr o) = BitLen (PAddr i) /\
  Z.shiftr (addr_bits (PAddr o)) (BitLen (PAddr o) - PBits o) =
  Z.shiftr (addr_bits (PAddr i)) (BitLen (PAddr o) - PBits o).
Proof.
  intros Ho Hi. pose proof (masked_valid o Ho) as (O1 & O2 & O3 & O4 & O5).
  pose proof (masked_valid i Hi) as (I1 & I2 & I3 & I4 & I5).
  destruct Ho as (_ & _ & Hbo & _), Hi as (_ & _ & Hbi & _).
  unfold prefixContains, Netip.Contains, PIsValid. rewrite O1, O2, O3, I1, I2, I3, I4, I5.
  rewrite (proj2 (Z.leb_le 0 (PBits o))) by lia. cbn [negb andb].
  rewrite !andb_true_iff, Z.leb_le, !Z.eqb_eq. split.
  - intros [[H1 H2] [[_ _] H3]]. rewrite <- H2 in H3. rewrite !mask_shiftr in H3 by lia. done.
  - intros (H1 & H2 & H3). rewrite <- H2. rewrite !mask_shiftr by lia. done.
Qed.

(** The last address of a prefix. *)
Definition with_bits (a : Addr) (v : Z) : Addr :=
  match a with Addr4 _ => Addr4 v | Addr6 _ z => Addr6 v z | AddrInvalid => a end.

(** [2^m] numbers in a row do not agree above bit [s < m]. *)
Lemma shiftr_spread c k s m : (0 <= s < m)%Z ->
  (forall x, (0 <= x < 2 ^ m)%Z -> c = Z.shiftr (k * 2 ^ m + x) s) -> False.
Proof.
  intros Hsm H. assert (0 < 2 ^ s)%Z as P1 by (apply Z.pow_pos_nonneg; lia).
  assert (2 ^ m = 2 ^ s * 2 ^ (m - s))%Z as P2 by (rewrite <- Z.pow_add_r by lia; f_equal; lia).
  assert (2 <= 2 ^ (m - s))%Z as P3 by (replace (m - s)%Z with (1 + (m - s - 1))%Z by lia;
    rewrite Z.pow_add_r by lia; pose proof (Z.pow_pos_nonneg 2 (m - s - 1)); lia).
  pose proof (H 0%Z ltac:(lia)) as A. pose proof (H (2 ^ m - 1)%Z ltac:(lia)) as B.
  rewrite A in B. rewrite !Z.shiftr_div_pow2 in B by lia. rewrite P2 in B.
  replace (k * (2 ^ s * 2 ^ (m - s)) + 0)%Z with (k * 2 ^ (m - s) * 2 ^ s)%Z in B by lia.
  replace (k * (2 ^ s * 2 ^ (m - s)) + (2 ^ s * 2 ^ (m - s) - 1))%Z
    with ((k * 2 ^ (m - s) + (2 ^ (m - s) - 1)) * 2 ^ s + (2 ^ s - 1))%Z in B by lia.
  rewrite Z.div_mul, Z.add_comm, Z.div_add, Z.div_small in B by lia. lia.
Qed.

(** The addresses of a prefix of [W - m] bits. *)
Lemma prefix_member i x : prefix_wf i ->
  let m := (BitLen (PAddr i) - PBits i)%Z in
  let a := with_bits (PAddr i) (addr_bits (PAddr i) / 2 ^ m * 2 ^ m + x) in
  (0 <= x < 2 ^ m)%Z ->
  addr_wf a /\ addr_bits a = (addr_bits (PAddr i) / 2 ^ m * 2 ^ m + x)%Z /\ Netip.Contains i a = true.
Proof.
  intros Hi m a Hx. pose proof Hi as (Hwi & Hzi & Hbi & Hvi). set (W := BitLen (PAddr i)) in *.
  set (v := addr_bits (PAddr i)) in *. set (w := (v / 2 ^ m * 2 ^ m + x)%Z) in *.
  assert (addr_bits a = w) as Ew by (unfold a, with_bits; by destruct (PAddr i)).
  assert (2 ^ W = 2 ^ m * 2 ^ (W - m))%Z as PW by (rewrite <- Z.pow_add_r by lia; f_equal; lia).
  assert (0 <= v < 2 ^ W)%Z as Hv by (unfold v, W; by destruct (PAddr i)).
  assert (0 <= w < 2 ^ W)%Z as Hw.
  { unfold w. assert (0 <= v / 2 ^ m < 2 ^ (W - m))%Z; [|nia].
    split; [apply Z.div_pos; lia|apply Z.div_lt_upper_bound; nia]. }
  split; [unfold a, W in *; by destruct (PAddr i)|]. split; [done|].
  apply contains_bits; [done|]. split_and!; [unfold a; by destruct (PAddr i)..|].
  fold W v m. rewrite Ew. unfold w. rewrite !Z.shiftr_div_pow2 by lia.
  rewrite Z.add_comm, Z.div_add, (Z.div_small x) by lia. lia.
Qed.

Lemma prefix_contains_exact o i : prefix_wf o -> prefix_wf i ->
  prefixContains o i = true <->
  forall a, addr_wf a -> Netip.Contains i a = true -> Netip.Contains o a = true.
Proof.
  intros Ho Hi. rewrite (prefix_contains_bits o i Ho Hi).
  pose proof Ho as (_ & _ & Hbo & _). pose proof Hi as (Hwi & Hzi & Hbi & Hvi). split.
  - intros (H1 & H2 & H3) a Ha (Hz & Hl & Hs)%contains_bits; [|done].
    apply contains_bits; [done|]. split_and!; [done|congruence|]. rewrite H3.
    rewrite (shiftr_more _ (BitLen (PAddr i) - PBits i) (BitLen (PAddr o) - PBits o)) by lia.
    rewrite (shiftr_more (addr_bits a) (BitLen (PAddr i) - PBits i) (BitLen (PAddr o) - PBits o)) by lia.
    by rewrite Hs.
  - intros H. pose proof (H _ Hwi (Contains_self i Hi)) as (_ & Hl & Hs)%contains_bits; [|done].
    split_and!; [|done..]. destruct (Z.le_gt_cases (PBits o) (PBits i)) as [|Hgt]; [done|exfalso].
    eapply (shiftr_spread (Z.shiftr (addr_bits (PAddr o)) (BitLen (PAddr o) - PBits o))
      _ (BitLen (PAddr o) - PBits o) (BitLen (PAddr i) - PBits i)); [lia|].
    intros x Hx. destruct (prefix_member i x Hi Hx) as (Hw & Ew & Hc).
    apply (H _ Hw), contains_bits in Hc as (_ & _ & Hc); [|done]. rewrite Hc, Ew. done.
Qed.

(** ** What a valid check demands *)
Definition supported_path (goos : gostring) : option (Process -> gostring) :=
  if decide (goos = lit "linux") then Some pc_LinuxPath
  else if decide (goos = lit "darwin") then Some pc_MacPath
  else if decide (goos = lit "windows") then Some pc_WindowsPath else None.

(** The entry of an OS check for the system of the peer, with the version of
    the peer it is compared with; [None] for the systems without an entry. *)
Definition os_entry (c : OSVersionCheck) (m : PeerSystemMeta) : option (option gostring * gostring) :=
  if decide (m_GoOS m = lit "android") then Some (os_Android c, m_OSVersion m)
  else if decide (m_GoOS m = lit "darwin") then Some (os_Darwin c, m_OSVersion m)
  else if decide (m_GoOS m = lit "ios") then Some (os_Ios c, m_OSVersion m)
  else if decide (m_GoOS m = lit "linux") then Some (os_Linux c, sanitizeVersion (m_KernelVersion m))
  else if decide (m_GoOS m = lit "windows") then Some (os_Windows c, m_KernelVersion m)
  else None.

Definition satisfies (version_check : gostring -> gostring -> option bool) (check : Check) (peer : Peer) : Prop :=
  match check with
  | NBVersionCheck min =>
      version_check (sanitizeVersion min) (sanitizeVersion (p_WtVersion peer)) = Some true
  | OSVersion c =>
      match os_entry c (p_Meta peer) with
      | Some (min, v) => exists m, min = Some m /\ version_check m v = Some true
      | None => True
      end
  | GeoLocationCheck locations action =>
      let l := p_Location peer in
      (pl_CountryCode l <> [] \/ pl_CityName l <> []) /\
      (action = CheckActionAllow <-> exists loc, loc ∈ locations /\
         loc_CountryCode loc = pl_CountryCode l /\ (loc_CityName loc = [] \/ loc_CityName loc = pl_CityName l))
  | PeerNetworkRangeCheck action ranges =>
      peerPrefixes peer <> [] /\
      (action = CheckActionAllow <-> exists p r, p ∈ peerPrefixes peer /\ r ∈ ranges /\
         forall a, addr_wf a -> Netip.Contains p a = true -> Netip.Contains r a = true)
  | ProcessCheck processes =>
      exists path, supported_path (m_GoOS (p_Meta peer)) = Some path /\
        forall process, process ∈ processes -> path process <> [] /\
          exists f, f ∈ m_Files (p_Meta peer) /\ f_ProcessIsRunning f = true /\ f_Path f = path process
  end.

(** The prefixes of peer and check are proper ones. *)
Definition check_wf (check : Check) (peer : Peer) : Prop :=
  match check with
  | PeerNetworkRangeCheck _ ranges => Forall prefix_wf ranges /\ Forall prefix_wf (peerPrefixes peer)
  | _ => True
  end.

(** The two ends of a list check with a valid action. *)
Lemma action_verdict action (b : bool) : validAction action = true ->
  match (if b then onMatch action else onNoMatch action) with Ok v => v | _ => false end = true <->
  (action = CheckActionAllow <-> b = true).
Proof.
  unfold validAction. intros [->%bool_decide_eq_true| ->%bool_decide_eq_true]%orb_true_iff;
    destruct b; unfold onMatch, onNoMatch; cbn; split; try done; intros [H1 H2]; try done;
    (specialize (H1 eq_refl) || specialize (H2 eq_refl)); done.
Qed.

Lemma geo_exact locations action peer : validAction action = true ->
  match checkGeoLocation locations action peer with Ok v => v | _ => false end = true <->
  satisfies (fun _ _ => None) (GeoLocationCheck locations action) peer.
Proof.
  intros Hv. unfold checkGeoLocation. cbn [satisfies]. case_decide as Hl.
  { split; [done|]. intros [[?|?] _]; tauto. }
  rewrite (action_verdict action _ Hv), existsb_exists. setoid_rewrite <- list_elem_of_In.
  assert ((exists x, x ∈ locations /\ matchLocation (p_Location peer) x = true) <->
    (exists loc, loc ∈ locations /\ loc_CountryCode loc = pl_CountryCode (p_Location peer) /\
       (loc_CityName loc = [] \/ loc_CityName loc = pl_CityName (p_Location peer)))) as ->.
  { unfold matchLocation. setoid_rewrite andb_true_iff. setoid_rewrite orb_true_iff.
    by setoid_rewrite bool_decide_eq_true. }
  destruct (decide (pl_CountryCode (p_Location peer) = [])), (decide (pl_CityName (p_Location peer) = [])); tauto.
Qed.

Lemma range_exact action ranges peer : validAction action = true ->
  check_wf (PeerNetworkRangeCheck action ranges) peer ->
  match checkNetworkRange action ranges peer with Ok v => v | _ => false end = true <->
  satisfies (fun _ _ => None) (PeerNetworkRangeCheck action ranges) peer.
Proof.
  intros Hv [Hr Hp]. rewrite Forall_forall in Hr, Hp. unfold checkNetworkRange. cbn [satisfies].
  case_decide as Hl.
  { apply length_zero_iff_nil in Hl. rewrite Hl. split; [done|]. by intros [? _]. }
  rewrite (action_verdict action _ Hv), existsb_exists. setoid_rewrite existsb_exists.
  setoid_rewrite <- list_elem_of_In.
  assert ((exists p, p ∈ peerPrefixes peer /\ exists r, r ∈ ranges /\ prefixContains r p = true) <->
    (exists p r, p ∈ peerPrefixes peer /\ r ∈ ranges /\
       forall a, addr_wf a -> Netip.Contains p a = true -> Netip.Contains r a = true)) as ->.
  { split.
    - intros (p & Hin & r & Hir & H). exists p, r. split_and!; [done..|].
      apply prefix_contains_exact; auto.
    - intros (p & r & Hin & Hir & H). exists p. split; [done|]. exists r. split; [done|].
      apply prefix_contains_exact; auto. }
  split; [|tauto]. intros ?. split; [|done]. intros E. by rewrite E in Hl.
Qed.

Lemma process_exact processes peer :
  match checkProcesses processes peer with Ok v => v | _ => false end = true <->
  satisfies (fun _ _ => None) (ProcessCheck processes) peer.
Proof.
  assert (forall path, areAllProcessesRunning processes (extractPeerActiveProcesses (m_Files (p_Meta peer))) path = true <->
    forall process, process ∈ processes -> path process <> [] /\
      exists f, f ∈ m_Files (p_Meta peer) /\ f_ProcessIsRunning f = true /\ f_Path f = path process) as H.
  { intros path. unfold areAllProcessesRunning, extractPeerActiveProcesses. rewrite forallb_forall.
    setoid_rewrite <- list_elem_of_In. setoid_rewrite andb_true_iff. setoid_rewrite negb_true_iff.
    setoid_rewrite bool_decide_eq_true. setoid_rewrite bool_decide_eq_false.
    setoid_rewrite list_elem_of_fmap. setoid_rewrite list_elem_of_filter. split.
    - intros H p Hp. destruct (H p Hp) as [H1 (f & H2 & H3 & H4)]. eauto 8.
    - intros H p Hp. destruct (H p Hp) as [H1 (f & H2 & H3 & H4)]. eauto 8. }
  unfold checkProcesses. cbn [satisfies]. unfold supported_path.
  repeat case_decide; [rewrite H; split; [eauto|by intros (? & [= <-] & ?)]..|].
  split; [done|]. by intros (? & ? & _).
Qed.

Lemma os_exact version_check c peer :
  match checkOSVersion version_check c peer with Ok v => v | _ => false end = true <->
  satisfies version_check (OSVersion c) peer.
Proof.
  assert (forall v min, match checkMinVersion version_check v min with Ok b => b | _ => false end = true <->
    exists m, min = Some m /\ version_check m v = Some true) as H.
  { intros v [m|]; cbn.
    - destruct (version_check m v) as [b|] eqn:E; split; intros Hx; try done.
      + subst. eauto.
      + destruct Hx as (? & [= <-] & ?). congruence.
      + destruct Hx as (? & [= <-] & ?). congruence.
    - split; [done|]. by intros (? & ? & _). }
  unfold checkOSVersion. cbn [satisfies]. unfold os_entry, sanitizeVersion.
  repeat case_decide; apply H || done.
Qed.

(** C38: A posture check does what its definition says.  Take a check that
    passes validation; for a network check, let the ranges and the networks of
    the peer be proper prefixes.  A peer meets it if and only if the peer has
    what it demands: the client version compares; the version of the system
    compares with the one given for it, or the system is not one of the five
    that the check knows (then the check is met, also without any information
    on the system); the location is known and is (for deny: is not) one of the
    list; the peer has a network and some network of it lies, with all its
    addresses, in a configured range (for deny: none does); every listed
    process runs on Linux, macOS or Windows. *)
Theorem posture_checks_exact version_check version_valid check peer :
  Validate version_valid check = true -> check_wf check peer ->
  isValid version_check check peer = true <-> satisfies version_check check peer.
Proof.
  intros Hv Hw. unfold isValid, Check_Check. destruct check; cbn [Validate] in Hv; unfold validateGeoLocation, validateNetworkRange in Hv.
  - cbn [satisfies]. unfold checkNBVersion, MeetsMinVersion.
    destruct (version_check _ _) as [[]|]; split; done || congruence.
  - apply os_exact.
  - rewrite !andb_true_iff in Hv. exact (geo_exact _ _ _ (proj1 (proj1 Hv))).
  - rewrite !andb_true_iff in Hv. exact (range_exact _ _ _ (proj1 Hv) Hw).
  - apply process_exact.
Qed.

(** A peer without system information meets every check of the system's
    version. *)
Theorem unknown_system_meets_os_check version_check c peer :
  m_GoOS (p_Meta peer) = [] -> isValid version_check (OSVersion c) peer = true.
Proof.
  intros H. unfold isValid, Check_Check. apply os_exact. cbn [satisfies]. unfold os_entry. by rewrite H.
Qed.

(** A peer in 10.1.2.0/24 meets a check that allows 10.0.0.0/8 and fails one
    that denies it. *)
Definition example_subnet : Prefix := mkPrefix (Addr4 167838208) 24.
Definition example_range : Prefix := mkPrefix (Addr4 167772160) 8.
Definition example_ranged_peer : Peer :=
  mkPeer (lit "a") (lit "ka") (Addr4 1681915905) AddrInvalid (lit "0.65.0") true false [] [] true false None
    (mkMeta (lit "linux") (lit "12") (lit "6.1.0-9") [mkNetworkAddress example_subnet []] [])
    (mkPeerLocation [] [] []).

Lemma posture_checks_exact_witness :
  satisfies (fun _ _ => None) (PeerNetworkRangeCheck CheckActionAllow [example_range]) example_ranged_peer /\
  ~ satisfies (fun _ _ => None) (PeerNetworkRangeCheck CheckActionDeny [example_range]) example_ranged_peer.
Proof.
  assert (forall action, check_wf (PeerNetworkRangeCheck action [example_range]) example_ranged_peer) as Hw.
  { intros action. assert (prefix_wf example_subnet /\ prefix_wf example_range) as [H1 H2]
      by (unfold prefix_wf; cbn [addr_wf example_subnet example_range PAddr PBits BitLen]; split_and!; lia || done).
    split; [by apply Forall_singleton|].
    change (Forall prefix_wf [example_subnet]). by apply Forall_singleton. }
  split.
  - apply (posture_checks_exact (fun _ _ => None) (fun _ => true)
      (PeerNetworkRangeCheck CheckActionAllow [example_range]) example_ranged_peer); [reflexivity|apply Hw|reflexivity].
  - intros H. apply (posture_checks_exact (fun _ _ => None) (fun _ => true)
      (PeerNetworkRangeCheck CheckActionDeny [example_range]) example_ranged_peer) in H; [discriminate|reflexivity|apply Hw].
Defined.
