(* ===== verification/NetMapCalc.v ===== *)
(** * The network map calculation
      (management/server/types/networkmap_components.go, firewall_rule.go)

    One definition per function.  A Go map of peer or group ids is a [gmap]
    or [gset]; ranging over one visits its keys in the order [ord] gives, an
    arbitrary enumeration of the set.  [now i] is the [i]-th reading of the
    clock.  The functions that can dereference a nil group or index an empty
    rule list return in [res]. *)

From Stdlib Require Import ZArith Lia Ascii String.
From stdpp Require Import base gmap strings numbers list fin_maps.
From S2P Require Import Prelude Netip GoStrings AddrText I2pSam NetMapTypes.

Notation idset := (gset gostring).
Notation go A := (res Empty_set A).

Record AccountSettingsInfo : Type := mkAccountSettingsInfo {
  PeerLoginExpirationEnabled : bool;
  PeerLoginExpiration : Z;
  PeerInactivityExpirationEnabled : bool;
  PeerInactivityExpiration : Z }.

Record NetworkMapComponents : Type := mkComponents {
  PeerID : gostring;
  c_Network : Network;
  AccountSettings : AccountSettingsInfo;
  DisabledManagementGroups : list gostring;
  CustomZoneDomain : gostring;
  Peers : gmap gostring (option Peer);
  Groups : gmap gostring (option Group);
  Policies : list Policy;
  Routes : list Route;
  NameServerGroups : list NameServerGroup;
  AllDNSRecords : list SimpleRecord;
  AccountZones : list CustomZone;
  ResourcePoliciesMap : gmap gostring (list Policy);
  RoutersMap : gmap gostring (gmap gostring NetworkRouter);
  NetworkResources : list NetworkResource;
  GroupIDToUserIDs : gmap gostring (list gostring);
  AllowedUserIDs : option idset;
  PostureFailedPeers : gmap gostring idset;
  RouterPeers : gmap gostring (option Peer) }.

Record NetworkMap : Type := mkNetworkMap {
  nm_Peers : list Peer;
  nm_Network : Network;
  nm_Routes : list Route;
  nm_DNSConfig : DNSConfig;
  nm_OfflinePeers : list Peer;
  nm_FirewallRules : list FirewallRule;
  nm_RoutesFirewallRules : list RouteFirewallRule;
  nm_AuthorizedUsers : gmap gostring idset;
  nm_EnableSSH : bool }.

(** ** Lookups *)
Definition GetPeerInfo (c : NetworkMapComponents) (peerID : gostring) : option Peer :=
  mjoin (Peers c !! peerID).

Definition GetRouterPeerInfo (c : NetworkMapComponents) (peerID : gostring) : option Peer :=
  mjoin (RouterPeers c !! peerID).

Definition GetGroupInfo (c : NetworkMapComponents) (groupID : gostring) : option Group :=
  mjoin (Groups c !! groupID).

Definition IsPeerInGroup (c : NetworkMapComponents) (peerID groupID : gostring) : bool :=
  match GetGroupInfo c groupID with
  | None => false
  | Some group => bool_decide (peerID ∈ g_Peers group)
  end.

(** [_, exists := c.Peers[id]] *)
Definition peer_exists (c : NetworkMapComponents) (id : gostring) : bool :=
  bool_decide (is_Some (Peers c !! id)).

Definition ValidatePostureChecksOnPeer (c : NetworkMapComponents) (peerID : gostring)
    (postureCheckIDs : list gostring) : bool :=
  if negb (peer_exists c peerID) then false else
  forallb (fun checkID =>
    match PostureFailedPeers c !! checkID with
    | Some failedPeers => negb (bool_decide (peerID ∈ failedPeers))
    | None => true
    end) postureCheckIDs.

Definition getAllowedUserIDs (c : NetworkMapComponents) : idset := default ∅ (AllowedUserIDs c).

Definition getPostureValidPeers (c : NetworkMapComponents) (inputPeers postureChecksIDs : list gostring) :
    list gostring :=
  filter (fun peerID => ValidatePostureChecksOnPeer c peerID postureChecksIDs = true) inputPeers.

(** ** Generated resources of the connections

    The closure variables of [connResourcesGenerator]. *)
Record Generator : Type := mkGenerator {
  rulesExists : idset;
  peersExists : idset;
  g_rules : list FirewallRule;
  g_peers : list Peer }.

Definition newGenerator : Generator := mkGenerator ∅ ∅ [] [].

Record firewallRuleContext : Type := mkRuleContext {
  rc_direction : Z;
  rc_dirStr : gostring;
  rc_protocolStr : gostring;
  rc_actionStr : gostring;
  rc_portsJoined : gostring }.

Definition ruleContext (rule : PolicyRule) (direction : Z) : firewallRuleContext :=
  let protocol := if decide (pr_Protocol rule = PolicyRuleProtocolNetbirdSSH)
                  then PolicyRuleProtocolTCP else pr_Protocol rule in
  mkRuleContext direction (Itoa direction) protocol (pr_Action rule) (join "," (pr_Ports rule)).

(** The rule identifier and the rule for one address of a peer. *)
Definition ruleIDOf (rule : PolicyRule) (ip : gostring) (rc : firewallRuleContext) : gostring :=
  pr_ID rule ++ ip ++ rc_dirStr rc ++ rc_protocolStr rc ++ rc_actionStr rc ++ rc_portsJoined rc.

Definition baseRule (rule : PolicyRule) (ip : gostring) (rc : firewallRuleContext) : FirewallRule :=
  mkFirewallRule (pr_ID rule) ip (rc_direction rc) (rc_actionStr rc) (rc_protocolStr rc) []
    (mkRange 0 0).

Section calculation.
Context (version_check : gostring -> gostring -> option bool)
  (idna_ToUnicode idna_ToASCII : gostring -> option gostring)
  (unicode_lower : gostring -> gostring)
  (ord : idset -> list gostring) (now : nat -> Z).

(** The branch on the ports of the rule. *)
Definition portRules (rule : PolicyRule) (targetPeer : Peer) (fr : FirewallRule) : list FirewallRule :=
  if decide (length (pr_Ports rule) = 0 /\ length (pr_PortRanges rule) = 0) then [fr]
  else expandPortsAndRanges version_check fr rule targetPeer.

Definition appendIPv6FirewallRule (rules : list FirewallRule) (exists_ : idset)
    (peer targetPeer : Peer) (rule : PolicyRule) (rc : firewallRuleContext) :
    idset * list FirewallRule :=
  if negb (IsValid (p_IPv6 peer)) || negb (SupportsIPv6 targetPeer)
     || negb (IsValid (p_IPv6 targetPeer)) then (exists_, rules) else
  let v6IP := Addr_String (p_IPv6 peer) in
  let v6RuleID := ruleIDOf rule v6IP rc in
  if decide (v6RuleID ∈ exists_) then (exists_, rules) else
  ({[v6RuleID]} ∪ exists_, rules ++ portRules rule targetPeer (baseRule rule v6IP rc)).

(** One iteration of the loop of the generator. *)
Definition generatePeer (targetPeer : Peer) (rule : PolicyRule) (rc : firewallRuleContext)
    (st : Generator) (peer : Peer) : Generator :=
  let '(known, peers) :=
    if decide (p_ID peer ∈ peersExists st) then (peersExists st, g_peers st)
    else ({[p_ID peer]} ∪ peersExists st, g_peers st ++ [peer]) in
  let peerIP := Addr_String (p_IP peer) in
  let ruleID := ruleIDOf rule peerIP rc in
  if decide (ruleID ∈ rulesExists st) then mkGenerator (rulesExists st) known (g_rules st) peers else
  let '(ids, rules) := appendIPv6FirewallRule
    (g_rules st ++ portRules rule targetPeer (baseRule rule peerIP rc))
    ({[ruleID]} ∪ rulesExists st) peer targetPeer rule rc in
  mkGenerator ids known rules peers.

Definition generateResources (targetPeer : Peer) (st : Generator) (rule : PolicyRule)
    (groupPeers : list Peer) (direction : Z) : Generator :=
  foldl (generatePeer targetPeer rule (ruleContext rule direction)) st groupPeers.

(** ** The peers of a rule *)

(** The loop of [getUniquePeerIDsFromGroupsIDs]: [inl] is the early return. *)
Fixpoint collectPeerIDs (c : NetworkMapComponents) (single : bool) (groups : list gostring)
    (peerIDs : idset) : list gostring + idset :=
  match groups with
  | [] => inr peerIDs
  | groupID :: rest =>
      match GetGroupInfo c groupID with
      | None => collectPeerIDs c single rest peerIDs
      | Some group =>
          if IsGroupAll group || single then inl (g_Peers group)
          else collectPeerIDs c single rest (list_to_set (g_Peers group) ∪ peerIDs)
      end
  end.

Definition getUniquePeerIDsFromGroupsIDs (c : NetworkMapComponents) (groups : list gostring) :
    list gostring :=
  match collectPeerIDs c (bool_decide (length groups = 1)) groups ∅ with
  | inl ids => ids
  | inr ids => ord ids
  end.

(** One iteration of [getAllPeersFromGroups]. *)
Definition takePeer (c : NetworkMapComponents) (peerID : gostring) (checks : list gostring)
    (st : list Peer * bool) (p : gostring) : list Peer * bool :=
  match GetPeerInfo c p with
  | None => st
  | Some peerInfo =>
      if negb (peer_exists c p) then st else
      if negb (ValidatePostureChecksOnPeer c p checks) then st else
      if decide (p = peerID) then (st.1, true)
      else (st.1 ++ [peerInfo], st.2)
  end.

Definition getAllPeersFromGroups (c : NetworkMapComponents) (groups : list gostring)
    (peerID : gostring) (sourcePostureChecksIDs : list gostring) : list Peer * bool :=
  foldl (takePeer c peerID sourcePostureChecksIDs) ([], false)
    (getUniquePeerIDsFromGroupsIDs c groups).

Definition getPeerFromResource (c : NetworkMapComponents) (resource : Resource) (peerID : gostring) :
    list Peer * bool :=
  if decide (res_ID resource = peerID) then ([], true) else
  match GetPeerInfo c (res_ID resource) with
  | None => ([], false)
  | Some peerInfo => ([peerInfo], false)
  end.

(** The peers on one side of a rule. *)
Definition sidePeers (c : NetworkMapComponents) (resource : Resource) (groups : list gostring)
    (peerID : gostring) (checks : list gostring) : list Peer * bool :=
  if isPeerResource resource then getPeerFromResource c resource peerID
  else getAllPeersFromGroups c groups peerID checks.

(** ** Connections and SSH *)
Definition Wildcard : gostring := lit "*".

(** [authorizedUsers[localUser][userID] = struct{}{}] for the user ids, with
    the entry made first. *)
Definition authorize (userIDs : list gostring) (users : gmap gostring idset) (localUser : gostring) :
    gmap gostring idset :=
  <[localUser := list_to_set userIDs ∪ default ∅ (users !! localUser)]> users.

Definition authorizeGroup (c : NetworkMapComponents) (rule : PolicyRule)
    (users : gmap gostring idset) (groupID : gostring) : gmap gostring idset :=
  match GroupIDToUserIDs c !! groupID with
  | None => users
  | Some userIDs =>
      let localUsers := default [] (pr_AuthorizedGroups rule !! groupID) in
      let localUsers := if decide (length localUsers = 0) then [Wildcard] else localUsers in
      foldl (authorize userIDs) users localUsers
  end.

Definition authorizeRule (c : NetworkMapComponents) (targetPeer : Peer) (rule : PolicyRule)
    (peerInDestinations : bool) (st : gmap gostring idset * bool) : gmap gostring idset * bool :=
  let '(users, sshEnabled) := st in
  if peerInDestinations && bool_decide (pr_Protocol rule = PolicyRuleProtocolNetbirdSSH) then
    (if decide (0 < size (pr_AuthorizedGroups rule)) then
       foldl (authorizeGroup c rule) users (ord (dom (pr_AuthorizedGroups rule)))
     else if decide (pr_AuthorizedUser rule <> []) then
       authorize [pr_AuthorizedUser rule] users Wildcard
     else <[Wildcard := getAllowedUserIDs c]> users, true)
  else if peerInDestinations && policyRuleImpliesLegacySSH rule && p_SSHEnabled targetPeer then
    (<[Wildcard := getAllowedUserIDs c]> users, true)
  else (users, sshEnabled).

Record ConnState : Type := mkConnState {
  cs_gen : Generator;
  cs_users : gmap gostring idset;
  cs_ssh : bool }.

(** The body of the inner loop of [getPeerConnectionResources]. *)
Definition connectRule (c : NetworkMapComponents) (targetPeer : Peer) (targetPeerID : gostring)
    (policy : Policy) (st : ConnState) (rule : PolicyRule) : ConnState :=
  if negb (pr_Enabled rule) then st else
  let '(sourcePeers, peerInSources) :=
    sidePeers c (pr_SourceResource rule) (pr_Sources rule) targetPeerID (po_SourcePostureChecks policy) in
  let '(destinationPeers, peerInDestinations) :=
    sidePeers c (pr_DestinationResource rule) (pr_Destinations rule) targetPeerID [] in
  let gen (run : bool) g peers direction :=
    if run then generateResources targetPeer g rule peers direction else g in
  let g := cs_gen st in
  let g := gen (pr_Bidirectional rule && peerInSources) g destinationPeers FirewallRuleDirectionIN in
  let g := gen (pr_Bidirectional rule && peerInDestinations) g sourcePeers FirewallRuleDirectionOUT in
  let g := gen peerInSources g destinationPeers FirewallRuleDirectionOUT in
  let g := gen peerInDestinations g sourcePeers FirewallRuleDirectionIN in
  let '(users, ssh) := authorizeRule c targetPeer rule peerInDestinations (cs_users st, cs_ssh st) in
  mkConnState g users ssh.

Definition connectPolicy (c : NetworkMapComponents) (targetPeer : Peer) (targetPeerID : gostring)
    (st : ConnState) (policy : Policy) : ConnState :=
  if negb (po_Enabled policy) then st
  else foldl (connectRule c targetPeer targetPeerID policy) st (po_Rules policy).

Definition getPeerConnectionResources (c : NetworkMapComponents) (targetPeerID : gostring) :
    list Peer * list FirewallRule * gmap gostring idset * bool :=
  match GetPeerInfo c targetPeerID with
  | None => ([], [], ∅, false)
  | Some targetPeer =>
      let st := foldl (connectPolicy c targetPeer targetPeerID)
                  (mkConnState newGenerator ∅ false) (Policies c) in
      (g_peers (cs_gen st), g_rules (cs_gen st), cs_users st, cs_ssh st)
  end.

(** [i] counts the readings of the clock; [LoginExpired] reads it only for a
    peer whose login can expire. *)
Fixpoint filterExpired (c : NetworkMapComponents) (i : nat) (aclPeers : list Peer) :
    list Peer * list Peer :=
  match aclPeers with
  | [] => ([], [])
  | p :: rest =>
      let expired := (LoginExpired (now i) p (PeerLoginExpiration (AccountSettings c))).1 in
      let '(toConnect, expiredPeers) := filterExpired c (S i) rest in
      if PeerLoginExpirationEnabled (AccountSettings c) && expired
      then (toConnect, p :: expiredPeers) else (p :: toConnect, expiredPeers)
  end.

Definition filterPeersByLoginExpiration (c : NetworkMapComponents) (aclPeers : list Peer) :
    list Peer * list Peer := filterExpired c 0 aclPeers.

(** ** Groups and DNS *)

(** The loop reads [group.Peers] of every entry: a nil group panics. *)
Definition GetPeerGroups (c : NetworkMapComponents) (peerID : gostring) : go idset :=
  if decide (map_Forall (fun _ g => is_Some g) (Groups c)) then
    Ok (filter (fun groupID => IsPeerInGroup c peerID groupID = true) (dom (Groups c)))
  else Panic.

Definition getPeerDNSManagementStatusFromGroups (c : NetworkMapComponents) (peerGroups : idset) : bool :=
  forallb (fun groupID => negb (bool_decide (groupID ∈ peerGroups))) (DisabledManagementGroups c).

Definition peerIsNameserver (peerIPStr : gostring) (nsGroup : NameServerGroup) : bool :=
  existsb (fun ns => bool_decide (peerIPStr = Addr_String (ns_IP ns))) (nsg_NameServers nsGroup).

Definition getPeerNSGroupsFromGroups (c : NetworkMapComponents) (peerID : gostring)
    (groupList : idset) : list NameServerGroup :=
  match GetPeerInfo c peerID with
  | None => []
  | Some targetPeerInfo =>
      let peerIPStr := Addr_String (p_IP targetPeerInfo) in
      NameServerGroup_Copy <$> filter (fun nsGroup =>
        nsg_Enabled nsGroup = true /\ Exists (fun gID => gID ∈ groupList) (nsg_Groups nsGroup)
        /\ peerIsNameserver peerIPStr nsGroup = false) (NameServerGroups c)
  end.

(** ** Routes *)
Definition v6Default : Prefix := mkPrefix (Addr6 0 EmptyString) 0.

Definition expandRoute (includeIPv6 : bool) (r : Route) : list Route :=
  if negb includeIPv6 && Is6 (PAddr (r_Network r)) then [] else
  r :: (if includeIPv6 && bool_decide (PBits (r_Network r) = 0%Z) && Is4 (PAddr (r_Network r))
        then [set_Network (r_ID r ++ lit "-v6-default") (r_NetID r ++ lit "-v6") v6Default IPv6Network
                (Route_Copy r)]
        else []).

Definition filterAndExpandRoutes (routes : list Route) (includeIPv6 : bool) : list Route :=
  routes ≫= expandRoute includeIPv6.

(** [seenRoute], [enabledRoutes] and [disabledRoutes]. *)
Record RouteAcc : Type := mkRouteAcc {
  seenRoute : idset;
  enabledRoutes : list Route;
  disabledRoutes : list Route }.

Definition takeRoute (peerKey : gostring) (st : RouteAcc) (r : Route) : RouteAcc :=
  if decide (r_ID r ∈ seenRoute st) then st else
  let r := set_Peer peerKey r in
  let seen := {[r_ID r]} ∪ seenRoute st in
  if r_Enabled r then mkRouteAcc seen (enabledRoutes st ++ [r]) (disabledRoutes st)
  else mkRouteAcc seen (enabledRoutes st) (disabledRoutes st ++ [r]).

Definition takeGroupRoute (c : NetworkMapComponents) (peerID peerKey : gostring) (r : Route)
    (st : RouteAcc) (groupID : gostring) : RouteAcc :=
  match GetGroupInfo c groupID with
  | None => st
  | Some group =>
      if decide (peerID ∈ g_Peers group) then
        takeRoute peerKey st
          (set_PeerGroups_ID [] (r_ID r ++ ":"%char :: peerID) (set_Peer peerID (Route_Copy r)))
      else st
  end.

Definition takeRoutes (c : NetworkMapComponents) (peerID peerKey : gostring) (st : RouteAcc) (r : Route) :
    RouteAcc :=
  let st := foldl (takeGroupRoute c peerID peerKey r) st (r_PeerGroups r) in
  if decide (r_Peer r = peerID) then takeRoute peerKey st (Route_Copy r) else st.

(** [c.GetPeerInfo(id)], or [c.GetRouterPeerInfo(id)] when it is nil. *)
Definition peerOrRouter (c : NetworkMapComponents) (id : gostring) : option Peer :=
  match GetPeerInfo c id with Some p => Some p | None => GetRouterPeerInfo c id end.

Definition getRoutingPeerRoutes (c : NetworkMapComponents) (peerID : gostring) :
    list Route * list Route :=
  match peerOrRouter c peerID with
  | None => ([], [])
  | Some peerInfo =>
      let st := foldl (takeRoutes c peerID (p_Key peerInfo)) (mkRouteAcc ∅ [] []) (Routes c) in
      (enabledRoutes st, disabledRoutes st)
  end.

Definition filterRoutesByGroups (routes : list Route) (groupListMap : idset) : list Route :=
  filter (fun r => Exists (fun groupID => groupID ∈ groupListMap) (r_Groups r)) routes.

Definition filterRoutesFromPeersOfSameHAGroup (routes : list Route) (peerMemberships : idset) :
    list Route :=
  filter (fun r => GetHAUniqueID idna_ToUnicode r ∉ peerMemberships) routes.

Definition getRoutesToSync (c : NetworkMapComponents) (peerID : gostring) (aclPeers : list Peer)
    (peerGroups : idset) : list Route :=
  let '(routes, peerDisabledRoutes) := getRoutingPeerRoutes c peerID in
  let peerRoutesMembership : idset :=
    list_to_set (GetHAUniqueID idna_ToUnicode <$> (routes ++ peerDisabledRoutes)) in
  foldl (fun routes peer =>
    let '(activeRoutes, _) := getRoutingPeerRoutes c (p_ID peer) in
    let groupFilteredRoutes := filterRoutesByGroups activeRoutes peerGroups in
    routes ++ filterRoutesFromPeersOfSameHAGroup groupFilteredRoutes peerRoutesMembership)
    routes aclPeers.

(** ** Firewall rules of routes *)
Definition allV4 : gostring := lit "0.0.0.0/0".
Definition allV6 : gostring := lit "::/0".

Definition set_SourceRanges (sources : list gostring) (f : RouteFirewallRule) : RouteFirewallRule :=
  mkRouteFirewallRule (rf_PolicyID f) (rf_RouteID f) sources (rf_Action f) (rf_Destination f)
    (rf_Protocol f) (rf_Port f) (rf_PortRange f) (rf_Domains f) (rf_IsDynamic f).

Definition getDefaultPermit (r : Route) (includeIPv6 : bool) : list RouteFirewallRule :=
  let is6 := Is6 (PAddr (r_Network r)) in
  if is6 && negb includeIPv6 then [] else
  let rule := mkRouteFirewallRule [] (r_ID r) [if is6 then allV6 else allV4]
    PolicyTrafficActionAccept (Prefix_String (r_Network r)) PolicyRuleProtocolALL 0 (mkRange 0 0)
    (r_Domains r) (IsDynamic r) in
  rule :: (if includeIPv6 && IsDynamic r then [set_SourceRanges [allV6] rule] else []).

Definition splitPeerSourcesByFamily (groupPeers : list Peer) : list gostring * list gostring :=
  ((fun p => Addr_String (p_IP p) ++ lit "/32") <$> groupPeers,
   (fun p => Addr_String (p_IPv6 p) ++ lit "/128") <$> filter (fun p => IsValid (p_IPv6 p) = true) groupPeers).

Definition generateRuleIDBase (rule : PolicyRule) (base : RouteFirewallRule) : gostring :=
  pr_ID rule ++ join "," (rf_SourceRanges base) ++ Itoa FirewallRuleDirectionIN
  ++ rf_Protocol base ++ rf_Action base.

Definition set_rf_Port (port : Z) (f : RouteFirewallRule) : RouteFirewallRule :=
  mkRouteFirewallRule (rf_PolicyID f) (rf_RouteID f) (rf_SourceRanges f) (rf_Action f)
    (rf_Destination f) (rf_Protocol f) port (rf_PortRange f) (rf_Domains f) (rf_IsDynamic f).

Definition set_rf_PortRange (range : RulePortRange) (f : RouteFirewallRule) : RouteFirewallRule :=
  mkRouteFirewallRule (rf_PolicyID f) (rf_RouteID f) (rf_SourceRanges f) (rf_Action f)
    (rf_Destination f) (rf_Protocol f) (rf_Port f) range (rf_Domains f) (rf_IsDynamic f).

Notation ruleacc := (idset * list RouteFirewallRule)%type.

(** Append the rules unless the identifier was seen. *)
Definition addUnseen (st : ruleacc) (ruleID : gostring) (new : list RouteFirewallRule) : ruleacc :=
  if decide (ruleID ∈ st.1) then st else ({[ruleID]} ∪ st.1, st.2 ++ new).

Definition generateRulesWithPortRanges (base : RouteFirewallRule) (rule : PolicyRule) (st : ruleacc) :
    ruleacc :=
  let ruleIDBase := generateRuleIDBase rule base in
  if decide (length (pr_Ports rule) = 0) then
    if decide (length (pr_PortRanges rule) = 0) then addUnseen st ruleIDBase [base]
    else foldl (fun st pr =>
           addUnseen st (ruleIDBase ++ Itoa (rp_Start pr) ++ "-"%char :: Itoa (rp_End pr))
             [set_rf_PortRange pr base]) st (pr_PortRanges rule)
  else st.

(** A port that does not parse is logged and skipped, its identifier stays. *)
Definition generateRulesWithPorts (base : RouteFirewallRule) (rule : PolicyRule) (st : ruleacc) : ruleacc :=
  let ruleIDBase := generateRuleIDBase rule base in
  foldl (fun st port =>
    addUnseen st (ruleIDBase ++ port)
      (match ParseUint port 16 with Some p => [set_rf_Port p base] | None => [] end))
    st (pr_Ports rule).

Definition portRouteRules (base : RouteFirewallRule) (rule : PolicyRule) (st : ruleacc) : ruleacc :=
  if decide (length (pr_Ports rule) = 0) then generateRulesWithPortRanges base rule st
  else generateRulesWithPorts base rule st.

(** [v6Rule.Destination] and [v6Rule.RouteID] of an exit node route. *)
Definition exitNodeV6 (base : RouteFirewallRule) (route : Route) : RouteFirewallRule :=
  mkRouteFirewallRule (rf_PolicyID base) (r_ID route ++ lit "-v6-default") (rf_SourceRanges base)
    (rf_Action base) allV6 (rf_Protocol base) (rf_Port base) (rf_PortRange base) (rf_Domains base)
    (rf_IsDynamic base).

Definition generateRouteFirewallRules (route : Route) (rule : PolicyRule) (groupPeers : list Peer)
    (includeIPv6 : bool) : list RouteFirewallRule :=
  let '(v4Sources, v6Sources) := splitPeerSourcesByFamily groupPeers in
  let isV6Route := Is6 (PAddr (r_Network route)) in
  if isV6Route && negb includeIPv6 then [] else
  let base := mkRouteFirewallRule (pr_PolicyID rule) (r_ID route)
    (if isV6Route then v6Sources else v4Sources) (pr_Action rule) (Prefix_String (r_Network route))
    (pr_Protocol rule) 0 (mkRange 0 0) (r_Domains route) (IsDynamic route) in
  let st := portRouteRules base rule (∅, []) in
  let isDefaultV4 := negb isV6Route && bool_decide (PBits (r_Network route) = 0%Z) in
  if includeIPv6 && (IsDynamic route || isDefaultV4) && bool_decide (0 < length v6Sources) then
    let v6Rule := set_SourceRanges v6Sources base in
    let v6Rule := if isDefaultV4 then exitNodeV6 v6Rule route else v6Rule in
    (portRouteRules v6Rule rule st).2
  else st.2.

Definition getDistributionGroupsPeers (c : NetworkMapComponents) (r : Route) : idset :=
  foldl (fun distPeers id =>
    match GetGroupInfo c id with
    | None => distPeers
    | Some group => list_to_set (g_Peers group) ∪ distPeers
    end) ∅ (r_Groups r).

(** One entry per matching rule: a policy can appear several times. *)
Definition getAllRoutePoliciesFromGroups (c : NetworkMapComponents) (accessControlGroups : list gostring) :
    list Policy :=
  groupID ← accessControlGroups;
  policy ← Policies c;
  rule ← po_Rules policy;
  if decide (groupID ∈ pr_Destinations rule) then [policy] else [].

(** [distPeer && valid && c.ValidatePostureChecksOnPeer(pID, postureChecks)] *)
Definition distributable (c : NetworkMapComponents) (distributionPeers : idset)
    (postureChecks : list gostring) (pID : gostring) : bool :=
  bool_decide (pID ∈ distributionPeers) && peer_exists c pID
  && ValidatePostureChecksOnPeer c pID postureChecks.

Definition getRulePeers (c : NetworkMapComponents) (rule : PolicyRule) (postureChecks : list gostring)
    (peerID : gostring) (distributionPeers : idset) : list Peer :=
  let ok := distributable c distributionPeers postureChecks in
  let fromGroups : idset := foldl (fun acc id =>
    match GetGroupInfo c id with
    | None => acc
    | Some group =>
        list_to_set (filter (fun pID => pID <> peerID /\ ok pID = true) (g_Peers group)) ∪ acc
    end) ∅ (pr_Sources rule) in
  let src := pr_SourceResource rule in
  let distPeersWithPolicy :=
    if isPeerResource src && ok (res_ID src) then {[res_ID src]} ∪ fromGroups else fromGroups in
  omap (GetPeerInfo c) (ord distPeersWithPolicy).

Definition getRouteFirewallRules (c : NetworkMapComponents) (peerID : gostring) (policies : list Policy)
    (route : Route) (distributionPeers : idset) (includeIPv6 : bool) : list RouteFirewallRule :=
  policy ← policies;
  if negb (po_Enabled policy) then [] else
  rule ← po_Rules policy;
  if negb (pr_Enabled rule) then [] else
  let rulePeers := getRulePeers c rule (po_SourcePostureChecks policy) peerID distributionPeers in
  generateRouteFirewallRules route rule rulePeers includeIPv6.

Definition getPeerRoutesFirewallRules (c : NetworkMapComponents) (peerID : gostring) (includeIPv6 : bool) :
    list RouteFirewallRule :=
  r ← (getRoutingPeerRoutes c peerID).1;
  if decide (length (r_AccessControlGroups r) = 0) then getDefaultPermit r includeIPv6 else
  let distributionPeers := getDistributionGroupsPeers c r in
  accessGroup ← r_AccessControlGroups r;
  let policies := getAllRoutePoliciesFromGroups c [accessGroup] in
  getRouteFirewallRules c peerID policies r distributionPeers includeIPv6.

(** ** Network resources *)
Definition SourceGroups (p : Policy) : list gostring :=
  match po_Rules p with
  | [rule] => pr_Sources rule
  | rules => ord (list_to_set (rules ≫= pr_Sources))
  end.

Definition getResourcePolicyPeers (c : NetworkMapComponents) (policy : Policy) : go (list gostring) :=
  rule ← go_index (po_Rules policy) 0;
  if isPeerResource (pr_SourceResource rule) then Ok [res_ID (pr_SourceResource rule)]
  else Ok (getUniquePeerIDsFromGroupsIDs c (SourceGroups policy)).

Definition placeholderNetwork : Prefix := PrefixFrom (AddrFrom4 [192; 0; 2; 0]%Z) 32.

Definition networkResourceToRoute (resource : NetworkResource) (peer : Peer) (router : NetworkRouter) :
    Route :=
  let addressed := bool_decide (nr_Type resource = Host \/ nr_Type resource = Subnet) in
  let network := if addressed then nr_Prefix resource else PrefixZero in
  let networkType := if addressed then
      (if Is6 (PAddr (nr_Prefix resource)) then IPv6Network else IPv4Network) else InvalidNetwork in
  let '(domains, network, networkType) :=
    if decide (nr_Type resource = Domain) then
      match FromStringList idna_ToASCII unicode_lower [nr_Domain resource] with
      | Some domainList => (domainList, placeholderNetwork, DomainNetwork)
      | None => (None, network, networkType)
      end
    else (None, network, networkType) in
  mkRoute (nr_ID resource ++ ":"%char :: p_ID peer) (nr_AccountID resource) network domains true
    (nr_Name resource) (nr_Description resource) (p_Key peer) (p_ID peer) [] networkType
    (rt_Masquerade router) (rt_Metric router) (nr_Enabled resource) [] [] false.

Definition getNetworkResourcesRoutes (c : NetworkMapComponents) (resource : NetworkResource)
    (peerID : gostring) (router : NetworkRouter) : list Route :=
  let resourceAppliedPolicies := default [] (ResourcePoliciesMap c !! nr_ID resource) in
  if decide (0 < length resourceAppliedPolicies) then
    match GetPeerInfo c peerID with
    | Some peerInfo => [networkResourceToRoute resource peerInfo router]
    | None => []
    end
  else [].

(** The loop over the policies of a resource, with the routes when the peer
    is a source of one of them, and the sources collected for a router. *)
Fixpoint processPolicies (c : NetworkMapComponents) (peerID : gostring) (resource : NetworkResource)
    (networkRoutingPeers : gmap gostring NetworkRouter) (addSourcePeers : bool)
    (policies : list Policy) (allSourcePeers : idset) : go (list Route * idset) :=
  match policies with
  | [] => Ok ([], allSourcePeers)
  | policy :: rest =>
      peers ← getResourcePolicyPeers c policy;
      if addSourcePeers then
        processPolicies c peerID resource networkRoutingPeers addSourcePeers rest
          (list_to_set (getPostureValidPeers c peers (po_SourcePostureChecks policy)) ∪ allSourcePeers)
      else if bool_decide (peerID ∈ peers)
              && ValidatePostureChecksOnPeer c peerID (po_SourcePostureChecks policy) then
        Ok (peerId ← ord (dom networkRoutingPeers);
            match networkRoutingPeers !! peerId with
            | Some router => getNetworkResourcesRoutes c resource peerId router
            | None => []
            end, allSourcePeers)
      else processPolicies c peerID resource networkRoutingPeers addSourcePeers rest allSourcePeers
  end.

Definition processResourcePolicies (c : NetworkMapComponents) (peerID : gostring)
    (resource : NetworkResource) (networkRoutingPeers : gmap gostring NetworkRouter)
    (addSourcePeers : bool) (allSourcePeers : idset) : go (list Route * idset) :=
  processPolicies c peerID resource networkRoutingPeers addSourcePeers
    (default [] (ResourcePoliciesMap c !! nr_ID resource)) allSourcePeers.

(** The results of the loop over the resources. *)
Record ResourceAcc : Type := mkResourceAcc {
  isRoutingPeer : bool;
  ra_routes : list Route;
  allSourcePeers : idset }.

Definition syncResource (c : NetworkMapComponents) (peerID : gostring) (st : ResourceAcc)
    (resource : NetworkResource) : go ResourceAcc :=
  if negb (nr_Enabled resource) then Ok st else
  let networkRoutingPeers := default ∅ (RoutersMap c !! nr_NetworkID resource) in
  let '(st, addSourcePeers) :=
    match networkRoutingPeers !! peerID with
    | Some router =>
        (mkResourceAcc true (ra_routes st ++ getNetworkResourcesRoutes c resource peerID router)
           (allSourcePeers st), true)
    | None => (st, false)
    end in
  '(newRoutes, sources) ← processResourcePolicies c peerID resource networkRoutingPeers
     addSourcePeers (allSourcePeers st);
  Ok (mkResourceAcc (isRoutingPeer st) (ra_routes st ++ newRoutes) sources).

Fixpoint syncResources (c : NetworkMapComponents) (peerID : gostring) (st : ResourceAcc)
    (resources : list NetworkResource) : go ResourceAcc :=
  match resources with
  | [] => Ok st
  | resource :: rest =>
      st ← syncResource c peerID st resource;
      syncResources c peerID st rest
  end.

Definition getNetworkResourcesRoutesToSync (c : NetworkMapComponents) (peerID : gostring) :
    go ResourceAcc :=
  syncResources c peerID (mkResourceAcc false [] ∅) (NetworkResources c).

Definition getPoliciesSourcePeers (c : NetworkMapComponents) (policies : list Policy) : idset :=
  foldl (fun acc (rule : PolicyRule) =>
    let acc := foldl (fun acc sourceGroup =>
      match GetGroupInfo c sourceGroup with
      | None => acc
      | Some group => list_to_set (g_Peers group) ∪ acc
      end) acc (pr_Sources rule) in
    if isPeerResource (pr_SourceResource rule) then {[res_ID (pr_SourceResource rule)]} ∪ acc else acc)
    ∅ (policies ≫= po_Rules).

Definition getPeerNetworkResourceFirewallRules (c : NetworkMapComponents) (peerID : gostring)
    (routes : list Route) (includeIPv6 : bool) : list RouteFirewallRule :=
  match GetPeerInfo c peerID with
  | None => []
  | Some peerInfo =>
      r ← routes;
      if decide (r_Peer r <> p_Key peerInfo) then [] else
      let resourcePolicies := default [] (ResourcePoliciesMap c !! GetResourceID r) in
      let distributionPeers := getPoliciesSourcePeers c resourcePolicies in
      filter (fun rule => 0 < length (rf_SourceRanges rule))
        (getRouteFirewallRules c peerID resourcePolicies r distributionPeers includeIPv6)
  end.

(** [missingPeers], after the deletions from [sourcePeers] and
    [networkRoutesPeers]. *)
Definition missingPeers (networkResourcesRoutes : list Route) (peerID : gostring)
    (peersToConnect expiredPeers : list Peer) (isRouter : bool) (sourcePeers : idset) : idset :=
  let networkRoutesPeers : idset := list_to_set (r_PeerID <$> networkResourcesRoutes) in
  let deleted : idset := {[peerID]} ∪ list_to_set (p_ID <$> peersToConnect)
                         ∪ list_to_set (p_ID <$> expiredPeers) in
  (if isRouter then sourcePeers ∖ deleted else ∅) ∪ networkRoutesPeers ∖ deleted.

Definition addNetworksRoutingPeers (c : NetworkMapComponents) (networkResourcesRoutes : list Route)
    (peerID : gostring) (peersToConnect expiredPeers : list Peer) (isRouter : bool)
    (sourcePeers : idset) : list Peer :=
  peersToConnect ++ omap (peerOrRouter c)
    (ord (missingPeers networkResourcesRoutes peerID peersToConnect expiredPeers isRouter sourcePeers)).

(** ** The calculation *)
Definition customZones (c : NetworkMapComponents) : list CustomZone :=
  (if decide (CustomZoneDomain c <> [] /\ 0 < length (AllDNSRecords c))
   then [mkCustomZone (CustomZoneDomain c) (AllDNSRecords c) false false] else [])
  ++ AccountZones c.

Definition peerIncludesIPv6 (c : NetworkMapComponents) (peerID : gostring) : bool :=
  match GetPeerInfo c peerID with
  | Some p => SupportsIPv6 p && IsValid (p_IPv6 p)
  | None => false
  end.

Definition Calculate (c : NetworkMapComponents) : go NetworkMap :=
  let targetPeerID := PeerID c in
  peerGroups ← GetPeerGroups c targetPeerID;
  let '(aclPeers, firewallRules, authorizedUsers, sshEnabled) :=
    getPeerConnectionResources c targetPeerID in
  let '(peersToConnect, expiredPeers) := filterPeersByLoginExpiration c aclPeers in
  let includeIPv6 := peerIncludesIPv6 c targetPeerID in
  let routesUpdate := filterAndExpandRoutes (getRoutesToSync c targetPeerID peersToConnect peerGroups)
                        includeIPv6 in
  let routesFirewallRules := getPeerRoutesFirewallRules c targetPeerID includeIPv6 in
  resources ← getNetworkResourcesRoutesToSync c targetPeerID;
  let networkResourcesFirewallRules :=
    if isRoutingPeer resources then
      getPeerNetworkResourceFirewallRules c targetPeerID (ra_routes resources) includeIPv6
    else [] in
  let peersToConnectIncludingRouters :=
    addNetworksRoutingPeers c (ra_routes resources) targetPeerID peersToConnect expiredPeers
      (isRoutingPeer resources) (allSourcePeers resources) in
  let dnsManagementStatus := getPeerDNSManagementStatusFromGroups c peerGroups in
  let dnsUpdate :=
    if dnsManagementStatus then
      mkDNSConfig true (getPeerNSGroupsFromGroups c targetPeerID peerGroups) (customZones c) 0
    else mkDNSConfig false [] [] 0 in
  Ok (mkNetworkMap peersToConnectIncludingRouters (Network_Copy (c_Network c))
        (filterAndExpandRoutes (ra_routes resources) includeIPv6 ++ routesUpdate)
        dnsUpdate expiredPeers firewallRules
        (networkResourcesFirewallRules ++ routesFirewallRules) authorizedUsers sshEnabled).
End calculation.
