(* ===== verification/NetMapConn.v ===== *)
(** * Connections of a peer: who it connects to and under which rules
      (getPeerConnectionResources, connResourcesGenerator,
      getAllPeersFromGroups in networkmap_components.go)

    The policies are read as a relation ([allowed]): a rule allows traffic
    between a peer of its source side and a peer of its destination side.
    The generated peers and firewall rules are exactly the ones the relation
    gives, although the code removes duplicates by concatenated identifiers,
    returns early for the group All and ranges over maps. *)

From Stdlib Require Import ZArith Lia Ascii String.
From stdpp Require Import base gmap strings numbers list fin_maps.
From S2P Require Import Prelude Netip GoStrings AddrText I2pSam NetMapTypes NetMapCalc.

(** ** What the policies say *)

(** The peer [id] is in one of the groups. *)
Definition in_groups (c : NetworkMapComponents) (groups : list gostring) (id : gostring) : Prop :=
  exists gid g, gid ∈ groups /\ GetGroupInfo c gid = Some g /\ id ∈ g_Peers g.

(** The peer [id] is on a side of a rule: it is the resource of the side, or
    it is in a group of the side and passes the posture checks. *)
Definition on_side (c : NetworkMapComponents) (resource : Resource) (groups checks : list gostring)
    (id : gostring) : Prop :=
  if isPeerResource resource then res_ID resource = id
  else in_groups c groups id /\ ValidatePostureChecksOnPeer c id checks = true.

(** The rule leads from [a] to [b]. *)
Definition linked (c : NetworkMapComponents) (policy : Policy) (rule : PolicyRule) (a b : gostring) : Prop :=
  on_side c (pr_SourceResource rule) (pr_Sources rule) (po_SourcePostureChecks policy) a /\
  on_side c (pr_DestinationResource rule) (pr_Destinations rule) [] b.

(** The rule is in force. *)
Definition in_force (c : NetworkMapComponents) (policy : Policy) (rule : PolicyRule) : Prop :=
  policy ∈ Policies c /\ po_Enabled policy = true /\ rule ∈ po_Rules policy /\ pr_Enabled rule = true.

(** Seen from [t], the rule allows traffic of direction [dir] with [q]. *)
Definition allowed (c : NetworkMapComponents) (t q : gostring) (dir : Z) (rule : PolicyRule) : Prop :=
  exists policy, in_force c policy rule /\
    ((dir = FirewallRuleDirectionOUT /\
      (linked c policy rule t q \/ (pr_Bidirectional rule = true /\ linked c policy rule q t))) \/
     (dir = FirewallRuleDirectionIN /\
      (linked c policy rule q t \/ (pr_Bidirectional rule = true /\ linked c policy rule t q)))).

(** [q] is a known peer other than [t]. *)
Definition other_peer (c : NetworkMapComponents) (t : gostring) (q : Peer) : Prop :=
  GetPeerInfo c (p_ID q) = Some q /\ p_ID q <> t.

(** The addresses of [q] the firewall of [tp] sees. *)
Definition peer_addresses (tp q : Peer) : list Addr :=
  p_IP q :: (if IsValid (p_IPv6 q) && SupportsIPv6 tp && IsValid (p_IPv6 tp) then [p_IPv6 q] else []).

(** ** What the account guarantees *)

(** Peers are stored under their ids. *)
Definition ids_ok (c : NetworkMapComponents) : Prop :=
  forall id p, GetPeerInfo c id = Some p -> p_ID p = id.

(** A group named All holds the peers of every group. *)
Definition all_complete (c : NetworkMapComponents) : Prop :=
  forall a g gid h id, GetGroupInfo c a = Some g -> IsGroupAll g = true ->
    GetGroupInfo c gid = Some h -> id ∈ g_Peers h -> id ∈ g_Peers g.

(** Rule ids have one length and determine the rule. *)
Definition rule_ids_ok (c : NetworkMapComponents) : Prop :=
  forall p1 r1 p2 r2, in_force c p1 r1 -> in_force c p2 r2 ->
    length (pr_ID r1) = length (pr_ID r2) /\ (pr_ID r1 = pr_ID r2 -> r1 = r2).

(** Every peer has an IPv4 address of its own, and its IPv6 address, if any,
    is a plain one. *)
Record addresses_ok (c : NetworkMapComponents) : Prop := {
  addr_v4 : forall id p, GetPeerInfo c id = Some p -> Is4 (p_IP p) = true /\ addr_wf (p_IP p);
  addr_v6 : forall id p, GetPeerInfo c id = Some p -> IsValid (p_IPv6 p) = true ->
    Is6 (p_IPv6 p) = true /\ Is4In6 (p_IPv6 p) = false /\ addr_wf (p_IPv6 p);
  addr_own : forall i j p q, GetPeerInfo c i = Some p -> GetPeerInfo c j = Some q ->
    p_IP p = p_IP q -> p = q }.

Record components_ok (c : NetworkMapComponents) : Prop := {
  ok_ids : ids_ok c;
  ok_all : all_complete c;
  ok_rules : rule_ids_ok c;
  ok_addresses : addresses_ok c }.

(** An enumeration of sets. *)
Definition enumerates (ord : idset -> list gostring) : Prop := forall s, ord s ≡ₚ elements s.

Lemma ord_elem ord s id : enumerates ord -> id ∈ ord s <-> id ∈ s.
Proof. intros H. by rewrite (H s), elem_of_elements. Qed.

(** ** The peers of a side *)
Section sides.
Context (ord : idset -> list gostring) (Hord : enumerates ord).

Lemma validate_exists c id checks :
  ValidatePostureChecksOnPeer c id checks = true -> peer_exists c id = true.
Proof. unfold ValidatePostureChecksOnPeer. by destruct (peer_exists c id). Qed.

Lemma collect_spec c single groups acc id :
  all_complete c ->
  match collectPeerIDs c single groups acc with
  | inl ids => (single = true -> groups <> [] -> length groups = 1) ->
      (id ∈ acc -> exists gid h, GetGroupInfo c gid = Some h /\ id ∈ g_Peers h) ->
      (single = true -> acc = ∅) ->
      id ∈ ids <-> id ∈ acc \/ in_groups c groups id
  | inr ids => id ∈ ids <-> id ∈ acc \/ in_groups c groups id
  end.
Proof.
  intros Hall. revert acc. induction groups as [|gid groups IH]; intros acc; cbn [collectPeerIDs].
  { unfold in_groups. split; [by left|]. by intros [?|(? & ? & ?%elem_of_nil & _)]. }
  destruct (GetGroupInfo c gid) as [g|] eqn:Hg.
  - destruct (IsGroupAll g || single) eqn:Hs.
    + intros Hlen Hacc Hempty. split.
      * intros Hid. right. exists gid, g. split_and!; [apply elem_of_cons; by left|done..].
      * intros [Hid|(gid' & h & Hin & Hh & Hid)].
        -- destruct (IsGroupAll g) eqn:Ha.
           ++ destruct (Hacc Hid) as (gid' & h & Hh & Hid'). by eapply Hall.
           ++ rewrite Hempty in Hid by (by destruct single). set_solver.
        -- destruct (IsGroupAll g) eqn:Ha; [by eapply Hall|].
           destruct single; [|done]. specialize (Hlen eq_refl ltac:(done)).
           destruct groups; [|done]. apply list_elem_of_singleton in Hin as ->. by simplify_eq.
    + apply orb_false_iff in Hs as [_ ->]. specialize (IH (list_to_set (g_Peers g) ∪ acc)).
      assert (id ∈ list_to_set (C := idset) (g_Peers g) ∪ acc \/ in_groups c groups id
        <-> id ∈ acc \/ in_groups c (gid :: groups) id) as Heq.
      { unfold in_groups. setoid_rewrite elem_of_cons. split.
        - intros [H|(g' & h & ? & ? & ?)]; [|right; exists g', h; auto].
          apply elem_of_union in H as [H|H]; [|by left].
          apply elem_of_list_to_set in H. right. exists gid, g. auto.
        - intros [H|(g' & h & [->|?] & ? & ?)]; [left; by apply elem_of_union_r| |right; eauto].
          simplify_eq. left. by apply elem_of_union_l, elem_of_list_to_set. }
      destruct (collectPeerIDs c false groups _) as [ids|ids]; [|by rewrite IH].
      intros Hlen Hacc _. rewrite IH, Heq; [done|..]; try done.
      intros Hid. apply elem_of_union in Hid as [Hid|Hid]; [|by apply Hacc].
      exists gid, g. apply elem_of_list_to_set in Hid. done.
  - specialize (IH acc).
    assert (in_groups c groups id <-> in_groups c (gid :: groups) id) as Heq.
    { unfold in_groups. setoid_rewrite elem_of_cons. split.
      - intros (g' & h & ? & ?). eauto.
      - intros (g' & h & [->|?] & ? & ?); [congruence|eauto]. }
    destruct (collectPeerIDs c single groups acc) as [ids|ids]; [|by rewrite IH, Heq].
    intros Hlen Hacc Hempty. rewrite IH, Heq; [done|..|done|done].
    intros Hs ?. specialize (Hlen Hs ltac:(done)). by destruct groups.
Qed.

Lemma unique_ids_spec c groups id : all_complete c ->
  id ∈ getUniquePeerIDsFromGroupsIDs ord c groups <-> in_groups c groups id.
Proof.
  intros Hall. unfold getUniquePeerIDsFromGroupsIDs.
  pose proof (collect_spec c (bool_decide (length groups = 1)) groups ∅ id Hall) as H.
  destruct (collectPeerIDs _ _ _ _) as [ids|ids].
  - rewrite H; [|by intros ?%bool_decide_eq_true|by intros []%elem_of_empty|done]. split; [intros [[]%elem_of_empty|]; done|by right].
  - rewrite (ord_elem _ _ _ Hord), H. split; [intros [[]%elem_of_empty|]; done|by right].
Qed.

(** [takePeer] as a filter. *)
Definition keeps (c : NetworkMapComponents) (t : gostring) (checks : list gostring) (id : gostring) :
    option Peer :=
  if ValidatePostureChecksOnPeer c id checks && negb (bool_decide (id = t)) then GetPeerInfo c id
  else None.

Definition finds (c : NetworkMapComponents) (t : gostring) (checks : list gostring) (id : gostring) : bool :=
  ValidatePostureChecksOnPeer c id checks && bool_decide (id = t)
  && bool_decide (is_Some (GetPeerInfo c id)).

Lemma takePeer_step c t checks st id :
  takePeer c t checks st id =
  (st.1 ++ option_list (keeps c t checks id), st.2 || finds c t checks id).
Proof.
  destruct st as [ps b]. unfold takePeer, keeps, finds.
  pose proof (validate_exists c id checks) as He.
  destruct (ValidatePostureChecksOnPeer c id checks); cbn [andb negb fst snd].
  - rewrite (He eq_refl). destruct (GetPeerInfo c id) as [p|] eqn:Hp.
    + destruct (decide (id = t)) as [Ht|Ht].
      * rewrite (bool_decide_true (id = t)), (bool_decide_true (is_Some _)) by done.
        cbn. by rewrite app_nil_r, orb_true_r.
      * rewrite (bool_decide_false (id = t)) by done. cbn. by rewrite orb_false_r.
    + rewrite (bool_decide_false (is_Some _)) by (by intros [? ?]).
      rewrite andb_false_r, orb_false_r. destruct (bool_decide _); cbn; by rewrite app_nil_r.
  - cbn. rewrite app_nil_r, orb_false_r. by destruct (GetPeerInfo c id), (peer_exists c id).
Qed.

Lemma takePeer_fold c t checks ids st :
  foldl (takePeer c t checks) st ids =
  (st.1 ++ omap (keeps c t checks) ids, st.2 || existsb (finds c t checks) ids).
Proof.
  revert st. induction ids as [|id ids IH]; intros st; cbn [foldl omap list_omap existsb].
  { rewrite app_nil_r, orb_false_r. by destruct st. }
  rewrite IH, takePeer_step. cbn [fst snd]. rewrite <- app_assoc, orb_assoc.
  f_equal. by destruct (keeps c t checks id).
Qed.

Lemma keeps_spec c t checks id p :
  keeps c t checks id = Some p <->
  ValidatePostureChecksOnPeer c id checks = true /\ id <> t /\ GetPeerInfo c id = Some p.
Proof.
  unfold keeps. destruct (ValidatePostureChecksOnPeer c id checks); cbn.
  - case_bool_decide; cbn; split; naive_solver.
  - split; [done|by intros [? _]].
Qed.

Lemma finds_spec c t checks ids : is_Some (GetPeerInfo c t) ->
  existsb (finds c t checks) ids = true <-> t ∈ ids /\ ValidatePostureChecksOnPeer c t checks = true.
Proof.
  intros Ht. rewrite existsb_exists. unfold finds. setoid_rewrite <- list_elem_of_In. split.
  - intros (id & Hin & H). apply andb_true_iff in H as [[Hv ->%bool_decide_eq_true]%andb_true_iff _]. done.
  - intros [Hin Hv]. exists t. split; [done|]. by rewrite Hv, !bool_decide_true.
Qed.

Lemma side_spec c resource groups t checks :
  ids_ok c -> all_complete c -> is_Some (GetPeerInfo c t) ->
  let r := sidePeers ord c resource groups t checks in
  (forall p, p ∈ r.1 <-> other_peer c t p /\ on_side c resource groups checks (p_ID p)) /\
  (r.2 = true <-> on_side c resource groups checks t).
Proof.
  intros Hids Hall Ht. unfold sidePeers, on_side, other_peer. destruct (isPeerResource resource).
  - unfold getPeerFromResource. destruct (decide (res_ID resource = t)) as [Hr|Hr]; cbn.
    { split; [set_solver|done]. }
    destruct (GetPeerInfo c (res_ID resource)) as [p|] eqn:Hp; cbn.
    + split; [|done]. intros q. rewrite list_elem_of_singleton. pose proof (Hids _ _ Hp). split.
      * intros ->. split_and!; congruence.
      * intros [[Hq _] Heq]. congruence.
    + split; [|done]. intros q. split; [set_solver|]. intros [[Hq _] Heq]. congruence.
  - cbn zeta. unfold getAllPeersFromGroups. rewrite takePeer_fold. cbn [fst snd app orb]. split.
    + intros p. rewrite list_elem_of_omap. setoid_rewrite keeps_spec.
      setoid_rewrite (unique_ids_spec c groups _ Hall). split.
      * intros (id & Hin & Hv & Hne & Hp). pose proof (Hids _ _ Hp). by subst.
      * intros [[Hp Hne] [Hin Hv]]. eauto 6.
    + by rewrite finds_spec, unique_ids_spec.
Qed.
End sides.

(** ** The generator

    A task is one call of the loop body of the generator; an entry is what
    one address of its peer contributes. *)
Record task : Type := mkTask { tk_rule : PolicyRule; tk_dir : Z; tk_peer : Peer }.

Record entry : Type := mkEntry { en_rule : PolicyRule; en_dir : Z; en_text : gostring }.

Definition entries (tp : Peer) (k : task) : list entry :=
  (fun ip => mkEntry (tk_rule k) (tk_dir k) (Addr_String ip)) <$> peer_addresses tp (tk_peer k).

Definition entry_id (e : entry) : gostring :=
  ruleIDOf (en_rule e) (en_text e) (ruleContext (en_rule e) (en_dir e)).

Section generator.
Context (version_check : gostring -> gostring -> option bool) (tp : Peer).

Definition entry_rules (e : entry) : list FirewallRule :=
  portRules version_check (en_rule e) tp
    (baseRule (en_rule e) (en_text e) (ruleContext (en_rule e) (en_dir e))).

Definition run_task (st : Generator) (k : task) : Generator :=
  generatePeer version_check tp (tk_rule k) (ruleContext (tk_rule k) (tk_dir k)) st (tk_peer k).

Context (T : task -> Prop).
(** Identifiers are not shared between different entries, IPv4 texts not
    between different peers, and peers are determined by their ids. *)
Context (sep_entries : forall k1 k2 e1 e2, T k1 -> T k2 -> e1 ∈ entries tp k1 -> e2 ∈ entries tp k2 ->
  entry_id e1 = entry_id e2 -> e1 = e2).
Context (sep_peers : forall k1 k2 e, T k1 -> T k2 -> e ∈ entries tp k2 ->
  en_text e = Addr_String (p_IP (tk_peer k1)) -> tk_peer k2 = tk_peer k1).
Context (sep_ids : forall k1 k2, T k1 -> T k2 -> p_ID (tk_peer k1) = p_ID (tk_peer k2) ->
  tk_peer k1 = tk_peer k2).

Definition entry_of (ks : list task) (e : entry) : Prop := exists k, k ∈ ks /\ e ∈ entries tp k.

Record generated (ks : list task) (st : Generator) : Prop := {
  gen_ids : forall id, id ∈ rulesExists st <-> exists e, entry_of ks e /\ entry_id e = id;
  gen_rules : forall fr, fr ∈ g_rules st <-> exists e, entry_of ks e /\ fr ∈ entry_rules e;
  gen_known : forall id, id ∈ peersExists st <-> id ∈ p_ID <$> g_peers st;
  gen_peers : forall p, p ∈ g_peers st <-> exists k, k ∈ ks /\ tk_peer k = p;
  gen_nodup : NoDup (p_ID <$> g_peers st) }.

Lemma entry_of_snoc ks k e : entry_of (ks ++ [k]) e <-> entry_of ks e \/ e ∈ entries tp k.
Proof.
  unfold entry_of. setoid_rewrite elem_of_app. setoid_rewrite list_elem_of_singleton. naive_solver.
Qed.

(** The peers after a task. *)
Lemma run_task_peers ks st k :
  Forall T ks -> T k -> generated ks st ->
  let st' := run_task st k in
  (forall id, id ∈ peersExists st' <-> id ∈ p_ID <$> g_peers st') /\
  (forall p, p ∈ g_peers st' <-> exists k', k' ∈ ks ++ [k] /\ tk_peer k' = p) /\
  NoDup (p_ID <$> g_peers st').
Proof.
  intros HT Hk [_ _ Hknown Hpeers Hnd]. rewrite Forall_forall in HT. unfold run_task, generatePeer.
  set (q := tk_peer k). cbn zeta.
  assert (forall ps : list Peer, (forall p, p ∈ ps <-> p ∈ g_peers st \/ p = q) ->
    forall p, p ∈ ps <-> exists k', k' ∈ ks ++ [k] /\ tk_peer k' = p) as Hstep.
  { intros ps H p. rewrite H, Hpeers. setoid_rewrite elem_of_app. setoid_rewrite list_elem_of_singleton.
    unfold q. naive_solver. }
  destruct (decide (p_ID q ∈ peersExists st)) as [Hq|Hq].
  - assert (q ∈ g_peers st) as Hin.
    { apply Hknown, list_elem_of_fmap in Hq as (q' & Heq & Hq'). pose proof Hq' as H.
      apply Hpeers in H as (k' & Hk' & <-). unfold q. by rewrite (sep_ids k k' Hk (HT _ Hk') Heq). }
    destruct (decide _); [|destruct (appendIPv6FirewallRule _ _ _ _ _ _ _)]; cbn;
      (split_and!; [done| |done]); apply Hstep; naive_solver.
  - destruct (decide _); [|destruct (appendIPv6FirewallRule _ _ _ _ _ _ _)]; cbn;
      (split_and!; [|apply Hstep; intros p; by rewrite elem_of_app, list_elem_of_singleton|]);
      try (rewrite fmap_app; apply NoDup_app; split_and!;
           [done|intros id Hid ->%list_elem_of_singleton; by apply Hq, Hknown|apply NoDup_singleton]);
      intros id; rewrite fmap_app, elem_of_app, elem_of_union, elem_of_singleton, Hknown; cbn;
      rewrite list_elem_of_singleton; naive_solver.
Qed.

Lemma entries_v4 k : exists rest, entries tp k =
  mkEntry (tk_rule k) (tk_dir k) (Addr_String (p_IP (tk_peer k))) :: rest.
Proof. unfold entries, peer_addresses. cbn. eauto. Qed.

(** What [appendIPv6FirewallRule] adds to ids and rules known for [P]. *)
Lemma append_v6_spec (P : entry -> Prop) k ids rules :
  (forall id, id ∈ ids <-> exists e, P e /\ entry_id e = id) ->
  (forall fr, fr ∈ rules <-> exists e, P e /\ fr ∈ entry_rules e) ->
  P (mkEntry (tk_rule k) (tk_dir k) (Addr_String (p_IP (tk_peer k)))) ->
  (forall e1 e2, P e1 -> e2 ∈ entries tp k -> entry_id e1 = entry_id e2 -> e1 = e2) ->
  let r := appendIPv6FirewallRule version_check rules ids (tk_peer k) tp (tk_rule k)
             (ruleContext (tk_rule k) (tk_dir k)) in
  (forall id, id ∈ r.1 <-> exists e, (P e \/ e ∈ entries tp k) /\ entry_id e = id) /\
  (forall fr, fr ∈ r.2 <-> exists e, (P e \/ e ∈ entries tp k) /\ fr ∈ entry_rules e).
Proof.
  intros Hids Hrules H4 Hsep. unfold appendIPv6FirewallRule, entries, peer_addresses in Hsep |- *.
  cbn [fmap list_fmap] in Hsep |- *.
  set (e4 := mkEntry _ _ (Addr_String (p_IP _))) in *.
  assert (forall Q : entry -> Prop,
    (exists e, P e /\ Q e) <-> exists e, (P e \/ e ∈ [e4]) /\ Q e) as Hsame.
  { intros Q. setoid_rewrite list_elem_of_singleton. naive_solver. }
  rewrite <- !negb_andb.
  destruct (IsValid (p_IPv6 (tk_peer k)) && SupportsIPv6 tp && IsValid (p_IPv6 tp)); cbn [negb fmap list_fmap] in Hsep |- *.
  2:{ split; [intros id; rewrite Hids|intros fr; rewrite Hrules];
      [apply (Hsame (fun e => entry_id e = id))|apply (Hsame (fun e => fr ∈ entry_rules e))]. }
  set (e6 := mkEntry _ _ (Addr_String (p_IPv6 _))) in *.
  change (ruleIDOf (tk_rule k) _ _) with (entry_id e6).
  assert (forall Q : entry -> Prop,
    (exists e, (P e \/ e ∈ [e4; e6]) /\ Q e) <-> (exists e, P e /\ Q e) \/ Q e6) as Hboth.
  { intros Q. setoid_rewrite elem_of_cons. setoid_rewrite list_elem_of_singleton. naive_solver. }
  destruct (decide (entry_id e6 ∈ ids)) as [Hin|Hin]; cbn [fst snd].
  - apply Hids in Hin as (e & He & Heq).
    apply Hsep in Heq as ->; [|done|by apply elem_of_cons; right; left].
    split; [intros id|intros fr]; rewrite ?Hids, ?Hrules.
    + rewrite (Hboth (fun e => entry_id e = id)). naive_solver.
    + rewrite (Hboth (fun e => fr ∈ entry_rules e)). naive_solver.
  - split; [intros id|intros fr].
    + rewrite (Hboth (fun e => entry_id e = id)), elem_of_union, elem_of_singleton, Hids. naive_solver.
    + rewrite (Hboth (fun e => fr ∈ entry_rules e)), elem_of_app, Hrules. done.
Qed.

Lemma run_task_generated ks st k :
  Forall T ks -> T k -> generated ks st -> generated (ks ++ [k]) (run_task st k).
Proof.
  intros HT Hk Hg. pose proof (run_task_peers ks st k HT Hk Hg) as (HK & HP & HN). cbn zeta in *.
  rewrite Forall_forall in HT. destruct Hg as [Hids Hrules _ _ _].
  assert ((forall id, id ∈ rulesExists (run_task st k) <-> exists e, (entry_of ks e \/ e ∈ entries tp k) /\ entry_id e = id) /\
    (forall fr, fr ∈ g_rules (run_task st k) <-> exists e, (entry_of ks e \/ e ∈ entries tp k) /\ fr ∈ entry_rules e)) as [H1 H2].
  2:{ split; try done; intros x; setoid_rewrite entry_of_snoc; auto. }
  clear HK HP HN. unfold run_task, generatePeer.
  destruct (entries_v4 k) as [rest Hrest]. set (e4 := mkEntry _ _ _) in Hrest.
  destruct (if decide (p_ID (tk_peer k) ∈ peersExists st) then _ else _) as [known peers]. cbn zeta.
  change (ruleIDOf (tk_rule k) _ _) with (entry_id e4).
  destruct (decide (entry_id e4 ∈ rulesExists st)) as [Hin|Hin]; cbn [rulesExists g_rules].
  - apply Hids in Hin as (e & (k' & Hk' & He) & Heq).
    apply (sep_entries k' k) in Heq as ->; [|auto..|done|rewrite Hrest; by left].
    assert (entries tp k' = entries tp k) as Hent.
    { pose proof (sep_peers k k' e4 Hk (HT _ Hk') He eq_refl) as Hp. unfold entries in *.
      apply list_elem_of_fmap in He as (ip & [= -> -> _] & _). by rewrite Hp. }
    assert (forall e, entry_of ks e \/ e ∈ entries tp k <-> entry_of ks e) as Habs.
    { intros e. split; [|by left]. intros [?|?]; [done|]. exists k'. by rewrite Hent. }
    setoid_rewrite Habs. auto.
  - pose proof (append_v6_spec (fun e => entry_of ks e \/ e = e4) k
      ({[entry_id e4]} ∪ rulesExists st) (g_rules st ++ entry_rules e4)) as Hv6.
    change (portRules version_check (tk_rule k) tp _) with (entry_rules e4).
    destruct (appendIPv6FirewallRule _ _ _ _ _ _ _) as [ids rules]. cbn [rulesExists g_rules fst snd] in *.
    assert (forall e, (entry_of ks e \/ e = e4) \/ e ∈ entries tp k <-> entry_of ks e \/ e ∈ entries tp k) as Habs.
    { intros e. rewrite Hrest, elem_of_cons. naive_solver. }
    setoid_rewrite Habs in Hv6. apply Hv6.
    + intros id. rewrite elem_of_union, elem_of_singleton, Hids. naive_solver.
    + intros fr. rewrite elem_of_app, Hrules. naive_solver.
    + by right.
    + intros e1 e2 [(k' & Hk' & He)| ->] He2; [by apply (sep_entries k' k); auto|].
      apply (sep_entries k k); try done. rewrite Hrest. by left.
Qed.

Lemma run_tasks_generated ks : Forall T ks -> generated ks (foldl run_task newGenerator ks).
Proof.
  induction ks as [|k ks IH] using rev_ind; intros HT.
  - split; cbn; [| | | |apply NoDup_nil_2]; intros x.
    + split; [by intros []%elem_of_empty|]. by intros (e & (k & []%elem_of_nil & _) & _).
    + split; [by intros []%elem_of_nil|]. by intros (e & (k & []%elem_of_nil & _) & _).
    + split; [by intros []%elem_of_empty|by intros []%elem_of_nil].
    + split; [by intros []%elem_of_nil|]. by intros (k & []%elem_of_nil & _).
  - apply Forall_app in HT as [HT Hk]. rewrite foldl_app. cbn.
    inversion_clear Hk. apply run_task_generated; [done|done|]. apply IH, HT.
Qed.
End generator.

(** A fold whose steps run lists of smaller steps, on a part of the state. *)
Lemma fold_bind {S K A B} (part : S -> K) (step : S -> A -> S) (run : K -> B -> K) (ts : A -> list B)
    st (l : list A) :
  (forall st a, part (step st a) = foldl run (part st) (ts a)) ->
  part (foldl step st l) = foldl run (part st) (l ≫= ts).
Proof.
  intros H. revert st. induction l as [|a l IH]; intros st; [done|].
  cbn [foldl mbind list_bind]. by rewrite foldl_app, <- H, IH.
Qed.

(** ** The calls of the generator *)
Section connections.
Context (version_check : gostring -> gostring -> option bool)
  (ord : idset -> list gostring) (Hord : enumerates ord).

Definition tasks_if (run : bool) (rule : PolicyRule) (dir : Z) (peers : list Peer) : list task :=
  if run then mkTask rule dir <$> peers else [].

(** The tasks of one rule, in the order of the code. *)
Definition rule_tasks (c : NetworkMapComponents) (t : gostring) (policy : Policy) (rule : PolicyRule) :
    list task :=
  if negb (pr_Enabled rule) then [] else
  let s := sidePeers ord c (pr_SourceResource rule) (pr_Sources rule) t (po_SourcePostureChecks policy) in
  let d := sidePeers ord c (pr_DestinationResource rule) (pr_Destinations rule) t [] in
  tasks_if (pr_Bidirectional rule && s.2) rule FirewallRuleDirectionIN d.1
  ++ tasks_if (pr_Bidirectional rule && d.2) rule FirewallRuleDirectionOUT s.1
  ++ tasks_if s.2 rule FirewallRuleDirectionOUT d.1
  ++ tasks_if d.2 rule FirewallRuleDirectionIN s.1.

Definition policy_tasks (c : NetworkMapComponents) (t : gostring) (policy : Policy) : list task :=
  if negb (po_Enabled policy) then [] else po_Rules policy ≫= rule_tasks c t policy.

Definition all_tasks (c : NetworkMapComponents) (t : gostring) : list task :=
  Policies c ≫= policy_tasks c t.

Lemma generate_tasks (run : bool) tp g rule dir peers :
  (if run then generateResources version_check tp g rule peers dir else g)
  = foldl (run_task version_check tp) g (tasks_if run rule dir peers).
Proof.
  destruct run; [|done]. unfold generateResources, tasks_if. revert g.
  induction peers as [|p peers IH]; intros g; [done|]. apply IH.
Qed.

Lemma connectRule_tasks c tp t policy st rule :
  cs_gen (connectRule version_check ord c tp t policy st rule)
  = foldl (run_task version_check tp) (cs_gen st) (rule_tasks c t policy rule).
Proof.
  unfold connectRule, rule_tasks. destruct (negb (pr_Enabled rule)); [done|].
  destruct (sidePeers _ _ (pr_SourceResource rule) _ _ _) as [s ins].
  destruct (sidePeers _ _ (pr_DestinationResource rule) _ _ _) as [d ind].
  destruct (authorizeRule _ _ _ _ _ _) as [users ssh]. cbn [cs_gen fst snd].
  by rewrite !generate_tasks, !foldl_app.
Qed.

Lemma connection_tasks c tp t :
  GetPeerInfo c t = Some tp ->
  let r := getPeerConnectionResources version_check ord c t in
  let g := foldl (run_task version_check tp) newGenerator (all_tasks c t) in
  r.1.1.1 = g_peers g /\ r.1.1.2 = g_rules g.
Proof.
  intros Ht. unfold getPeerConnectionResources. rewrite Ht. cbn zeta. cbn [fst snd].
  pose proof (fold_bind cs_gen (connectPolicy version_check ord c tp t)
    (run_task version_check tp) (policy_tasks c t) (mkConnState newGenerator ∅ false) (Policies c)) as H.
  rewrite H; [by split|]. intros st policy. unfold connectPolicy, policy_tasks.
  destruct (negb (po_Enabled policy)); [done|]. apply (fold_bind cs_gen). intros. apply connectRule_tasks.
Qed.

Lemma tasks_if_elem run rule dir peers k :
  k ∈ tasks_if run rule dir peers <->
  run = true /\ tk_rule k = rule /\ tk_dir k = dir /\ tk_peer k ∈ peers.
Proof.
  unfold tasks_if. destruct run.
  - rewrite list_elem_of_fmap. split.
    + intros (p & -> & Hp). done.
    + intros (_ & <- & <- & Hp). exists (tk_peer k). by destruct k.
  - split; [by intros []%elem_of_nil|by intros [? _]].
Qed.

(** A task is run for exactly what the policies allow. *)
Lemma all_tasks_elem c t k : ids_ok c -> all_complete c -> is_Some (GetPeerInfo c t) ->
  k ∈ all_tasks c t <->
  other_peer c t (tk_peer k) /\ allowed c t (p_ID (tk_peer k)) (tk_dir k) (tk_rule k).
Proof.
  intros Hids Hall Ht. unfold all_tasks. rewrite list_elem_of_bind.
  assert (forall policy rule, k ∈ rule_tasks c t policy rule <->
    pr_Enabled rule = true /\ tk_rule k = rule /\ other_peer c t (tk_peer k) /\
    ((tk_dir k = FirewallRuleDirectionOUT /\
      (linked c policy rule t (p_ID (tk_peer k)) \/
       (pr_Bidirectional rule = true /\ linked c policy rule (p_ID (tk_peer k)) t))) \/
     (tk_dir k = FirewallRuleDirectionIN /\
      (linked c policy rule (p_ID (tk_peer k)) t \/
       (pr_Bidirectional rule = true /\ linked c policy rule t (p_ID (tk_peer k))))))) as Hrule.
  { intros policy rule. unfold rule_tasks. destruct (pr_Enabled rule); cbn [negb].
    2:{ split; [by intros []%elem_of_nil|by intros [? _]]. }
    unfold linked.
    destruct (side_spec ord Hord c (pr_SourceResource rule) (pr_Sources rule) t
      (po_SourcePostureChecks policy) Hids Hall Ht) as [S1 S2].
    destruct (side_spec ord Hord c (pr_DestinationResource rule) (pr_Destinations rule) t []
      Hids Hall Ht) as [D1 D2]. cbn zeta in *.
    rewrite !elem_of_app, !tasks_if_elem, S1, D1, !andb_true_iff, S2, D2. tauto. }
  unfold policy_tasks, allowed, in_force. split.
  - intros (policy & Hk & Hp). destruct (po_Enabled policy) eqn:He; cbn [negb] in Hk.
    2:{ by apply elem_of_nil in Hk. }
    apply list_elem_of_bind in Hk as (rule & (Hre & <- & Ho & Hl)%Hrule & Hr).
    split; [done|]. exists policy. auto.
  - intros (Ho & policy & (Hp & He & Hr & Hre) & Hl). exists policy. split; [|done].
    rewrite He. cbn [negb]. apply list_elem_of_bind. exists (tk_rule k). split; [|done].
    apply Hrule. auto.
Qed.

(** ** Identifiers are unique *)
Lemma text_sep c p q ip : addresses_ok c ->
  GetPeerInfo c (p_ID p) = Some p -> GetPeerInfo c (p_ID q) = Some q ->
  forall tp, ip ∈ peer_addresses tp q -> Addr_String ip = Addr_String (p_IP p) -> q = p.
Proof.
  intros Ha Hp Hq tp Hip Htext. destruct (addr_v4 _ Ha _ _ Hp) as [H4 Hwf].
  destruct (addr_v4 _ Ha _ _ Hq) as [H4q Hwfq].
  assert (forall a, Is4 a = true -> IsValid a = true /\ Is4In6 a = false) as Hv4 by (by intros []).
  destruct (Hv4 _ H4), (Hv4 _ H4q). unfold peer_addresses in Hip.
  apply elem_of_cons in Hip as [->|Hip].
  - apply Addr_String_inj in Htext; try done. by apply (addr_own _ Ha _ _ _ _ Hq Hp).
  - destruct (IsValid (p_IPv6 q) && SupportsIPv6 tp && IsValid (p_IPv6 tp)) eqn:Hc;
      [|by apply elem_of_nil in Hip].
    apply andb_true_iff in Hc as [[Hv _]%andb_true_iff _]. apply list_elem_of_singleton in Hip as ->.
    destruct (addr_v6 _ Ha _ _ Hq Hv) as (H6 & H46 & Hwf6).
    apply Addr_String_inj in Htext; try done. rewrite Htext in H6. by destruct (p_IP p).
Qed.

Lemma Itoa_dir d : d = FirewallRuleDirectionOUT \/ d = FirewallRuleDirectionIN -> length (Itoa d) = 1.
Proof. by intros [->| ->]. Qed.

Lemma entry_id_inj e1 e2 :
  length (pr_ID (en_rule e1)) = length (pr_ID (en_rule e2)) ->
  (pr_ID (en_rule e1) = pr_ID (en_rule e2) -> en_rule e1 = en_rule e2) ->
  (en_dir e1 = FirewallRuleDirectionOUT \/ en_dir e1 = FirewallRuleDirectionIN) ->
  (en_dir e2 = FirewallRuleDirectionOUT \/ en_dir e2 = FirewallRuleDirectionIN) ->
  entry_id e1 = entry_id e2 -> e1 = e2.
Proof.
  destruct e1 as [r1 d1 s1], e2 as [r2 d2 s2]. cbn. intros Hlen Hr H1 H2 Heq.
  unfold entry_id, ruleIDOf in Heq. cbn in Heq.
  apply app_inj_1 in Heq as [Hid Heq]; [|done]. specialize (Hr Hid) as ->.
  rewrite !app_assoc in Heq. do 3 (apply app_inj_2 in Heq as [Heq _]; [|done]).
  apply app_inj_2 in Heq as [-> Hd]; [|by rewrite !Itoa_dir].
  f_equal. by destruct H1 as [->| ->], H2 as [->| ->].
Qed.

Lemma allowed_dir c t q d r : allowed c t q d r ->
  d = FirewallRuleDirectionOUT \/ d = FirewallRuleDirectionIN.
Proof. intros (policy & _ & [[-> _]|[-> _]]); auto. Qed.

Lemma allowed_rules c t1 q1 d1 r1 t2 q2 d2 r2 : rule_ids_ok c ->
  allowed c t1 q1 d1 r1 -> allowed c t2 q2 d2 r2 ->
  length (pr_ID r1) = length (pr_ID r2) /\ (pr_ID r1 = pr_ID r2 -> r1 = r2).
Proof. intros H (p1 & H1 & _) (p2 & H2 & _). eauto. Qed.

Lemma connections_generated c t tp : components_ok c -> GetPeerInfo c t = Some tp ->
  generated version_check tp (all_tasks c t)
    (foldl (run_task version_check tp) newGenerator (all_tasks c t)).
Proof.
  intros [Hids Hall Hrules Ha] Ht.
  assert (is_Some (GetPeerInfo c t)) as Hsome by eauto.
  apply run_tasks_generated with (T := fun k => k ∈ all_tasks c t).
  - intros k1 k2 e1 e2 [_ H1]%all_tasks_elem [_ H2]%all_tasks_elem
      (ip1 & -> & _)%list_elem_of_fmap (ip2 & -> & _)%list_elem_of_fmap; try done.
    destruct (allowed_rules _ _ _ _ _ _ _ _ _ Hrules H1 H2).
    apply entry_id_inj; try done; cbn; by eapply allowed_dir.
  - intros k1 k2 e [[H1 _] _]%all_tasks_elem [[H2 _] _]%all_tasks_elem; try done.
    intros (ip & -> & Hip)%list_elem_of_fmap Htext. by eapply (text_sep c).
  - intros k1 k2 [[H1 _] _]%all_tasks_elem [[H2 _] _]%all_tasks_elem Heq; try done. congruence.
  - by apply Forall_forall.
Qed.

(** ** Peers and rules *)
Lemma connection_peers c t tp : components_ok c -> GetPeerInfo c t = Some tp ->
  let peers := (getPeerConnectionResources version_check ord c t).1.1.1 in
  NoDup (p_ID <$> peers) /\
  forall q, q ∈ peers <-> other_peer c t q /\ exists dir rule, allowed c t (p_ID q) dir rule.
Proof.
  intros Hok Ht. destruct (connection_tasks c tp t Ht) as [-> _].
  destruct (connections_generated c t tp Hok Ht) as [_ _ _ Hp Hnd]. split; [done|].
  intros q. rewrite Hp. destruct Hok as [Hids Hall _ _].
  setoid_rewrite (all_tasks_elem c t _ Hids Hall (mk_is_Some _ _ Ht)). split.
  - intros (k & [Ho Hal] & <-). eauto.
  - intros [Ho (dir & rule & Hal)]. exists (mkTask rule dir q). done.
Qed.

Lemma connection_rules c t tp fr : components_ok c -> GetPeerInfo c t = Some tp ->
  fr ∈ (getPeerConnectionResources version_check ord c t).1.1.2 <->
  exists q dir rule ip, other_peer c t q /\ allowed c t (p_ID q) dir rule /\ ip ∈ peer_addresses tp q /\
    fr ∈ portRules version_check rule tp (baseRule rule (Addr_String ip) (ruleContext rule dir)).
Proof.
  intros Hok Ht. destruct (connection_tasks c tp t Ht) as [_ ->].
  destruct (connections_generated c t tp Hok Ht) as [_ Hr _ _ _]. rewrite Hr.
  destruct Hok as [Hids Hall _ _]. unfold entry_of, entries.
  setoid_rewrite (all_tasks_elem c t _ Hids Hall (mk_is_Some _ _ Ht)). split.
  - intros (e & (k & [Ho Hal] & (ip & -> & Hip)%list_elem_of_fmap) & Hfr).
    by exists (tk_peer k), (tk_dir k), (tk_rule k), ip.
  - intros (q & dir & rule & ip & Ho & Hal & Hip & Hfr).
    exists (mkEntry rule dir (Addr_String ip)). split; [|done].
    exists (mkTask rule dir q). split; [done|]. apply list_elem_of_fmap. by exists ip.
Qed.
End connections.
