(* ===== verification/NetMapPorts.v ===== *)
(** * The ports of the generated firewall rules
      (expandPortsAndRanges, addNativeSSHRule, peerSupportedFirewallFeatures in
      management/server/types/account.go)

    A policy rule is expanded into firewall rules with one port or one range
    each, depending on the version of the peer.  Which ports the expansion
    opens is compared with what the policy rule says. *)

From Stdlib Require Import ZArith Lia Ascii String.
From stdpp Require Import base gmap strings numbers list fin_maps.
From S2P Require Import Prelude Netip GoStrings AddrText I2pSam NetMapTypes NetMapCalc.

(** ** Meaning of the rules *)

(** A firewall rule matches port [x]: by its port, else by its range, where
    the empty range stands for every port. *)
Definition opens (fr : FirewallRule) (x : Z) : Prop :=
  if decide (fr_Port fr = []) then
    fr_PortRange fr = mkRange 0 0 \/ (rp_Start (fr_PortRange fr) <= x <= rp_End (fr_PortRange fr))%Z
  else ParseUint (fr_Port fr) 16 = Some x.

(** Ports of a policy rule are decimal numbers, ranges are ordered. *)
Record ports_ok (rule : PolicyRule) : Prop := {
  po_ports : forall s, s ∈ pr_Ports rule -> exists n, (1 <= n <= 65535)%Z /\ s = Itoa n;
  po_ranges : forall r, r ∈ pr_PortRanges rule -> (1 <= rp_Start r <= rp_End r)%Z /\ (rp_End r <= 65535)%Z }.

Section ports.
Context (version_check : gostring -> gostring -> option bool).

Definition native_ssh (rule : PolicyRule) (tp : Peer) : Prop :=
  pr_Protocol rule = PolicyRuleProtocolNetbirdSSH \/
  (nativeSSH (peerSupportedFirewallFeatures version_check (p_WtVersion tp)) = true /\
   p_SSHEnabled tp = true /\ p_ServerSSHAllowed tp = true /\ pr_Protocol rule = PolicyRuleProtocolTCP).

(** The ports the policy rule names: its ports, or without ports its ranges,
    of which an old peer only gets those of one port. *)
Definition names (rule : PolicyRule) (tp : Peer) (x : Z) : Prop :=
  Itoa x ∈ pr_Ports rule \/
  (pr_Ports rule = [] /\ exists r, r ∈ pr_PortRanges rule /\ (rp_Start r <= x <= rp_End r)%Z /\
     (portRanges (peerSupportedFirewallFeatures version_check (p_WtVersion tp)) = true \/
      rp_Start r = rp_End r)).

Definition port_open (rule : PolicyRule) (tp : Peer) (x : Z) : Prop :=
  (pr_Ports rule = [] /\ pr_PortRanges rule = []) \/
  names rule tp x \/ (x = 22022%Z /\ native_ssh rule tp /\ names rule tp 22).

(** ** The fields a rule keeps *)
Definition same_flow (fr base : FirewallRule) : Prop :=
  fr_PolicyID fr = fr_PolicyID base /\ fr_PeerIP fr = fr_PeerIP base /\
  fr_Direction fr = fr_Direction base /\ fr_Action fr = fr_Action base /\
  fr_Protocol fr = fr_Protocol base.

Definition expanded (base : FirewallRule) (rule : PolicyRule) (tp : Peer) : list FirewallRule :=
  (with_Port base <$> pr_Ports rule) ++
    (if decide (0 < length (pr_Ports rule)) then []
     else pr_PortRanges rule ≫=
            expandRange (peerSupportedFirewallFeatures version_check (p_WtVersion tp)) base).

Definition native_check (rule : PolicyRule) (tp : Peer) : bool :=
  shouldCheckRulesForNativeSSH
    (nativeSSH (peerSupportedFirewallFeatures version_check (p_WtVersion tp))) rule tp
  || bool_decide (pr_Protocol rule = PolicyRuleProtocolNetbirdSSH).

Lemma expandPorts_unfold base rule tp : expandPortsAndRanges version_check base rule tp =
  if native_check rule tp then addNativeSSHRule base (expanded base rule tp) else expanded base rule tp.
Proof. done. Qed.

Lemma native_check_spec rule tp : native_check rule tp = true <-> native_ssh rule tp.
Proof.
  unfold native_check, native_ssh, shouldCheckRulesForNativeSSH.
  rewrite orb_true_iff, !andb_true_iff, !bool_decide_eq_true. tauto.
Qed.

Lemma expanded_elem base rule tp fr : fr ∈ expanded base rule tp <->
  (exists s, s ∈ pr_Ports rule /\ fr = with_Port base s) \/
  (pr_Ports rule = [] /\ exists r, r ∈ pr_PortRanges rule /\
     ((portRanges (peerSupportedFirewallFeatures version_check (p_WtVersion tp)) = true /\
       fr = with_PortRange base r) \/
      (portRanges (peerSupportedFirewallFeatures version_check (p_WtVersion tp)) = false /\
       rp_Start r = rp_End r /\ fr = with_Port base (Itoa (rp_Start r))))).
Proof.
  unfold expanded. rewrite elem_of_app, list_elem_of_fmap.
  set (f := peerSupportedFirewallFeatures version_check (p_WtVersion tp)).
  apply Morphisms_Prop.or_iff_morphism; [naive_solver|]. destruct (pr_Ports rule) as [|s ports]; cbn [length].
  2:{ rewrite decide_True by lia. split; [by intros []%elem_of_nil|by intros [? _]]. }
  rewrite decide_False by lia. rewrite list_elem_of_bind. split.
  - intros (r & Hl & Hr). split; [done|]. exists r. split; [done|].
    unfold expandRange in Hl. destruct (portRanges f).
    + apply list_elem_of_singleton in Hl. by left.
    + destruct (decide (rp_Start r <> rp_End r)) as [H|H]; [by apply elem_of_nil in Hl|].
      apply list_elem_of_singleton in Hl. right. split_and!; [done|lia|done].
  - intros (_ & r & Hr & Hcase). exists r. split; [|done].
    unfold expandRange. destruct Hcase as [[-> ->]|(-> & Heq & ->)]; [by left|].
    rewrite decide_False by (intros H; by apply H). by left.
Qed.

Lemma scanSSH_spec l b : match scanSSH l b with
  | None => Exists (fun fr => isPortInRule nativeSSHPortString 22022 fr = true) l
  | Some v => Forall (fun fr => isPortInRule nativeSSHPortString 22022 fr = false) l /\
      (v = true <-> b = true \/ Exists (fun fr => isPortInRule defaultSSHPortString 22 fr = true) l)
  end.
Proof.
  revert b. induction l as [|fr l IH]; intros b; cbn [scanSSH].
  { split; [constructor|]. rewrite Exists_nil. tauto. }
  destruct (isPortInRule nativeSSHPortString 22022 fr) eqn:Hn; [by left|].
  specialize (IH (if isPortInRule defaultSSHPortString 22 fr then true else b)).
  destruct (scanSSH l _) as [v|]; [|by right]. destruct IH as [IH1 IH2]. split; [by constructor|].
  rewrite IH2, Exists_cons. destruct (isPortInRule defaultSSHPortString 22 fr); naive_solver.
Qed.

Lemma addNative_elem base l fr : fr ∈ addNativeSSHRule base l <->
  fr ∈ l \/ (fr = with_Port base nativeSSHPortString /\
    Forall (fun fr => isPortInRule nativeSSHPortString 22022 fr = false) l /\
    Exists (fun fr => isPortInRule defaultSSHPortString 22 fr = true) l).
Proof.
  unfold addNativeSSHRule. pose proof (scanSSH_spec l false) as H.
  destruct (scanSSH l false) as [[]|].
  - destruct H as [H1 H2]. rewrite elem_of_app, list_elem_of_singleton.
    destruct H2 as [H2 _]. destruct (H2 eq_refl) as [?|?]; naive_solver.
  - destruct H as [H1 [_ H2]]. split; [by left|]. intros [?|(_ & _ & He)]; [done|].
    by specialize (H2 (or_intror He)).
  - split; [by left|]. intros [?|(_ & Hf & _)]; [done|].
    apply Exists_exists in H as (fr' & Hin & Ht). rewrite Forall_forall in Hf.
    specialize (Hf _ Hin). congruence.
Qed.

Lemma expanded_flow base rule tp fr : fr ∈ expanded base rule tp -> same_flow fr base.
Proof. intros [(s & _ & ->)|(_ & r & _ & [[_ ->]|(_ & _ & ->)])]%expanded_elem; done. Qed.

Lemma portRules_flow base rule tp fr : fr ∈ portRules version_check rule tp base -> same_flow fr base.
Proof.
  unfold portRules. destruct (decide _).
  { by intros ->%list_elem_of_singleton. }
  rewrite expandPorts_unfold. destruct (native_check rule tp); [|apply expanded_flow].
  intros [?%expanded_flow|(-> & _)]%addNative_elem; done.
Qed.

Lemma portRules_nonempty base rule tp : pr_PortRanges rule = [] ->
  exists fr, fr ∈ portRules version_check rule tp base.
Proof.
  intros Hr. unfold portRules. destruct (pr_Ports rule) as [|s ports] eqn:Hp.
  { rewrite Hr. cbn. exists base. by left. }
  rewrite decide_False by (cbn; lia). rewrite expandPorts_unfold. exists (with_Port base s).
  assert (with_Port base s ∈ expanded base rule tp) as Hin.
  { apply expanded_elem. left. exists s. rewrite Hp. split; [by left|done]. }
  destruct (native_check rule tp); [|done]. apply addNative_elem. by left.
Qed.

(** ** Ports of the expansion *)
Context (base : FirewallRule) (base_port : fr_Port base = []) (base_range : fr_PortRange base = mkRange 0 0).

Lemma opens_port n x : (0 <= n < 2 ^ 16)%Z -> opens (with_Port base (Itoa n)) x <-> n = x.
Proof.
  intros Hn. unfold opens. cbn [fr_Port with_Port].
  rewrite decide_False by apply Itoa_nonempty. rewrite ParseUint_Itoa by done. naive_solver.
Qed.

Lemma opens_range r x : (1 <= rp_Start r)%Z ->
  opens (with_PortRange base r) x <-> (rp_Start r <= x <= rp_End r)%Z.
Proof.
  intros Hr. unfold opens. cbn [fr_Port fr_PortRange with_PortRange].
  rewrite decide_True by done. split; [|by right]. intros [->|?]; [cbn in Hr; lia|done].
Qed.

(** The text test of [isPortInRule] agrees with the ports a rule opens. *)
Lemma inRule_opens rule tp fr n : ports_ok rule -> (0 < n < 2 ^ 16)%Z -> fr ∈ expanded base rule tp ->
  isPortInRule (Itoa n) n fr = true <-> opens fr n.
Proof.
  intros [Hp Hr] Hn Hfr. unfold isPortInRule.
  rewrite orb_true_iff, bool_decide_eq_true, andb_true_iff, !Z.leb_le.
  assert (forall m, (0 <= m < 2 ^ 16)%Z -> fr = with_Port base (Itoa m) ->
    fr_Port fr = Itoa n \/ (rp_Start (fr_PortRange fr) <= n <= rp_End (fr_PortRange fr))%Z <-> opens fr n) as Hport.
  { intros m Hm ->. rewrite opens_port by done. cbn. rewrite base_range. cbn. split.
    - by intros [H%Itoa_inj|?]; [|lia].
    - intros ->. by left. }
  apply expanded_elem in Hfr as [(s & Hs & ->)|(_ & r & Hin & Hcase)].
  - destruct (Hp _ Hs) as (m & Hm & ->). apply (Hport m); [lia|done].
  - destruct (Hr _ Hin) as [H1 H2]. destruct Hcase as [[_ ->]|(_ & _ & ->)].
    + rewrite opens_range by lia. cbn. rewrite base_port. split; [|by right].
      intros [H|?]; [by destruct (Itoa_nonempty n)|done].
    + apply (Hport (rp_Start r)); [lia|done].
Qed.

Lemma expanded_opens rule tp x : ports_ok rule ->
  (exists fr, fr ∈ expanded base rule tp /\ opens fr x) <-> names rule tp x.
Proof.
  intros [Hp Hr]. setoid_rewrite expanded_elem. unfold names. split.
  - intros (fr & [(s & Hs & ->)|(Hnil & r & Hin & Hcase)] & Ho).
    + destruct (Hp _ Hs) as (n & Hn & ->). apply opens_port in Ho as ->; [by left|lia].
    + right. split; [done|]. exists r. split; [done|]. destruct (Hr _ Hin).
      destruct Hcase as [[Hf ->]|(_ & Heq & ->)].
      * apply opens_range in Ho; [|lia]. auto.
      * apply opens_port in Ho; lia.
  - intros [Hx|(Hnil & r & Hin & Hx & Hf)].
    + destruct (Hp _ Hx) as (n & Hn & ->%Itoa_inj). exists (with_Port base (Itoa n)).
      split; [left; eauto|]. apply opens_port; lia.
    + destruct (Hr _ Hin).
      destruct (portRanges (peerSupportedFirewallFeatures version_check (p_WtVersion tp))) eqn:He.
      * exists (with_PortRange base r). split; [right; eauto 8|]. apply opens_range; lia.
      * destruct Hf as [?|Heq]; [done|]. exists (with_Port base (Itoa (rp_Start r))).
        split; [right; eauto 8|]. apply opens_port; lia.
Qed.

Lemma expanded_inRule rule tp n : ports_ok rule -> (0 < n < 2 ^ 16)%Z ->
  Exists (fun fr => isPortInRule (Itoa n) n fr = true) (expanded base rule tp) <-> names rule tp n.
Proof.
  intros Hok Hn. rewrite <- expanded_opens, Exists_exists by done.
  split; intros (fr & Hin & H); exists fr; (split; [done|]); by eapply inRule_opens.
Qed.

Lemma portRules_opens rule tp x : ports_ok rule ->
  (exists fr, fr ∈ portRules version_check rule tp base /\ opens fr x) <-> port_open rule tp x.
Proof.
  intros Hok. unfold portRules, port_open. destruct (decide _) as [[H1 H2]|Hne].
  { apply nil_length_inv in H1, H2. rewrite H1, H2. split; [by left|].
    intros _. exists base. split; [by left|]. unfold opens. rewrite decide_True by done. by left. }
  assert (~ (pr_Ports rule = [] /\ pr_PortRanges rule = [])) as Hne'.
  { intros [H1 H2]. apply Hne. by rewrite H1, H2. }
  rewrite expandPorts_unfold. pose proof (native_check_spec rule tp) as Hn.
  destruct (native_check rule tp).
  2:{ rewrite expanded_opens by done. split; [by auto|].
      intros [?|[?|(_ & ?%Hn & _)]]; done. }
  setoid_rewrite addNative_elem. split.
  - intros (fr & [Hin|(-> & _ & H22)] & Ho).
    + right. left. apply expanded_opens; eauto.
    + right. right. apply (opens_port 22022) in Ho as <-; [|done]. split; [done|]. split; [by apply Hn|].
      by apply (expanded_inRule rule tp 22).
  - intros [?|[Hx|(-> & _ & H22)]]; [done| |].
    + apply expanded_opens in Hx as (fr & ? & ?); [eauto|done].
    + destruct (decide (Exists (fun fr => isPortInRule nativeSSHPortString 22022 fr = true)
        (expanded base rule tp))) as [He|He].
      * apply (expanded_inRule rule tp 22022) in He; [|done..].
        apply expanded_opens in He as (fr & ? & ?); [eauto|done].
      * exists (with_Port base nativeSSHPortString). split; [|by apply (opens_port 22022)].
        right. split; [done|]. split.
        -- apply Forall_forall. intros fr Hin. apply not_true_is_false. intros H.
           apply He, Exists_exists. eauto.
        -- by apply (expanded_inRule rule tp 22).
Qed.
End ports.
