(* ===== verification/NetMapSsh.v ===== *)
(** * SSH access in the network map
      (the SSH part of getPeerConnectionResources in networkmap_components.go)

    Which users may log in to a peer, and as which local users, against what
    the rules grant. *)

From Stdlib Require Import ZArith Lia Ascii String.
From stdpp Require Import base gmap strings numbers list fin_maps.
From S2P Require Import Prelude Netip GoStrings AddrText I2pSam NetMapTypes NetMapCalc NetMapConn.

(** ** What the rules grant *)

(** The rule gives SSH access without naming users: to every allowed user. *)
Definition grants_all (tp : Peer) (rule : PolicyRule) : Prop :=
  (pr_Protocol rule = PolicyRuleProtocolNetbirdSSH /\ pr_AuthorizedGroups rule = ∅ /\ pr_AuthorizedUser rule = [])
  \/ (pr_Protocol rule <> PolicyRuleProtocolNetbirdSSH /\ policyRuleImpliesLegacySSH rule = true
      /\ p_SSHEnabled tp = true).

(** The local users of a group; none stands for all. *)
Definition local_user (locals : list gostring) (lu : gostring) : Prop :=
  lu ∈ locals \/ (locals = [] /\ lu = Wildcard).

(** The rule lets the user [uid] log in as [lu]. *)
Definition grants (c : NetworkMapComponents) (tp : Peer) (rule : PolicyRule) (lu uid : gostring) : Prop :=
  (grants_all tp rule /\ lu = Wildcard /\ uid ∈ getAllowedUserIDs c) \/
  (pr_Protocol rule = PolicyRuleProtocolNetbirdSSH /\
   ((exists gid locals uids, pr_AuthorizedGroups rule !! gid = Some locals /\
       GroupIDToUserIDs c !! gid = Some uids /\ uid ∈ uids /\ local_user locals lu) \/
    (pr_AuthorizedGroups rule = ∅ /\ pr_AuthorizedUser rule <> [] /\
     uid = pr_AuthorizedUser rule /\ lu = Wildcard))).

(** The rule turns the SSH server on. *)
Definition enables_ssh (tp : Peer) (rule : PolicyRule) : Prop :=
  pr_Protocol rule = PolicyRuleProtocolNetbirdSSH \/
  (policyRuleImpliesLegacySSH rule = true /\ p_SSHEnabled tp = true).

Definition authorized (users : gmap gostring idset) (lu uid : gostring) : Prop :=
  uid ∈ default ∅ (users !! lu).

(** ** One rule *)
Section ssh.
Context (ord : idset -> list gostring) (Hord : enumerates ord).

Lemma authorize_spec uids users l lu uid :
  authorized (authorize uids users l) lu uid <-> authorized users lu uid \/ (lu = l /\ uid ∈ uids).
Proof.
  unfold authorized, authorize. destruct (decide (lu = l)) as [->|Hne].
  - rewrite lookup_insert_eq. cbn. rewrite elem_of_union, elem_of_list_to_set. tauto.
  - rewrite lookup_insert_ne by done. tauto.
Qed.

Lemma authorize_locals uids users ls lu uid :
  authorized (foldl (authorize uids) users ls) lu uid <->
  authorized users lu uid \/ (lu ∈ ls /\ uid ∈ uids).
Proof.
  revert users. induction ls as [|l ls IH]; intros users; cbn [foldl].
  { rewrite elem_of_nil. tauto. }
  rewrite IH, authorize_spec, elem_of_cons. tauto.
Qed.

Lemma authorizeGroup_spec c rule users gid lu uid :
  authorized (authorizeGroup c rule users gid) lu uid <-> authorized users lu uid \/
    (exists uids, GroupIDToUserIDs c !! gid = Some uids /\ uid ∈ uids /\
       local_user (default [] (pr_AuthorizedGroups rule !! gid)) lu).
Proof.
  unfold authorizeGroup. destruct (GroupIDToUserIDs c !! gid) as [uids|].
  2:{ split; [by left|]. by intros [?|(? & ? & _)]. }
  rewrite authorize_locals. unfold local_user.
  set (locals := default [] _). destruct locals as [|l locals]; cbn [length].
  - rewrite decide_True by done. rewrite list_elem_of_singleton. split.
    + intros [?|[-> ?]]; [by left|]. right. exists uids. auto.
    + intros [?|(? & [= <-] & ? & [[]%elem_of_nil|[_ ->]])]; [by left|by right].
  - rewrite decide_False by done. split.
    + intros [?|[? ?]]; [by left|]. right. exists uids. auto.
    + intros [?|(? & [= <-] & ? & [?|[? _]])]; [by left|by right|done].
Qed.

Lemma authorizeGroups_spec c rule users gids lu uid :
  authorized (foldl (authorizeGroup c rule) users gids) lu uid <-> authorized users lu uid \/
    (exists gid uids, gid ∈ gids /\ GroupIDToUserIDs c !! gid = Some uids /\ uid ∈ uids /\
       local_user (default [] (pr_AuthorizedGroups rule !! gid)) lu).
Proof.
  revert users. induction gids as [|gid gids IH]; intros users; cbn [foldl].
  { split; [by left|]. by intros [?|(? & ? & []%elem_of_nil & _)]. }
  rewrite IH, authorizeGroup_spec. setoid_rewrite elem_of_cons. split.
  - intros [[?|(uids & ?)]|(g & uids & ? & ?)]; [by left|right; exists gid, uids; tauto|right; exists g, uids; tauto].
  - intros [?|(g & uids & [->|?] & ?)]; [by left; left|left; right; eauto|right; eauto].
Qed.

Lemma authorized_set c users lu uid :
  authorized (<[Wildcard := getAllowedUserIDs c]> users) lu uid <->
  (lu = Wildcard /\ uid ∈ getAllowedUserIDs c) \/ (lu <> Wildcard /\ authorized users lu uid).
Proof.
  unfold authorized. destruct (decide (lu = Wildcard)) as [->|Hne].
  - rewrite lookup_insert_eq. cbn. tauto.
  - rewrite lookup_insert_ne by done. tauto.
Qed.

(** A rule for all allowed users overwrites the wildcard entry; otherwise a
    rule adds what it grants. *)
Definition survives (c : NetworkMapComponents) (lu uid : gostring) (overwritten : Prop) : Prop :=
  lu <> Wildcard \/ uid ∈ getAllowedUserIDs c \/ ~ overwritten.

Lemma authorizeRule_users c tp rule inside users b lu uid :
  authorized (authorizeRule ord c tp rule inside (users, b)).1 lu uid <->
  (authorized users lu uid /\ survives c lu uid (inside = true /\ grants_all tp rule)) \/
  (inside = true /\ grants c tp rule lu uid).
Proof.
  unfold authorizeRule, grants, grants_all, survives. destruct inside; cbn [andb fst].
  2:{ split; [intros ?; left; split; [done|right; right; by intros [? _]]|by intros [[? _]|[? _]]]. }
  case_bool_decide as Hp; cbn [fst].
  - destruct (decide (0 < size (pr_AuthorizedGroups rule))) as [Hsz|Hsz].
    + assert (pr_AuthorizedGroups rule <> ∅) as Hne by (intros H; rewrite H, map_size_empty in Hsz; lia).
      rewrite authorizeGroups_spec. setoid_rewrite (ord_elem _ _ _ Hord). setoid_rewrite elem_of_dom. split.
      * intros [?|(gid & uids & [locals Hl] & Hg & Hu & Hlu)].
        { left. split; [done|]. right. right. intros [_ [(_ & ? & _)|[? _]]]; done. }
        right. split; [done|]. right. split; [done|]. left. rewrite Hl in Hlu. by exists gid, locals, uids.
      * intros [[? _]|[_ [([H|H] & _)|(_ & [(gid & locals & uids & Hl & ?)|[H _]])]]];
          [by left|by destruct H as (_ & ? & _)|by destruct H| |done].
        right. exists gid, uids. rewrite Hl. cbn. split; [by eexists|tauto].
    + assert (pr_AuthorizedGroups rule = ∅) as He by (apply map_size_empty_iff; lia).
      destruct (decide (pr_AuthorizedUser rule <> [])) as [Hu|Hu].
      * rewrite authorize_spec, list_elem_of_singleton. split.
        { intros [?|[-> ->]]; [left; split; [done|]; right; right; intros [_ [(_ & _ & ?)|[? _]]]; done|].
          right. split; [done|]. right. split; [done|]. by right. }
        intros [[? _]|[_ [([H|H] & _)|(_ & [(gid & locals & uids & Hl & ?)|H])]]];
          [by left|by destruct H as (_ & _ & ?)|by destruct H| |destruct H as (_ & _ & -> & ->); by right].
        by rewrite He, lookup_empty in Hl.
      * apply dec_stable in Hu. rewrite authorized_set. split.
        { intros [[-> ?]|[? ?]]; [right; split; [done|]; left; auto|left; split; [done|by left]]. }
        intros [[Ha [?|[?|Hn]]]|[_ [(_ & ? & ?)|(_ & [(gid & locals & uids & Hl & ?)|[_ [? _]]])]]]; try done.
        -- by right.
        -- destruct (decide (lu = Wildcard)); [by left|by right].
        -- destruct Hn. split; [done|by left].
        -- by left.
        -- by rewrite He, lookup_empty in Hl.
  - destruct (policyRuleImpliesLegacySSH rule && p_SSHEnabled tp) eqn:Hl; cbn [fst].
    + apply andb_true_iff in Hl as [H1 H2]. rewrite authorized_set. split.
      * intros [[-> ?]|[? ?]]; [right; auto 8|left; split; [done|by left]].
      * intros [[Ha [?|[?|Hn]]]|[_ [(_ & ? & ?)|[? _]]]]; try done.
        -- by right.
        -- destruct (decide (lu = Wildcard)); [by left|by right].
        -- destruct Hn. split; [done|by right].
        -- by left.
    + split.
      * intros Ha. left. split; [done|]. right. right. intros [_ [[? _]|(_ & H1 & H2)]]; [done|]. by rewrite H1, H2 in Hl.
      * intros [[? _]|[_ [([[? _]|(_ & H1 & H2)] & _)|[? _]]]]; try done. by rewrite H1, H2 in Hl.
Qed.

Lemma authorizeRule_ssh c tp rule inside users b :
  (authorizeRule ord c tp rule inside (users, b)).2 = true <->
  b = true \/ (inside = true /\ enables_ssh tp rule).
Proof.
  unfold authorizeRule, enables_ssh. destruct inside; cbn [andb]; [|cbn; naive_solver].
  case_bool_decide; cbn; [tauto|].
  destruct (policyRuleImpliesLegacySSH rule), (p_SSHEnabled tp); cbn; naive_solver.
Qed.

(** ** All rules *)
Definition rules_in_force (c : NetworkMapComponents) : list PolicyRule :=
  Policies c ≫= fun policy =>
    if negb (po_Enabled policy) then [] else filter (fun rule => pr_Enabled rule = true) (po_Rules policy).

Lemma rules_in_force_elem c rule : rule ∈ rules_in_force c <-> exists policy, in_force c policy rule.
Proof.
  unfold rules_in_force, in_force. rewrite list_elem_of_bind. split.
  - intros (policy & Hr & Hp). exists policy. destruct (po_Enabled policy); cbn in Hr.
    + apply list_elem_of_filter in Hr as [? ?]. done.
    + by apply elem_of_nil in Hr.
  - intros (policy & Hp & He & ? & ?). exists policy. rewrite He. cbn. rewrite list_elem_of_filter. done.
Qed.

Definition destination (c : NetworkMapComponents) (t : gostring) (rule : PolicyRule) : bool :=
  (sidePeers ord c (pr_DestinationResource rule) (pr_Destinations rule) t []).2.

Lemma ssh_fold version_check c tp t : GetPeerInfo c t = Some tp ->
  let r := getPeerConnectionResources version_check ord c t in
  (r.1.2, r.2) = foldl (fun st rule => authorizeRule ord c tp rule (destination c t rule) st)
                   (∅, false) (rules_in_force c).
Proof.
  intros Ht. unfold getPeerConnectionResources. rewrite Ht. cbn zeta. cbn [fst snd].
  pose proof (fold_bind (fun st => (cs_users st, cs_ssh st)) (connectPolicy version_check ord c tp t)
    (fun st rule => authorizeRule ord c tp rule (destination c t rule) st)
    (fun policy => if negb (po_Enabled policy) then []
                   else filter (fun rule => pr_Enabled rule = true) (po_Rules policy))
    (mkConnState newGenerator ∅ false) (Policies c)) as H.
  apply H. intros st policy. unfold connectPolicy.
  destruct (negb (po_Enabled policy)); [done|]. revert st.
  induction (po_Rules policy) as [|rule rules IH]; intros st; [done|]. cbn [foldl].
  rewrite IH, filter_cons. unfold connectRule at 1 2. destruct (pr_Enabled rule) eqn:He; cbn [negb].
  - rewrite decide_True by done. cbn [foldl]. f_equal. unfold destination.
    destruct (sidePeers _ _ (pr_SourceResource rule) _ _ _) as [s ins].
    destruct (sidePeers _ _ (pr_DestinationResource rule) _ _ _) as [d ind]. cbn [snd].
    by destruct (authorizeRule _ _ _ _ _ _).
  - by rewrite decide_False by congruence.
Qed.

(** What the rules of a list leave: a grant stays unless a later rule of the
    list overwrites the wildcard entry. *)
Definition overwritten (c : NetworkMapComponents) (tp : Peer) (t : gostring) (rules : list PolicyRule) : Prop :=
  exists rule, rule ∈ rules /\ destination c t rule = true /\ grants_all tp rule.

Definition left_by (c : NetworkMapComponents) (tp : Peer) (t : gostring) (rules : list PolicyRule)
    (lu uid : gostring) : Prop :=
  exists l1 rule l2, rules = l1 ++ rule :: l2 /\ destination c t rule = true /\ grants c tp rule lu uid /\
    survives c lu uid (overwritten c tp t l2).

Lemma survives_cons c tp t rule rules lu uid :
  survives c lu uid (overwritten c tp t (rule :: rules)) <->
  survives c lu uid (destination c t rule = true /\ grants_all tp rule) /\ survives c lu uid (overwritten c tp t rules).
Proof.
  unfold survives, overwritten. setoid_rewrite elem_of_cons. split.
  - intros [?|[?|Hn]]; [auto|auto|]. split; right; right; [intros ?; apply Hn; eauto|].
    intros (x & ? & ?). apply Hn. eauto.
  - intros [[?|[?|H1]] [?|[?|H2]]]; auto. right. right. intros (x & [->|?] & ?); [done|]. apply H2. eauto.
Qed.

Lemma left_by_cons c tp t rule rules lu uid :
  left_by c tp t (rule :: rules) lu uid <->
  (destination c t rule = true /\ grants c tp rule lu uid /\ survives c lu uid (overwritten c tp t rules)) \/
  left_by c tp t rules lu uid.
Proof.
  unfold left_by. split.
  - intros ([|x l1] & r & l2 & E & ? & ? & ?); cbn in E; injection E as -> ->; [by left|].
    right. by exists l1, r, l2.
  - intros [(? & ? & ?)|(l1 & r & l2 & -> & ? & ? & ?)]; [by exists [], rule, rules|by exists (rule :: l1), r, l2].
Qed.

Lemma fold_users c tp t rules st lu uid :
  let r := foldl (fun st rule => authorizeRule ord c tp rule (destination c t rule) st) st rules in
  (authorized r.1 lu uid <->
     (authorized st.1 lu uid /\ survives c lu uid (overwritten c tp t rules)) \/ left_by c tp t rules lu uid) /\
  (r.2 = true <-> st.2 = true \/
     exists rule, rule ∈ rules /\ destination c t rule = true /\ enables_ssh tp rule).
Proof.
  cbn zeta. revert st. induction rules as [|rule rules IH]; intros st; cbn [foldl].
  { split; [|split; [by left|by intros [?|(? & []%elem_of_nil & _)]]]. split.
    - intros ?. left. split; [done|]. right. right. by intros (? & []%elem_of_nil & _).
    - intros [[? _]|([|? l1] & ? & ? & ? & _)]; done. }
  destruct st as [users b].
  specialize (IH (authorizeRule ord c tp rule (destination c t rule) (users, b))) as (IH1 & IH3).
  pose proof (authorizeRule_users c tp rule (destination c t rule) users b lu uid) as H1.
  pose proof (authorizeRule_ssh c tp rule (destination c t rule) users b) as H3. cbn [fst snd]. split.
  - rewrite IH1, H1, survives_cons, left_by_cons. tauto.
  - setoid_rewrite elem_of_cons. rewrite IH3, H3. split.
    + intros [[?|?]|(r & ? & ?)]; eauto 6.
    + intros [?|(r & [->|Hr] & ?)]; eauto 6.
Qed.
End ssh.
