(* ===== verification/NetMapRoutes.v ===== *)
(** * Distribution of routes
      (getRoutesToSync, getRoutingPeerRoutes in networkmap_components.go)

    A peer advertises the enabled routes it is a routing peer of; they reach
    the peers connected to it that are in a distribution group of the route
    and do not serve the same network themselves. *)

From Stdlib Require Import ZArith Lia Ascii String.
From stdpp Require Import base gmap strings numbers list fin_maps.
From S2P Require Import Prelude Netip GoStrings AddrText I2pSam NetMapTypes NetMapCalc NetMapConn.

(** ** What is advertised *)

(** The route as the peer [q] with the key [key] offers it. *)
Definition group_route (q : gostring) (r : Route) : Route :=
  set_PeerGroups_ID [] (r_ID r ++ ":"%char :: q) (set_Peer q (Route_Copy r)).

(** [q] is a routing peer of the account's route [r]: through a group, or as
    its peer. *)
Definition offers (c : NetworkMapComponents) (q : gostring) (r cand : Route) : Prop :=
  (in_groups c (r_PeerGroups r) q /\ cand = group_route q r) \/ (r_Peer r = q /\ cand = r).

(** The enabled (or disabled) routes of a peer. *)
Definition advertises (c : NetworkMapComponents) (q : gostring) (enabled : bool) (e : Route) : Prop :=
  exists p r cand, peerOrRouter c q = Some p /\ r ∈ Routes c /\ offers c q r cand /\
    r_Enabled r = enabled /\ e = set_Peer (p_Key p) cand.

(** Route ids determine the route and hold no colon. *)
Definition route_ids_ok (c : NetworkMapComponents) : Prop :=
  (forall r1 r2, r1 ∈ Routes c -> r2 ∈ Routes c -> r_ID r1 = r_ID r2 -> r1 = r2) /\
  (forall r, r ∈ Routes c -> ":"%char ∉ r_ID r).

(** ** The routes of a routing peer *)
Definition candidates (c : NetworkMapComponents) (q : gostring) (r : Route) : list Route :=
  (r_PeerGroups r ≫= fun gid =>
     match GetGroupInfo c gid with
     | Some g => if decide (q ∈ g_Peers g) then [group_route q r] else []
     | None => []
     end)
  ++ (if decide (r_Peer r = q) then [Route_Copy r] else []).

Lemma Route_Copy_id r : Route_Copy r = r.
Proof. by destruct r. Qed.

Lemma candidates_elem c q r cand : cand ∈ candidates c q r <-> offers c q r cand.
Proof.
  unfold candidates, offers, in_groups. rewrite elem_of_app, list_elem_of_bind.
  apply Morphisms_Prop.or_iff_morphism.
  - split.
    + intros (gid & Hc & Hg). destruct (GetGroupInfo c gid) as [g|] eqn:Hgi; [|by apply elem_of_nil in Hc].
      destruct (decide (q ∈ g_Peers g)); [|by apply elem_of_nil in Hc].
      apply list_elem_of_singleton in Hc. eauto 6.
    + intros ((gid & g & Hg & Hgi & Hq) & ->). exists gid. rewrite Hgi, decide_True by done.
      split; [by left|done].
  - rewrite Route_Copy_id. destruct (decide (r_Peer r = q)).
    + rewrite list_elem_of_singleton. naive_solver.
    + rewrite elem_of_nil. naive_solver.
Qed.

Lemma takeRoutes_candidates c q key st r :
  takeRoutes c q key st r = foldl (takeRoute key) st (candidates c q r).
Proof.
  unfold takeRoutes, candidates. rewrite foldl_app.
  assert (forall gs st, foldl (takeGroupRoute c q key r) st gs = foldl (takeRoute key) st
    (gs ≫= fun gid => match GetGroupInfo c gid with
       | Some g => if decide (q ∈ g_Peers g) then [group_route q r] else []
       | None => [] end)) as ->.
  { intros gs. induction gs as [|gid gs IH]; intros st'; [done|]. cbn [foldl mbind list_bind].
    rewrite foldl_app, <- IH. unfold takeGroupRoute at 2. destruct (GetGroupInfo c gid); [|done].
    by destruct (decide _). }
  by destruct (decide (r_Peer r = q)).
Qed.

Lemma ex_or {A} (Q P : A -> Prop) a : (exists y, (Q y \/ y = a) /\ P y) <-> (exists y, Q y /\ P y) \/ P a.
Proof. naive_solver. Qed.

(** The accumulated routes, when ids determine the candidates. *)
Lemma takeRoute_fold key cands :
  (forall a b, a ∈ cands -> b ∈ cands -> r_ID a = r_ID b -> a = b) ->
  let st := foldl (takeRoute key) (mkRouteAcc ∅ [] []) cands in
  (forall id, id ∈ seenRoute st <-> exists a, a ∈ cands /\ r_ID a = id) /\
  (forall e, e ∈ enabledRoutes st <-> exists a, a ∈ cands /\ r_Enabled a = true /\ e = set_Peer key a) /\
  (forall e, e ∈ disabledRoutes st <-> exists a, a ∈ cands /\ r_Enabled a = false /\ e = set_Peer key a).
Proof.
  cbn zeta. induction cands as [|a cands IH] using rev_ind; intros Huniq.
  { cbn. split_and!; intros x; (split; [|by intros (? & []%elem_of_nil & _)]);
      [by intros []%elem_of_empty|by intros []%elem_of_nil..]. }
  destruct IH as (IH1 & IH2 & IH3).
  { intros x y Hx Hy. apply Huniq; apply elem_of_app; by left. }
  rewrite foldl_app. cbn [foldl]. set (st := foldl _ _ cands) in *.
  setoid_rewrite elem_of_app. setoid_rewrite list_elem_of_singleton. unfold takeRoute.
  destruct (decide (r_ID a ∈ seenRoute st)) as [Hin|Hin].
  - apply IH1 in Hin as (b & Hb & Heq).
    assert (b = a) as ->.
    { apply Huniq; [apply elem_of_app; by left|apply elem_of_app; right; by left|done]. }
    split_and!; intros x; rewrite ?IH1, ?IH2, ?IH3; (split; [intros (y & ? & ?); eauto|]);
      intros (y & [?| ->] & ?); eauto.
  - cbn [r_Enabled set_Peer r_ID]. destruct (r_Enabled a) eqn:He;
      cbn [seenRoute enabledRoutes disabledRoutes]; split_and!; intros x; rewrite ex_or;
      rewrite ?elem_of_union, ?elem_of_singleton, ?elem_of_app, ?list_elem_of_singleton, ?IH1, ?IH2, ?IH3, ?He;
      intuition congruence.
Qed.

Lemma offers_unique c q r1 r2 a b : route_ids_ok c -> r1 ∈ Routes c -> r2 ∈ Routes c ->
  offers c q r1 a -> offers c q r2 b -> r_ID a = r_ID b -> a = b.
Proof.
  intros [Hid Hcolon] H1 H2.
  assert (forall r id, r ∈ Routes c -> r_ID r <> id ++ ":"%char :: q) as Hne.
  { intros r id Hr Heq. apply (Hcolon r Hr). rewrite Heq. apply elem_of_app. right. by left. }
  intros [[_ ->]|[_ ->]] [[_ ->]|[_ ->]] Heq.
  - cbn in Heq. apply app_inj_2 in Heq as [Heq _]; [|done]. by rewrite (Hid r1 r2).
  - by destruct (Hne r2 (r_ID r1) H2).
  - by destruct (Hne r1 (r_ID r2) H1).
  - auto.
Qed.

Lemma routing_peer_routes c q e : route_ids_ok c ->
  (e ∈ (getRoutingPeerRoutes c q).1 <-> advertises c q true e) /\
  (e ∈ (getRoutingPeerRoutes c q).2 <-> advertises c q false e).
Proof.
  intros Hok. unfold getRoutingPeerRoutes, advertises. destruct (peerOrRouter c q) as [p|].
  2:{ cbn. rewrite elem_of_nil. split; (split; [done|]); by intros (? & ? & ? & ? & _). }
  cbn [fst snd].
  assert (foldl (takeRoutes c q (p_Key p)) (mkRouteAcc ∅ [] []) (Routes c)
    = foldl (takeRoute (p_Key p)) (mkRouteAcc ∅ [] []) (Routes c ≫= candidates c q)) as ->.
  { apply (fold_bind id). intros. apply takeRoutes_candidates. }
  destruct (takeRoute_fold (p_Key p) (Routes c ≫= candidates c q)) as (_ & H2 & H3).
  { intros a b (r1 & ?%candidates_elem & ?)%list_elem_of_bind (r2 & ?%candidates_elem & ?)%list_elem_of_bind.
    by apply (offers_unique c q r1 r2). }
  rewrite H2, H3. setoid_rewrite list_elem_of_bind. setoid_rewrite candidates_elem.
  assert (forall r cand, offers c q r cand -> r_Enabled cand = r_Enabled r) as Hen.
  { by intros r cand [[_ ->]|[_ ->]]. }
  split; split.
  1,3: intros (a & (r & Ho & Hr) & He & ->); exists p, r, a; by rewrite <- (Hen _ _ Ho).
  all: intros (? & r & a & [= <-] & Hr & Ho & He & ->); exists a; rewrite (Hen _ _ Ho); eauto.
Qed.

(** ** Distribution *)
Section routes.
Context (idna_ToUnicode : gostring -> option gostring).

(** The target serves the network of [e] itself, with an enabled or a
    disabled route. *)
Definition serves_network (c : NetworkMapComponents) (t : gostring) (e : Route) : Prop :=
  exists b own, advertises c t b own /\ GetHAUniqueID idna_ToUnicode own = GetHAUniqueID idna_ToUnicode e.

Definition receives (c : NetworkMapComponents) (t : gostring) (peers : list Peer)
    (mine : gostring -> Prop) (e : Route) : Prop :=
  advertises c t true e \/
  (exists q, q ∈ peers /\ advertises c (p_ID q) true e /\ (exists gid, gid ∈ r_Groups e /\ mine gid) /\
     ~ serves_network c t e).

Lemma routes_to_sync c t peers groups e : route_ids_ok c ->
  e ∈ getRoutesToSync idna_ToUnicode c t peers groups <-> receives c t peers (fun gid => gid ∈ groups) e.
Proof.
  intros Hok. unfold getRoutesToSync, receives.
  destruct (getRoutingPeerRoutes c t) as [routes disabled] eqn:Hown.
  pose proof (routing_peer_routes c t) as Ht. rewrite Hown in Ht. cbn [fst snd] in Ht.
  set (ids := list_to_set _ : idset).
  assert (forall x, GetHAUniqueID idna_ToUnicode x ∈ ids <-> serves_network c t x) as Hids.
  { intros x. unfold ids, serves_network. rewrite elem_of_list_to_set, list_elem_of_fmap.
    setoid_rewrite elem_of_app. split.
    - intros (own & Heq & [?|?]); [exists true, own|exists false, own]; split; try done; by apply Ht.
    - intros ([] & own & Ha & Heq); exists own; (split; [done|]); [left|right]; by apply Ht. }
  assert (forall acc, e ∈ foldl (fun routes peer =>
      let '(activeRoutes, _) := getRoutingPeerRoutes c (p_ID peer) in
      routes ++ filterRoutesFromPeersOfSameHAGroup idna_ToUnicode (filterRoutesByGroups activeRoutes groups) ids)
      acc peers <-> e ∈ acc \/ (exists q, q ∈ peers /\ advertises c (p_ID q) true e /\
        (exists gid, gid ∈ r_Groups e /\ gid ∈ groups) /\ ~ serves_network c t e)) as Hfold.
  { induction peers as [|q peers IH]; intros acc; cbn [foldl].
    { split; [by left|]. by intros [?|(? & []%elem_of_nil & _)]. }
    rewrite IH. destruct (getRoutingPeerRoutes c (p_ID q)) as [active dis] eqn:Hq.
    pose proof (proj1 (routing_peer_routes c (p_ID q) e Hok)) as Hadv. rewrite Hq in Hadv. cbn in Hadv.
    rewrite elem_of_app. unfold filterRoutesFromPeersOfSameHAGroup, filterRoutesByGroups.
    rewrite !list_elem_of_filter, Hids, Exists_exists, Hadv. setoid_rewrite elem_of_cons. split.
    - intros [[?|(Hs & Hg & Ha)]|(q' & ? & ?)]; [by left|right; exists q; auto|right; exists q'; auto].
    - intros [?|(q' & [->|?] & Ha & Hg & Hs)]; [by left; left|left; right; auto|right; eauto]. }
  cbn zeta. rewrite Hfold. rewrite (proj1 (Ht e Hok)). done.
Qed.
End routes.
