(* ===== verification/NetMapResources.v ===== *)
(** * Network resources
      (getNetworkResourcesRoutesToSync, processResourcePolicies, getRulePeers,
      getPeerNetworkResourceFirewallRules in networkmap_components.go;
      generateRouteFirewallRules in firewall_rule.go)

    A resource of a network is reached through the routing peers of the
    network.  A peer gets the routes when a policy of the resource names it as
    a source and it passes the posture checks; the routing peers get these
    peers, and firewall rules with their addresses. *)

From Stdlib Require Import ZArith Lia Ascii String.
From stdpp Require Import base gmap strings numbers list fin_maps.
From S2P Require Import Prelude Netip GoStrings AddrText I2pSam NetMapTypes NetMapCalc NetMapConn.

(** ** What the policies of a resource say *)
Definition policies_of (c : NetworkMapComponents) (resource : NetworkResource) : list Policy :=
  default [] (ResourcePoliciesMap c !! nr_ID resource).

(** The sources of a resource policy: the peer of its first rule, else the
    source groups of all its rules. *)
Definition policy_source (c : NetworkMapComponents) (policy : Policy) (id : gostring) : Prop :=
  match po_Rules policy with
  | [] => False
  | rule :: _ =>
      if isPeerResource (pr_SourceResource rule) then id = res_ID (pr_SourceResource rule)
      else exists r, r ∈ po_Rules policy /\ in_groups c (pr_Sources r) id
  end.

(** A policy admits the peer [id] to the resource. *)
Definition admitted (c : NetworkMapComponents) (resource : NetworkResource) (id : gostring) : Prop :=
  exists policy, policy ∈ policies_of c resource /\ policy_source c policy id /\
    ValidatePostureChecksOnPeer c id (po_SourcePostureChecks policy) = true.

(** [q] is a routing peer of the network of the resource. *)
Definition routes_for (c : NetworkMapComponents) (resource : NetworkResource) (q : gostring)
    (router : NetworkRouter) : Prop :=
  default ∅ (RoutersMap c !! nr_NetworkID resource) !! q = Some router.

Definition active (c : NetworkMapComponents) (resource : NetworkResource) : Prop :=
  resource ∈ NetworkResources c /\ nr_Enabled resource = true.

(** Policies of resources have a rule. *)
Definition policies_nonempty (c : NetworkMapComponents) : Prop :=
  forall resource policy, resource ∈ NetworkResources c -> policy ∈ policies_of c resource ->
    po_Rules policy <> [].

(** ** Routes and source peers *)
Section resources.
Context (idna_ToASCII : gostring -> option gostring) (unicode_lower : gostring -> gostring)
  (ord : idset -> list gostring) (Hord : enumerates ord).

Notation to_route := (networkResourceToRoute idna_ToASCII unicode_lower).

Lemma source_groups_elem policy gid :
  gid ∈ SourceGroups ord policy <-> exists r, r ∈ po_Rules policy /\ gid ∈ pr_Sources r.
Proof.
  unfold SourceGroups. destruct (po_Rules policy) as [|r [|r' rules]] eqn:Hr.
  - rewrite (ord_elem _ _ _ Hord). cbn. split; [by intros []%elem_of_empty|by intros (? & []%elem_of_nil & _)].
  - setoid_rewrite list_elem_of_singleton. naive_solver.
  - rewrite (ord_elem _ _ _ Hord), elem_of_list_to_set, list_elem_of_bind. naive_solver.
Qed.

Lemma policy_peers c policy : all_complete c -> po_Rules policy <> [] ->
  exists peers, getResourcePolicyPeers ord c policy = Ok peers /\
    forall id, id ∈ peers <-> policy_source c policy id.
Proof.
  intros Hall Hne. unfold getResourcePolicyPeers, policy_source, go_index.
  destruct (po_Rules policy) as [|rule rules] eqn:Hr; [done|]. cbn [lookup list_lookup mbind res_bind].
  destruct (isPeerResource (pr_SourceResource rule)).
  - eexists. split; [done|]. intros id. by rewrite list_elem_of_singleton.
  - eexists. split; [done|]. intros id. rewrite (unique_ids_spec ord Hord) by done.
    unfold in_groups. setoid_rewrite source_groups_elem. rewrite Hr. naive_solver.
Qed.

(** The routes of one routing peer for a resource. *)
Lemma resource_routes c resource q router e :
  e ∈ getNetworkResourcesRoutes idna_ToASCII unicode_lower c resource q router <->
  policies_of c resource <> [] /\ exists p, GetPeerInfo c q = Some p /\ e = to_route resource p router.
Proof.
  unfold getNetworkResourcesRoutes, policies_of. destruct (default [] _) as [|policy ps]; cbn [length].
  { rewrite decide_False by lia. split; [by intros []%elem_of_nil|by intros [? _]]. }
  rewrite decide_True by lia. destruct (GetPeerInfo c q) as [p|].
  - rewrite list_elem_of_singleton. naive_solver.
  - rewrite elem_of_nil. naive_solver.
Qed.

(** Every routing peer of the network, for a resource with policies. *)
Definition routed (c : NetworkMapComponents) (resource : NetworkResource) (e : Route) : Prop :=
  exists q router p, routes_for c resource q router /\ GetPeerInfo c q = Some p /\
    e = to_route resource p router.

Lemma process_policies c t resource add ps sources : all_complete c ->
  Forall (fun p => po_Rules p <> []) ps -> policies_of c resource <> [] ->
  exists routes sources',
    processPolicies idna_ToASCII unicode_lower ord c t resource
      (default ∅ (RoutersMap c !! nr_NetworkID resource)) add ps sources = Ok (routes, sources') /\
    let given id := exists policy, policy ∈ ps /\ policy_source c policy id /\
      ValidatePostureChecksOnPeer c id (po_SourcePostureChecks policy) = true in
    (forall e, e ∈ routes <-> add = false /\ given t /\ routed c resource e) /\
    (forall id, id ∈ sources' <-> id ∈ sources \/ (add = true /\ given id)).
Proof.
  intros Hall. revert sources. induction ps as [|policy ps IH]; intros sources Hne Hpol; cbn [processPolicies].
  { exists [], sources. split; [done|]. cbn zeta. split; intros x.
    - split; [by intros []%elem_of_nil|]. by intros (_ & (? & []%elem_of_nil & _) & _).
    - split; [by left|]. by intros [?|(_ & ? & []%elem_of_nil & _)]. }
  apply Forall_cons in Hne as [Hp Hne]. destruct (policy_peers c policy Hall Hp) as (peers & -> & Hpeers).
  cbn [mbind res_bind]. setoid_rewrite elem_of_cons. destruct add.
  - destruct (IH (list_to_set (getPostureValidPeers c peers (po_SourcePostureChecks policy)) ∪ sources) Hne Hpol)
      as (routes & sources' & -> & Hr & Hs). exists routes, sources'. split; [done|]. cbn zeta in *. split.
    + intros e. rewrite Hr. split; by intros [? _].
    + intros id. rewrite Hs, elem_of_union, elem_of_list_to_set. unfold getPostureValidPeers.
      rewrite list_elem_of_filter, Hpeers. naive_solver.
  - destruct (bool_decide (t ∈ peers) && _) eqn:Ht.
    + apply andb_true_iff in Ht as [Ht%bool_decide_eq_true Hv]. eexists _, sources. split; [done|].
      cbn zeta. split; [|naive_solver]. intros e. rewrite list_elem_of_bind. unfold routed.
      split.
      * intros (q & He & Hq%(ord_elem _ _ _ Hord)%elem_of_dom). split; [done|]. split; [exists policy; rewrite <- Hpeers; auto|].
        destruct (_ !! q) as [router|] eqn:Hl; [|by destruct Hq].
        apply resource_routes in He as (_ & p & ? & ?). by exists q, router, p.
      * intros (_ & _ & q & router & p & Hq & Hp' & ->). unfold routes_for in Hq. exists q. rewrite Hq.
        split; [apply resource_routes; eauto|]. apply (ord_elem _ _ _ Hord), elem_of_dom. by eexists.
    + destruct (IH sources Hne Hpol) as (routes & sources' & -> & Hr & Hs). exists routes, sources'.
      split; [done|]. cbn zeta in *. split; [|naive_solver].
      intros e. rewrite Hr. apply andb_false_iff in Ht.
      assert (~ (t ∈ peers /\ ValidatePostureChecksOnPeer c t (po_SourcePostureChecks policy) = true)) as Hnot.
      { intros [H1 H2]. destruct Ht as [Ht|Ht]; [by apply bool_decide_eq_false in Ht|congruence]. }
      split.
      * intros (? & (p & ? & ?) & ?). eauto 8.
      * intros (? & (p & [->|?] & Hs' & ?) & ?); [|eauto 8]. apply Hpeers in Hs'. tauto.
Qed.

(** The routes the peer [t] gets for a resource: its own one as a routing
    peer, else those of all routing peers if it is admitted. *)
Definition is_router (c : NetworkMapComponents) (resource : NetworkResource) (t : gostring) : Prop :=
  exists router, routes_for c resource t router.

Definition resource_route (c : NetworkMapComponents) (t : gostring) (resource : NetworkResource) (e : Route) : Prop :=
  (exists router p, routes_for c resource t router /\ policies_of c resource <> [] /\
     GetPeerInfo c t = Some p /\ e = to_route resource p router) \/
  (~ is_router c resource t /\ admitted c resource t /\ routed c resource e).

Lemma process_resource c t resource add sources : all_complete c ->
  (forall policy, policy ∈ policies_of c resource -> po_Rules policy <> []) ->
  exists routes sources',
    processResourcePolicies idna_ToASCII unicode_lower ord c t resource
      (default ∅ (RoutersMap c !! nr_NetworkID resource)) add sources = Ok (routes, sources') /\
    (forall e, e ∈ routes <-> add = false /\ admitted c resource t /\ routed c resource e) /\
    (forall id, id ∈ sources' <-> id ∈ sources \/ (add = true /\ admitted c resource id)).
Proof.
  intros Hall Hne. unfold processResourcePolicies.
  fold (policies_of c resource). destruct (policies_of c resource) as [|policy ps] eqn:Hp.
  - exists [], sources. split; [done|]. unfold admitted. rewrite Hp. split; intros x.
    + split; [by intros []%elem_of_nil|]. by intros (_ & (? & []%elem_of_nil & _) & _).
    + split; [by left|]. by intros [?|(_ & ? & []%elem_of_nil & _)].
  - destruct (process_policies c t resource add (policy :: ps) sources Hall) as (routes & sources' & -> & H1 & H2).
    { by apply Forall_forall. } { by rewrite Hp. }
    exists routes, sources'. unfold admitted. rewrite Hp. auto.
Qed.

Lemma sync_resource c t st resource : all_complete c ->
  (forall policy, policy ∈ policies_of c resource -> po_Rules policy <> []) ->
  exists st', syncResource idna_ToASCII unicode_lower ord c t st resource = Ok st' /\
    (isRoutingPeer st' = true <-> isRoutingPeer st = true \/ (nr_Enabled resource = true /\ is_router c resource t)) /\
    (forall e, e ∈ ra_routes st' <-> e ∈ ra_routes st \/ (nr_Enabled resource = true /\ resource_route c t resource e)) /\
    (forall id, id ∈ allSourcePeers st' <-> id ∈ allSourcePeers st \/
       (nr_Enabled resource = true /\ is_router c resource t /\ admitted c resource id)).
Proof.
  intros Hall Hne. unfold syncResource, is_router, resource_route. destruct (nr_Enabled resource); cbn [negb].
  2:{ exists st. split; [done|]. split_and!; [|intros x..]; (split; [by left|]); by intros [?|[? _]]. }
  destruct (default ∅ (RoutersMap c !! nr_NetworkID resource) !! t) as [router|] eqn:Hr; fold (routes_for c resource t) in Hr.
  - destruct (process_resource c t resource true (allSourcePeers st) Hall Hne) as (routes & sources' & Heq & H1 & H2).
    cbn [allSourcePeers]. rewrite Heq. cbn [mbind res_bind]. eexists. split; [done|].
    cbn [isRoutingPeer ra_routes allSourcePeers].
    assert (exists router, routes_for c resource t router) as Hex by (by eexists).
    split_and!; [tauto|intros e; rewrite !elem_of_app, H1, resource_routes|intros id; rewrite H2; tauto].
    split.
    + intros [[?|(Hp & p & Ht & ->)]|[? _]]; [by left| |done]. right. split; [done|]. left. by exists router, p.
    + intros [?|(_ & [(router' & p & Hr' & Hp & Ht & ->)|(Hno & _)])]; [by left; left| |done].
      left. right. split; [done|]. exists p. unfold routes_for in *. rewrite Hr in Hr'. by simplify_eq.
  - destruct (process_resource c t resource false (allSourcePeers st) Hall Hne) as (routes & sources' & Heq & H1 & H2).
    rewrite Heq. cbn [mbind res_bind]. eexists. split; [done|]. cbn [isRoutingPeer ra_routes allSourcePeers].
    assert (~ exists router, routes_for c resource t router) as Hex.
    { intros [router Hr']. unfold routes_for in Hr'. congruence. }
    split_and!; [tauto|intros e; rewrite !elem_of_app, H1|intros id; rewrite H2; naive_solver].
    split.
    + intros [?|(_ & ? & ?)]; [by left|]. right. auto.
    + intros [?|(_ & [(router' & p & Hr' & _)|(_ & ?)])]; [by left|by destruct Hex; exists router'|by right].
Qed.

(** The whole loop returns, with the routes and sources of the active
    resources. *)
Lemma resources_to_sync c t : all_complete c -> policies_nonempty c ->
  exists st, getNetworkResourcesRoutesToSync idna_ToASCII unicode_lower ord c t = Ok st /\
    (isRoutingPeer st = true <-> exists resource, active c resource /\ is_router c resource t) /\
    (forall e, e ∈ ra_routes st <-> exists resource, active c resource /\ resource_route c t resource e) /\
    (forall id, id ∈ allSourcePeers st <-> exists resource, active c resource /\ is_router c resource t /\
       admitted c resource id).
Proof.
  intros Hall Hne. unfold getNetworkResourcesRoutesToSync.
  assert (forall rs st, (forall r, r ∈ rs -> r ∈ NetworkResources c) ->
    exists st', syncResources idna_ToASCII unicode_lower ord c t st rs = Ok st' /\
    (isRoutingPeer st' = true <-> isRoutingPeer st = true \/
       exists r, (r ∈ rs /\ nr_Enabled r = true) /\ is_router c r t) /\
    (forall e, e ∈ ra_routes st' <-> e ∈ ra_routes st \/
       exists r, (r ∈ rs /\ nr_Enabled r = true) /\ resource_route c t r e) /\
    (forall id, id ∈ allSourcePeers st' <-> id ∈ allSourcePeers st \/
       exists r, (r ∈ rs /\ nr_Enabled r = true) /\ is_router c r t /\ admitted c r id)) as Hloop.
  { induction rs as [|r rs IH]; intros st Hin; cbn [syncResources].
    { exists st. split; [done|]. split_and!; [|intros x..]; (split; [by left|]);
        by intros [?|(? & [[]%elem_of_nil _] & _)]. }
    destruct (sync_resource c t st r Hall) as (st1 & -> & A1 & A2 & A3).
    { intros policy. apply Hne, Hin. by left. }
    cbn [mbind res_bind]. destruct (IH st1) as (st2 & -> & B1 & B2 & B3).
    { intros r' Hr'. apply Hin. by right. }
    exists st2. split; [done|]. setoid_rewrite elem_of_cons.
    split_and!; [rewrite B1, A1|intros x; rewrite B2, A2|intros x; rewrite B3, A3]; split.
    1,3,5: intros [[?|[? ?]]|(r' & [? ?] & ?)]; eauto 8.
    all: intros [?|(r' & [[->|?] ?] & ?)]; eauto 8. }
  destruct (Hloop (NetworkResources c) (mkResourceAcc false [] ∅)) as (st & -> & H1 & H2 & H3); [done|].
  exists st. split; [done|]. cbn in H1, H2, H3. unfold active. split_and!.
  - rewrite H1. split; [by intros [?|?]|by right].
  - intros e. rewrite H2. split; [by intros [[]%elem_of_nil|?]|by right].
  - intros id. rewrite H3. split; [by intros [[]%elem_of_empty|?]|by right].
Qed.
End resources.
