(* ===== verification/NetMapRouteRules.v ===== *)
(** * Firewall rules of routes
      (generateRouteFirewallRules in firewall_rule.go; getRulePeers,
      getRouteFirewallRules in networkmap_components.go)

    A routing peer forwards traffic only for rules that list the addresses of
    their source peers.  Duplicates are removed by concatenated identifiers;
    no port or range is lost by it. *)

From Stdlib Require Import ZArith Lia Ascii String.
From stdpp Require Import base gmap strings numbers list fin_maps.
From S2P Require Import Prelude Netip GoStrings AddrText I2pSam NetMapTypes NetMapCalc NetMapConn.

(** ** What a rule says *)

(** The peer [id] is a source of the rule. *)
Definition rule_source (c : NetworkMapComponents) (rule : PolicyRule) (id : gostring) : Prop :=
  in_groups c (pr_Sources rule) id \/
  (isPeerResource (pr_SourceResource rule) = true /\ id = res_ID (pr_SourceResource rule)).

(** The ports of the rule, for a routed network. *)
Definition rule_port (rule : PolicyRule) (x : Z) : Prop :=
  (pr_Ports rule = [] /\ pr_PortRanges rule = []) \/
  (exists s, s ∈ pr_Ports rule /\ ParseUint s 16 = Some x) \/
  (pr_Ports rule = [] /\ exists r, r ∈ pr_PortRanges rule /\ (rp_Start r <= x <= rp_End r)%Z).

(** The port a route firewall rule matches; no port and no range is every
    port. *)
Definition rf_opens (rf : RouteFirewallRule) (x : Z) : Prop :=
  (rf_Port rf = 0%Z /\ rf_PortRange rf = mkRange 0 0) \/ rf_Port rf = x \/
  (rp_Start (rf_PortRange rf) <= x <= rp_End (rf_PortRange rf))%Z.

(** The addresses of peers as source ranges. *)
Definition v4_text (p : Peer) : gostring := Addr_String (p_IP p) ++ lit "/32".
Definition v6_text (p : Peer) : gostring := Addr_String (p_IPv6 p) ++ lit "/128".

Definition source_text (p : Peer) (s : gostring) : Prop :=
  s = v4_text p \/ (IsValid (p_IPv6 p) = true /\ s = v6_text p).

(** ** Removal of duplicates *)
Section unseen.
Context {A : Type} (idf : A -> gostring) (newf : A -> list RouteFirewallRule).

Definition add_all (st : idset * list RouteFirewallRule) (l : list A) : idset * list RouteFirewallRule :=
  foldl (fun st x => addUnseen st (idf x) (newf x)) st l.

Lemma add_all_sound l st rf : rf ∈ (add_all st l).2 -> rf ∈ st.2 \/ exists x, x ∈ l /\ rf ∈ newf x.
Proof.
  revert st. induction l as [|x l IH]; intros st; [by left|]. cbn [add_all foldl]. intros [Hin|(y & Hy & ?)]%IH.
  - unfold addUnseen in Hin. destruct (decide _); [by left|]. cbn in Hin.
    apply elem_of_app in Hin as [?|?]; [by left|]. right. exists x. split; [by left|done].
  - right. exists y. split; [by right|done].
Qed.

Lemma add_all_mono l st rf : rf ∈ st.2 -> rf ∈ (add_all st l).2.
Proof.
  revert st. induction l as [|x l IH]; intros st Hin; [done|]. apply IH. unfold addUnseen.
  destruct (decide _); [done|]. cbn. apply elem_of_app. by left.
Qed.

(** Equal identifiers stand for equal rules: nothing is lost. *)
Lemma add_all_complete l st rf x :
  (forall y z, y ∈ l -> z ∈ l -> idf y = idf z -> newf y = newf z) ->
  (forall y, y ∈ l -> idf y ∈ st.1 -> forall f, f ∈ newf y -> f ∈ st.2) ->
  x ∈ l -> rf ∈ newf x -> rf ∈ (add_all st l).2.
Proof.
  revert st. induction l as [|y l IH]; intros st Hinj Hst Hx Hrf; [by apply elem_of_nil in Hx|].
  cbn [add_all foldl]. fold (add_all (addUnseen st (idf y) (newf y)) l).
  assert (forall f, f ∈ newf y -> f ∈ (addUnseen st (idf y) (newf y)).2) as Hnew.
  { intros f Hf. unfold addUnseen. destruct (decide (idf y ∈ st.1)).
    - eapply (Hst y); [by left|done..].
    - cbn. apply elem_of_app. by right. }
  apply elem_of_cons in Hx as [->|Hx]; [by apply add_all_mono, Hnew|]. apply IH; [|..|done|done].
  - intros a b Ha Hb. apply Hinj; by right.
  - intros a Ha Hin f Hf. unfold addUnseen in Hin. destruct (decide (idf y ∈ st.1)) as [Hd|Hd].
    + unfold addUnseen. rewrite decide_True by done. eapply Hst; [by right|done..].
    + cbn in Hin. apply elem_of_union in Hin as [Heq%elem_of_singleton|Hin].
      * apply Hnew. rewrite <- (Hinj a y); [done|by right|by left|done].
      * unfold addUnseen. rewrite decide_False by done. cbn. apply elem_of_app. left.
        eapply Hst; [by right|done..].
Qed.
End unseen.

(** ** Ports *)

(** The rules of [base] for the ports of [rule]. *)
Definition port_rule (rule : PolicyRule) (base rf : RouteFirewallRule) : Prop :=
  (pr_Ports rule = [] /\ pr_PortRanges rule = [] /\ rf = base) \/
  (pr_Ports rule = [] /\ exists r, r ∈ pr_PortRanges rule /\ rf = set_rf_PortRange r base) \/
  (exists s p, s ∈ pr_Ports rule /\ ParseUint s 16 = Some p /\ rf = set_rf_Port p base).

Definition ranges_ok (rule : PolicyRule) : Prop :=
  forall r, r ∈ pr_PortRanges rule -> (0 <= rp_Start r)%Z /\ (0 <= rp_End r)%Z.

Lemma dash_split (a a' b b' : gostring) (x : ascii) : x ∉ a -> x ∉ a' ->
  a ++ x :: b = a' ++ x :: b' -> a = a' /\ b = b'.
Proof.
  revert a'. induction a as [|y a IH]; intros [|y' a'] Ha Ha' Heq; cbn in *.
  - by injection Heq.
  - injection Heq as -> _. destruct Ha'. by left.
  - injection Heq as <- _. destruct Ha. by left.
  - injection Heq as <- Heq. destruct (IH a') as [-> ->]; [|..|done|done];
      intros ?; [apply Ha|apply Ha']; by right.
Qed.

Lemma range_text_inj base r1 r2 :
  (0 <= rp_Start r1)%Z -> (0 <= rp_Start r2)%Z ->
  base ++ Itoa (rp_Start r1) ++ "-"%char :: Itoa (rp_End r1)
    = base ++ Itoa (rp_Start r2) ++ "-"%char :: Itoa (rp_End r2) -> r1 = r2.
Proof.
  intros H1 H2 Heq%app_inv_head. apply dash_split in Heq as [Hs%Itoa_inj He%Itoa_inj].
  - destruct r1, r2. cbn in *. congruence.
  - apply digit_not_in; [by apply Itoa_digits|]. unfold is_digit. vm_compute. intros [? ?]; by auto.
  - apply digit_not_in; [by apply Itoa_digits|]. unfold is_digit. vm_compute. intros [? ?]; by auto.
Qed.

Lemma port_rules_sound base rule st rf : rf ∈ (portRouteRules base rule st).2 ->
  rf ∈ st.2 \/ port_rule rule base rf.
Proof.
  unfold portRouteRules, generateRulesWithPortRanges, generateRulesWithPorts, port_rule.
  destruct (pr_Ports rule) as [|s ports] eqn:Hp; cbn [length].
  - rewrite !decide_True by done. destruct (pr_PortRanges rule) as [|r rs] eqn:Hr; cbn [length].
    + rewrite decide_True by done. unfold addUnseen. destruct (decide _); [by left|]. cbn.
      rewrite elem_of_app, list_elem_of_singleton. intros [?| ->]; auto.
    + rewrite decide_False by done. intros [?|(x & Hx & ->%list_elem_of_singleton)]%add_all_sound; [by left|].
      right. right. left. eauto.
  - rewrite decide_False by done. intros [?|(x & Hx & Hrf)]%add_all_sound; [by left|].
    right. right. right. destruct (ParseUint x 16) as [p|] eqn:Hpu; [|by apply elem_of_nil in Hrf].
    apply list_elem_of_singleton in Hrf as ->. eauto.
Qed.

Lemma port_rules_mono base rule st rf : rf ∈ st.2 -> rf ∈ (portRouteRules base rule st).2.
Proof.
  intros Hin. unfold portRouteRules, generateRulesWithPortRanges, generateRulesWithPorts.
  destruct (decide _); [|by apply add_all_mono].
  destruct (decide _); [|by apply add_all_mono]. unfold addUnseen. destruct (decide _); [done|].
  cbn. apply elem_of_app. by left.
Qed.

Lemma port_rules_complete base rule rf : ranges_ok rule -> port_rule rule base rf ->
  rf ∈ (portRouteRules base rule (∅, [])).2.
Proof.
  intros Hok Hrf. unfold portRouteRules, generateRulesWithPortRanges, generateRulesWithPorts.
  destruct Hrf as [(-> & -> & ->)|[(-> & r & Hr & ->)|(s & p & Hs & Hpu & ->)]]; cbn [length].
  - rewrite !decide_True by done. unfold addUnseen. rewrite decide_False by apply not_elem_of_empty. by left.
  - rewrite !decide_True by done.
    rewrite decide_False by (intros H%nil_length_inv; rewrite H in Hr; by apply elem_of_nil in Hr).
    eapply add_all_complete; [| |exact Hr|by left]; [|by intros ? _ []%elem_of_empty].
    intros y z Hy%Hok Hz%Hok Heq. apply range_text_inj in Heq as ->; [done|lia|lia].
  - rewrite decide_False by (intros H%nil_length_inv; rewrite H in Hs; by apply elem_of_nil in Hs).
    eapply add_all_complete; [| |exact Hs|by rewrite Hpu; left]; [|by intros ? _ []%elem_of_empty].
    by intros y z _ _ ->%app_inv_head.
Qed.

(** A named port is opened. *)
Lemma port_rule_opens rule base x : rf_Port base = 0%Z -> rf_PortRange base = mkRange 0 0 ->
  rule_port rule x -> exists rf, port_rule rule base rf /\ rf_opens rf x.
Proof.
  intros H1 H2 [(Hp & Hr)|[(s & Hs & Hpu)|(Hp & r & Hr & Hx)]].
  - exists base. split; [left; auto|by left].
  - exists (set_rf_Port x base). split; [right; right; eauto|right; by left].
  - exists (set_rf_PortRange r base). split; [right; left; eauto|right; by right].
Qed.

Lemma port_rule_sources rule base rf : port_rule rule base rf ->
  rf_SourceRanges rf = rf_SourceRanges base /\ rf_PolicyID rf = rf_PolicyID base /\
  rf_RouteID rf = rf_RouteID base /\ rf_Action rf = rf_Action base /\ rf_Protocol rf = rf_Protocol base /\
  rf_Destination rf = rf_Destination base.
Proof. by intros [(_ & _ & ->)|[(_ & r & _ & ->)|(s & p & _ & _ & ->)]]. Qed.

(** ** Rules of a route *)

(** The rule is for the network of the route, or for the IPv6 default route
    that accompanies it. *)
Definition for_route (route : Route) (rf : RouteFirewallRule) : Prop :=
  (rf_RouteID rf = r_ID route /\ rf_Destination rf = Prefix_String (r_Network route)) \/
  (Is6 (PAddr (r_Network route)) = false /\ PBits (r_Network route) = 0%Z /\
   rf_RouteID rf = r_ID route ++ lit "-v6-default" /\ rf_Destination rf = allV6).

Lemma route_rules_sound route rule peers v6 rf :
  rf ∈ generateRouteFirewallRules route rule peers v6 ->
  rf_PolicyID rf = pr_PolicyID rule /\ rf_Action rf = pr_Action rule /\ rf_Protocol rf = pr_Protocol rule /\
  for_route route rf /\ forall s, s ∈ rf_SourceRanges rf -> exists p, p ∈ peers /\ source_text p s.
Proof.
  unfold generateRouteFirewallRules, splitPeerSourcesByFamily, for_route.
  set (v4s := _ <$> peers). set (v6s := _ <$> filter _ peers).
  assert (forall s, s ∈ v4s -> exists p, p ∈ peers /\ source_text p s) as H4.
  { intros s (p & -> & Hp)%list_elem_of_fmap. exists p. split; [done|by left]. }
  assert (forall s, s ∈ v6s -> exists p, p ∈ peers /\ source_text p s) as H6.
  { intros s (p & -> & Hp)%list_elem_of_fmap. apply list_elem_of_filter in Hp as [? ?]. exists p.
    split; [done|by right]. }
  destruct (Is6 (PAddr (r_Network route)) && negb v6); [by intros []%elem_of_nil|].
  set (base := mkRouteFirewallRule _ _ _ _ _ _ _ _ _ _).
  assert (forall f, f ∈ (portRouteRules base rule (∅, [])).2 ->
    rf_PolicyID f = pr_PolicyID rule /\ rf_Action f = pr_Action rule /\ rf_Protocol f = pr_Protocol rule /\
    for_route route f /\ forall s, s ∈ rf_SourceRanges f -> exists p, p ∈ peers /\ source_text p s) as Hbase.
  { unfold for_route.
    intros f [[]%elem_of_nil|(-> & -> & -> & -> & -> & ->)%port_rule_sources]%port_rules_sound. unfold base. cbn.
    split_and!; try done; [by left|]. destruct (Is6 _); done. }
  destruct (v6 && _ && _); [|apply Hbase].
  intros [?|(-> & -> & -> & -> & -> & ->)%port_rule_sources]%port_rules_sound; [by apply Hbase|].
  destruct (negb _ && bool_decide _) eqn:Hd; cbn; split_and!; try done; [right|by left].
  apply andb_true_iff in Hd as [Hd1%negb_true_iff Hd2%bool_decide_eq_true]. done.
Qed.

Lemma route_rules_complete route rule peers v6 p x :
  ranges_ok rule -> Is6 (PAddr (r_Network route)) = false -> p ∈ peers -> rule_port rule x ->
  exists rf, rf ∈ generateRouteFirewallRules route rule peers v6 /\ rf_opens rf x /\
    v4_text p ∈ rf_SourceRanges rf /\ rf_RouteID rf = r_ID route /\ rf_Action rf = pr_Action rule /\
    rf_PolicyID rf = pr_PolicyID rule /\ rf_Protocol rf = pr_Protocol rule /\
    rf_Destination rf = Prefix_String (r_Network route).
Proof.
  intros Hok H4 Hp Hx. unfold generateRouteFirewallRules, splitPeerSourcesByFamily. rewrite H4. cbn [andb negb].
  set (base := mkRouteFirewallRule _ _ _ _ _ _ _ _ _ _).
  destruct (port_rule_opens rule base x eq_refl eq_refl Hx) as (rf & Hrf & Ho). exists rf.
  pose proof (port_rule_sources _ _ _ Hrf) as (Hs & -> & -> & -> & -> & ->).
  pose proof (port_rules_complete _ _ _ Hok Hrf). split.
  { destruct (v6 && _ && _); [by apply port_rules_mono|done]. }
  split_and!; try done. rewrite Hs. apply list_elem_of_fmap. by exists p.
Qed.

(** ** Source peers of a rule *)
Lemma in_groups_cons c gid gs id : in_groups c (gid :: gs) id <->
  (exists g, GetGroupInfo c gid = Some g /\ id ∈ g_Peers g) \/ in_groups c gs id.
Proof.
  unfold in_groups. setoid_rewrite elem_of_cons. split.
  - intros (g' & h & [->|?] & ? & ?); [left|right]; eauto.
  - intros [(g & ? & ?)|(g' & h & ? & ? & ?)]; eauto 6.
Qed.

(** Collecting the members of groups that satisfy [P]. *)
Lemma collect_members (c : NetworkMapComponents) (P : gostring -> Prop) (HP : forall x, Decision (P x)) (gs : list gostring)
    (acc : idset) (id : gostring) :
  id ∈ foldl (fun (acc : idset) gid => match GetGroupInfo c gid with
    | None => acc | Some g => list_to_set (filter P (g_Peers g)) ∪ acc end) acc gs <->
  id ∈ acc \/ (P id /\ in_groups c gs id).
Proof.
  revert acc. induction gs as [|gid gs IH]; intros acc; cbn [foldl].
  { unfold in_groups. split; [by left|]. by intros [?|(_ & ? & ? & []%elem_of_nil & _)]. }
  rewrite IH, in_groups_cons. destruct (GetGroupInfo c gid) as [g|].
  - rewrite elem_of_union, elem_of_list_to_set, list_elem_of_filter. split.
    + intros [[[? ?]|?]|[? ?]]; eauto 6.
    + intros [?|[? [(g' & [= <-] & ?)|?]]]; auto.
  - split; [intros [?|[? ?]]; auto|]. intros [?|[? [(g' & ? & _)|?]]]; auto. done.
Qed.

Section rules.
Context (ord : idset -> list gostring) (Hord : enumerates ord).

Lemma rule_peers c rule checks t dist p : ids_ok c ->
  p ∈ getRulePeers ord c rule checks t dist <->
  GetPeerInfo c (p_ID p) = Some p /\ p_ID p ∈ dist /\
  ValidatePostureChecksOnPeer c (p_ID p) checks = true /\
  ((p_ID p <> t /\ in_groups c (pr_Sources rule) (p_ID p)) \/
   (isPeerResource (pr_SourceResource rule) = true /\ p_ID p = res_ID (pr_SourceResource rule))).
Proof.
  intros Hids. unfold getRulePeers. cbv zeta. rewrite list_elem_of_omap. setoid_rewrite (ord_elem _ _ _ Hord).
  set (ok := distributable c dist checks).
  assert (forall id, ok id = true <-> id ∈ dist /\ ValidatePostureChecksOnPeer c id checks = true) as Hok.
  { intros id. unfold ok, distributable. rewrite !andb_true_iff, bool_decide_eq_true. split; [tauto|].
    intros [? Hv]. pose proof (validate_exists _ _ _ Hv). tauto. }
  set (set0 := foldl _ _ _).
  assert (forall id, id ∈ set0 <-> (id <> t /\ ok id = true) /\ in_groups c (pr_Sources rule) id) as H0.
  { intros id. unfold set0. rewrite (collect_members c (fun pID => pID <> t /\ ok pID = true)).
    split; [by intros [[]%elem_of_empty|?]|by right]. }
  assert (forall id, id ∈ (if isPeerResource (pr_SourceResource rule) && ok (res_ID (pr_SourceResource rule))
     then {[res_ID (pr_SourceResource rule)]} ∪ set0 else set0) <->
     ok id = true /\ ((id <> t /\ in_groups c (pr_Sources rule) id) \/
       (isPeerResource (pr_SourceResource rule) = true /\ id = res_ID (pr_SourceResource rule)))) as Hset.
  { intros id. destruct (isPeerResource (pr_SourceResource rule)); cbn [andb].
    - destruct (ok (res_ID (pr_SourceResource rule))) eqn:Ho.
      + rewrite elem_of_union, elem_of_singleton, H0. split.
        * intros [->|?]; tauto.
        * intros [? [?|[_ ->]]]; tauto.
      + rewrite H0. split; [tauto|]. intros [? [?|[_ ->]]]; [tauto|congruence].
    - rewrite H0. split; [tauto|]. intros [? [?|[? _]]]; [tauto|done]. }
  setoid_rewrite Hset. setoid_rewrite Hok. split.
  - intros (id & (? & ?) & Hp). pose proof (Hids _ _ Hp). subst. tauto.
  - intros (Hp & ? & ? & ?). exists (p_ID p). tauto.
Qed.

Lemma route_firewall_elem c t ps route dist v6 rf :
  rf ∈ getRouteFirewallRules ord c t ps route dist v6 <->
  exists policy rule, policy ∈ ps /\ po_Enabled policy = true /\ rule ∈ po_Rules policy /\
    pr_Enabled rule = true /\
    rf ∈ generateRouteFirewallRules route rule
           (getRulePeers ord c rule (po_SourcePostureChecks policy) t dist) v6.
Proof.
  unfold getRouteFirewallRules. rewrite list_elem_of_bind. split.
  - intros (policy & H & Hp). destruct (po_Enabled policy) eqn:He; cbn [negb] in H; [|by apply elem_of_nil in H].
    apply list_elem_of_bind in H as (rule & H & Hr).
    destruct (pr_Enabled rule) eqn:Hre; cbn [negb] in H; [|by apply elem_of_nil in H]. by exists policy, rule.
  - intros (policy & rule & Hp & He & Hr & Hre & H). exists policy. split; [|done]. rewrite He. cbn [negb].
    apply list_elem_of_bind. exists rule. by rewrite Hre.
Qed.

Lemma policies_source_peers c ps id :
  id ∈ getPoliciesSourcePeers c ps <->
  exists policy rule, policy ∈ ps /\ rule ∈ po_Rules policy /\ rule_source c rule id.
Proof.
  unfold getPoliciesSourcePeers.
  assert (forall gs (acc : idset), id ∈ foldl (fun acc sourceGroup =>
      match GetGroupInfo c sourceGroup with None => acc | Some group => list_to_set (g_Peers group) ∪ acc end)
      acc gs <-> id ∈ acc \/ in_groups c gs id) as Hg.
  { induction gs as [|gid gs IH]; intros acc; cbn [foldl].
    { unfold in_groups. split; [by left|]. by intros [?|(? & ? & []%elem_of_nil & _)]. }
    rewrite IH, in_groups_cons. destruct (GetGroupInfo c gid) as [g|].
    - rewrite elem_of_union, elem_of_list_to_set. split; [intros [[?|?]|?]; eauto 6|].
      intros [?|[(g' & [= <-] & ?)|?]]; auto.
    - split; [intros [?|?]; auto|]. intros [?|[(g' & ? & _)|?]]; auto. done. }
  assert (forall rules (acc : idset), id ∈ foldl (fun acc (rule : PolicyRule) =>
      let acc := foldl (fun acc sourceGroup =>
        match GetGroupInfo c sourceGroup with None => acc | Some group => list_to_set (g_Peers group) ∪ acc end)
        acc (pr_Sources rule) in
      if isPeerResource (pr_SourceResource rule) then {[res_ID (pr_SourceResource rule)]} ∪ acc else acc)
      acc rules <-> id ∈ acc \/ exists rule, rule ∈ rules /\ rule_source c rule id) as Hr.
  { induction rules as [|rule rules IH]; intros acc; cbn [foldl].
    { split; [by left|]. by intros [?|(? & []%elem_of_nil & _)]. }
    rewrite IH. setoid_rewrite elem_of_cons.
    assert (id ∈ (if isPeerResource (pr_SourceResource rule)
        then {[res_ID (pr_SourceResource rule)]} ∪ foldl (fun acc sourceGroup =>
          match GetGroupInfo c sourceGroup with None => acc | Some group => list_to_set (g_Peers group) ∪ acc end)
          acc (pr_Sources rule)
        else foldl (fun acc sourceGroup =>
          match GetGroupInfo c sourceGroup with None => acc | Some group => list_to_set (g_Peers group) ∪ acc end)
          acc (pr_Sources rule)) <-> id ∈ acc \/ rule_source c rule id) as ->.
    { unfold rule_source. destruct (isPeerResource _).
      - rewrite elem_of_union, elem_of_singleton, Hg. tauto.
      - rewrite Hg. split; [tauto|]. intros [?|[?|[? _]]]; auto. done. }
    split.
    - intros [[?|?]|(r & ? & ?)]; eauto.
    - intros [?|(r & [->|?] & ?)]; eauto. }
  rewrite Hr. setoid_rewrite list_elem_of_bind. split.
  - intros [[]%elem_of_empty|(rule & (policy & ? & ?) & ?)]. eauto 6.
  - intros (policy & rule & ? & ? & ?). right. eauto 6.
Qed.
End rules.
