(* ===== verification/NetworkMap.v ===== *)
(** * The network map of a peer
      (Calculate in management/server/types/networkmap_components.go)

    The pieces put together: the theorems read the network map a peer gets
    against the policies, routes and resources of the account. *)

From Stdlib Require Import ZArith Lia Ascii String.
From stdpp Require Import base gmap strings numbers list fin_maps.
From S2P Require Import Prelude Netip GoStrings AddrText I2pSam NetMapTypes NetMapCalc NetMapConn NetMapPorts NetMapSsh NetMapRoutes NetMapResources NetMapRouteRules.

(** ** Definitions *)

(** The login of the peer had expired at time [now]. *)
Definition login_expired (c : NetworkMapComponents) (p : Peer) (now : Z) : Prop :=
  PeerLoginExpirationEnabled (AccountSettings c) = true /\ p_UserID p <> [] /\
  p_LoginExpirationEnabled p = true /\
  (GetLastLogin p + PeerLoginExpiration (AccountSettings c) <= now)%Z.

(** No entry of the group map is nil. *)
Definition groups_ok (c : NetworkMapComponents) : Prop := map_Forall (fun _ g => is_Some g) (Groups c).

Definition router_ids_ok (c : NetworkMapComponents) : Prop :=
  forall id p, GetRouterPeerInfo c id = Some p -> p_ID p = id.

(** The groups of a peer. *)
Definition member_of (c : NetworkMapComponents) (t gid : gostring) : Prop :=
  exists g, GetGroupInfo c gid = Some g /\ t ∈ g_Peers g.

(** ** Expired logins *)
Lemma time_Sub_nonpos t u : (time_Sub t u <= 0)%Z <-> (t <= u)%Z.
Proof. unfold time_Sub. change (2 ^ 63)%Z with 9223372036854775808%Z. lia. Qed.

Lemma LoginExpired_spec c p now :
  PeerLoginExpirationEnabled (AccountSettings c) &&
    (LoginExpired now p (PeerLoginExpiration (AccountSettings c))).1 = true <-> login_expired c p now.
Proof.
  unfold LoginExpired, AddedWithSSOLogin, login_expired. rewrite andb_true_iff.
  case_bool_decide as Hu; cbn [negb orb fst].
  { split; [by intros [_ ?]|by intros (_ & ? & _)]. }
  destruct (p_LoginExpirationEnabled p); cbn [negb fst].
  - rewrite bool_decide_eq_true, time_Sub_nonpos. tauto.
  - split; [by intros [_ ?]|by intros (_ & _ & ? & _)].
Qed.

Lemma filterExpired_spec now c i ps :
  let r := filterExpired now c i ps in
  r.1 ++ r.2 ≡ₚ ps /\ (forall p, p ∈ r.2 -> exists j, login_expired c p (now j)) /\
  (forall p, p ∈ r.1 -> exists j, ~ login_expired c p (now j)).
Proof.
  cbn zeta. revert i. induction ps as [|p ps IH]; intros i; cbn [filterExpired].
  { cbn. split_and!; [done|by intros ? []%elem_of_nil..]. }
  specialize (IH (S i)). destruct (filterExpired now c (S i) ps) as [conn exp]. cbn [fst snd] in IH.
  destruct IH as (IH1 & IH2 & IH3). pose proof (LoginExpired_spec c p (now i)) as Hs.
  destruct (PeerLoginExpirationEnabled _ && _); cbn [fst snd].
  - split_and!; [by rewrite <- IH1, Permutation_middle| |done].
    intros q [->|?]%elem_of_cons; [exists i; by apply Hs|auto].
  - split_and!; [by cbn; rewrite IH1|done|].
    intros q [->|?]%elem_of_cons; [exists i; by intros ?%Hs|auto].
Qed.

(** ** Peers brought in by resources *)
Lemma missing_elem routes t conn exp isr sources id :
  id ∈ missingPeers routes t conn exp isr sources <->
  id <> t /\ id ∉ p_ID <$> conn /\ id ∉ p_ID <$> exp /\
  ((isr = true /\ id ∈ sources) \/ exists r, r ∈ routes /\ r_PeerID r = id).
Proof.
  assert ((exists r, r ∈ routes /\ r_PeerID r = id) <-> id ∈ r_PeerID <$> routes) as ->.
  { rewrite list_elem_of_fmap. naive_solver. }
  unfold missingPeers. destruct isr; rewrite elem_of_union, ?elem_of_empty, !elem_of_difference, !elem_of_union,
    elem_of_singleton, !elem_of_list_to_set; intuition congruence.
Qed.

Lemma peerOrRouter_id c id q : ids_ok c -> router_ids_ok c -> peerOrRouter c id = Some q -> p_ID q = id.
Proof.
  intros H1 H2. unfold peerOrRouter. destruct (GetPeerInfo c id) eqn:He; [|apply H2].
  intros [= <-]. by apply H1.
Qed.

Section added.
Context (ord : idset -> list gostring) (Hord : enumerates ord).

Lemma added_peers c routes t conn exp isr sources p : ids_ok c -> router_ids_ok c ->
  p ∈ addNetworksRoutingPeers ord c routes t conn exp isr sources <->
  p ∈ conn \/ (peerOrRouter c (p_ID p) = Some p /\ p_ID p ∈ missingPeers routes t conn exp isr sources).
Proof.
  intros H1 H2. unfold addNetworksRoutingPeers. rewrite elem_of_app, list_elem_of_omap.
  apply Morphisms_Prop.or_iff_morphism; [done|]. setoid_rewrite (ord_elem _ _ _ Hord). split.
  - intros (id & Hin & Hp). by rewrite (peerOrRouter_id _ _ _ H1 H2 Hp).
  - intros [Hp Hin]. eauto.
Qed.

Lemma omap_ids_NoDup (f : gostring -> option Peer) l :
  (forall id q, f id = Some q -> p_ID q = id) -> NoDup l ->
  NoDup (p_ID <$> omap f l) /\ forall id, id ∈ p_ID <$> omap f l -> id ∈ l.
Proof.
  intros Hid. induction l as [|x l IH]; intros Hnd; cbn [omap list_omap].
  { split; [apply NoDup_nil_2|done]. }
  apply NoDup_cons in Hnd as [Hx Hnd]. destruct (IH Hnd) as [H1 H2]. destruct (f x) as [q|] eqn:Hq.
  - pose proof (Hid _ _ Hq) as <-. cbn. split.
    + apply NoDup_cons. auto.
    + intros id [->|?]%elem_of_cons; [by left|right; auto].
  - split; [done|]. intros id ?. right. auto.
Qed.

Lemma added_NoDup c routes t conn exp isr sources : ids_ok c -> router_ids_ok c ->
  NoDup (p_ID <$> conn ++ exp) -> t ∉ p_ID <$> conn ++ exp ->
  NoDup (p_ID <$> addNetworksRoutingPeers ord c routes t conn exp isr sources ++ exp) /\
  t ∉ p_ID <$> addNetworksRoutingPeers ord c routes t conn exp isr sources ++ exp.
Proof.
  intros H1 H2 Hnd Ht. unfold addNetworksRoutingPeers.
  set (missing := missingPeers routes t conn exp isr sources).
  assert (forall id, id ∈ missing -> id <> t /\ id ∉ p_ID <$> conn ++ exp) as Hmiss.
  { intros id (? & ? & ? & _)%missing_elem. rewrite fmap_app, elem_of_app. tauto. }
  destruct (omap_ids_NoDup (peerOrRouter c) (ord missing)) as [Hn Hin].
  { intros id q. by apply peerOrRouter_id. }
  { rewrite (Hord missing). apply NoDup_elements. }
  assert (forall id, id ∈ p_ID <$> omap (peerOrRouter c) (ord missing) -> id <> t /\ id ∉ p_ID <$> conn ++ exp) as Hout.
  { intros id ?%Hin. apply Hmiss. by apply (ord_elem _ _ _ Hord). }
  assert (p_ID <$> (conn ++ omap (peerOrRouter c) (ord missing)) ++ exp ≡ₚ
    (p_ID <$> conn ++ exp) ++ (p_ID <$> omap (peerOrRouter c) (ord missing))) as Hperm.
  { rewrite !fmap_app, <- !app_assoc. apply Permutation_app_head, Permutation_app_comm. }
  split.
  - rewrite Hperm. apply NoDup_app. split_and!; [done| |done]. intros id Hid Hid'. by apply Hout in Hid' as [_ ?].
  - rewrite Hperm, elem_of_app. intros [?|?%Hout]; [done|tauto].
Qed.

End added.

Section network_map.
Context (version_check : gostring -> gostring -> option bool)
  (idna_ToUnicode idna_ToASCII : gostring -> option gostring)
  (unicode_lower : gostring -> gostring)
  (ord : idset -> list gostring) (Hord : enumerates ord) (now : nat -> Z).

Notation calculate := (Calculate version_check idna_ToUnicode idna_ToASCII unicode_lower ord now).

(** The peers of the connections, those with a valid and those with an
    expired login. *)
Definition acl_peers (c : NetworkMapComponents) : list Peer :=
  (getPeerConnectionResources version_check ord c (PeerID c)).1.1.1.

Definition connected (c : NetworkMapComponents) : list Peer :=
  (filterPeersByLoginExpiration now c (acl_peers c)).1.

(** ** The parts of the map *)
Record parts (c : NetworkMapComponents) (nm : NetworkMap) (groups : idset) (res : ResourceAcc) : Prop := {
  parts_groups : GetPeerGroups c (PeerID c) = Ok groups;
  parts_res : getNetworkResourcesRoutesToSync idna_ToASCII unicode_lower ord c (PeerID c) = Ok res;
  parts_peers : nm_Peers nm = addNetworksRoutingPeers ord c (ra_routes res) (PeerID c) (connected c)
    (nm_OfflinePeers nm) (isRoutingPeer res) (allSourcePeers res);
  parts_offline : nm_OfflinePeers nm = (filterPeersByLoginExpiration now c (acl_peers c)).2;
  parts_routes : nm_Routes nm =
    filterAndExpandRoutes (ra_routes res) (peerIncludesIPv6 c (PeerID c)) ++
    filterAndExpandRoutes (getRoutesToSync idna_ToUnicode c (PeerID c) (connected c) groups)
      (peerIncludesIPv6 c (PeerID c));
  parts_rules : nm_FirewallRules nm = (getPeerConnectionResources version_check ord c (PeerID c)).1.1.2;
  parts_route_rules : nm_RoutesFirewallRules nm =
    (if isRoutingPeer res then getPeerNetworkResourceFirewallRules ord c (PeerID c) (ra_routes res)
       (peerIncludesIPv6 c (PeerID c)) else []) ++
    getPeerRoutesFirewallRules ord c (PeerID c) (peerIncludesIPv6 c (PeerID c));
  parts_users : nm_AuthorizedUsers nm = (getPeerConnectionResources version_check ord c (PeerID c)).1.2;
  parts_ssh : nm_EnableSSH nm = (getPeerConnectionResources version_check ord c (PeerID c)).2 }.

Lemma calculate_parts c nm : calculate c = Ok nm -> exists groups res, parts c nm groups res.
Proof.
  unfold Calculate. destruct (GetPeerGroups c (PeerID c)) as [groups| |] eqn:Hg; cbn [mbind res_bind]; [|done..].
  destruct (getPeerConnectionResources version_check ord c (PeerID c)) as [[[acl rules] users] ssh] eqn:Hc.
  destruct (filterPeersByLoginExpiration now c acl) as [conn exp] eqn:Hf.
  destruct (getNetworkResourcesRoutesToSync _ _ _ _ _) as [res| |] eqn:Hr; cbn [mbind res_bind]; [|done..].
  intros [= <-]. exists groups, res.
  assert (acl_peers c = acl) as Hacl by (unfold acl_peers; by rewrite Hc).
  assert (connected c = conn) as Hconn by (unfold connected; by rewrite Hacl, Hf).
  split; cbn; rewrite ?Hconn, ?Hacl, ?Hf, ?Hc; done.
Qed.

Lemma calculate_total c groups res :
  GetPeerGroups c (PeerID c) = Ok groups ->
  getNetworkResourcesRoutesToSync idna_ToASCII unicode_lower ord c (PeerID c) = Ok res ->
  exists nm, calculate c = Ok nm.
Proof.
  intros Hg Hr. unfold Calculate. rewrite Hg. cbn [mbind res_bind].
  destruct (getPeerConnectionResources _ _ _ _) as [[[acl rules] users] ssh].
  destruct (filterPeersByLoginExpiration _ _ _) as [conn exp]. rewrite Hr. cbn [mbind res_bind]. eauto.
Qed.

Lemma peer_groups_spec c t : groups_ok c ->
  exists groups, GetPeerGroups c t = Ok groups /\ forall gid, gid ∈ groups <-> member_of c t gid.
Proof.
  intros Hok. unfold GetPeerGroups. rewrite decide_True by done. eexists. split; [done|].
  intros gid. rewrite elem_of_filter, elem_of_dom. unfold IsPeerInGroup, member_of, GetGroupInfo.
  destruct (Groups c !! gid) as [[g|]|] eqn:Hg; cbn.
  - rewrite bool_decide_eq_true. split; [intros [? _]; eauto|]. intros (? & [= <-] & ?). eauto.
  - split; [by intros [? _]|by intros (? & ? & _)].
  - split; [by intros [_ [? ?]]|by intros (? & ? & _)].
Qed.

Lemma peer_groups_panic c t : ~ groups_ok c -> GetPeerGroups c t = Panic.
Proof. intros H. unfold GetPeerGroups. by rewrite decide_False. Qed.

(** ** Peers *)
Lemma acl_peers_spec c : components_ok c ->
  NoDup (p_ID <$> acl_peers c) /\ (forall q, q ∈ acl_peers c -> other_peer c (PeerID c) q).
Proof.
  intros Hok. unfold acl_peers. destruct (GetPeerInfo c (PeerID c)) as [tp|] eqn:Ht.
  - destruct (connection_peers version_check ord Hord c (PeerID c) tp Hok Ht) as [H1 H2].
    split; [done|]. by intros q [? _]%H2.
  - unfold getPeerConnectionResources. rewrite Ht. cbn. split; [apply NoDup_nil_2|by intros q []%elem_of_nil].
Qed.

Lemma connected_spec c : components_ok c ->
  connected c ++ (filterPeersByLoginExpiration now c (acl_peers c)).2 ≡ₚ acl_peers c.
Proof. intros Hok. apply (filterExpired_spec now c 0 (acl_peers c)). Qed.

(** Whoever is among the peers of the connections is listed. *)
Lemma acl_listed c nm groups res q : components_ok c -> ids_ok c -> router_ids_ok c ->
  parts c nm groups res -> q ∈ acl_peers c -> q ∈ nm_Peers nm ++ nm_OfflinePeers nm.
Proof.
  intros Hok Hids Hr Hp Hq. rewrite elem_of_app, (parts_peers _ _ _ _ Hp), (parts_offline _ _ _ _ Hp).
  rewrite (added_peers ord Hord) by done. rewrite <- (connected_spec c Hok) in Hq. apply elem_of_app in Hq as [?|?]; auto.
Qed.
End network_map.

(** ** Rules between two peers *)
Section between.
Context (version_check : gostring -> gostring -> option bool)
  (idna_ToUnicode idna_ToASCII : gostring -> option gostring)
  (unicode_lower : gostring -> gostring)
  (ord : idset -> list gostring) (Hord : enumerates ord) (now : nat -> Z).

Notation calculate := (Calculate version_check idna_ToUnicode idna_ToASCII unicode_lower ord now).

(** The firewall rules of a policy rule for one peer. *)
Lemma rules_between c nm tp q policy rule dir fr :
  components_ok c -> GetPeerInfo c (PeerID c) = Some tp -> calculate c = Ok nm ->
  other_peer c (PeerID c) q -> in_force c policy rule ->
  (fr ∈ nm_FirewallRules nm /\ fr_PolicyID fr = pr_ID rule /\ fr_PeerIP fr = Addr_String (p_IP q) /\
   fr_Direction fr = dir) <->
  allowed c (PeerID c) (p_ID q) dir rule /\
  fr ∈ portRules version_check rule tp (baseRule rule (Addr_String (p_IP q)) (ruleContext rule dir)).
Proof.
  intros Hok Ht Hc Hq Hf. apply calculate_parts in Hc as (groups & res & Hp).
  rewrite (parts_rules _ _ _ _ _ _ _ _ _ _ Hp).
  rewrite (connection_rules version_check ord Hord c (PeerID c) tp fr Hok Ht). split.
  - intros ((q' & dir' & rule' & ip & Hq' & Hal & Hip & Hfr) & Hid & Htext & Hdir).
    pose proof (portRules_flow _ _ _ _ _ Hfr) as (E1 & E2 & E3 & _). cbn in E1, E2, E3.
    assert (rule' = rule) as ->.
    { destruct Hal as (policy' & Hf' & _). apply (ok_rules _ Hok _ _ _ _ Hf' Hf). congruence. }
    assert (q' = q) as ->.
    { apply (text_sep c q q' ip (ok_addresses _ Hok)) with (tp := tp);
        [by destruct Hq|by destruct Hq'|done|congruence]. }
    assert (dir' = dir) as -> by congruence.
    rewrite <- E2, Htext in Hfr. done.
  - intros [Hal Hfr]. pose proof (portRules_flow _ _ _ _ _ Hfr) as (E1 & E2 & E3 & _). cbn in E1, E2, E3.
    split; [|done]. exists q, dir, rule, (p_IP q). split_and!; try done. by left.
Qed.
End between.

(** ** Resource rules at a routing peer *)
Lemma to_route_id ta ul resource p router :
  r_ID (networkResourceToRoute ta ul resource p router) = nr_ID resource ++ ":"%char :: p_ID p /\
  r_Peer (networkResourceToRoute ta ul resource p router) = p_Key p /\
  r_PeerID (networkResourceToRoute ta ul resource p router) = p_ID p.
Proof.
  unfold networkResourceToRoute. destruct (decide (nr_Type resource = Domain)); [|done].
  by destruct (FromStringList _ _ _).
Qed.

Lemma to_route_v4 ta ul resource p router : Is6 (PAddr (nr_Prefix resource)) = false ->
  Is6 (PAddr (r_Network (networkResourceToRoute ta ul resource p router))) = false.
Proof.
  intros H. unfold networkResourceToRoute.
  assert (Is6 (PAddr (if bool_decide (nr_Type resource = Host \/ nr_Type resource = Subnet)
    then nr_Prefix resource else PrefixZero)) = false) as H' by (by destruct (bool_decide _)).
  destruct (decide (nr_Type resource = Domain)); [|done]. by destruct (FromStringList _ _ _).
Qed.

Lemma resource_id_of r id q : ":"%char ∉ id -> r_ID r = id ++ ":"%char :: q -> GetResourceID r = id.
Proof. intros Hid Hr. unfold GetResourceID. rewrite Hr. by rewrite split_on_app. Qed.
