(* ===== verification/NetMapTheorems.v ===== *)
(** * Theorems on the network map
      (management/server/types/networkmap_components.go)

    What a peer may reach and who may reach it, read off the map that
    [Calculate] returns, with a small account as an example. *)

From Stdlib Require Import ZArith Lia Ascii String.
From stdpp Require Import base gmap strings numbers list fin_maps.
From S2P Require Import Prelude Netip GoStrings AddrText I2pSam NetMapTypes NetMapCalc NetMapConn NetMapPorts NetMapSsh NetMapRoutes NetMapResources NetMapRouteRules NetworkMap.

(** ** Who is in the map *)

(** The peer [q] belongs in the map of [t]: a policy connects them, or one of
    them routes a resource the other is admitted to. *)
Definition listed (c : NetworkMapComponents) (t : gostring) (q : Peer) : Prop :=
  p_ID q <> t /\
  ((GetPeerInfo c (p_ID q) = Some q /\ is_Some (GetPeerInfo c t) /\
      exists dir rule, allowed c t (p_ID q) dir rule) \/
   (peerOrRouter c (p_ID q) = Some q /\ exists resource, active c resource /\ is_router c resource t /\
      admitted c resource (p_ID q)) \/
   (GetPeerInfo c (p_ID q) = Some q /\ exists resource, active c resource /\ ~ is_router c resource t /\
      admitted c resource t /\ is_router c resource (p_ID q))).

(** What the policies grant: peer [a] may use the resource through [b]. *)
Record resource_grant (c : NetworkMapComponents) (a b : Peer) (resource : NetworkResource)
    (router : NetworkRouter) (policy : Policy) (rule : PolicyRule) : Prop := {
  gr_a : GetPeerInfo c (p_ID a) = Some a;
  gr_b : GetPeerInfo c (p_ID b) = Some b;
  gr_ne : p_ID a <> p_ID b;
  gr_active : active c resource;
  gr_router : routes_for c resource (p_ID b) router;
  gr_client : ~ is_router c resource (p_ID a);
  gr_policy : policy ∈ policies_of c resource /\ po_Enabled policy = true;
  gr_rule : rule ∈ po_Rules policy /\ pr_Enabled rule = true /\ ranges_ok rule;
  gr_source : policy_source c policy (p_ID a) /\ rule_source c rule (p_ID a);
  gr_posture : ValidatePostureChecksOnPeer c (p_ID a) (po_SourcePostureChecks policy) = true;
  gr_v4 : Is6 (PAddr (nr_Prefix resource)) = false;
  gr_id : ":"%char ∉ nr_ID resource }.

(** Keys identify peers. *)
Definition keys_ok (c : NetworkMapComponents) : Prop :=
  forall i j p q, GetPeerInfo c i = Some p -> GetPeerInfo c j = Some q -> p_Key p = p_Key q -> p = q.

(** ** The example account

    Peers a and b; a may reach b on TCP port 22; b routes a network and a
    resource for a. *)
Definition example_peer (id key : string) (ip : Z) (v6 : Addr) : Peer :=
  mkPeer (lit id) (lit key) (Addr4 ip) v6 (lit "0.65.0") true false [1%Z; 2%Z] [] true false None
    (mkMeta (lit "linux") (lit "12") (lit "6.1.0-9") [] []) (mkPeerLocation [] (lit "DE") (lit "Berlin")).

Definition peer_a : Peer := example_peer "a" "ka" 1681915905 (Addr6 1 EmptyString).
Definition peer_b : Peer := example_peer "b" "kb" 1681915906 AddrInvalid.

Definition example_rule (id : string) (dests : list gostring) : PolicyRule :=
  mkRule (lit id) (lit "p") [] [] true PolicyTrafficActionAccept dests (mkResource [] []) [lit "ga"]
    (mkResource [] []) false PolicyRuleProtocolTCP [lit "22"] [] ∅ [].

Definition example_rule1 : PolicyRule := example_rule "r1" [lit "gb"].
Definition example_rule2 : PolicyRule := example_rule "r2" [].
Definition example_policy1 : Policy := mkPolicy (lit "p1") [] [] [] true [example_rule1] [lit "chk"].
Definition example_policy2 : Policy := mkPolicy (lit "p2") [] [] [] true [example_rule2] [].

Definition example_resource : NetworkResource :=
  mkNetworkResource (lit "res") (lit "net") (lit "acc") (lit "db") [] Host []
    (mkPrefix (Addr4 167772161) 32) true.

Definition example_router : NetworkRouter := mkNetworkRouter true 100.

Definition example_route : Route :=
  mkRoute (lit "rt") (lit "acc") (mkPrefix (Addr4 167837696) 16) None false (lit "lan") [] (lit "b") []
    [] IPv4Network true 100 true [lit "ga"] [] false.

Definition example_peers : list (gostring * option Peer) :=
  [(lit "a", Some peer_a); (lit "b", Some peer_b)].

Definition example_groups : list (gostring * option Group) :=
  [(lit "ga", Some (mkGroup (lit "ga") (lit "A") [lit "a"]));
   (lit "gb", Some (mkGroup (lit "gb") (lit "B") [lit "b"]))].

Definition example (id : string) : NetworkMapComponents :=
  mkComponents (lit id) (mkNetwork [] PrefixZero PrefixZero [] 0) (mkAccountSettingsInfo true 3600 false 0)
    [] [] (list_to_map example_peers) (list_to_map example_groups) [example_policy1] [example_route] []
    [] [] (list_to_map [(lit "res", [example_policy2])])
    (list_to_map [(lit "net", list_to_map [(lit "b", example_router)])]) [example_resource] ∅
    (Some {[lit "user"]}) ∅ ∅.

Definition no_versions : gostring -> gostring -> option bool := fun _ _ => Some true.
Definition no_idna : gostring -> option gostring := Some.

Lemma elements_enumerates : enumerates elements.
Proof. by intros s. Qed.

Lemma example_info id k p : GetPeerInfo (example id) k = Some p ->
  (k, p) = (lit "a", peer_a) \/ (k, p) = (lit "b", peer_b).
Proof.
  unfold GetPeerInfo, example. cbn [Peers]. destruct (list_to_map example_peers !! k) as [o|] eqn:Hk; [|done].
  apply elem_of_list_to_map_2 in Hk. unfold example_peers in Hk. cbn [mjoin option_join]. intros ->.
  apply elem_of_cons in Hk as [[= -> ->]|Hk]; [by left|].
  apply list_elem_of_singleton in Hk as [= -> ->]. by right.
Qed.

Lemma example_group id k g : GetGroupInfo (example id) k = Some g ->
  g = mkGroup (lit "ga") (lit "A") [lit "a"] \/ g = mkGroup (lit "gb") (lit "B") [lit "b"].
Proof.
  unfold GetGroupInfo, example. cbn [Groups]. destruct (list_to_map example_groups !! k) as [o|] eqn:Hk; [|done].
  apply elem_of_list_to_map_2 in Hk. unfold example_groups in Hk. cbn [mjoin option_join]. intros ->.
  apply elem_of_cons in Hk as [[= -> ->]|Hk]; [by left|].
  apply list_elem_of_singleton in Hk as [= -> ->]. by right.
Qed.

Lemma example_in_force id policy rule : in_force (example id) policy rule -> rule = example_rule1.
Proof.
  intros (Hp & _ & Hr & _). cbn in Hp. apply list_elem_of_singleton in Hp as ->.
  by apply list_elem_of_singleton in Hr.
Qed.

Lemma example_ok id : components_ok (example id).
Proof.
  split.
  - by intros k p [[= -> ->]|[= -> ->]]%example_info.
  - intros a g gid h k [-> | ->]%example_group; done.
  - by intros p1 r1 p2 r2 ->%example_in_force ->%example_in_force.
  - split.
    + by intros k p [[= -> ->]|[= -> ->]]%example_info.
    + intros k p [[= -> ->]|[= -> ->]]%example_info; [|done]. by vm_compute.
    + by intros i j p q [[= -> ->]|[= -> ->]]%example_info [[= -> ->]|[= -> ->]]%example_info.
Qed.

Lemma example_routers_ok id : router_ids_ok (example id).
Proof. intros k p. unfold GetRouterPeerInfo, example. cbn [RouterPeers]. by rewrite lookup_empty. Qed.

Lemma example_groups_ok id : groups_ok (example id).
Proof. unfold groups_ok. apply (bool_decide_unpack _). by vm_compute. Qed.

Lemma example_policies_nonempty id : policies_nonempty (example id).
Proof.
  intros resource policy Hr Hp. apply list_elem_of_singleton in Hr as ->.
  apply list_elem_of_singleton in Hp as ->. done.
Qed.

Lemma example_routes_ok id : route_ids_ok (example id).
Proof.
  split.
  - by intros r1 r2 ->%list_elem_of_singleton ->%list_elem_of_singleton.
  - intros r ->%list_elem_of_singleton. apply (bool_decide_unpack _). by vm_compute.
Qed.

(** The calculation returns for the example. *)
Lemma example_calculates id : exists nm,
  Calculate no_versions no_idna no_idna (fun s => s) elements (fun _ => 0%Z) (example id) = Ok nm.
Proof.
  destruct (peer_groups_spec (example id) (lit id) (example_groups_ok id)) as (groups & Hg & _).
  destruct (resources_to_sync no_idna (fun s => s) elements elements_enumerates (example id) (lit id)
    (ok_all _ (example_ok id)) (example_policies_nonempty id)) as (res & Hr & _).
  by eapply calculate_total.
Qed.

Lemma example_rule_in_force id : in_force (example id) example_policy1 example_rule1.
Proof. split_and!; [by left|done|by left|done]. Qed.

Lemma example_linked id : linked (example id) example_policy1 example_rule1 (lit "a") (lit "b").
Proof.
  split.
  - split; [|by vm_compute]. exists (lit "ga"), (mkGroup (lit "ga") (lit "A") [lit "a"]).
    split_and!; [by left|by vm_compute|by left].
  - split; [|by vm_compute]. exists (lit "gb"), (mkGroup (lit "gb") (lit "B") [lit "b"]).
    split_and!; [by left|by vm_compute|by left].
Qed.

Lemma example_allowed id : allowed (example id) (lit "a") (lit "b") FirewallRuleDirectionOUT example_rule1.
Proof.
  exists example_policy1. split; [apply example_rule_in_force|]. left. split; [done|]. left. apply example_linked.
Qed.

Lemma example_ports_ok : ports_ok example_rule1.
Proof.
  split.
  - intros s ->%list_elem_of_singleton. exists 22%Z. split; [lia|]. by vm_compute.
  - by intros r []%elem_of_nil.
Qed.

(** ** Firewall *)

(** C6: The firewall rules of the network map say exactly what the policies
    say.  For a peer with address [p_IP q], a policy rule in force, a direction
    and a port, the map holds a firewall rule that matches them if and only if
    the policy allows that traffic between the two peers in that direction and
    names the port (for an old client only as far as it understands ranges,
    with port 22022 added next to 22 for native SSH).  Every firewall rule
    carries the action of the policy rule it is for. *)
Theorem firewall_matches_policy version_check idna_ToUnicode idna_ToASCII unicode_lower ord now
    c nm tp q policy rule dir x :
  enumerates ord -> components_ok c -> GetPeerInfo c (PeerID c) = Some tp ->
  Calculate version_check idna_ToUnicode idna_ToASCII unicode_lower ord now c = Ok nm ->
  other_peer c (PeerID c) q -> in_force c policy rule -> ports_ok rule ->
  ((exists fr, fr ∈ nm_FirewallRules nm /\ fr_PolicyID fr = pr_ID rule /\
     fr_PeerIP fr = Addr_String (p_IP q) /\ fr_Direction fr = dir /\ opens fr x) <->
   allowed c (PeerID c) (p_ID q) dir rule /\ port_open version_check rule tp x) /\
  (forall fr, fr ∈ nm_FirewallRules nm -> fr_PolicyID fr = pr_ID rule ->
     fr_PeerIP fr = Addr_String (p_IP q) -> fr_Action fr = pr_Action rule).
Proof.
  intros Hord Hok Ht Hc Hq Hf Hp.
  pose proof (fun dir fr => rules_between _ _ _ _ ord Hord _ c nm tp q policy rule dir fr Hok Ht Hc Hq Hf) as Hb.
  split.
  - rewrite <- (portRules_opens version_check
      (baseRule rule (Addr_String (p_IP q)) (ruleContext rule dir)) eq_refl eq_refl rule tp x Hp).
    split.
    + intros (fr & H1 & H2 & H3 & H4 & Ho). destruct (proj1 (Hb dir fr)) as [? ?]; [done|]. eauto.
    + intros (Hal & fr & Hfr & Ho). destruct (proj2 (Hb dir fr)) as (? & ? & ? & ?); [done|]. eauto 8.
  - intros fr H1 H2 H3. destruct (proj1 (Hb (fr_Direction fr) fr)) as [_ Hfr]; [done|].
    by apply portRules_flow in Hfr as (_ & _ & _ & -> & _).
Qed.

Lemma firewall_matches_policy_witness : exists nm,
  Calculate no_versions no_idna no_idna (fun s => s) elements (fun _ => 0%Z) (example "a") = Ok nm /\
  exists fr, fr ∈ nm_FirewallRules nm /\ fr_PolicyID fr = lit "r1" /\ fr_PeerIP fr = lit "100.64.0.2" /\
    fr_Direction fr = FirewallRuleDirectionOUT /\ opens fr 22022.
Proof.
  destruct (example_calculates "a") as [nm Hnm]. exists nm. split; [exact Hnm|].
  refine (proj2 (proj1 (firewall_matches_policy no_versions no_idna no_idna (fun s => s) elements (fun _ => 0%Z)
    (example "a") nm peer_a peer_b example_policy1 example_rule1 FirewallRuleDirectionOUT 22022
    elements_enumerates (example_ok "a") _ Hnm _ (example_rule_in_force "a") example_ports_ok)) _).
  - by vm_compute.
  - split; by vm_compute.
  - split; [apply (example_allowed "a")|]. right. right. split; [done|]. split.
    + right. split_and!; by vm_compute.
    + left. by left.
Defined.

(** ** Peers *)
Section peers.
Context (version_check : gostring -> gostring -> option bool)
  (idna_ToUnicode idna_ToASCII : gostring -> option gostring)
  (unicode_lower : gostring -> gostring)
  (ord : idset -> list gostring) (Hord : enumerates ord) (now : nat -> Z).

Lemma acl_peers_listed c : components_ok c ->
  forall q, q ∈ acl_peers version_check ord c <->
    p_ID q <> PeerID c /\ GetPeerInfo c (p_ID q) = Some q /\ is_Some (GetPeerInfo c (PeerID c)) /\
    exists dir rule, allowed c (PeerID c) (p_ID q) dir rule.
Proof.
  intros Hok q. unfold acl_peers. destruct (GetPeerInfo c (PeerID c)) as [tp|] eqn:Ht.
  - rewrite (proj2 (connection_peers version_check ord Hord c (PeerID c) tp Hok Ht)). unfold other_peer.
    split; [intros [[? ?] ?]; eauto|intros (? & ? & _ & ?); auto].
  - unfold getPeerConnectionResources. rewrite Ht. cbn. split; [by intros []%elem_of_nil|].
    by intros (_ & _ & [? ?] & _).
Qed.

(** The peers the resources bring into the map. *)
Lemma resource_peers_listed c res q : all_complete c -> policies_nonempty c -> ids_ok c ->
  getNetworkResourcesRoutesToSync idna_ToASCII unicode_lower ord c (PeerID c) = Ok res ->
  p_ID q <> PeerID c -> peerOrRouter c (p_ID q) = Some q ->
  ((isRoutingPeer res = true /\ p_ID q ∈ allSourcePeers res) \/
   exists r, r ∈ ra_routes res /\ r_PeerID r = p_ID q) <->
  (exists resource, active c resource /\ is_router c resource (PeerID c) /\ admitted c resource (p_ID q)) \/
  (GetPeerInfo c (p_ID q) = Some q /\ exists resource, active c resource /\
     ~ is_router c resource (PeerID c) /\ admitted c resource (PeerID c) /\ is_router c resource (p_ID q)).
Proof.
  intros Hall Hne Hids Hres Hq Hk.
  destruct (resources_to_sync idna_ToASCII unicode_lower ord Hord c (PeerID c) Hall Hne)
    as (res' & Hres' & R1 & R2 & R3). rewrite Hres in Hres'. injection Hres' as <-.
  rewrite R1, R3. setoid_rewrite R2. split.
  - intros [[_ ?]|(r & (resource & Hact & Hr) & Hid)]; [by left|]. right.
    destruct Hr as [(router & p & _ & _ & Hp & ->)|(Hno & Had & q' & router & p & Hrt & Hp & ->)];
      destruct (to_route_id idna_ToASCII unicode_lower resource p router) as (_ & _ & E); rewrite E in Hid;
      pose proof (Hids _ _ Hp); [congruence|]. assert (q' = p_ID q) as -> by congruence.
    split; [|exists resource; split_and!; try done; by exists router].
    unfold peerOrRouter in Hk. rewrite Hp in Hk. by simplify_eq.
  - intros [(resource & ? & ? & ?)|(Hp & resource & Hact & Hno & Had & router & Hrt)]; [left; eauto 8|].
    right. exists (networkResourceToRoute idna_ToASCII unicode_lower resource q router).
    split; [|by apply to_route_id]. exists resource. split; [done|]. right. split_and!; try done.
    by exists (p_ID q), router, q.
Qed.

Lemma peers_listed c nm groups res : components_ok c -> router_ids_ok c -> policies_nonempty c ->
  parts version_check idna_ToUnicode idna_ToASCII unicode_lower ord now c nm groups res ->
  forall q, q ∈ nm_Peers nm ++ nm_OfflinePeers nm <-> listed c (PeerID c) q.
Proof.
  intros Hok Hrid Hne Hp q. pose proof (ok_ids _ Hok) as Hids. pose proof (acl_peers_listed c Hok) as Hacl.
  pose proof (connected_spec version_check ord now c Hok) as Hperm.
  set (conn := connected version_check ord now c) in *.
  set (exp := (filterPeersByLoginExpiration now c (acl_peers version_check ord c)).2) in *.
  rewrite elem_of_app, (parts_peers _ _ _ _ _ _ _ _ _ _ Hp), (parts_offline _ _ _ _ _ _ _ _ _ _ Hp).
  fold conn exp. rewrite (added_peers ord Hord) by done.
  assert (q ∈ conn \/ q ∈ exp <-> q ∈ acl_peers version_check ord c) as Hce by (by rewrite <- Hperm, elem_of_app).
  unfold listed. rewrite missing_elem.
  pose proof (resource_peers_listed c res q (ok_all _ Hok) Hne Hids (parts_res _ _ _ _ _ _ _ _ _ _ Hp)) as Hrp.
  split.
  - intros [[Hc|(Hk & Hq & _ & _ & Hcase)]|Hc].
    + pose proof (proj1 Hce (or_introl Hc)) as (? & ? & ? & ?)%Hacl. eauto 8.
    + split; [done|]. right. apply (proj1 (Hrp Hq Hk)) in Hcase as [?|[? ?]]; eauto.
    + pose proof (proj1 Hce (or_intror Hc)) as (? & ? & ? & ?)%Hacl. eauto 8.
  - intros [Hq Hcase]. destruct (decide (p_ID q ∈ p_ID <$> conn ++ exp)) as [Hin|Hin].
    + apply list_elem_of_fmap in Hin as (q' & Heq & Hq'). rewrite Hperm in Hq'.
      pose proof (proj1 (Hacl q') Hq') as (_ & Hk & _). rewrite <- Heq in Hk.
      assert (q' = q) as ->; [|tauto].
      destruct Hcase as [[? _]|[[H _]|[? _]]]; try congruence.
      unfold peerOrRouter in H. rewrite Hk in H. congruence.
    + destruct Hcase as [(? & ? & ?)|Hres].
      { assert (q ∈ acl_peers version_check ord c) as Hq2 by (apply Hacl; auto). rewrite <- Hperm in Hq2.
        destruct Hin. apply list_elem_of_fmap. eauto. }
      left. right. rewrite fmap_app, elem_of_app in Hin.
      assert (peerOrRouter c (p_ID q) = Some q) as Hk.
      { destruct Hres as [[? _]|[H _]]; [done|]. unfold peerOrRouter. by rewrite H. }
      split; [done|]. split_and!; [done|tauto..|]. apply (Hrp Hq Hk). tauto.
Qed.
End peers.

(** C7: The peers of the network map are exactly the ones the account gives
    the peer: those a policy connects it with and those it shares a network
    resource with.  None is listed twice, in either list, the peer itself is
    in neither, and the offline peers are the ones whose login had expired. *)
Theorem network_map_peers_exact version_check idna_ToUnicode idna_ToASCII unicode_lower ord now c nm :
  enumerates ord -> components_ok c -> router_ids_ok c -> policies_nonempty c ->
  Calculate version_check idna_ToUnicode idna_ToASCII unicode_lower ord now c = Ok nm ->
  (forall q, q ∈ nm_Peers nm ++ nm_OfflinePeers nm <-> listed c (PeerID c) q) /\
  NoDup (p_ID <$> nm_Peers nm ++ nm_OfflinePeers nm) /\
  PeerID c ∉ p_ID <$> nm_Peers nm ++ nm_OfflinePeers nm /\
  (forall q, q ∈ nm_OfflinePeers nm -> exists i, login_expired c q (now i)).
Proof.
  intros Hord Hok Hr Hne (groups & res & Hp)%calculate_parts.
  split; [by eapply peers_listed|]. pose proof (acl_peers_spec version_check ord Hord c Hok) as [Hnd Hoth].
  pose proof (connected_spec version_check ord now c Hok) as Hperm.
  rewrite (parts_peers _ _ _ _ _ _ _ _ _ _ Hp), (parts_offline _ _ _ _ _ _ _ _ _ _ Hp).
  edestruct (added_NoDup ord Hord c) as [H1 H2].
  5: split; [exact H1|split; [exact H2|]].
  - apply (ok_ids _ Hok).
  - done.
  - by rewrite Hperm.
  - rewrite Hperm. intros (q & Heq & [_ ?]%Hoth)%list_elem_of_fmap. done.
  - apply (filterExpired_spec now c 0 (acl_peers version_check ord c)).
Qed.

Lemma network_map_peers_exact_witness : exists nm,
  Calculate no_versions no_idna no_idna (fun s => s) elements (fun _ => 0%Z) (example "a") = Ok nm /\
  peer_b ∈ nm_Peers nm ++ nm_OfflinePeers nm.
Proof.
  destruct (example_calculates "a") as [nm Hnm]. exists nm. split; [exact Hnm|].
  refine (proj2 (proj1 (network_map_peers_exact no_versions no_idna no_idna (fun s => s) elements (fun _ => 0%Z)
    (example "a") nm elements_enumerates (example_ok "a") (example_routers_ok "a")
    (example_policies_nonempty "a") Hnm) peer_b) _).
  split; [done|]. left. split_and!; [by vm_compute|by eexists; vm_compute|].
  exists FirewallRuleDirectionOUT, example_rule1. apply (example_allowed "a").
Defined.

(** ** SSH *)

(** C10: SSH access follows the rules.  The SSH server of a peer is turned on
    if and only if some rule in force with the peer as a destination enables
    it.  A user may log in as a local user if and only if some rule in force
    with the peer as a destination grants it and the grant is not overwritten:
    a rule that names no user replaces the grants of earlier rules for every
    local user ([*]) by the allowed users of the account, so that a wildcard
    grant to a user who is not allowed is lost exactly if such a rule with the
    peer as a destination comes after it in the order of the policies. *)
Theorem ssh_authorization_exact version_check idna_ToUnicode idna_ToASCII unicode_lower ord now c nm tp :
  enumerates ord -> ids_ok c -> all_complete c -> GetPeerInfo c (PeerID c) = Some tp ->
  Calculate version_check idna_ToUnicode idna_ToASCII unicode_lower ord now c = Ok nm ->
  let here rule := on_side c (pr_DestinationResource rule) (pr_Destinations rule) [] (PeerID c) in
  (nm_EnableSSH nm = true <-> exists rule, rule ∈ rules_in_force c /\ here rule /\ enables_ssh tp rule) /\
  (forall lu uid, authorized (nm_AuthorizedUsers nm) lu uid <->
     exists before rule after, rules_in_force c = before ++ rule :: after /\ here rule /\ grants c tp rule lu uid /\
       (lu = Wildcard -> uid ∉ getAllowedUserIDs c ->
        forall rule', rule' ∈ after -> here rule' -> ~ grants_all tp rule')).
Proof.
  intros Hord Hids Hall Ht (groups & res & Hp)%calculate_parts here.
  rewrite (parts_ssh _ _ _ _ _ _ _ _ _ _ Hp), (parts_users _ _ _ _ _ _ _ _ _ _ Hp).
  pose proof (ssh_fold ord version_check c tp (PeerID c) Ht) as Hf. cbn zeta in Hf.
  destruct (getPeerConnectionResources _ _ _ _) as [[[acl rules] users] ssh]. cbn [fst snd] in *.
  assert (forall rule, here rule <-> destination ord c (PeerID c) rule = true) as Hs.
  { intros rule. unfold here, destination.
    by rewrite (proj2 (side_spec ord Hord c _ _ _ _ Hids Hall (mk_is_Some _ _ Ht))). }
  clearbody here.
  pose proof (fun lu uid => fold_users ord Hord c tp (PeerID c) (rules_in_force c) (∅, false) lu uid) as Hu.
  rewrite <- Hf in Hu. cbn [fst snd] in Hu. setoid_rewrite Hs. split.
  - destruct (Hu [] []) as (_ & H). rewrite H. split; [by intros [?|?]|by right].
  - intros lu uid. destruct (Hu lu uid) as (H & _). rewrite H. unfold left_by, survives, overwritten. split.
    + intros [[Hno _]|(l1 & rule & l2 & ? & ? & ? & Hsv)].
      { unfold authorized in Hno. rewrite lookup_empty in Hno. by apply elem_of_empty in Hno. }
      exists l1, rule, l2. split_and!; try done. intros Hw Hn rule' ? ? ?.
      destruct Hsv as [?|[?|Hov]]; [done|done|]. apply Hov. eauto.
    + intros (l1 & rule & l2 & ? & ? & ? & Hsv). right. exists l1, rule, l2. split_and!; try done.
      destruct (decide (lu = Wildcard)) as [Hw|]; [|by left].
      destruct (decide (uid ∈ getAllowedUserIDs c)) as [|Hn]; [by right; left|]. right. right.
      intros (rule' & ? & ? & ?). by apply (Hsv Hw Hn rule').
Qed.

Lemma ssh_authorization_exact_witness : exists nm,
  Calculate no_versions no_idna no_idna (fun s => s) elements (fun _ => 0%Z) (example "b") = Ok nm /\
  authorized (nm_AuthorizedUsers nm) Wildcard (lit "user").
Proof.
  destruct (example_calculates "b") as [nm Hnm]. exists nm. split; [exact Hnm|].
  refine (proj2 (proj2 (ssh_authorization_exact no_versions no_idna no_idna (fun s => s) elements (fun _ => 0%Z)
    (example "b") nm peer_b elements_enumerates (ok_ids _ (example_ok "b")) (ok_all _ (example_ok "b")) _ Hnm)
    Wildcard (lit "user")) _).
  - by vm_compute.
  - exists [], example_rule1, []. split; [by vm_compute|]. split; [apply (example_linked "b")|]. split.
    + left. split; [right; split_and!; [done|by vm_compute|done]|]. split; [done|by vm_compute].
    + intros _ _ rule' Hin. exact (fun _ _ => not_elem_of_nil rule' Hin).
Defined.

(** ** Routes *)

(** C13: The routes of the network map are exactly the ones the peer is
    entitled to: for resources, the routes of [resource_route]; for networks,
    its own enabled routes and those advertised by a connected peer for a
    distribution group the peer is in, unless the peer serves the same network
    itself.  A route to an IPv6 network reaches only a peer with IPv6, and a
    default IPv4 route then comes with its IPv6 twin ([expandRoute]). *)
Theorem routes_distributed version_check idna_ToUnicode idna_ToASCII unicode_lower ord now c nm e' :
  enumerates ord -> all_complete c -> policies_nonempty c -> groups_ok c -> route_ids_ok c ->
  Calculate version_check idna_ToUnicode idna_ToASCII unicode_lower ord now c = Ok nm ->
  e' ∈ nm_Routes nm <-> exists e, e' ∈ expandRoute (peerIncludesIPv6 c (PeerID c)) e /\
    ((exists resource, active c resource /\
        resource_route idna_ToASCII unicode_lower c (PeerID c) resource e) \/
     receives idna_ToUnicode c (PeerID c) (connected version_check ord now c) (member_of c (PeerID c)) e).
Proof.
  intros Hord Hall Hne Hg Hr (groups & res & Hp)%calculate_parts.
  destruct (peer_groups_spec c (PeerID c) Hg) as (groups' & Hg1 & Hg2).
  rewrite (parts_groups _ _ _ _ _ _ _ _ _ _ Hp) in Hg1. injection Hg1 as <-.
  destruct (resources_to_sync idna_ToASCII unicode_lower ord Hord c (PeerID c) Hall Hne) as (res' & Hr1 & _ & Hr2 & _).
  rewrite (parts_res _ _ _ _ _ _ _ _ _ _ Hp) in Hr1. injection Hr1 as <-.
  rewrite (parts_routes _ _ _ _ _ _ _ _ _ _ Hp). unfold filterAndExpandRoutes.
  rewrite elem_of_app, !list_elem_of_bind. setoid_rewrite Hr2.
  setoid_rewrite (fun e => routes_to_sync idna_ToUnicode c (PeerID c) (connected version_check ord now c) groups e Hr).
  unfold receives. setoid_rewrite Hg2. split.
  - intros [(e & ? & ?)|(e & ? & ?)]; eauto.
  - intros (e & ? & [?|?]); eauto.
Qed.

Lemma example_not_router id : ~ is_router (example id) example_resource (lit "a").
Proof. intros [router H]. by vm_compute in H. Qed.

Lemma example_connected :
  peer_b ∈ connected no_versions elements (fun _ => 0%Z) (example "a").
Proof. vm_compute. by left. Qed.

Lemma routes_distributed_witness : exists nm,
  Calculate no_versions no_idna no_idna (fun s => s) elements (fun _ => 0%Z) (example "a") = Ok nm /\
  set_Peer (lit "kb") example_route ∈ nm_Routes nm.
Proof.
  destruct (example_calculates "a") as [nm Hnm]. exists nm. split; [exact Hnm|].
  refine (proj2 (routes_distributed no_versions no_idna no_idna (fun s => s) elements (fun _ => 0%Z)
    (example "a") nm _ elements_enumerates (ok_all _ (example_ok "a")) (example_policies_nonempty "a")
    (example_groups_ok "a") (example_routes_ok "a") Hnm) _).
  exists (set_Peer (lit "kb") example_route). split; [vm_compute; by left|]. right. right.
  exists peer_b. split; [apply example_connected|]. split_and!.
  - exists peer_b, example_route, example_route. split; [by vm_compute|].
    split; [apply list_elem_of_singleton; reflexivity|].
    split; [right; split; reflexivity|]. split; reflexivity.
  - exists (lit "ga"). split; [by left|]. exists (mkGroup (lit "ga") (lit "A") [lit "a"]).
    split; [by vm_compute|by left].
  - intros (b & own & (p & r & cand & _ & ->%list_elem_of_singleton & Ho & _) & _).
    destruct Ho as [[(gid & g & []%elem_of_nil & _) _]|[? _]]. done.
Defined.

(** ** Resources *)
Section resource_rules.
Context (idna_ToASCII : gostring -> option gostring) (unicode_lower : gostring -> gostring)
  (ord : idset -> list gostring) (Hord : enumerates ord).

(** The rules of a routing peer for its own resource routes. *)
Lemma resource_rules_elem c t tp routes v6 rf : GetPeerInfo c t = Some tp ->
  rf ∈ getPeerNetworkResourceFirewallRules ord c t routes v6 <->
  exists r policy rule, r ∈ routes /\ r_Peer r = p_Key tp /\
    policy ∈ default [] (ResourcePoliciesMap c !! GetResourceID r) /\ po_Enabled policy = true /\
    rule ∈ po_Rules policy /\ pr_Enabled rule = true /\ 0 < length (rf_SourceRanges rf) /\
    rf ∈ generateRouteFirewallRules r rule (getRulePeers ord c rule (po_SourcePostureChecks policy) t
      (getPoliciesSourcePeers c (default [] (ResourcePoliciesMap c !! GetResourceID r)))) v6.
Proof.
  intros Ht. unfold getPeerNetworkResourceFirewallRules. rewrite Ht, list_elem_of_bind. split.
  - intros (r & H & Hr). destruct (decide (r_Peer r <> p_Key tp)) as [Hk|Hk]; [by apply elem_of_nil in H|].
    apply dec_stable in Hk. apply list_elem_of_filter in H as [Hl H].
    apply route_firewall_elem in H as (policy & rule & ? & ? & ? & ? & ?). by exists r, policy, rule.
  - intros (r & policy & rule & Hr & Hk & Hp & He & Hru & Hre & Hl & Hrf). exists r. split; [|done].
    rewrite decide_False by (intros H; by apply H). apply list_elem_of_filter. split; [done|].
    apply route_firewall_elem. by exists policy, rule.
Qed.

Lemma granted_rule c t b resource router policy rule a x routes v6 : ids_ok c ->
  resource_grant c a b resource router policy rule -> rule_port rule x -> t = p_ID b ->
  networkResourceToRoute idna_ToASCII unicode_lower resource b router ∈ routes ->
  exists rf, rf ∈ getPeerNetworkResourceFirewallRules ord c t routes v6 /\
    rf_RouteID rf = nr_ID resource ++ ":"%char :: p_ID b /\
    rf_Destination rf = Prefix_String (r_Network (networkResourceToRoute idna_ToASCII unicode_lower resource b router)) /\
    rf_PolicyID rf = pr_PolicyID rule /\ rf_Action rf = pr_Action rule /\ rf_Protocol rf = pr_Protocol rule /\
    v4_text a ∈ rf_SourceRanges rf /\ rf_opens rf x.
Proof.
  intros Hids [Ga Gb Gne Gact Grt Gcl [Gp Gpe] (Gr & Gre & Grok) [Gps Grs] Gpost Gv4 Gid] Hx -> Hin.
  set (e := networkResourceToRoute idna_ToASCII unicode_lower resource b router) in *.
  destruct (to_route_id idna_ToASCII unicode_lower resource b router) as (E1 & E2 & E3). fold e in E1, E2, E3.
  pose proof (resource_id_of e _ _ Gid E1) as Hrid.
  set (peers := getRulePeers ord c rule (po_SourcePostureChecks policy) (p_ID b)
    (getPoliciesSourcePeers c (default [] (ResourcePoliciesMap c !! nr_ID resource)))).
  assert (a ∈ peers) as Ha.
  { unfold peers. apply (rule_peers ord Hord); [done|]. split; [done|]. split.
    { apply policies_source_peers. by exists policy, rule. }
    split; [done|]. destruct Grs as [?|?]; auto. }
  destruct (route_rules_complete e rule peers v6 a x Grok) as (rf & Hrf & Ho & Hs & Hid & Hact & Hpol & Hpro & Hdst).
  { by apply to_route_v4. } { done. } { done. }
  exists rf. rewrite Hid, E1. split; [|done]. apply (resource_rules_elem c (p_ID b) b); [done|].
  exists e, policy, rule. rewrite Hrid. split_and!; try done. by destruct (rf_SourceRanges rf); [apply elem_of_nil in Hs|cbn; lia].
Qed.
End resource_rules.

(** C9: Access to a network resource is set up on both ends.  Suppose the view
    of peer a and the view of peer b both show that a policy of an enabled
    IPv4 or domain resource names a as a source, with posture checks that a
    passes, and that b, unlike a, is a routing peer of its network
    ([resource_grant]).  Then the map of a holds the route to the resource
    through b and lists b; the map of b lists a; and for every port of a rule
    of the policy that names a, the map of b holds a route firewall rule for
    the network of that route, with the policy, the action (accept or drop)
    and the protocol of the rule, that has a's IPv4 address as a source and
    matches the port. *)
Theorem resource_access_granted version_check idna_ToUnicode idna_ToASCII unicode_lower ord1 ord2 now1 now2
    c1 c2 nm1 nm2 a b resource router policy rule x :
  enumerates ord1 -> enumerates ord2 -> components_ok c1 -> components_ok c2 ->
  router_ids_ok c1 -> router_ids_ok c2 -> policies_nonempty c1 -> policies_nonempty c2 ->
  PeerID c1 = p_ID a -> PeerID c2 = p_ID b ->
  resource_grant c1 a b resource router policy rule -> resource_grant c2 a b resource router policy rule ->
  rule_port rule x ->
  Calculate version_check idna_ToUnicode idna_ToASCII unicode_lower ord1 now1 c1 = Ok nm1 ->
  Calculate version_check idna_ToUnicode idna_ToASCII unicode_lower ord2 now2 c2 = Ok nm2 ->
  let route := networkResourceToRoute idna_ToASCII unicode_lower resource b router in
  route ∈ nm_Routes nm1 /\
  b ∈ nm_Peers nm1 ++ nm_OfflinePeers nm1 /\ a ∈ nm_Peers nm2 ++ nm_OfflinePeers nm2 /\
  exists rf, rf ∈ nm_RoutesFirewallRules nm2 /\ rf_RouteID rf = nr_ID resource ++ ":"%char :: p_ID b /\
    rf_Destination rf = Prefix_String (r_Network route) /\
    rf_PolicyID rf = pr_PolicyID rule /\ rf_Action rf = pr_Action rule /\ rf_Protocol rf = pr_Protocol rule /\
    v4_text a ∈ rf_SourceRanges rf /\ rf_opens rf x.
Proof.
  intros Ho1 Ho2 Hok Hok2 Hr1 Hr2 Hne Hne2 E1 E2 Hg Hg2 Hx (g1 & res1 & P1)%calculate_parts (g2 & res2 & P2)%calculate_parts.
  cbn zeta. set (e := networkResourceToRoute idna_ToASCII unicode_lower resource b router).
  assert (forall c, resource_grant c a b resource router policy rule -> admitted c resource (p_ID a)) as Had.
  { intros c []. exists policy. tauto. }
  assert (e ∈ ra_routes res1) as He1.
  { destruct (resources_to_sync idna_ToASCII unicode_lower ord1 Ho1 c1 (PeerID c1) (ok_all _ Hok) Hne) as (r & Hr & _ & H & _).
    rewrite (parts_res _ _ _ _ _ _ _ _ _ _ P1) in Hr. injection Hr as <-. apply H. exists resource. rewrite E1.
    split; [apply Hg|]. right. split_and!; [apply Hg|by apply Had|]. exists (p_ID b), router, b. split_and!; apply Hg || done. }
  assert (e ∈ ra_routes res2 /\ isRoutingPeer res2 = true) as [He2 Hisr].
  { destruct (resources_to_sync idna_ToASCII unicode_lower ord2 Ho2 c2 (PeerID c2) (ok_all _ Hok2) Hne2)
      as (r & Hr & H1 & H2 & _). rewrite (parts_res _ _ _ _ _ _ _ _ _ _ P2) in Hr. injection Hr as <-.
    rewrite H1, H2, E2. destruct Hg2 as [Ga Gb _ Gact Grt _ [Gp _] _ _ _ _ _]. split; exists resource; (split; [done|]).
    - left. exists router, b. split_and!; try done. intros H. rewrite H in Gp. by apply elem_of_nil in Gp.
    - by exists router. }
  split_and!.
  - rewrite (parts_routes _ _ _ _ _ _ _ _ _ _ P1), elem_of_app. left. unfold filterAndExpandRoutes.
    apply list_elem_of_bind. exists e. split; [|done]. unfold expandRoute, e.
    rewrite to_route_v4, andb_false_r by apply Hg. by left.
  - apply (peers_listed version_check idna_ToUnicode idna_ToASCII unicode_lower ord1 Ho1 now1 c1 nm1 g1 res1); try done.
    pose proof (Had _ Hg). destruct Hg. rewrite E1. split; [done|]. right. right. split; [done|].
    exists resource. split_and!; try done. by exists router.
  - apply (peers_listed version_check idna_ToUnicode idna_ToASCII unicode_lower ord2 Ho2 now2 c2 nm2 g2 res2); try done.
    pose proof (Had _ Hg2). destruct Hg2 as [Ga Gb Gne Gact Grt _ _ _ _ _ _ _]. rewrite E2. split; [done|].
    right. left. unfold peerOrRouter. rewrite Ga. split; [done|]. exists resource. split_and!; try done. by exists router.
  - rewrite (parts_route_rules _ _ _ _ _ _ _ _ _ _ P2), Hisr. setoid_rewrite elem_of_app.
    destruct (granted_rule idna_ToASCII unicode_lower ord2 Ho2 c2 (PeerID c2) b resource router policy rule a x
      (ra_routes res2) (peerIncludesIPv6 c2 (PeerID c2)) (ok_ids _ Hok2) Hg2 Hx E2 He2) as (rf & Hrf & ?). eauto 6.
Qed.

Lemma example_grant :
  resource_grant (example "a") peer_a peer_b example_resource example_router example_policy2 example_rule2.
Proof.
  assert (in_groups (example "a") [lit "ga"] (lit "a")) as Hin.
  { exists (lit "ga"), (mkGroup (lit "ga") (lit "A") [lit "a"]). split_and!; [by left|by vm_compute|by left]. }
  split.
  - by vm_compute.
  - by vm_compute.
  - done.
  - split; [by left|done].
  - by vm_compute.
  - apply (example_not_router "a").
  - split; [by vm_compute; left|done].
  - split; [by left|]. split; [done|]. by intros r []%elem_of_nil.
  - split; [exists example_rule2; split; [by left|exact Hin]|left; exact Hin].
  - by vm_compute.
  - done.
  - apply (bool_decide_unpack _). by vm_compute.
Qed.

(** C8: Nothing beyond the policies is let through to a resource.  A resource
    route reaches only a routing peer of the network or a peer that a policy
    of that resource admits.  Every route firewall rule that a routing peer
    gets for its resource routes belongs to one active resource that it
    routes, whose identifier is in the identifier of the rule and whose
    network is its destination (or the IPv6 default route, if the network is
    the IPv4 one); it has sources and the action and protocol of an enabled
    rule of an enabled policy of that resource; and each source is the
    address of a known peer that this rule names as a source and that passes
    the posture checks of this policy. *)
Theorem resource_access_sound idna_ToASCII unicode_lower ord c tp res v6 :
  enumerates ord -> components_ok c -> policies_nonempty c -> keys_ok c ->
  (forall resource, resource ∈ NetworkResources c -> ":"%char ∉ nr_ID resource) ->
  GetPeerInfo c (PeerID c) = Some tp ->
  getNetworkResourcesRoutesToSync idna_ToASCII unicode_lower ord c (PeerID c) = Ok res ->
  (forall e, e ∈ ra_routes res -> exists resource, active c resource /\ GetResourceID e = nr_ID resource /\
     (is_router c resource (PeerID c) \/ admitted c resource (PeerID c))) /\
  (forall rf, rf ∈ getPeerNetworkResourceFirewallRules ord c (PeerID c) (ra_routes res) v6 ->
     rf_SourceRanges rf <> [] /\
     exists resource router policy rule, active c resource /\ routes_for c resource (PeerID c) router /\
       for_route (networkResourceToRoute idna_ToASCII unicode_lower resource tp router) rf /\
       policy ∈ policies_of c resource /\ po_Enabled policy = true /\
       rule ∈ po_Rules policy /\ pr_Enabled rule = true /\
       rf_Action rf = pr_Action rule /\ rf_Protocol rf = pr_Protocol rule /\
       forall s, s ∈ rf_SourceRanges rf -> exists p, GetPeerInfo c (p_ID p) = Some p /\ source_text p s /\
         rule_source c rule (p_ID p) /\
         ValidatePostureChecksOnPeer c (p_ID p) (po_SourcePostureChecks policy) = true).
Proof.
  intros Hord Hok Hne Hkeys Hcol Ht Hres. pose proof (ok_ids _ Hok) as Hids.
  destruct (resources_to_sync idna_ToASCII unicode_lower ord Hord c (PeerID c) (ok_all _ Hok) Hne)
    as (res' & Hres' & _ & Hroutes & _). rewrite Hres in Hres'. injection Hres' as <-.
  assert (forall resource p router, active c resource ->
    GetResourceID (networkResourceToRoute idna_ToASCII unicode_lower resource p router) = nr_ID resource) as Hid.
  { intros resource p router [Hin _]. eapply resource_id_of; [by apply Hcol|].
    apply (to_route_id idna_ToASCII unicode_lower resource p router). }
  split.
  - intros e (resource & Hact & He)%Hroutes. exists resource. split; [done|].
    destruct He as [(router & p & Hrt & _ & _ & ->)|(_ & Had & q & router & p & _ & _ & ->)];
      rewrite Hid by done; (split; [done|]); [left; by exists router|by right].
  - intros rf (r & policy & rule & Hr & Hk & Hp & Hpe & Hru & Hre & Hl & Hrf)%(resource_rules_elem ord c _ tp); [|done].
    split; [intros H; rewrite H in Hl; cbn in Hl; lia|].
    apply Hroutes in Hr as (resource & Hact & He).
    assert (exists router, routes_for c resource (PeerID c) router /\
      r = networkResourceToRoute idna_ToASCII unicode_lower resource tp router) as (router & Hrt & ->).
    { destruct He as [(router & p & Hrt & _ & Hp' & ->)|(Hno & _ & q & router & p & Hrt & Hq & ->)].
      - exists router. rewrite Ht in Hp'. injection Hp' as <-. done.
      - destruct (to_route_id idna_ToASCII unicode_lower resource p router) as (_ & E & _). rewrite E in Hk.
        pose proof (Hkeys _ _ _ _ Hq Ht Hk) as ->. pose proof (Hids _ _ Hq) as <-. pose proof (Hids _ _ Ht) as E'.
        destruct Hno. rewrite <- E'. by exists router. }
    rewrite Hid in Hp, Hrf by done. exists resource, router, policy, rule.
    apply route_rules_sound in Hrf as (_ & Hact' & Hpro & Hfor & Hsrc). split_and!; try done.
    intros s (p & Hp' & Hs)%Hsrc. apply (rule_peers ord Hord) in Hp' as (Hk1 & _ & Hv & Hcase); [|done].
    exists p. split_and!; try done. destruct Hcase as [[_ ?]|?]; [by left|by right].
Qed.

(** The routing peer of the example lets the source peer through. *)
Lemma resource_access_sound_witness : exists res rf,
  getNetworkResourcesRoutesToSync no_idna (fun s => s) elements (example "b") (lit "b") = Ok res /\
  rf ∈ getPeerNetworkResourceFirewallRules elements (example "b") (lit "b") (ra_routes res) true /\
  exists resource router, active (example "b") resource /\
    for_route (networkResourceToRoute no_idna (fun s => s) resource peer_b router) rf.
Proof.
  destruct (resources_to_sync no_idna (fun s => s) elements elements_enumerates (example "b") (lit "b")
    (ok_all _ (example_ok "b")) (example_policies_nonempty "b")) as (res & Hr & _).
  assert (match getNetworkResourcesRoutesToSync no_idna (fun s => s) elements (example "b") (lit "b") with
    | Ok res => match getPeerNetworkResourceFirewallRules elements (example "b") (lit "b") (ra_routes res) true with
                | [] => false | _ => true end
    | _ => false end = true) as Hsome by (by vm_compute).
  rewrite Hr in Hsome.
  destruct (getPeerNetworkResourceFirewallRules elements (example "b") (lit "b") (ra_routes res) true)
    as [|rf rfs] eqn:Hrf; [discriminate|].
  exists res, rf. split; [exact Hr|]. assert (rf ∈ rf :: rfs) as Hin by (by left). rewrite <- Hrf in Hin.
  split; [exact Hin|].
  destruct (proj2 (resource_access_sound no_idna (fun s => s) elements (example "b") peer_b res true
    elements_enumerates (example_ok "b") (example_policies_nonempty "b")
    ltac:(by intros i j p q [[= -> ->]|[= -> ->]]%example_info [[= -> ->]|[= -> ->]]%example_info)
    ltac:(intros resource ->%list_elem_of_singleton; apply (bool_decide_unpack _); by vm_compute)
    ltac:(by vm_compute) Hr) rf Hin) as (_ & resource & router & policy & rule & Ha & _ & Hf & _).
  exists resource, router. split; [exact Ha|exact Hf].
Defined.

(** ** Errors *)
Section errors.
Context (idna_ToASCII : gostring -> option gostring) (unicode_lower : gostring -> gostring)
  (ord : idset -> list gostring).

Lemma process_returns c t resource routers add ps sources : Forall (fun p => po_Rules p <> []) ps ->
  exists r, processPolicies idna_ToASCII unicode_lower ord c t resource routers add ps sources = Ok r.
Proof.
  revert sources. induction ps as [|policy ps IH]; intros sources Hne; cbn [processPolicies]; [eauto|].
  apply Forall_cons in Hne as [Hp Hne]. unfold getResourcePolicyPeers, go_index.
  destruct (po_Rules policy) as [|rule rules]; [done|]. cbn [lookup list_lookup mbind res_bind].
  destruct (isPeerResource (pr_SourceResource rule)); cbn [mbind res_bind];
    (destruct add; [by apply IH|]); (destruct (bool_decide _ && _); [eauto|by apply IH]).
Qed.

Lemma sync_returns c t : policies_nonempty c ->
  exists res, getNetworkResourcesRoutesToSync idna_ToASCII unicode_lower ord c t = Ok res.
Proof.
  intros Hne. unfold getNetworkResourcesRoutesToSync. unfold policies_nonempty in Hne.
  generalize (mkResourceAcc false [] ∅). revert Hne. generalize (NetworkResources c).
  induction l as [|resource rs IH]; intros Hne st; cbn [syncResources]; [eauto|].
  assert (exists st', syncResource idna_ToASCII unicode_lower ord c t st resource = Ok st') as [st' ->].
  2:{ cbn [mbind res_bind]. apply IH. intros r p Hr. apply Hne. by right. }
  unfold syncResource. destruct (negb (nr_Enabled resource)); [eauto|].
  destruct (_ !! t) as [router|]; unfold processResourcePolicies;
    (edestruct process_returns as [[routes sources] ->];
      [apply Forall_forall; intros p Hp; apply (Hne resource p); [by left|exact Hp]|cbn [mbind res_bind]; eauto]).
Qed.
End errors.

(** The calculation returns a map for every account view whose groups are
    present, and panics when an entry of the group map is nil. *)
Theorem calculate_panics_on_nil_group version_check idna_ToUnicode idna_ToASCII unicode_lower ord now c :
  policies_nonempty c ->
  (groups_ok c -> exists nm,
     Calculate version_check idna_ToUnicode idna_ToASCII unicode_lower ord now c = Ok nm) /\
  (~ groups_ok c -> Calculate version_check idna_ToUnicode idna_ToASCII unicode_lower ord now c = Panic).
Proof.
  intros Hne. split.
  - intros Hg. destruct (peer_groups_spec c (PeerID c) Hg) as (groups & H1 & _).
    destruct (sync_returns idna_ToASCII unicode_lower ord c (PeerID c) Hne) as [res H2]. by eapply calculate_total.
  - intros Hg. unfold Calculate. by rewrite peer_groups_panic.
Qed.

Lemma calculate_panics_on_nil_group_witness : exists nm,
  Calculate no_versions no_idna no_idna (fun s => s) elements (fun _ => 0%Z) (example "a") = Ok nm.
Proof.
  exact (proj1 (calculate_panics_on_nil_group no_versions no_idna no_idna (fun s => s) elements (fun _ => 0%Z)
    (example "a") (example_policies_nonempty "a")) (example_groups_ok "a")).
Defined.

(** ** A rule with a peer as its source skips the posture checks *)
Definition failed_example : NetworkMapComponents :=
  let rule := mkRule (lit "r1") (lit "p") [] [] true PolicyTrafficActionAccept [lit "gb"] (mkResource [] []) []
    (mkResource (lit "a") ResourceTypePeer) false PolicyRuleProtocolTCP [lit "22"] [] ∅ [] in
  mkComponents (lit "b") (mkNetwork [] PrefixZero PrefixZero [] 0) (mkAccountSettingsInfo false 0 false 0)
    [] [] (list_to_map example_peers) (list_to_map example_groups)
    [mkPolicy (lit "p1") [] [] [] true [rule] [lit "chk"]] [] [] [] [] ∅ ∅ [] ∅ None {[lit "chk" := {[lit "a"]}]} ∅.

(** Peer a fails the posture check of the policy, yet b accepts its traffic. *)
Theorem peer_source_skips_posture :
  ValidatePostureChecksOnPeer failed_example (lit "a") [lit "chk"] = false /\
  exists fr, fr ∈ (getPeerConnectionResources no_versions elements failed_example (lit "b")).1.1.2 /\
    fr_PeerIP fr = lit "100.64.0.1" /\ fr_Direction fr = FirewallRuleDirectionIN /\
    fr_Action fr = PolicyTrafficActionAccept.
Proof.
  split; [by vm_compute|].
  exists (mkFirewallRule (lit "r1") (lit "100.64.0.1") 0 (lit "accept") (lit "tcp") (lit "22") (mkRange 0 0)).
  split; [vm_compute; by left|done].
Qed.
