(* ===== verification/NetMapAccount.v ===== *)
(** * The view of the account for one peer
      (management/server/types/account_components.go, parts of account.go)

    The network map of a peer is not calculated from the whole account but
    from a view of it: the peers, groups, policies and posture failures that
    can matter to the peer.  The maps of an account hold no nil pointers (the
    store fills them with the addresses of the elements of a slice); a lookup
    that fails is nil, and the view stores it like any other.  The zones of
    the peer, computed by other code, are an argument. *)

From Stdlib Require Import ZArith Lia Ascii String.
From stdpp Require Import base gmap strings numbers list fin_maps.
From S2P Require Import Prelude Netip GoStrings AddrText I2pSam NetMapTypes Posture NetMapCalc.

Record User : Type := mkUser { u_Id : gostring; u_Blocked : bool; u_IsServiceUser : bool }.

Record Account : Type := mkAccount {
  a_Network : Network;
  a_Peers : gmap gostring Peer;
  a_Users : gmap gostring User;
  a_Groups : gmap gostring Group;
  a_Policies : list Policy;
  a_Routes : gmap gostring Route;
  a_NameServerGroups : gmap gostring NameServerGroup;
  a_DisabledManagementGroups : list gostring;
  a_PostureChecks : list Checks;
  a_Settings : AccountSettingsInfo;
  a_NetworkResources : list NetworkResource }.

Definition GetPeer (a : Account) (peerID : gostring) : option Peer := a_Peers a !! peerID.

Definition GetGroup (a : Account) (groupID : gostring) : option Group := a_Groups a !! groupID.

Definition GetPostureChecks (a : Account) (postureChecksID : gostring) : option Checks :=
  head (filter (fun pc => ck_ID pc = postureChecksID) (a_PostureChecks a)).

Definition a_getAllowedUserIDs (a : Account) : idset :=
  map_fold (fun _ u users =>
    if negb (u_Blocked u) && negb (u_IsServiceUser u) then {[u_Id u]} ∪ users else users) ∅ (a_Users a).

Section account.
Context (version_check : gostring -> gostring -> option bool) (ord : idset -> list gostring).

(** ** Posture *)
Fixpoint firstFailed (a : Account) (peer : Peer) (sourcePostureChecksID : list gostring) : bool * gostring :=
  match sourcePostureChecksID with
  | [] => (true, [])
  | postureChecksID :: rest =>
      match GetPostureChecks a postureChecksID with
      | None => firstFailed a peer rest
      | Some postureChecks =>
          if forallb (fun check => isValid version_check check peer) (GetChecks postureChecks)
          then firstFailed a peer rest else (false, postureChecksID)
      end
  end.

Definition validatePostureChecksOnPeerGetFailed (a : Account) (sourcePostureChecksID : list gostring)
    (peerID : gostring) : bool * gostring :=
  match GetPeer a peerID with
  | None => (false, [])
  | Some peer => firstFailed a peer sourcePostureChecksID
  end.

(** [postureFailedPeers[pname][peerID] = struct{}{}], with the entry made first. *)
Definition recordFailure (pname peerID : gostring) (failed : gmap gostring idset) : gmap gostring idset :=
  <[pname := {[peerID]} ∪ default ∅ (failed !! pname)]> failed.

Definition getPostureValidPeersSaveFailed (a : Account) (inputPeers postureChecksIDs : list gostring)
    (validatedPeersMap : idset) (failed : gmap gostring idset) : list gostring * gmap gostring idset :=
  foldl (fun '(dest, failed) peerID =>
    if decide (peerID ∉ validatedPeersMap) then (dest, failed) else
    let '(valid, pname) := validatePostureChecksOnPeerGetFailed a postureChecksIDs peerID in
    if (valid : bool) then (dest ++ [peerID], failed) else (dest, recordFailure pname peerID failed))
    ([], failed) inputPeers.

(** ** The peers of a rule *)

(** [filteredPeerIDs], [peerInGroups] and [postureFailedPeers]. *)
Record GroupPeers : Type := mkGroupPeers {
  gp_ids : list gostring;
  gp_in : bool;
  gp_failed : gmap gostring idset }.

(** One peer of a group. *)
Definition considerPeer (a : Account) (peerID : gostring) (checks : list gostring) (validated : idset)
    (st : GroupPeers) (pid : gostring) : GroupPeers :=
  match GetPeer a pid with
  | None => st
  | Some peer =>
      if decide (p_ID peer ∉ validated) then st else
      let '(isValid, pname) := validatePostureChecksOnPeerGetFailed a checks (p_ID peer) in
      if negb isValid && bool_decide (0 < length pname)
      then mkGroupPeers (gp_ids st) (gp_in st) (recordFailure pname (p_ID peer) (gp_failed st))
      else if decide (p_ID peer = peerID) then mkGroupPeers (gp_ids st) true (gp_failed st)
      else mkGroupPeers (gp_ids st ++ [p_ID peer]) (gp_in st) (gp_failed st)
  end.

(** The same, unless the id was seen in an earlier group. *)
Definition considerNew (a : Account) (peerID : gostring) (checks : list gostring) (validated : idset)
    (st : GroupPeers * idset) (pid : gostring) : GroupPeers * idset :=
  if decide (pid ∈ st.2) then st
  else (considerPeer a peerID checks validated st.1 pid, {[pid]} ∪ st.2).

Fixpoint groupsLoop (a : Account) (peerID : gostring) (checks : list gostring) (validated : idset)
    (single : bool) (groups : list gostring) (st : GroupPeers * idset) : GroupPeers :=
  match groups with
  | [] => st.1
  | gid :: rest =>
      match GetGroup a gid with
      | None => groupsLoop a peerID checks validated single rest st
      | Some group =>
          if IsGroupAll group || single then
            foldl (considerPeer a peerID checks validated)
              (mkGroupPeers [] false (gp_failed st.1)) (g_Peers group)
          else groupsLoop a peerID checks validated single rest
                 (foldl (considerNew a peerID checks validated) st (g_Peers group))
      end
  end.

Definition getPeersFromGroups (a : Account) (groups : list gostring) (peerID : gostring)
    (sourcePostureChecksIDs : list gostring) (validatedPeersMap : idset) (failed : gmap gostring idset) :
    GroupPeers :=
  groupsLoop a peerID sourcePostureChecksIDs validatedPeersMap (bool_decide (length groups = 1)) groups
    (mkGroupPeers [] false failed, ∅).

(** One side of a rule. *)
Definition sideIDs (a : Account) (resource : Resource) (groups : list gostring) (peerID : gostring)
    (checks : list gostring) (validated : idset) (failed : gmap gostring idset) : GroupPeers :=
  if isPeerResource resource
  then mkGroupPeers [res_ID resource] (bool_decide (res_ID resource = peerID)) failed
  else getPeersFromGroups a groups peerID checks validated failed.

(** ** Peers, groups, policies and routes *)

(** [relevantPeerIDs], [relevantGroupIDs], [postureFailedPeers] and the SSH
    requirements. *)
Record View : Type := mkView {
  v_Peers : gmap gostring (option Peer);
  v_Groups : gmap gostring (option Group);
  v_failed : gmap gostring idset;
  neededGroupIDs : idset;
  needAllowedUserIDs : bool }.

Definition addPeers (a : Account) (ids : list gostring) (m : gmap gostring (option Peer)) :
    gmap gostring (option Peer) := foldl (fun m pid => <[pid := GetPeer a pid]> m) m ids.

Definition addGroups (a : Account) (ids : list gostring) (m : gmap gostring (option Group)) :
    gmap gostring (option Group) := foldl (fun m gid => <[gid := GetGroup a gid]> m) m ids.

Definition with_peers_groups (a : Account) (pids gids : list gostring) (v : View) : View :=
  mkView (addPeers a pids (v_Peers v)) (addGroups a gids (v_Groups v)) (v_failed v)
    (neededGroupIDs v) (needAllowedUserIDs v).

Definition set_failed (failed : gmap gostring idset) (v : View) : View :=
  mkView (v_Peers v) (v_Groups v) failed (neededGroupIDs v) (needAllowedUserIDs v).

(** The SSH requirements of a rule with the peer as a destination. *)
Definition requireSSH (peerSSHEnabled : bool) (rule : PolicyRule) (v : View) : View :=
  if decide (pr_Protocol rule = PolicyRuleProtocolNetbirdSSH) then
    if decide (0 < size (pr_AuthorizedGroups rule)) then
      mkView (v_Peers v) (v_Groups v) (v_failed v) (dom (pr_AuthorizedGroups rule) ∪ neededGroupIDs v)
        (needAllowedUserIDs v)
    else if decide (pr_AuthorizedUser rule <> []) then v
    else mkView (v_Peers v) (v_Groups v) (v_failed v) (neededGroupIDs v) true
  else if policyRuleImpliesLegacySSH rule && peerSSHEnabled then
    mkView (v_Peers v) (v_Groups v) (v_failed v) (neededGroupIDs v) true
  else v.

(** The body of the loop over the rules: the view and [policyRelevant]. *)
Definition viewRule (a : Account) (peerID : gostring) (peerSSHEnabled : bool) (validated : idset)
    (routeAccessControlGroups : idset) (checks : list gostring) (st : View * bool) (rule : PolicyRule) :
    View * bool :=
  let '(v, relevant) := st in
  if negb (pr_Enabled rule) then (v, relevant) else
  let needed := existsb (fun gid => bool_decide (gid ∈ routeAccessControlGroups)) (pr_Destinations rule) in
  let '(v, relevant) :=
    if needed then (with_peers_groups a [] (pr_Sources rule ++ pr_Destinations rule) v, true)
    else (v, relevant) in
  let src := sideIDs a (pr_SourceResource rule) (pr_Sources rule) peerID checks validated (v_failed v) in
  let dst := sideIDs a (pr_DestinationResource rule) (pr_Destinations rule) peerID [] validated (gp_failed src) in
  let v := set_failed (gp_failed dst) v in
  let '(v, relevant) :=
    if gp_in src then (with_peers_groups a (gp_ids dst) (pr_Destinations rule) v, true)
    else (v, relevant) in
  if gp_in dst then
    (requireSSH peerSSHEnabled rule (with_peers_groups a (gp_ids src) (pr_Sources rule) v), true)
  else (v, relevant).

(** The body of the loop over the policies: the view and [relevantPolicies]. *)
Definition viewPolicy (a : Account) (peerID : gostring) (peerSSHEnabled : bool) (validated : idset)
    (routeAccessControlGroups : idset) (st : View * list Policy) (policy : Policy) : View * list Policy :=
  let '(v, policies) := st in
  if negb (po_Enabled policy) then (v, policies) else
  let '(v, relevant) :=
    foldl (viewRule a peerID peerSSHEnabled validated routeAccessControlGroups
             (po_SourcePostureChecks policy)) (v, false) (po_Rules policy) in
  (v, if (relevant : bool) then policies ++ [policy] else policies).

(** The routes in the order of the iteration over the map. *)
Definition accountRoutes (a : Account) : list Route :=
  omap (fun id => a_Routes a !! id) (ord (dom (a_Routes a))).

Definition routeGroups (r : Route) : list gostring :=
  r_Groups r ++ r_PeerGroups r ++ (if r_Enabled r then r_AccessControlGroups r else []).

Definition peerGroupIDs (a : Account) (peerID : gostring) : list gostring :=
  filter (fun gid => match GetGroup a gid with
                     | Some g => bool_decide (peerID ∈ g_Peers g) | None => false end = true)
    (ord (dom (a_Groups a))).

Definition getPeersGroupsPoliciesRoutes (a : Account) (peerID : gostring) (peerSSHEnabled : bool)
    (validated : idset) (failed : gmap gostring idset) : View * list Policy * list Route :=
  let routes := accountRoutes a in
  let routeAccessControlGroups : idset :=
    list_to_set (routes ≫= fun r => if r_Enabled r then r_AccessControlGroups r else []) in
  let v := mkView {[peerID := GetPeer a peerID]}
    (addGroups a (routes ≫= routeGroups) (addGroups a (peerGroupIDs a peerID) ∅)) failed ∅ false in
  let '(v, policies) :=
    foldl (viewPolicy a peerID peerSSHEnabled validated routeAccessControlGroups) (v, []) (a_Policies a) in
  (v, policies, routes).

(** ** Resources *)
Definition a_getUniquePeerIDsFromGroupsIDs (a : Account) (groups : list gostring) : list gostring :=
  (fix loop gs (ids : idset) :=
     match gs with
     | [] => ord ids
     | gid :: rest =>
         match GetGroup a gid with
         | None => loop rest ids
         | Some group =>
             if IsGroupAll group || bool_decide (length groups = 1) then g_Peers group
             else loop rest (list_to_set (g_Peers group) ∪ ids)
         end
     end) groups ∅.

(** The parts of the components the loop over the resources changes. *)
Record ResourceView : Type := mkResourceView {
  rv_Peers : gmap gostring (option Peer);
  rv_Groups : gmap gostring (option Group);
  rv_failed : gmap gostring idset;
  rv_policies : gmap gostring (list Policy);
  rv_routers : gmap gostring (gmap gostring NetworkRouter);
  rv_routerPeers : gmap gostring (option Peer);
  rv_resources : list NetworkResource }.

(** [if _, exists := m[id]; !exists { m[id] = v }] *)
Definition insert_new {A} (id : gostring) (x : A) (m : gmap gostring A) : gmap gostring A :=
  if decide (is_Some (m !! id)) then m else <[id := x]> m.

(** The existing groups of the rules of a policy. *)
Definition addPolicyGroups (a : Account) (policy : Policy) (m : gmap gostring (option Group)) :
    gmap gostring (option Group) :=
  foldl (fun m gid => match GetGroup a gid with Some g => insert_new gid (Some g) m | None => m end) m
    (po_Rules policy ≫= fun rule => pr_Sources rule ++ pr_Destinations rule).

(** The body of the loop over the policies of a resource, up to the groups:
    [addSourcePeers], the peers and the failures, or [None] for [continue]. *)
Definition resourcePolicy (a : Account) (peerID : gostring) (validated : idset) (rule0 : PolicyRule)
    (policy : Policy) (addSourcePeers : bool) (rv : ResourceView) : bool * ResourceView * bool :=
  let set p f := mkResourceView p (rv_Groups rv) f (rv_policies rv) (rv_routers rv)
                   (rv_routerPeers rv) (rv_resources rv) in
  if addSourcePeers then
    let peers := if isPeerResource (pr_SourceResource rule0) then [res_ID (pr_SourceResource rule0)]
                 else a_getUniquePeerIDsFromGroupsIDs a (SourceGroups ord policy) in
    let '(valid, failed) :=
      getPostureValidPeersSaveFailed a peers (po_SourcePostureChecks policy) validated (rv_failed rv) in
    (true, set (foldl (fun m pID => insert_new pID (GetPeer a pID) m) (rv_Peers rv) valid) failed, true)
  else
    let peerInSources :=
      if isPeerResource (pr_SourceResource rule0) then bool_decide (res_ID (pr_SourceResource rule0) = peerID)
      else existsb (fun gid => match GetGroup a gid with
                               | Some group => bool_decide (peerID ∈ g_Peers group)
                               | None => false end) (SourceGroups ord policy) in
    if negb peerInSources then (false, rv, false) else
    let '(isValid, pname) := validatePostureChecksOnPeerGetFailed a (po_SourcePostureChecks policy) peerID in
    if negb isValid && bool_decide (0 < length pname)
    then (false, set (rv_Peers rv) (recordFailure pname (default peerID (p_ID <$> GetPeer a peerID)) (rv_failed rv)), false)
    else (true, rv, true).

Fixpoint resourcePolicies (a : Account) (peerID resourceID : gostring) (validated : idset)
    (allPolicies policies : list Policy) (addSourcePeers : bool) (rv : ResourceView) : go (bool * ResourceView) :=
  match policies with
  | [] => Ok (addSourcePeers, rv)
  | policy :: rest =>
      rule0 ← go_index (po_Rules policy) 0;
      let '(add, rv, proceed) := resourcePolicy a peerID validated rule0 policy addSourcePeers rv in
      let rv := if (proceed : bool) then
        mkResourceView (rv_Peers rv) (addPolicyGroups a policy (rv_Groups rv)) (rv_failed rv)
          (<[resourceID := allPolicies]> (rv_policies rv)) (rv_routers rv) (rv_routerPeers rv)
          (rv_resources rv) else rv in
      resourcePolicies a peerID resourceID validated allPolicies rest add rv
  end.

(** The routers of the network of a resource. *)
Definition addRouter (a : Account) (validated : idset) (rv : ResourceView) (id : gostring) : ResourceView :=
  match GetPeer a id with
  | None => rv
  | Some p =>
      mkResourceView
        (if decide (id ∈ validated) then insert_new id (Some p) (rv_Peers rv) else rv_Peers rv)
        (rv_Groups rv) (rv_failed rv) (rv_policies rv) (rv_routers rv)
        (insert_new id (Some p) (rv_routerPeers rv)) (rv_resources rv)
  end.

Definition viewResource (a : Account) (peerID : gostring) (validated : idset)
    (policiesOf : gmap gostring (list Policy)) (routers : gmap gostring (gmap gostring NetworkRouter))
    (rv : ResourceView) (resource : NetworkResource) : go ResourceView :=
  if negb (nr_Enabled resource) then Ok rv else
  match policiesOf !! nr_ID resource with
  | None => Ok rv
  | Some policies =>
      let networkRoutingPeers := default ∅ (routers !! nr_NetworkID resource) in
      let addSourcePeers := bool_decide (is_Some (networkRoutingPeers !! peerID)) in
      '(add, rv) ← resourcePolicies a peerID (nr_ID resource) validated policies policies addSourcePeers rv;
      let rv := mkResourceView (rv_Peers rv) (rv_Groups rv) (rv_failed rv) (rv_policies rv)
        (<[nr_NetworkID resource := networkRoutingPeers]> (rv_routers rv)) (rv_routerPeers rv)
        (rv_resources rv) in
      let rv := foldl (addRouter a validated) rv (ord (dom networkRoutingPeers)) in
      Ok (mkResourceView (rv_Peers rv) (rv_Groups rv) (rv_failed rv) (rv_policies rv) (rv_routers rv)
            (rv_routerPeers rv) (rv_resources rv ++ (if (add : bool) then [resource] else [])))
  end.

Fixpoint viewResources (a : Account) (peerID : gostring) (validated : idset)
    (policiesOf : gmap gostring (list Policy)) (routers : gmap gostring (gmap gostring NetworkRouter))
    (resources : list NetworkResource) (rv : ResourceView) : go ResourceView :=
  match resources with
  | [] => Ok rv
  | resource :: rest =>
      rv ← viewResource a peerID validated policiesOf routers rv resource;
      viewResources a peerID validated policiesOf routers rest rv
  end.

(** ** Filters *)

(** The loop reads [groupInfo.Peers] of every entry. *)
Definition filterGroup (peers : gmap gostring (option Peer)) (group : Group) : option Group :=
  let filteredPeers := filter (fun pid => is_Some (peers !! pid)) (g_Peers group) in
  if decide (length filteredPeers = 0) then None
  else if decide (length filteredPeers <> length (g_Peers group))
  then Some (mkGroup (g_ID group) (g_Name group) filteredPeers)
  else Some group.

Definition filterGroupPeers (groups : gmap gostring (option Group)) (peers : gmap gostring (option Peer)) :
    go (gmap gostring (option Group)) :=
  if decide (map_Forall (fun _ g => is_Some g) groups) then
    Ok (omap (fun g => match g with Some g => Some <$> filterGroup peers g | None => None end) groups)
  else Panic.

Definition filterPostureFailedPeers (failed : gmap gostring idset) (policies : list Policy)
    (resourcePoliciesMap : gmap gostring (list Policy)) (peers : gmap gostring (option Peer)) :
    gmap gostring idset :=
  let referencedPostureChecks : idset :=
    list_to_set ((policies ≫= po_SourcePostureChecks) ++
      ((map_to_list resourcePoliciesMap).*2 ≫= fun ps => ps ≫= po_SourcePostureChecks)) in
  map_imap (fun checkID failedPeers =>
    if decide (checkID ∉ referencedPostureChecks) then None else
    let failedPeers := filter (fun id => is_Some (peers !! id)) failedPeers in
    if decide (size failedPeers = 0) then None else Some failedPeers) failed.

Definition filterDNSRecordsByPeers (records : list SimpleRecord) (peers : gmap gostring (option Peer))
    (includeIPv6 : bool) : list SimpleRecord :=
  if decide (length records = 0 \/ size peers = 0) then [] else
  let peerIPs : idset := list_to_set ((map_to_list peers).*2 ≫= fun p =>
    match p with
    | None => []
    | Some p => Addr_String (p_IP p) ::
        (if includeIPv6 && IsValid (p_IPv6 p) then [Addr_String (p_IPv6 p)] else [])
    end) in
  filter (fun r => sr_RData r ∈ peerIPs) records.

Definition filterGroupIDToUserIDs (fullMap : gmap gostring (list gostring)) (needed : idset) :
    gmap gostring (list gostring) :=
  if decide (size needed = 0) then ∅ else filter (fun kv => kv.1 ∈ needed) fullMap.

(** ** The components *)
Definition relevantNSGroups (a : Account) (groups : gmap gostring (option Group)) : list NameServerGroup :=
  filter (fun g => nsg_Enabled g = true /\ Exists (fun gID => is_Some (groups !! gID)) (nsg_Groups g))
    (omap (fun id => a_NameServerGroups a !! id) (ord (dom (a_NameServerGroups a)))).

Definition GetPeerNetworkMapComponents (a : Account) (peerID : gostring) (peersCustomZone : CustomZone)
    (peerZones : list CustomZone) (validatedPeersMap : idset)
    (policiesOf : gmap gostring (list Policy)) (routers : gmap gostring (gmap gostring NetworkRouter))
    (groupIDToUserIDs : gmap gostring (list gostring)) : go (option NetworkMapComponents) :=
  match GetPeer a peerID with
  | None => Ok None
  | Some peer =>
      if decide (peerID ∉ validatedPeersMap) then Ok None else
      let '(v, policies, routes) :=
        getPeersGroupsPoliciesRoutes a peerID (p_SSHEnabled peer) validatedPeersMap ∅ in
      let records := filterDNSRecordsByPeers (cz_Records peersCustomZone) (v_Peers v)
                       (SupportsIPv6 peer && IsValid (p_IPv6 peer)) in
      let nsGroups := relevantNSGroups a (v_Groups v) in
      rv ← viewResources a peerID validatedPeersMap policiesOf routers (a_NetworkResources a)
        (mkResourceView (v_Peers v) (v_Groups v) (v_failed v) ∅ ∅ ∅ []);
      groups ← filterGroupPeers (rv_Groups rv) (rv_Peers rv);
      let failed := filterPostureFailedPeers (rv_failed rv) policies (rv_policies rv) (rv_Peers rv) in
      Ok (Some (mkComponents peerID (Network_Copy (a_Network a)) (a_Settings a)
        (a_DisabledManagementGroups a) (cz_Domain peersCustomZone) (rv_Peers rv) groups policies routes
        nsGroups records peerZones (rv_policies rv) (rv_routers rv) (rv_resources rv)
        (if decide (0 < size (neededGroupIDs v)) then filterGroupIDToUserIDs groupIDToUserIDs (neededGroupIDs v) else ∅)
        (if needAllowedUserIDs v then Some (a_getAllowedUserIDs a) else None) failed (rv_routerPeers rv)))
  end.

(** The map of a peer that is unknown or not validated. *)
Definition emptyMap (a : Account) : NetworkMap :=
  mkNetworkMap [] (Network_Copy (a_Network a)) [] (mkDNSConfig false [] [] 0) [] [] [] ∅ false.

Definition GetPeerNetworkMapFromComponents (idna_ToUnicode idna_ToASCII : gostring -> option gostring)
    (unicode_lower : gostring -> gostring) (now : nat -> Z) (a : Account) (peerID : gostring)
    (peersCustomZone : CustomZone) (peerZones : list CustomZone) (validatedPeersMap : idset)
    (policiesOf : gmap gostring (list Policy)) (routers : gmap gostring (gmap gostring NetworkRouter))
    (groupIDToUserIDs : gmap gostring (list gostring)) : go NetworkMap :=
  components ← GetPeerNetworkMapComponents a peerID peersCustomZone peerZones validatedPeersMap
    policiesOf routers groupIDToUserIDs;
  match components with
  | None => Ok (emptyMap a)
  | Some c => Calculate version_check idna_ToUnicode idna_ToASCII unicode_lower ord now c
  end.
End account.
