(* ===== verification/NetMapView.v ===== *)
(** * The view of a peer loses nothing
      (management/server/types/account_components.go)

    The policies are read on the whole account ([account_allowed]): the
    validated peers of its groups that pass the posture checks.  The view
    built for a peer restricts peers, groups, policies and posture failures;
    on the view the policies allow the peer exactly the same traffic. *)

From Stdlib Require Import ZArith Lia Ascii String.
From stdpp Require Import base gmap strings numbers list fin_maps.
From S2P Require Import Prelude Netip GoStrings AddrText I2pSam NetMapTypes Posture NetMapCalc NetMapConn NetMapPorts NetworkMap NetMapAccount.

(** ** What the account says *)
Section spec.
Context (version_check : gostring -> gostring -> option bool) (a : Account) (V : idset).

(** The peer does not pass the posture checks with this id. *)
Definition posture_fails (check id : gostring) : Prop :=
  exists peer pc, GetPeer a id = Some peer /\ GetPostureChecks a check = Some pc /\
    forallb (fun c => isValid version_check c peer) (GetChecks pc) = false.

Definition in_account (groups : list gostring) (id : gostring) : Prop :=
  exists gid g, gid ∈ groups /\ GetGroup a gid = Some g /\ id ∈ g_Peers g.

(** A peer of the account that was validated. *)
Definition approved (id : gostring) : Prop := is_Some (GetPeer a id) /\ id ∈ V.

Definition account_side (resource : Resource) (groups checks : list gostring) (id : gostring) : Prop :=
  if isPeerResource resource then res_ID resource = id
  else in_account groups id /\ approved id /\ forall check, check ∈ checks -> ~ posture_fails check id.

Definition on_src (policy : Policy) (rule : PolicyRule) : gostring -> Prop :=
  account_side (pr_SourceResource rule) (pr_Sources rule) (po_SourcePostureChecks policy).

Definition on_dst (rule : PolicyRule) : gostring -> Prop :=
  account_side (pr_DestinationResource rule) (pr_Destinations rule) [].

Definition account_in_force (policy : Policy) (rule : PolicyRule) : Prop :=
  policy ∈ a_Policies a /\ po_Enabled policy = true /\ rule ∈ po_Rules policy /\ pr_Enabled rule = true.

(** Seen from [t], the account allows traffic of direction [dir] with [q]. *)
Definition account_allowed (t q : gostring) (dir : Z) (rule : PolicyRule) : Prop :=
  exists policy, account_in_force policy rule /\
    ((dir = FirewallRuleDirectionOUT /\
      ((on_src policy rule t /\ on_dst rule q) \/
       (pr_Bidirectional rule = true /\ on_src policy rule q /\ on_dst rule t))) \/
     (dir = FirewallRuleDirectionIN /\
      ((on_src policy rule q /\ on_dst rule t) \/
       (pr_Bidirectional rule = true /\ on_src policy rule t /\ on_dst rule q)))).
End spec.

(** What the account guarantees. *)
Record account_ok (a : Account) : Prop := {
  acc_ids : forall id p, GetPeer a id = Some p -> p_ID p = id;
  acc_all : forall gid g, GetGroup a gid = Some g -> IsGroupAll g = true ->
    forall hid h id, GetGroup a hid = Some h -> id ∈ g_Peers h -> id ∈ g_Peers g;
  acc_rules : forall p1 r1 p2 r2, account_in_force a p1 r1 -> account_in_force a p2 r2 ->
    length (pr_ID r1) = length (pr_ID r2) /\ (pr_ID r1 = pr_ID r2 -> r1 = r2);
  acc_checks : forall policy, policy ∈ a_Policies a -> [] ∉ po_SourcePostureChecks policy;
  acc_v4 : forall id p, GetPeer a id = Some p -> Is4 (p_IP p) = true /\ addr_wf (p_IP p);
  acc_v6 : forall id p, GetPeer a id = Some p -> IsValid (p_IPv6 p) = true ->
    Is6 (p_IPv6 p) = true /\ Is4In6 (p_IPv6 p) = false /\ addr_wf (p_IPv6 p);
  acc_own : forall i j p q, GetPeer a i = Some p -> GetPeer a j = Some q -> p_IP p = p_IP q -> p = q }.

Definition failed_at (failed : gmap gostring idset) (check id : gostring) : Prop :=
  exists s, failed !! check = Some s /\ id ∈ s.

Lemma recordFailure_at failed pname peerID check id :
  failed_at (recordFailure pname peerID failed) check id <->
  failed_at failed check id \/ (check = pname /\ id = peerID).
Proof.
  unfold failed_at, recordFailure. destruct (decide (check = pname)) as [->|Hne].
  - rewrite lookup_insert_eq. split.
    + intros (s & [= <-] & [Hs%elem_of_singleton|Hs]%elem_of_union); [by right|left].
      destruct (failed !! pname); cbn in Hs; [eauto|by apply elem_of_empty in Hs].
    + intros [(s & Hs & Hid)|[_ ->]]; eexists; (split; [done|]); [rewrite Hs; set_solver|set_solver].
  - rewrite lookup_insert_ne by done. split; [by left|]. intros [|[-> _]]; done.
Qed.

Section view.
Context (version_check : gostring -> gostring -> option bool) (ord : idset -> list gostring).
Context (Hord : enumerates ord) (a : Account) (Hok : account_ok a) (V : idset) (t : gostring).

Notation posture_fails := (posture_fails version_check a).
Notation approved := (approved a V).
Notation member := (in_account a).
Notation on_src := (on_src version_check a V).
Notation on_dst := (on_dst version_check a V).

(** ** Posture *)
Lemma firstFailed_spec peer id checks : GetPeer a id = Some peer ->
  match firstFailed version_check a peer checks with
  | (true, _) => forall check, check ∈ checks -> ~ posture_fails check id
  | (false, pname) => pname ∈ checks /\ posture_fails pname id
  end.
Proof.
  intros Hp. induction checks as [|check checks IH]; cbn [firstFailed].
  { by intros check []%elem_of_nil. }
  assert (forall b p, firstFailed version_check a peer checks = (b, p) -> ~ posture_fails check id ->
    if b then forall c, c ∈ check :: checks -> ~ posture_fails c id
    else p ∈ check :: checks /\ posture_fails p id) as Hstep.
  { intros b p E Hn. rewrite E in IH. destruct b.
    - intros c [->|Hc]%elem_of_cons; auto.
    - destruct IH. split; [by right|done]. }
  destruct (GetPostureChecks a check) as [pc|] eqn:Hc.
  - destruct (forallb _ _) eqn:Hf.
    + destruct (firstFailed version_check a peer checks) as [b p]. specialize (Hstep b p eq_refl).
      apply Hstep. intros (peer' & pc' & E1 & E2 & E3). rewrite Hp in E1. rewrite Hc in E2. injection E1 as <-. injection E2 as <-. congruence.
    + split; [by left|]. exists peer, pc. auto.
  - destruct (firstFailed version_check a peer checks) as [b p]. specialize (Hstep b p eq_refl).
    apply Hstep. intros (peer' & pc' & E1 & E2 & E3). rewrite Hc in E2. by simplify_eq.
Qed.

(** ** The peers of groups *)
Section groups.
Context (checks : list gostring) (Hchecks : [] ∉ checks).

Definition passes (id : gostring) : Prop :=
  approved id /\ forall check, check ∈ checks -> ~ posture_fails check id.

(** [st] results from [st0] by considering the peers of [P]. *)
Record considered (P : gostring -> Prop) (st0 st : GroupPeers) : Prop := {
  con_ids : forall id, id ∈ gp_ids st <-> id ∈ gp_ids st0 \/ (P id /\ passes id /\ id <> t);
  con_in : gp_in st = true <-> gp_in st0 = true \/ (P t /\ passes t);
  con_mono : forall check id, failed_at (gp_failed st0) check id -> failed_at (gp_failed st) check id;
  con_sound : forall check id, failed_at (gp_failed st) check id ->
    failed_at (gp_failed st0) check id \/ posture_fails check id;
  con_done : forall id, P id -> approved id -> ~ passes id ->
    exists check, check ∈ checks /\ failed_at (gp_failed st) check id }.

Lemma considered_refl (P : gostring -> Prop) st : (forall id, ~ P id) -> considered P st st.
Proof. intros HP. split; try done; intros; try (split; [by left|]); naive_solver. Qed.

Lemma considered_iff (P Q : gostring -> Prop) st0 st :
  (forall id, P id <-> Q id) -> considered P st0 st -> considered Q st0 st.
Proof.
  intros HPQ [H1 H2 H3 H4 H5]. split; try done.
  - intros id. by rewrite H1, HPQ.
  - by rewrite H2, HPQ.
  - intros id ?%HPQ. auto.
Qed.

Lemma considered_step P st0 st st' pid : considered P st0 st ->
  (forall id, id ∈ gp_ids st' <-> id ∈ gp_ids st \/ (id = pid /\ passes id /\ id <> t)) ->
  (gp_in st' = true <-> gp_in st = true \/ (pid = t /\ passes pid)) ->
  (forall check id, failed_at (gp_failed st) check id -> failed_at (gp_failed st') check id) ->
  (forall check id, failed_at (gp_failed st') check id ->
     failed_at (gp_failed st) check id \/ posture_fails check id) ->
  (approved pid -> ~ passes pid -> exists check, check ∈ checks /\ failed_at (gp_failed st') check pid) ->
  considered (fun id => P id \/ id = pid) st0 st'.
Proof.
  intros [H1 H2 H3 H4 H5] E1 E2 E3 E4 E5. split.
  - intros id. rewrite E1, H1. tauto.
  - rewrite E2, H2. split.
    + intros [[?|[? ?]]|[-> ?]]; auto.
    + intros [?|[[?| ->] ?]]; auto.
  - auto.
  - intros check id [?%H4|?]%E4; auto.
  - intros id [HP| ->] Ha Hn; [|auto]. destruct (H5 id HP Ha Hn) as (check & ? & ?). eauto.
Qed.

(** A peer that does not pass changes nothing but the failures. *)
Lemma considered_skip P st0 st pid : ~ approved pid -> considered P st0 st ->
  considered (fun id => P id \/ id = pid) st0 st.
Proof.
  intros Hn H. assert (~ passes pid) by (intros [? _]; done). eapply considered_step; [exact H|..]; try tauto.
  - intros id. split; [tauto|]. intros [?|(-> & ? & _)]; tauto.
Qed.

Lemma considerPeer_spec P st0 st pid : considered P st0 st ->
  considered (fun id => P id \/ id = pid) st0 (considerPeer version_check a t checks V st pid).
Proof.
  intros H. unfold considerPeer. destruct (GetPeer a pid) as [peer|] eqn:Hp.
  2:{ apply considered_skip; [|done]. intros [[? ?] _]. congruence. }
  rewrite (acc_ids a Hok _ _ Hp). case_decide as Hv.
  { apply considered_skip; [|done]. by intros [_ ?]. }
  assert (approved pid) as Happ by (split; eauto).
  unfold validatePostureChecksOnPeerGetFailed. rewrite Hp.
  pose proof (firstFailed_spec peer pid checks Hp) as Hf.
  destruct (firstFailed version_check a peer checks) as [[|] pname]; cbn [negb andb].
  - assert (passes pid) as Hpass by (split; done).
    case_decide as Ht; (eapply considered_step; [exact H|..]); cbn; try tauto.
    + subst pid. intros id. split; [tauto|]. intros [?|(-> & _ & ?)]; tauto.
    + intros id. rewrite elem_of_app, list_elem_of_singleton. split; [|tauto]. intros [?| ->]; tauto.
  - destruct Hf as [Hin Hfail]. assert (~ passes pid) as Hpass by (intros [_ Hx]; by eapply Hx).
    rewrite bool_decide_true by (destruct pname; [done|cbn; lia]).
    eapply considered_step; [exact H|..]; cbn; try tauto.
    + intros id. split; [tauto|]. intros [?|(-> & ? & _)]; tauto.
    + intros check id ?. apply recordFailure_at. by left.
    + intros check id [?| [-> ->]]%recordFailure_at; [by left|by right].
    + intros _ _. exists pname. split; [done|]. apply recordFailure_at. by right.
Qed.

Lemma considerPeers_spec P st0 st l : considered P st0 st ->
  considered (fun id => P id \/ id ∈ l) st0 (foldl (considerPeer version_check a t checks V) st l).
Proof.
  revert P st. induction l as [|pid l IH]; intros P st H; cbn [foldl].
  - eapply considered_iff; [|exact H]. intros id. rewrite elem_of_nil. tauto.
  - eapply considered_iff; [|apply IH, considerPeer_spec, H]. intros id. cbn. rewrite elem_of_cons. tauto.
Qed.

Lemma considerNews_spec st0 st l : considered (fun id => id ∈ st.2) st0 st.1 ->
  let st' := foldl (considerNew version_check a t checks V) st l in
  considered (fun id => id ∈ st'.2) st0 st'.1 /\ forall id, id ∈ st'.2 <-> id ∈ st.2 \/ id ∈ l.
Proof.
  cbn zeta. revert st. induction l as [|pid l IH]; intros st H; cbn [foldl].
  - split; [done|]. intros id. rewrite elem_of_nil. tauto.
  - destruct (decide (pid ∈ st.2)) as [Hs|Hs].
    + replace (considerNew version_check a t checks V st pid) with st
        by (unfold considerNew; by rewrite decide_True by done).
      destruct (IH st H) as [H1 H2]. split; [done|]. intros id. rewrite H2, elem_of_cons. naive_solver.
    + replace (considerNew version_check a t checks V st pid)
        with (considerPeer version_check a t checks V st.1 pid, {[pid]} ∪ st.2)
        by (unfold considerNew; by rewrite decide_False by done).
      destruct (IH (considerPeer version_check a t checks V st.1 pid, {[pid]} ∪ st.2)) as [H1 H2].
      { cbn [fst snd]. eapply considered_iff; [|apply considerPeer_spec, H].
        intros id. cbn. rewrite elem_of_union, elem_of_singleton. tauto. }
      split; [done|]. intros id. rewrite H2. cbn [snd]. rewrite elem_of_cons, elem_of_union, elem_of_singleton. tauto.
Qed.

Lemma member_cons gid groups id :
  member (gid :: groups) id <-> (exists g, GetGroup a gid = Some g /\ id ∈ g_Peers g) \/ member groups id.
Proof.
  unfold in_account. setoid_rewrite elem_of_cons. split.
  - intros (x & g & [->|?] & ? & ?); [left|right]; eauto.
  - intros [(g & ? & ?)|(x & g & ? & ? & ?)]; eauto 6.
Qed.

Lemma groupsLoop_spec single groups st st0 :
  (single = true -> length groups <= 1 /\ forall id, id ∉ st.2) ->
  (forall id, id ∈ st.2 -> exists gid g, GetGroup a gid = Some g /\ id ∈ g_Peers g) ->
  gp_ids st0 = [] -> gp_in st0 = false ->
  considered (fun id => id ∈ st.2) st0 st.1 ->
  considered (fun id => id ∈ st.2 \/ member groups id) st0
    (groupsLoop version_check a t checks V single groups st).
Proof.
  intros Hlen Hseen E1 E2. revert st Hlen Hseen.
  induction groups as [|gid groups IH]; intros st Hlen Hseen H; cbn [groupsLoop].
  { eapply considered_iff; [|exact H]. intros id. unfold in_account.
    split; [by left|]. by intros [?|(? & ? & ?%elem_of_nil & _)]. }
  assert (forall Q : gostring -> Prop, (forall id, Q id <-> id ∈ st.2 \/ member (gid :: groups) id) ->
    forall r, considered Q st0 r -> considered (fun id => id ∈ st.2 \/ member (gid :: groups) id) st0 r) as Hto.
  { intros Q HQ r. apply considered_iff. done. }
  destruct (GetGroup a gid) as [g|] eqn:Hg.
  - destruct (IsGroupAll g || single) eqn:Hs.
    + assert (considered (fun id => id ∈ g_Peers g) (mkGroupPeers [] false (gp_failed st.1))
        (foldl (considerPeer version_check a t checks V) (mkGroupPeers [] false (gp_failed st.1)) (g_Peers g))) as Hr.
      { eapply considered_iff, (considerPeers_spec (fun _ => False)); [|apply considered_refl; tauto]. cbn. tauto. }
      apply (Hto (fun id => id ∈ g_Peers g)).
      { intros id. rewrite member_cons. split; [eauto|]. destruct (IsGroupAll g) eqn:Ha.
        - intros [(h & x & ? & ?)%Hseen|[(h & ? & ?)|(h & x & _ & ? & ?)]]; by eapply (acc_all a Hok).
        - cbn in Hs. destruct (Hlen Hs) as [Hl Hemp]. destruct groups; [|cbn in Hl; lia].
          intros [?%Hemp|[(h & ? & ?)|(h & x & ?%elem_of_nil & _)]]; [done|congruence|done]. }
      destruct Hr as [R1 R2 R3 R4 R5], H as [H1 H2 H3 H4 H5]. cbn in *. split.
      * intros id. rewrite R1, E1. naive_solver.
      * rewrite R2, E2. naive_solver.
      * auto.
      * intros check id [?%H4|?]%R4; auto.
      * done.
    + apply orb_false_iff in Hs as [_ ->].
      destruct (considerNews_spec st0 st (g_Peers g) H) as [H' Hseen'].
      eapply considered_iff; [|apply IH; [done| |exact H']].
      * intros id. cbn. rewrite Hseen', member_cons. naive_solver.
      * intros id [?|?]%Hseen'; [auto|eauto].
  - eapply considered_iff; [|apply IH; [|done|exact H]].
    + intros id. cbn. rewrite member_cons. naive_solver.
    + intros Hs. destruct (Hlen Hs) as [Hl He]. cbn in Hl. split; [lia|done].
Qed.
End groups.

Lemma side_ids resource groups checks failed : [] ∉ checks ->
  let r := sideIDs version_check a resource groups t checks V failed in
  let side := account_side version_check a V resource groups checks in
  (forall id, side id -> id <> t -> id ∈ gp_ids r) /\ (gp_in r = true <-> side t) /\
  (forall check id, failed_at failed check id -> failed_at (gp_failed r) check id) /\
  (forall check id, failed_at (gp_failed r) check id -> failed_at failed check id \/ posture_fails check id) /\
  (isPeerResource resource = false -> forall id, member groups id -> approved id -> ~ side id ->
     exists check, check ∈ checks /\ failed_at (gp_failed r) check id).
Proof.
  intros Hc. cbn zeta. unfold sideIDs, account_side. destruct (isPeerResource resource); cbn.
  - split_and!; auto; [|by rewrite bool_decide_eq_true|done]. intros id -> _. by left.
  - unfold getPeersFromGroups.
    destruct (groupsLoop_spec checks Hc (bool_decide (length groups = 1)) groups
      (mkGroupPeers [] false failed, ∅) (mkGroupPeers [] false failed)) as [H1 H2 H3 H4 H5]; try done.
    { intros Hl%bool_decide_eq_true. split; [lia|]. intros id. cbn. set_solver. }
    { apply considered_refl. intros id. cbn. set_solver. }
    cbn in *. split_and!; [..|done|done|].
    + intros id (Hm & Ha & Hp) Hne. apply H1. right. split_and!; [by right|by split|done].
    + rewrite H2. split; [|intros (Hm & Ha & Hp); right; split; [by right|by split]].
      intros [?|[[[]%elem_of_empty|Hm] [Ha Hp]]]; done.
    + intros _ id Hm Ha Hn. apply H5; [by right|done|]. intros [_ Hp]. by apply Hn.
Qed.

(** ** The maps of the view *)
Definition maps : Type := gmap gostring (option Peer) * gmap gostring (option Group) * gmap gostring idset.

Definition has_peer (m : maps) (id : gostring) : Prop := is_Some (m.1.1 !! id).
Definition has_group (m : maps) (gid : gostring) : Prop := is_Some (m.1.2 !! gid).
Definition has_failed (m : maps) : gostring -> gostring -> Prop := failed_at m.2.

Record maps_ok (m : maps) : Prop := {
  mo_peers : forall id x, m.1.1 !! id = Some x -> x = GetPeer a id;
  mo_groups : forall gid x, m.1.2 !! gid = Some x -> x = GetGroup a gid;
  mo_failed : forall check id, has_failed m check id -> check = [] \/ posture_fails check id }.

Record maps_le (m m' : maps) : Prop := {
  ml_peers : forall id, has_peer m id -> has_peer m' id;
  ml_groups : forall gid, has_group m gid -> has_group m' gid;
  ml_failed : forall check id, has_failed m check id -> has_failed m' check id }.

#[local] Instance maps_le_preorder : PreOrder maps_le.
Proof. split; [by split|]. intros m1 m2 m3 [] []. split; auto. Qed.

Definition view_maps (v : View) : maps := (v_Peers v, v_Groups v, v_failed v).
Definition rv_maps (rv : ResourceView) : maps := (rv_Peers rv, rv_Groups rv, rv_failed rv).

(** Inserting the entries of the account. *)
Lemma add_entries {A} (get : gostring -> A) (ids : list gostring) (m : gmap gostring A) :
  (forall id x, m !! id = Some x -> x = get id) ->
  let m' := foldl (fun m id => <[id := get id]> m) m ids in
  (forall id x, m' !! id = Some x -> x = get id) /\
  (forall id, is_Some (m !! id) -> is_Some (m' !! id)) /\
  (forall id, id ∈ ids -> is_Some (m' !! id)).
Proof.
  cbn zeta. revert m. induction ids as [|i ids IH]; intros m H; cbn [foldl].
  { split_and!; [done|done|]. by intros id []%elem_of_nil. }
  destruct (IH (<[i := get i]> m)) as (H1 & H2 & H3).
  { intros id x. destruct (decide (id = i)) as [->|?].
    - rewrite lookup_insert_eq. by intros [= <-].
    - rewrite lookup_insert_ne by done. apply H. }
  split_and!; [done|..].
  - intros id ?. apply H2. by apply lookup_insert_is_Some'; right.
  - intros id [->|?]%elem_of_cons; [|auto]. apply H2. rewrite lookup_insert_eq. eauto.
Qed.

Lemma with_spec pids gids v : maps_ok (view_maps v) ->
  let v' := with_peers_groups a pids gids v in
  maps_ok (view_maps v') /\ maps_le (view_maps v) (view_maps v') /\
  (forall id, id ∈ pids -> has_peer (view_maps v') id) /\
  (forall gid, gid ∈ gids -> has_group (view_maps v') gid).
Proof.
  intros [H1 H2 H3]. cbn zeta.
  destruct (add_entries (GetPeer a) pids (v_Peers v) H1) as (P1 & P2 & P3).
  destruct (add_entries (GetGroup a) gids (v_Groups v) H2) as (G1 & G2 & G3).
  split_and!; try done; by split.
Qed.

Lemma requireSSH_maps ssh rule v : view_maps (requireSSH ssh rule v) = view_maps v.
Proof. unfold requireSSH. repeat case_decide; [done..|]. by destruct (_ && _). Qed.

(** What the view holds for a rule in force. *)
Record rule_done (policy : Policy) (rule : PolicyRule) (m : maps) (relevant : Prop) : Prop := {
  rd_failed : isPeerResource (pr_SourceResource rule) = false -> forall id,
    member (pr_Sources rule) id -> approved id -> ~ on_src policy rule id ->
    exists check, check ∈ po_SourcePostureChecks policy /\ has_failed m check id;
  rd_src : on_src policy rule t -> relevant /\
    (forall id, on_dst rule id -> id <> t -> has_peer m id) /\
    (forall gid, gid ∈ pr_Destinations rule -> has_group m gid);
  rd_dst : on_dst rule t -> relevant /\
    (forall id, on_src policy rule id -> id <> t -> has_peer m id) /\
    (forall gid, gid ∈ pr_Sources rule -> has_group m gid) }.

Lemma rule_done_le policy rule m m' (R R' : Prop) :
  maps_le m m' -> (R -> R') -> rule_done policy rule m R -> rule_done policy rule m' R'.
Proof.
  intros [L1 L2 L3] HR [H1 H2 H3]. split.
  - intros Hr id Hm Ha Hn. destruct (H1 Hr id Hm Ha Hn) as (check & ? & ?). eauto.
  - intros Ht. destruct (H2 Ht) as (? & ? & ?). split_and!; auto.
  - intros Ht. destruct (H3 Ht) as (? & ? & ?). split_and!; auto.
Qed.

(** ** Rules and policies *)
Definition step_ok (v v' : View) : Prop := maps_ok (view_maps v') /\ maps_le (view_maps v) (view_maps v').

Lemma viewRule_spec ssh racg policy rule v rel :
  [] ∉ po_SourcePostureChecks policy -> pr_Enabled rule = true -> maps_ok (view_maps v) ->
  let r := viewRule version_check a t ssh V racg (po_SourcePostureChecks policy) (v, rel) rule in
  step_ok v r.1 /\ (rel = true -> r.2 = true) /\ rule_done policy rule (view_maps r.1) (r.2 = true).
Proof.
  intros Hc He Hv. unfold viewRule. rewrite He. cbn [negb].
  set (first := if existsb _ _ then _ else _).
  assert (step_ok v first.1 /\ (rel = true -> first.2 = true)) as [[Hv1 Hle1] Hrel1].
  { unfold first. destruct (existsb _ _); [|by split_and!].
    destruct (with_spec [] (pr_Sources rule ++ pr_Destinations rule) v Hv) as (? & ? & _). done. }
  destruct first as [v1 rel1]. cbn [fst snd] in *.
  destruct (side_ids (pr_SourceResource rule) (pr_Sources rule) (po_SourcePostureChecks policy)
    (v_failed v1) Hc) as (S1 & S2 & S3 & S4 & S5).
  set (src := sideIDs _ _ (pr_SourceResource rule) _ _ _ _ _) in *.
  destruct (side_ids (pr_DestinationResource rule) (pr_Destinations rule) [] (gp_failed src)
    ltac:(by intros ?%elem_of_nil)) as (D1 & D2 & D3 & D4 & _).
  set (dst := sideIDs _ _ (pr_DestinationResource rule) _ _ _ _ _) in *.
  fold (on_src policy rule) in S1, S2, S5. fold (on_dst rule) in D1, D2.
  set (v2 := set_failed (gp_failed dst) v1).
  assert (step_ok v1 v2) as [Hv2 Hle2].
  { destruct Hv1 as [O1 O2 O3]. split; split; try done; unfold has_failed; cbn.
    - intros check id [[Hf|Hf]%S4|Hf]%D4; [by apply O3|by right..].
    - intros check id Hf. by apply D3, S3. }
  assert (isPeerResource (pr_SourceResource rule) = false -> forall id, member (pr_Sources rule) id ->
    approved id -> ~ on_src policy rule id ->
    exists check, check ∈ po_SourcePostureChecks policy /\ has_failed (view_maps v2) check id) as HF.
  { intros Hr id Hm Ha Hn. destruct (S5 Hr id Hm Ha Hn) as (check & ? & ?). exists check.
    split; [done|]. by apply D3. }
  clearbody src dst v2.
  set (third := if gp_in src then _ else _).
  assert (step_ok v2 third.1 /\ (rel1 = true -> third.2 = true) /\
    (on_src policy rule t -> third.2 = true /\
       (forall id, on_dst rule id -> id <> t -> has_peer (view_maps third.1) id) /\
       (forall gid, gid ∈ pr_Destinations rule -> has_group (view_maps third.1) gid))) as ([Hv3 Hle3] & Hrel3 & HS).
  { unfold third. destruct (gp_in src) eqn:Hin.
    - destruct (with_spec (gp_ids dst) (pr_Destinations rule) v2 Hv2) as (? & ? & ? & ?).
      split_and!; [by split|done|]. intros _. split_and!; [done|auto|done].
    - split_and!; [by split|done|]. intros ?%S2. congruence. }
  destruct third as [v3 rel3]. cbn [fst snd] in *.
  assert (maps_le (view_maps v) (view_maps v3)) as Hle by (etrans; [exact Hle1|]; by etrans).
  destruct (gp_in dst) eqn:Hin; cbn [fst snd].
  - destruct (with_spec (gp_ids src) (pr_Sources rule) v3 Hv3) as (Hv4 & Hle4 & HP & HG).
    unfold step_ok. rewrite requireSSH_maps. split_and!; [done|by etrans|done|]. split.
    + intros Hr id Hm Ha Hn. destruct (HF Hr id Hm Ha Hn) as (check & ? & ?). exists check.
      split; [done|]. by apply (ml_failed _ _ Hle4), (ml_failed _ _ Hle3).
    + intros (_ & H1 & H2)%HS. split_and!; [done|..].
      * intros id ? ?. apply (ml_peers _ _ Hle4). auto.
      * intros gid ?. apply (ml_groups _ _ Hle4). auto.
    + intros _. split_and!; auto.
  - split_and!; [by split|auto|]. split.
    + intros Hr id Hm Ha Hn. destruct (HF Hr id Hm Ha Hn) as (check & ? & ?). exists check.
      split; [done|]. by apply (ml_failed _ _ Hle3).
    + auto.
    + intros ?%D2. congruence.
Qed.

Lemma viewRules_spec ssh racg policy rules v rel :
  [] ∉ po_SourcePostureChecks policy -> maps_ok (view_maps v) ->
  let r := foldl (viewRule version_check a t ssh V racg (po_SourcePostureChecks policy)) (v, rel) rules in
  step_ok v r.1 /\ (rel = true -> r.2 = true) /\
  (forall rule, rule ∈ rules -> pr_Enabled rule = true -> rule_done policy rule (view_maps r.1) (r.2 = true)).
Proof.
  intros Hc. cbn zeta. revert v rel. induction rules as [|rule rules IH]; intros v rel Hv; cbn [foldl].
  { split_and!; [by split|done|]. by intros ? []%elem_of_nil. }
  destruct (pr_Enabled rule) eqn:He.
  - destruct (viewRule_spec ssh racg policy rule v rel Hc He Hv) as ([Hv1 Hle1] & Hr1 & Hd).
    destruct (viewRule _ _ _ _ _ _ _ _ _) as [v1 rel1]. cbn [fst snd] in *.
    destruct (IH v1 rel1 Hv1) as ([Hv2 Hle2] & Hr2 & Hds).
    split_and!; [split; [done|by etrans]|auto|].
    intros r [->|Hin]%elem_of_cons Hre; [|auto]. by eapply rule_done_le.
  - replace (viewRule version_check a t ssh V racg (po_SourcePostureChecks policy) (v, rel) rule) with (v, rel)
      by (unfold viewRule; by rewrite He).
    destruct (IH v rel Hv) as (? & ? & Hds). split_and!; [done..|].
    intros r [->|Hin]%elem_of_cons Hre; [congruence|auto].
Qed.

Definition policies_done (v : View) (policies done : list Policy) : Prop :=
  (forall p, p ∈ policies -> p ∈ done /\ po_Enabled p = true) /\
  (forall p rule, p ∈ done -> po_Enabled p = true -> rule ∈ po_Rules p -> pr_Enabled rule = true ->
     rule_done p rule (view_maps v) (p ∈ policies)).

Lemma viewPolicies_spec ssh racg l v policies done_ :
  (forall p, p ∈ l -> [] ∉ po_SourcePostureChecks p) -> maps_ok (view_maps v) ->
  policies_done v policies done_ ->
  let r := foldl (viewPolicy version_check a t ssh V racg) (v, policies) l in
  step_ok v r.1 /\ policies_done r.1 r.2 (done_ ++ l).
Proof.
  cbn zeta. revert v policies done_. induction l as [|p l IH]; intros v policies done_ Hc Hv [Hp1 Hp2]; cbn [foldl].
  { rewrite app_nil_r. split; [by split|]. by split. }
  replace (done_ ++ p :: l) with ((done_ ++ [p]) ++ l) by by rewrite <- app_assoc.
  assert (forall q, q ∈ l -> [] ∉ po_SourcePostureChecks q) as Hc' by (intros q ?; apply Hc; by right).
  unfold viewPolicy at 2 4 6. destruct (po_Enabled p) eqn:He; cbn [negb].
  - destruct (viewRules_spec ssh racg p (po_Rules p) v false (Hc p ltac:(by left)) Hv) as ([Hv1 Hle1] & _ & Hd).
    destruct (foldl _ (v, false) (po_Rules p)) as [v1 rel]. cbn [fst snd] in *.
    edestruct (IH v1 (if rel then policies ++ [p] else policies) (done_ ++ [p]) Hc' Hv1) as [[Hv2 Hle2] Hd2].
    + assert (forall q, q ∈ (if rel then policies ++ [p] else policies) <-> q ∈ policies \/ (rel = true /\ q = p)) as Hin.
      { intros q. destruct rel.
        - rewrite elem_of_app, list_elem_of_singleton. split; [intros [?|?]; auto|by intros [?|[_ ?]]; auto].
        - split; [by left|by intros [?|[? _]]]. }
      split.
      * intros q [Hq|[_ ->]]%Hin; rewrite elem_of_app, list_elem_of_singleton; [|by auto].
        destruct (Hp1 q Hq). auto.
      * intros q rule [Hq| ->%list_elem_of_singleton]%elem_of_app Hqe Hr Hre.
        -- eapply rule_done_le; [exact Hle1| |by apply Hp2]. intros ?. apply Hin. by left.
        -- eapply rule_done_le; [reflexivity| |by apply Hd]. intros ?. apply Hin. by right.
    + split; [split; [done|by etrans]|done].
  - edestruct (IH v policies (done_ ++ [p]) Hc' Hv) as [H1 H2]; [|by split].
    split.
    + intros q Hq. rewrite elem_of_app. destruct (Hp1 q Hq). auto.
    + intros q rule [Hq| ->%list_elem_of_singleton]%elem_of_app Hqe; [by apply Hp2|congruence].
Qed.

(** The first stage of the view. *)
Lemma first_stage ssh v policies routes :
  is_Some (GetPeer a t) ->
  getPeersGroupsPoliciesRoutes version_check ord a t ssh V ∅ = (v, policies, routes) ->
  maps_ok (view_maps v) /\ has_peer (view_maps v) t /\
  (forall gid g, GetGroup a gid = Some g -> t ∈ g_Peers g -> has_group (view_maps v) gid) /\
  (forall r gid, r ∈ accountRoutes ord a -> gid ∈ routeGroups r -> has_group (view_maps v) gid) /\
  policies_done v policies (a_Policies a).
Proof.
  intros Ht. unfold getPeersGroupsPoliciesRoutes. cbn zeta.
  match goal with |- context [viewPolicy _ _ _ _ _ ?r] => generalize r; intros racg end.
  destruct (foldl _ _ _) as [v' policies'] eqn:Hf. intros [= <- <- <-].
  destruct (add_entries (GetGroup a) (peerGroupIDs ord a t) ∅) as (G1 & _ & G3).
  { intros ? ? ?. by rewrite lookup_empty in *. }
  destruct (add_entries (GetGroup a) (accountRoutes ord a ≫= routeGroups) _ G1) as (R1 & R2 & R3).
  destruct (viewPolicies_spec ssh racg (a_Policies a)
    (mkView {[t := GetPeer a t]} (addGroups a (accountRoutes ord a ≫= routeGroups)
       (addGroups a (peerGroupIDs ord a t) ∅)) ∅ ∅ false) [] []) as [[Hv Hle] Hd].
  - intros p. apply (acc_checks a Hok).
  - split; cbn.
    + intros id x. rewrite lookup_singleton_Some. by intros [<- <-].
    + exact R1.
    + intros check id (s & Hs & _). cbn in Hs. by rewrite lookup_empty in Hs.
  - split; [by intros ? []%elem_of_nil|by intros ? ? []%elem_of_nil].
  - rewrite Hf in *. cbn [fst snd app] in *. split_and!; [done|..].
    + apply (ml_peers _ _ Hle). unfold has_peer. cbn. rewrite lookup_singleton_eq. eauto.
    + intros gid g Hg Htg. apply (ml_groups _ _ Hle). apply (R2 gid), G3. unfold peerGroupIDs.
      apply list_elem_of_filter. rewrite Hg, (ord_elem _ _ _ Hord), elem_of_dom. split; [by apply bool_decide_true|].
      unfold GetGroup in Hg. eauto.
    + intros r gid Hr Hgid. apply (ml_groups _ _ Hle). apply (R3 gid), list_elem_of_bind. eauto.
    + done.
Qed.

(** ** Resources *)
Definition rstep (rv rv' : ResourceView) : Prop :=
  (maps_ok (rv_maps rv) -> maps_ok (rv_maps rv')) /\ maps_le (rv_maps rv) (rv_maps rv').

#[local] Instance rstep_preorder : PreOrder rstep.
Proof. split; [by split|]. intros x y z [] []. split; [auto|by etrans]. Qed.

(** A step that keeps two of the maps. *)
Lemma rstep_maps rv rv' :
  (forall id x, rv_Peers rv' !! id = Some x -> rv_Peers rv !! id = Some x \/ x = GetPeer a id) ->
  (forall id, is_Some (rv_Peers rv !! id) -> is_Some (rv_Peers rv' !! id)) ->
  (forall gid x, rv_Groups rv' !! gid = Some x -> rv_Groups rv !! gid = Some x \/ x = GetGroup a gid) ->
  (forall gid, is_Some (rv_Groups rv !! gid) -> is_Some (rv_Groups rv' !! gid)) ->
  (forall check id, failed_at (rv_failed rv') check id ->
     failed_at (rv_failed rv) check id \/ check = [] \/ posture_fails check id) ->
  (forall check id, failed_at (rv_failed rv) check id -> failed_at (rv_failed rv') check id) ->
  rstep rv rv'.
Proof.
  intros P1 P2 G1 G2 F1 F2. split; [|by split]. intros [O1 O2 O3]. split.
  - intros id x [?%O1|?]%P1; done.
  - intros id x [?%O2|?]%G1; done.
  - intros check id [?%O3|?]%F1; done.
Qed.

Lemma insert_new_lookup {A} i (y : A) m id x :
  insert_new i y m !! id = Some x -> m !! id = Some x \/ (id = i /\ x = y).
Proof.
  unfold insert_new. case_decide; [by left|]. destruct (decide (id = i)) as [->|?].
  - rewrite lookup_insert_eq. intros [= <-]. by right.
  - rewrite lookup_insert_ne by done. by left.
Qed.

Lemma insert_new_mono {A} i (y : A) m id : is_Some (m !! id) -> is_Some (insert_new i y m !! id).
Proof. unfold insert_new. case_decide; [done|]. intros ?. by apply lookup_insert_is_Some'; right. Qed.

Lemma add_valid ids m :
  (forall id x, foldl (fun m pID => insert_new pID (GetPeer a pID) m) m ids !! id = Some x ->
     m !! id = Some x \/ x = GetPeer a id) /\
  (forall id, is_Some (m !! id) -> is_Some (foldl (fun m pID => insert_new pID (GetPeer a pID) m) m ids !! id)).
Proof.
  revert m. induction ids as [|i ids IH]; intros m; cbn [foldl]; [split; auto|].
  destruct (IH (insert_new i (GetPeer a i) m)) as [H1 H2]. split.
  - intros id x [[?|[-> ->]]%insert_new_lookup|?]%H1; auto.
  - intros id ?. apply H2. by apply insert_new_mono.
Qed.

Lemma add_policy_groups policy m :
  (forall gid x, addPolicyGroups a policy m !! gid = Some x -> m !! gid = Some x \/ x = GetGroup a gid) /\
  (forall gid, is_Some (m !! gid) -> is_Some (addPolicyGroups a policy m !! gid)).
Proof.
  unfold addPolicyGroups. generalize (po_Rules policy ≫= fun rule => pr_Sources rule ++ pr_Destinations rule).
  intros l. revert m. induction l as [|i l IH]; intros m; cbn [foldl]; [split; auto|].
  destruct (GetGroup a i) as [g|] eqn:Hg; [|apply IH].
  destruct (IH (insert_new i (Some g) m)) as [H1 H2]. split.
  - intros gid x [[?|[-> ->]]%insert_new_lookup|?]%H1; auto.
  - intros gid ?. apply H2. by apply insert_new_mono.
Qed.

Lemma validate_failed checks id b pname :
  validatePostureChecksOnPeerGetFailed version_check a checks id = (b, pname) ->
  b = false -> pname = [] \/ posture_fails pname id.
Proof.
  unfold validatePostureChecksOnPeerGetFailed. destruct (GetPeer a id) as [peer|] eqn:Hp.
  - pose proof (firstFailed_spec peer id checks Hp) as H. intros E ->. rewrite E in H. by right; destruct H.
  - intros [= <- <-] _. by left.
Qed.

Lemma save_failed peers checks dest failed :
  let r := foldl (fun '(dest, failed) peerID =>
    if decide (peerID ∉ V) then (dest, failed) else
    let '(valid, pname) := validatePostureChecksOnPeerGetFailed version_check a checks peerID in
    if (valid : bool) then (dest ++ [peerID], failed) else (dest, recordFailure pname peerID failed))
    (dest, failed) peers in
  (forall check id, failed_at r.2 check id -> failed_at failed check id \/ check = [] \/ posture_fails check id) /\
  (forall check id, failed_at failed check id -> failed_at r.2 check id).
Proof.
  cbn zeta. revert dest failed. induction peers as [|i peers IH]; intros dest failed; cbn [foldl]; [by split; auto|].
  destruct (decide (i ∉ V)); [apply IH|].
  destruct (validatePostureChecksOnPeerGetFailed version_check a checks i) as [valid pname] eqn:Hv.
  destruct valid; [apply IH|]. destruct (IH dest (recordFailure pname i failed)) as [H1 H2].
  pose proof (validate_failed _ _ _ _ Hv eq_refl) as Hf. split.
  - intros check id [[?|[-> ->]]%recordFailure_at|?]%H1; auto.
  - intros check id ?. apply H2, recordFailure_at. by left.
Qed.

Lemma resourcePolicy_step rule0 policy add rv :
  rstep rv (resourcePolicy version_check ord a t V rule0 policy add rv).1.2.
Proof.
  unfold resourcePolicy. destruct add.
  - cbn zeta. unfold getPostureValidPeersSaveFailed.
    match goal with |- context [foldl _ ([], rv_failed rv) ?l] =>
      pose proof (save_failed l (po_SourcePostureChecks policy) [] (rv_failed rv)) as [F1 F2] end.
    destruct (foldl _ _ _) as [valid failed]. cbn [fst snd] in *.
    destruct (add_valid valid (rv_Peers rv)) as [P1 P2]. apply rstep_maps; cbn; auto.
  - cbn zeta. destruct (negb _); [reflexivity|].
    destruct (validatePostureChecksOnPeerGetFailed version_check a (po_SourcePostureChecks policy) t)
      as [isv pname] eqn:Hv.
    destruct (negb isv && _) eqn:Hb; [|reflexivity]. apply andb_true_iff in Hb as [Hb%negb_true_iff _].
    pose proof (validate_failed _ _ _ _ Hv Hb) as Hf.
    assert (default t (p_ID <$> GetPeer a t) = t) as ->.
    { destruct (GetPeer a t) as [tp|] eqn:Ht; [by apply (acc_ids a Hok)|done]. }
    apply rstep_maps; cbn; auto.
    + intros check id [?|[-> ->]]%recordFailure_at; auto.
    + intros check id ?. apply recordFailure_at. by left.
Qed.

Lemma resourcePolicies_step resourceID all policies add rv add' rv' :
  resourcePolicies version_check ord a t resourceID V all policies add rv = Ok (add', rv') -> rstep rv rv'.
Proof.
  revert add rv. induction policies as [|policy policies IH]; intros add rv; cbn [resourcePolicies].
  { by intros [= <- <-]. }
  destruct (go_index (po_Rules policy) 0) as [rule0| |]; cbn [mbind res_bind]; [|done..].
  pose proof (resourcePolicy_step rule0 policy add rv) as H.
  destruct (resourcePolicy _ _ _ _ _ _ _ _ _) as [[add1 rv1] proceed]. cbn [fst snd] in H.
  intros E%IH. etrans; [exact H|]. etrans; [|exact E]. destruct proceed; [|reflexivity].
  destruct (add_policy_groups policy (rv_Groups rv1)) as [G1 G2]. apply rstep_maps; cbn; auto.
Qed.

Lemma addRouter_step rv ids : rstep rv (foldl (addRouter a V) rv ids).
Proof.
  revert rv. induction ids as [|i ids IH]; intros rv; cbn [foldl]; [reflexivity|].
  etrans; [|apply IH]. unfold addRouter. destruct (GetPeer a i) as [p|] eqn:Hp; [|reflexivity].
  apply rstep_maps; cbn; auto; case_decide; auto.
  - intros id x [?|[-> ->]]%insert_new_lookup; auto.
  - intros id. apply insert_new_mono.
Qed.

Lemma viewResources_step policiesOf routers resources rv rv' :
  viewResources version_check ord a t V policiesOf routers resources rv = Ok rv' -> rstep rv rv'.
Proof.
  revert rv. induction resources as [|resource resources IH]; intros rv; cbn [viewResources].
  { by intros [= <-]. }
  unfold viewResource. destruct (negb (nr_Enabled resource)); cbn [mbind res_bind]; [apply IH|].
  destruct (policiesOf !! nr_ID resource) as [policies|]; cbn [mbind res_bind]; [|apply IH].
  destruct (resourcePolicies _ _ _ _ _ _ _ _ _ _) as [[add rv1]| |] eqn:Hr; cbn [mbind res_bind]; [|done..].
  apply resourcePolicies_step in Hr. intros E%IH. etrans; [exact Hr|]. etrans; [|exact E].
  match goal with |- context [foldl (addRouter a V) ?x ?l] => pose proof (addRouter_step x l) as Hs end.
  destruct Hs as [S1 S2]. split.
  - intros Ho. exact (S1 Ho).
  - exact S2.
Qed.

(** ** The filters *)
Lemma filter_full {A} (P : A -> Prop) `{!forall x, Decision (P x)} (l : list A) :
  length (filter P l) = length l -> forall x, x ∈ l -> P x.
Proof.
  induction l as [|y l IH]; [by intros _ x []%elem_of_nil|]. rewrite filter_cons.
  pose proof (length_filter P l) as Hle. case_decide as Hy; cbn; [|intros; lia].
  intros [= Hlen] x [->|?]%elem_of_cons; [done|by apply IH].
Qed.

Lemma filterGroup_Some peers g g' : filterGroup peers g = Some g' ->
  g_Name g' = g_Name g /\ forall id, id ∈ g_Peers g' <-> id ∈ g_Peers g /\ is_Some (peers !! id).
Proof.
  unfold filterGroup. case_decide; [done|]. case_decide as Hl; intros [= <-]; cbn; (split; [done|]); intros id.
  - rewrite list_elem_of_filter. split; intros [? ?]; done.
  - assert (length (filter (fun pid => is_Some (peers !! pid)) (g_Peers g)) = length (g_Peers g)) as Hl'
      by lia.
    split; [|by intros [? _]]. intros Hin. split; [done|by apply (filter_full _ _ Hl')].
Qed.

Lemma filterGroup_keeps peers g id : id ∈ g_Peers g -> is_Some (peers !! id) ->
  exists g', filterGroup peers g = Some g'.
Proof.
  intros Hin Hp. unfold filterGroup. case_decide as H0; [|case_decide; eauto].
  apply length_zero_iff_nil in H0. exfalso. eapply (not_elem_of_nil id). rewrite <- H0.
  apply list_elem_of_filter. done.
Qed.

(** [c] is the view with the unfiltered maps [m]. *)
Record view_of (c : NetworkMapComponents) (m : maps) : Prop := {
  vw_id : PeerID c = t;
  vw_ok : maps_ok m;
  vw_t : has_peer m t;
  vw_tgroups : forall gid g, GetGroup a gid = Some g -> t ∈ g_Peers g -> has_group m gid;
  vw_peers : Peers c = m.1.1;
  vw_groups : forall gid g', GetGroupInfo c gid = Some g' <->
    exists g, has_group m gid /\ GetGroup a gid = Some g /\ filterGroup m.1.1 g = Some g';
  vw_groups_ok : groups_ok c;
  vw_failed_sound : forall check id, failed_at (PostureFailedPeers c) check id -> has_failed m check id;
  vw_failed : forall policy check id, policy ∈ Policies c -> check ∈ po_SourcePostureChecks policy ->
    has_failed m check id -> has_peer m id -> failed_at (PostureFailedPeers c) check id;
  vw_policies : forall policy, policy ∈ Policies c -> policy ∈ a_Policies a /\ po_Enabled policy = true;
  vw_rules : forall policy rule, account_in_force a policy rule ->
    rule_done policy rule m (policy ∈ Policies c) }.

Lemma filter_failed_spec failed policies rp peers check id :
  failed_at (filterPostureFailedPeers failed policies rp peers) check id ->
  failed_at failed check id.
Proof.
  unfold failed_at, filterPostureFailedPeers. intros (s & Hs & Hid). rewrite map_lookup_imap in Hs.
  destruct (failed !! check) as [s'|]; cbn in Hs; [|done]. repeat case_decide; try done.
  injection Hs as <-. apply elem_of_filter in Hid as [_ ?]. eauto.
Qed.

Lemma filter_failed_keeps failed policies rp peers policy check id :
  policy ∈ policies -> check ∈ po_SourcePostureChecks policy -> failed_at failed check id ->
  is_Some (peers !! id) -> failed_at (filterPostureFailedPeers failed policies rp peers) check id.
Proof.
  intros Hp Hc (s & Hs & Hid) Hpeer. unfold failed_at, filterPostureFailedPeers.
  assert (id ∈ filter (fun id => is_Some (peers !! id)) s) as Hin by (by apply elem_of_filter).
  eexists. rewrite map_lookup_imap, Hs. cbn. rewrite decide_False.
  2:{ intros Hn. apply Hn, elem_of_list_to_set, elem_of_app. left. apply list_elem_of_bind. eauto. }
  rewrite decide_False; [done|]. intros H0%size_empty_inv. set_solver.
Qed.

Lemma filter_groups_spec groups peers groups' : filterGroupPeers groups peers = Ok groups' ->
  (forall gid x, groups !! gid = Some x -> x = GetGroup a gid) ->
  map_Forall (fun _ g => is_Some g) groups' /\
  forall gid g', groups' !! gid = Some (Some g') <->
    exists g, is_Some (groups !! gid) /\ GetGroup a gid = Some g /\ filterGroup peers g = Some g'.
Proof.
  unfold filterGroupPeers. case_decide as Hall; [|done]. intros [= <-] Hg. split.
  - intros gid x. rewrite lookup_omap. destruct (groups !! gid) as [[g|]|]; cbn; [|done..].
    destruct (filterGroup peers g); cbn; [intros [= <-]; eauto|done].
  - intros gid g'. rewrite lookup_omap. destruct (groups !! gid) as [x|] eqn:Hx; cbn.
    + pose proof (Hg _ _ Hx) as Hx'. destruct x as [g|].
      * rewrite <- Hx'. split.
        -- intros H. exists g. split_and!; [eauto|done|]. destruct (filterGroup peers g); cbn in H; congruence.
        -- intros (g0 & _ & [= <-] & ->). done.
      * destruct (Hall _ _ Hx) as [? ?]. done.
    + split; [done|]. intros (g & [? ?] & _). done.
Qed.

Lemma components_view cz zones policiesOf routers users tp c :
  GetPeer a t = Some tp ->
  GetPeerNetworkMapComponents version_check ord a t cz zones V policiesOf routers users = Ok (Some c) ->
  exists m, view_of c m.
Proof.
  intros Ht. unfold GetPeerNetworkMapComponents. rewrite Ht. case_decide; [done|].
  destruct (getPeersGroupsPoliciesRoutes _ _ _ _ _ _ _) as [[v policies] routes] eqn:Hv.
  destruct (first_stage _ _ _ _ (mk_is_Some _ _ Ht) Hv) as (Ho & Hpt & Hgt & _ & Hpol & Hdone).
  destruct (viewResources _ _ _ _ _ _ _ _ _) as [rv| |] eqn:Hr; cbn [mbind res_bind]; [|done..].
  apply viewResources_step in Hr as [Hok' Hle]. specialize (Hok' Ho).
  destruct (filterGroupPeers _ _) as [groups| |] eqn:Hg; cbn [mbind res_bind]; [|done..].
  intros [= <-]. exists (rv_maps rv).
  destruct (filter_groups_spec _ _ _ Hg (mo_groups _ Hok')) as [Hgo Hgs].
  split; cbn; try done.
  - by apply (ml_peers _ _ Hle).
  - intros gid g ? ?. apply (ml_groups _ _ Hle). by eapply Hgt.
  - intros gid g'. unfold GetGroupInfo. cbn. etrans; [|exact (Hgs gid g')].
    destruct (groups !! gid) as [x|]; cbn; [|done]. split; [by intros ->|congruence].
  - intros check id. apply filter_failed_spec.
  - intros policy check id. apply filter_failed_keeps.
  - intros policy rule (Hp & He & Hin & Hre). eapply rule_done_le; [exact Hle| |by apply Hdone]. done.
Qed.

(** ** The policies on the view *)
Section on_view.
Context (c : NetworkMapComponents) (m : maps) (Hc : view_of c m).

Lemma view_peer id : GetPeerInfo c id = (if decide (has_peer m id) then GetPeer a id else None).
Proof.
  unfold GetPeerInfo. rewrite (vw_peers _ _ Hc). unfold has_peer. case_decide as H.
  - destruct H as [x Hx]. rewrite Hx. cbn. by apply (mo_peers _ (vw_ok _ _ Hc)).
  - destruct (m.1.1 !! id); [|done]. exfalso. eauto.
Qed.

Lemma view_groups groups id :
  in_groups c groups id <-> exists gid g, gid ∈ groups /\ GetGroup a gid = Some g /\ id ∈ g_Peers g /\
    has_group m gid /\ has_peer m id.
Proof.
  unfold in_groups. setoid_rewrite (vw_groups _ _ Hc). split.
  - intros (gid & g' & Hin & (g & Hm & Hg & Hf) & Hid). apply filterGroup_Some in Hf as [_ Hf].
    apply Hf in Hid as [? ?]. exists gid, g. done.
  - intros (gid & g & Hin & Hg & Hid & Hm & Hp). destruct (filterGroup_keeps _ _ _ Hid Hp) as [g' Hf].
    exists gid, g'. split_and!; [done|eauto|]. apply filterGroup_Some in Hf as [_ Hf]. by apply Hf.
Qed.

Lemma view_validate id checks :
  ValidatePostureChecksOnPeer c id checks = true <->
  has_peer m id /\ forall check, check ∈ checks -> ~ failed_at (PostureFailedPeers c) check id.
Proof.
  unfold ValidatePostureChecksOnPeer, peer_exists. rewrite (vw_peers _ _ Hc). unfold has_peer.
  case_bool_decide as Hp; cbn [negb]; [|split; [done|tauto]].
  rewrite forallb_forall. setoid_rewrite <- list_elem_of_In. unfold failed_at. split.
  - intros H. split; [done|]. intros check Hin (s & Hs & Hid). specialize (H check Hin). rewrite Hs in H.
    by rewrite bool_decide_true in H.
  - intros [_ H] check Hin. destruct (PostureFailedPeers c !! check) as [s|] eqn:Hs; [|done].
    rewrite bool_decide_false; [done|]. intros Hid. apply (H check Hin). eauto.
Qed.

Lemma view_src_sound policy rule id : account_in_force a policy rule -> policy ∈ Policies c ->
  approved id -> on_side c (pr_SourceResource rule) (pr_Sources rule) (po_SourcePostureChecks policy) id ->
  on_src policy rule id.
Proof.
  intros Hf Hp Ha. pose proof (rd_failed _ _ _ _ (vw_rules _ _ Hc _ _ Hf)) as Hd.
  unfold on_side, NetMapView.on_src, account_side in *. destruct (isPeerResource _); [done|].
  intros [Hg [Hpeer Hv]%view_validate]. apply view_groups in Hg as (gid & g & ? & ? & ? & _).
  assert (member (pr_Sources rule) id) as Hm by (exists gid, g; done). split_and!; [done..|].
  intros check Hin Hfail. destruct (Hd eq_refl id Hm Ha) as (check' & Hin' & Hf').
  { intros (_ & _ & Hall). by apply (Hall check). }
  apply (Hv check' Hin'). by eapply (vw_failed _ _ Hc).
Qed.

Lemma view_dst_sound rule id : approved id ->
  on_side c (pr_DestinationResource rule) (pr_Destinations rule) [] id -> on_dst rule id.
Proof.
  intros Ha. unfold on_side, NetMapView.on_dst, account_side. destruct (isPeerResource _); [done|].
  intros [(gid & g & ? & ? & ? & _)%view_groups _]. split_and!; [exists gid, g; done|done|].
  by intros ? []%elem_of_nil.
Qed.

(** The groups of a side that matter for [id] are in the view. *)
Definition groups_in (groups : list gostring) (id : gostring) : Prop :=
  id = t \/ forall gid, gid ∈ groups -> has_group m gid.

Lemma view_side_complete resource groups checks id : [] ∉ checks -> has_peer m id -> groups_in groups id ->
  account_side version_check a V resource groups checks id -> on_side c resource groups checks id.
Proof.
  intros Hn Hp Hg. unfold account_side, on_side. destruct (isPeerResource _); [done|].
  intros ((gid & g & Hin & Hgid & Hid) & Ha & Hf). split.
  - apply view_groups. exists gid, g. split_and!; try done.
    destruct Hg as [->|Hg]; [by eapply (vw_tgroups _ _ Hc)|auto].
  - apply view_validate. split; [done|]. intros check Hc' Hfa%(vw_failed_sound _ _ Hc).
    apply (mo_failed _ (vw_ok _ _ Hc)) in Hfa as [->|Hfa]; [done|by eapply Hf].
Qed.

Lemma view_linked policy rule x y : account_in_force a policy rule ->
  approved x -> approved y -> x <> y -> x = t \/ y = t ->
  (linked c policy rule x y /\ policy ∈ Policies c /\ has_peer m x /\ has_peer m y) <->
  on_src policy rule x /\ on_dst rule y.
Proof.
  intros Hf Hx Hy Hne Ht. pose proof (vw_rules _ _ Hc _ _ Hf) as [_ Hs Hd]. pose proof (vw_t _ _ Hc) as Hpt.
  assert ([] ∉ po_SourcePostureChecks policy) as Hn by (destruct Hf; by apply (acc_checks a Hok)). split.
  - intros ([Hsx Hdy] & Hp & _ & _). split; [by apply view_src_sound|by apply view_dst_sound].
  - intros [Hsx Hdy].
    assert (policy ∈ Policies c /\ has_peer m x /\ has_peer m y /\ groups_in (pr_Sources rule) x /\
      groups_in (pr_Destinations rule) y) as (Hp & Px & Py & Gx & Gy).
    { destruct Ht as [->| ->].
      - destruct (Hs Hsx) as (? & ? & ?). split_and!; try done; [by auto|by left|by right].
      - destruct (Hd Hdy) as (? & ? & ?). split_and!; try done; [by auto|by right|by left]. }
    split_and!; try done. split; apply view_side_complete; try done. by intros []%elem_of_nil.
Qed.

Lemma view_allowed q dir rule : approved t -> approved q -> q <> t ->
  (allowed c t q dir rule /\ has_peer m q) <-> account_allowed version_check a V t q dir rule.
Proof.
  intros At Aq Hne. pose proof (vw_t _ _ Hc) as Hpt.
  assert (forall policy, account_in_force a policy rule ->
    ((linked c policy rule t q /\ policy ∈ Policies c /\ has_peer m q) <-> on_src policy rule t /\ on_dst rule q) /\
    ((linked c policy rule q t /\ policy ∈ Policies c /\ has_peer m q) <-> on_src policy rule q /\ on_dst rule t))
    as Hl.
  { intros policy Hf. rewrite <- (view_linked policy rule t q) by auto.
    rewrite <- (view_linked policy rule q t) by auto. tauto. }
  assert (forall policy, in_force c policy rule <-> account_in_force a policy rule /\ policy ∈ Policies c) as Hin.
  { intros policy. unfold in_force, account_in_force. split.
    - intros (Hp & ? & ? & ?). destruct (vw_policies _ _ Hc _ Hp). done.
    - intros [(_ & ? & ? & ?) ?]. done. }
  unfold allowed, account_allowed. setoid_rewrite Hin. split.
  - intros [(policy & [Hf Hp] & H) Hq]. exists policy. split; [done|]. destruct (Hl policy Hf) as [<- <-]. tauto.
  - intros (policy & Hf & H). destruct (Hl policy Hf) as [Hl1 Hl2]. rewrite <- Hl1, <- Hl2 in H.
    split; [|tauto]. exists policy. tauto.
Qed.
End on_view.
End view.
