(* ===== verification/NetMapAccess.v ===== *)
(** * Network maps of an account
      (GetPeerNetworkMapFromComponents in account_components.go)

    The view of a peer and the calculation put together: what the policies
    of the account allow is what the network maps of its peers say, although
    each map is calculated from a view of its own. *)

From Stdlib Require Import ZArith Lia Ascii String.
From stdpp Require Import base gmap strings numbers list fin_maps.
From S2P Require Import Prelude Netip GoStrings AddrText I2pSam NetMapTypes Posture NetMapCalc NetMapConn NetMapPorts NetMapResources NetMapRouteRules NetworkMap NetMapTheorems NetMapAccount NetMapView.

(** All peers of the account, for the facts on addresses. *)
Definition whole (a : Account) : NetworkMapComponents :=
  mkComponents [] (a_Network a) (a_Settings a) [] [] (Some <$> a_Peers a) (Some <$> a_Groups a)
    (a_Policies a) [] [] [] [] ∅ ∅ [] ∅ None ∅ ∅.

Lemma whole_peer a id : GetPeerInfo (whole a) id = GetPeer a id.
Proof. unfold GetPeerInfo, GetPeer. cbn. rewrite lookup_fmap. by destruct (a_Peers a !! id). Qed.

Lemma whole_addresses a : account_ok a -> addresses_ok (whole a).
Proof.
  intros Hok. split; intros *; rewrite ?whole_peer.
  - apply (acc_v4 a Hok).
  - apply (acc_v6 a Hok).
  - apply (acc_own a Hok).
Qed.

(** ** The view is a proper input of the calculation *)
Section components.
Context (version_check : gostring -> gostring -> option bool) (a : Account) (Hok : account_ok a) (V : idset)
  (t : gostring) (c : NetworkMapComponents) (m : maps) (Hc : view_of version_check a V t c m).

Lemma view_info id p : GetPeerInfo c id = Some p -> GetPeer a id = Some p /\ has_peer m id.
Proof. rewrite (view_peer version_check a V t c m Hc). by case_decide. Qed.

Lemma view_in_force policy rule :
  in_force c policy rule -> account_in_force a policy rule /\ policy ∈ Policies c.
Proof.
  intros (Hp & He & Hr & Hre). destruct (vw_policies _ _ _ _ _ _ Hc _ Hp). by split_and!.
Qed.

Lemma view_components_ok : components_ok c.
Proof.
  split.
  - intros id p [Hp _]%view_info. by apply (acc_ids a Hok).
  - intros g1 h1 g2 h2 id H1 Hall H2 Hin.
    apply (vw_groups _ _ _ _ _ _ Hc) in H1 as (h1' & _ & G1 & F1).
    apply (vw_groups _ _ _ _ _ _ Hc) in H2 as (h2' & _ & G2 & F2).
    apply filterGroup_Some in F1 as [N1 F1]. apply filterGroup_Some in F2 as [_ F2].
    apply F2 in Hin as [Hin Hp]. apply F1. split; [|done].
    apply (acc_all a Hok _ _ G1) with (hid := g2) (h := h2'); [|done..].
    unfold IsGroupAll in *. by rewrite <- N1.
  - intros p1 r1 p2 r2 [H1 _]%view_in_force [H2 _]%view_in_force. by eapply (acc_rules a Hok).
  - split.
    + intros id p [Hp _]%view_info. by eapply (acc_v4 a Hok).
    + intros id p [Hp _]%view_info. by eapply (acc_v6 a Hok).
    + intros i j p q [Hp _]%view_info [Hq _]%view_info. by eapply (acc_own a Hok).
Qed.
End components.

Section account.
Context (version_check : gostring -> gostring -> option bool)
  (idna_ToUnicode idna_ToASCII : gostring -> option gostring)
  (unicode_lower : gostring -> gostring)
  (ord : idset -> list gostring) (Hord : enumerates ord) (now : nat -> Z)
  (a : Account) (Hok : account_ok a) (V : idset) (cz : CustomZone) (zones : list CustomZone)
  (policiesOf : gmap gostring (list Policy)) (routers : gmap gostring (gmap gostring NetworkRouter))
  (users : gmap gostring (list gostring)).

Notation network_map t :=
  (GetPeerNetworkMapFromComponents version_check ord idna_ToUnicode idna_ToASCII unicode_lower now
     a t cz zones V policiesOf routers users).

(** The firewall rules of a policy rule for one peer. *)
Lemma account_rules t tp q policy rule dir nm fr :
  GetPeer a t = Some tp -> t ∈ V -> GetPeer a (p_ID q) = Some q -> p_ID q ∈ V -> p_ID q <> t ->
  account_in_force a policy rule -> network_map t = Ok nm ->
  (fr ∈ nm_FirewallRules nm /\ fr_PolicyID fr = pr_ID rule /\ fr_PeerIP fr = Addr_String (p_IP q) /\
   fr_Direction fr = dir) <->
  account_allowed version_check a V t (p_ID q) dir rule /\
  fr ∈ portRules version_check rule tp (baseRule rule (Addr_String (p_IP q)) (ruleContext rule dir)).
Proof.
  intros Ht Htv Hq Hqv Hne Hf. unfold GetPeerNetworkMapFromComponents.
  destruct (GetPeerNetworkMapComponents _ _ _ _ _ _ _ _ _ _) as [[c|]| |] eqn:Hview; cbn [mbind res_bind]; [|..|done|done].
  2:{ exfalso. revert Hview. unfold GetPeerNetworkMapComponents. rewrite Ht, decide_False by auto.
      destruct (getPeersGroupsPoliciesRoutes _ _ _ _ _ _ _) as [[v ps] rs].
      destruct (viewResources _ _ _ _ _ _ _ _ _); cbn; [|done..]. by destruct (filterGroupPeers _ _). }
  intros Hc. destruct (components_view version_check ord Hord a Hok V t _ _ _ _ _ _ _ Ht Hview) as [m Hm].
  pose proof (view_components_ok version_check a Hok V t c m Hm) as Hcok.
  pose proof (vw_id _ _ _ _ _ _ Hm) as Hid.
  assert (approved a V t /\ approved a V (p_ID q)) as [At Aq] by (split; split; eauto).
  assert (GetPeerInfo c t = Some tp) as Htc.
  { rewrite (view_peer _ _ _ _ _ _ Hm). by rewrite decide_True by apply (vw_t _ _ _ _ _ _ Hm). }
  apply calculate_parts in Hc as (groups & res & Hp).
  rewrite (parts_rules _ _ _ _ _ _ _ _ _ _ Hp), Hid.
  rewrite (connection_rules version_check ord Hord c t tp fr Hcok Htc).
  rewrite <- (view_allowed version_check a Hok V t c m Hm (p_ID q) dir rule At Aq Hne). split.
  - intros ((q' & dir' & rule' & ip & [Hq' Hne'] & Hal & Hip & Hfr) & Hrid & Htext & Hdir).
    pose proof (portRules_flow _ _ _ _ _ Hfr) as (E1 & E2 & E3 & _). cbn in E1, E2, E3.
    apply (view_info version_check a V t c m Hm) in Hq' as [Hq' Hpq].
    assert (rule' = rule) as ->.
    { destruct Hal as (policy' & Hf' & _). apply (view_in_force version_check a V t c m Hm) in Hf' as [Hf' _].
      apply (acc_rules a Hok _ _ _ _ Hf' Hf). congruence. }
    assert (q' = q) as ->.
    { apply (text_sep (whole a) q q' ip (whole_addresses a Hok)) with (tp := tp);
        [by rewrite whole_peer|by rewrite whole_peer|done|congruence]. }
    assert (dir' = dir) as -> by congruence. rewrite <- E2, Htext in Hfr. done.
  - intros [[Hal Hpq] Hfr]. pose proof (portRules_flow _ _ _ _ _ Hfr) as (E1 & E2 & E3 & _). cbn in E1, E2, E3.
    split; [|done]. exists q, dir, rule, (p_IP q). split_and!; try done; [|by left].
    split; [|done]. rewrite (view_peer _ _ _ _ _ _ Hm). by rewrite decide_True.
Qed.

(** Some rule of the map is for the peer, the policy rule and the direction,
    matches the port and has the action. *)
Definition treats (nm : NetworkMap) (rule : PolicyRule) (q : Peer) (dir : Z) (action : gostring) (x : Z) : Prop :=
  exists fr, fr ∈ nm_FirewallRules nm /\ fr_PolicyID fr = pr_ID rule /\
    fr_PeerIP fr = Addr_String (p_IP q) /\ fr_Direction fr = dir /\ fr_Action fr = action /\ opens fr x.

Lemma account_treats t tp q policy rule dir action x nm :
  GetPeer a t = Some tp -> t ∈ V -> GetPeer a (p_ID q) = Some q -> p_ID q ∈ V -> p_ID q <> t ->
  account_in_force a policy rule -> ports_ok rule -> network_map t = Ok nm ->
  treats nm rule q dir action x <->
  account_allowed version_check a V t (p_ID q) dir rule /\ action = pr_Action rule /\ port_open version_check rule tp x.
Proof.
  intros Ht Htv Hq Hqv Hne Hf Hp Hnm. unfold treats.
  pose proof (fun fr => account_rules t tp q policy rule dir nm fr Ht Htv Hq Hqv Hne Hf Hnm) as Hb.
  rewrite <- (portRules_opens version_check
    (baseRule rule (Addr_String (p_IP q)) (ruleContext rule dir)) eq_refl eq_refl rule tp x Hp).
  split.
  - intros (fr & H1 & H2 & H3 & H4 & H5 & Ho). destruct (proj1 (Hb fr)) as [? Hfr]; [done|].
    pose proof (portRules_flow _ _ _ _ _ Hfr) as (_ & _ & _ & E & _). cbn in E. split_and!; [done|congruence|eauto].
  - intros (Hal & -> & fr & Hfr & Ho). destruct (proj2 (Hb fr)) as (? & ? & ? & ?); [done|].
    pose proof (portRules_flow _ _ _ _ _ Hfr) as (_ & _ & _ & E & _). cbn in E. exists fr. by split_and!.
Qed.
End account.

Lemma account_allowed_turn version_check a V x y rule :
  account_allowed version_check a V x y FirewallRuleDirectionOUT rule <->
  account_allowed version_check a V y x FirewallRuleDirectionIN rule.
Proof.
  unfold account_allowed. split; intros (policy & Hf & [[E H]|[E H]]); try done; exists policy; (split; [done|]); auto.
Qed.

(** ** The calculation returns *)

(** The groups named by routes and by enabled rules exist. *)
Definition references_ok (a : Account) : Prop :=
  (forall id r gid, a_Routes a !! id = Some r -> gid ∈ routeGroups r -> is_Some (GetGroup a gid)) /\
  (forall policy rule gid, account_in_force a policy rule -> gid ∈ pr_Sources rule ++ pr_Destinations rule ->
     is_Some (GetGroup a gid)).

(** The policies of the resources have a rule. *)
Definition resource_policies_ok (a : Account) (policiesOf : gmap gostring (list Policy)) : Prop :=
  forall resource policies policy, resource ∈ a_NetworkResources a ->
    policiesOf !! nr_ID resource = Some policies -> policy ∈ policies -> po_Rules policy <> [].

Notation all_some := (map_Forall (fun (_ : gostring) (g : option Group) => is_Some g)).

Section returns.
Context (version_check : gostring -> gostring -> option bool) (ord : idset -> list gostring)
  (Hord : enumerates ord) (a : Account) (V : idset) (t : gostring).

Lemma addGroups_some gids m : (forall gid, gid ∈ gids -> is_Some (GetGroup a gid)) ->
  all_some m -> all_some (addGroups a gids m).
Proof.
  unfold addGroups. revert m. induction gids as [|gid gids IH]; intros m Hg Hm; cbn [foldl]; [done|].
  apply IH; [intros ? ?; apply Hg; by right|]. apply map_Forall_insert_2; [apply Hg; by left|done].
Qed.

Lemma viewRule_groups ssh racg checks v rel rule :
  (pr_Enabled rule = true -> forall gid, gid ∈ pr_Sources rule ++ pr_Destinations rule -> is_Some (GetGroup a gid)) ->
  all_some (v_Groups v) -> all_some (v_Groups (viewRule version_check a t ssh V racg checks (v, rel) rule).1).
Proof.
  intros Hg Hv. unfold viewRule. destruct (pr_Enabled rule); cbn [negb]; [|done]. specialize (Hg eq_refl).
  assert (forall pids gids w, (forall gid, gid ∈ gids -> gid ∈ pr_Sources rule ++ pr_Destinations rule) ->
    all_some (v_Groups w) -> all_some (v_Groups (with_peers_groups a pids gids w))) as Hw.
  { intros pids gids w Hin Hs. apply addGroups_some; [|done]. intros gid ?. apply Hg. auto. }
  assert (forall gid, gid ∈ pr_Sources rule -> gid ∈ pr_Sources rule ++ pr_Destinations rule) as H1
    by (intros; apply elem_of_app; by left).
  assert (forall gid, gid ∈ pr_Destinations rule -> gid ∈ pr_Sources rule ++ pr_Destinations rule) as H2
    by (intros; apply elem_of_app; by right).
  assert (forall w, v_Groups (requireSSH ssh rule w) = v_Groups w) as Hssh.
  { intros w. pose proof (requireSSH_maps ssh rule w) as E. by injection E. }
  destruct (existsb _ _); cbn zeta; destruct (gp_in _); destruct (gp_in _); cbn [fst];
    rewrite ?Hssh; repeat (apply Hw; [solve [auto]|]; cbn [v_Groups set_failed]); try exact Hv.
Qed.

Lemma viewPolicies_groups ssh racg l v policies :
  (forall policy rule gid, policy ∈ l -> po_Enabled policy = true -> rule ∈ po_Rules policy ->
     pr_Enabled rule = true -> gid ∈ pr_Sources rule ++ pr_Destinations rule -> is_Some (GetGroup a gid)) ->
  all_some (v_Groups v) ->
  all_some (v_Groups (foldl (viewPolicy version_check a t ssh V racg) (v, policies) l).1).
Proof.
  revert v policies. induction l as [|policy l IH]; intros v policies Hg Hv; cbn [foldl]; [done|].
  assert (forall p rule gid, p ∈ l -> po_Enabled p = true -> rule ∈ po_Rules p -> pr_Enabled rule = true ->
    gid ∈ pr_Sources rule ++ pr_Destinations rule -> is_Some (GetGroup a gid)) as Hg'.
  { intros p rule gid ?. apply (Hg p). by right. }
  unfold viewPolicy at 2. destruct (po_Enabled policy) eqn:He; cbn [negb]; [|by apply IH].
  assert (forall rules w rel, (forall rule, rule ∈ rules -> rule ∈ po_Rules policy) -> all_some (v_Groups w) ->
    all_some (v_Groups (foldl (viewRule version_check a t ssh V racg (po_SourcePostureChecks policy)) (w, rel) rules).1))
    as Hrules.
  { induction rules as [|rule rules IHr]; intros w rel Hin Hw; cbn [foldl]; [done|].
    pose proof (viewRule_groups ssh racg (po_SourcePostureChecks policy) w rel rule) as Hr.
    destruct (viewRule _ _ _ _ _ _ _ _ _) as [w' rel']. apply IHr; [intros ? ?; apply Hin; by right|].
    apply Hr; [|done]. intros ? gid ?. eapply (Hg policy rule gid); try done; [by left|apply Hin; by left]. }
  specialize (Hrules (po_Rules policy) v false (fun _ H => H) Hv).
  destruct (foldl _ (v, false) (po_Rules policy)) as [v' rel]. by apply IH.
Qed.

Lemma account_routes_elem r : r ∈ accountRoutes ord a <-> exists id, a_Routes a !! id = Some r.
Proof.
  unfold accountRoutes. rewrite list_elem_of_omap. setoid_rewrite (ord_elem _ _ _ Hord).
  setoid_rewrite elem_of_dom. split; [intros (id & _ & ?); eauto|intros (id & ?); eauto].
Qed.

Lemma first_stage_groups ssh v policies routes : references_ok a ->
  getPeersGroupsPoliciesRoutes version_check ord a t ssh V ∅ = (v, policies, routes) -> all_some (v_Groups v).
Proof.
  intros [Hroutes Hrules]. unfold getPeersGroupsPoliciesRoutes. cbn zeta.
  match goal with |- context [viewPolicy _ _ _ _ _ ?r] => generalize r; intros racg end.
  match goal with |- context [foldl _ (?v0, []) _] =>
    pose proof (viewPolicies_groups ssh racg (a_Policies a) v0 []) as H end.
  destruct (foldl _ _ _) as [v' policies']. intros [= <- <- <-]. apply H.
  - intros policy rule gid ? ? ? ?. apply (Hrules policy rule). done.
  - apply addGroups_some; [|apply addGroups_some; [|apply map_Forall_empty]].
    + intros gid (r & Hgid & (id & Hr)%account_routes_elem)%list_elem_of_bind. by eapply Hroutes.
    + intros gid [Hg _]%list_elem_of_filter. destruct (GetGroup a gid); [eauto|done].
Qed.

(** What the loop over the resources keeps. *)
Record resources_inv (policiesOf : gmap gostring (list Policy)) (rv : ResourceView) : Prop := {
  ri_groups : all_some (rv_Groups rv);
  ri_policies : forall id ps, rv_policies rv !! id = Some ps -> policiesOf !! id = Some ps;
  ri_resources : forall resource, resource ∈ rv_resources rv -> resource ∈ a_NetworkResources a }.

Lemma insert_new_some (gid : gostring) (g : Group) m : all_some m -> all_some (insert_new gid (Some g) m).
Proof. intros Hm. unfold insert_new. case_decide; [done|]. apply map_Forall_insert_2; [eauto|done]. Qed.

Lemma addPolicyGroups_some policy m : all_some m -> all_some (addPolicyGroups a policy m).
Proof.
  unfold addPolicyGroups. generalize (po_Rules policy ≫= fun rule => pr_Sources rule ++ pr_Destinations rule).
  intros l. revert m. induction l as [|gid l IH]; intros m Hm; cbn [foldl]; [done|]. apply IH.
  destruct (GetGroup a gid); [|done]. by apply insert_new_some.
Qed.

(** One policy of a resource changes neither groups, policies nor resources. *)
Lemma resourcePolicy_keeps rule0 policy add rv :
  let rv' := (resourcePolicy version_check ord a t V rule0 policy add rv).1.2 in
  rv_Groups rv' = rv_Groups rv /\ rv_policies rv' = rv_policies rv /\ rv_resources rv' = rv_resources rv.
Proof.
  unfold resourcePolicy. destruct add; cbn zeta.
  - by destruct (getPostureValidPeersSaveFailed _ _ _ _ _ _).
  - destruct (negb _); [done|]. destruct (validatePostureChecksOnPeerGetFailed _ _ _ _). by destruct (negb _ && _).
Qed.

Lemma resourcePolicies_returns policiesOf resourceID all policies add rv :
  policiesOf !! resourceID = Some all -> (forall p, p ∈ policies -> po_Rules p <> []) ->
  resources_inv policiesOf rv -> exists add' rv',
    resourcePolicies version_check ord a t resourceID V all policies add rv = Ok (add', rv') /\
    resources_inv policiesOf rv'.
Proof.
  intros Hall. revert add rv. induction policies as [|policy policies IH]; intros add rv Hne [G P R]; cbn [resourcePolicies].
  { exists add, rv. split; [done|by split]. }
  destruct (po_Rules policy) as [|rule0 rules] eqn:Hr; [by destruct (Hne policy ltac:(by left))|].
  cbn [go_index lookup list_lookup mbind res_bind].
  destruct (resourcePolicy_keeps rule0 policy add rv) as (E1 & E2 & E3).
  destruct (resourcePolicy _ _ _ _ _ _ _ _ _) as [[add1 rv1] proceed]. cbn [fst snd] in *.
  apply IH; [intros p ?; apply Hne; by right|].
  destruct proceed; split; cbn; rewrite ?E1, ?E2, ?E3; try done.
  - by apply addPolicyGroups_some.
  - intros id ps. destruct (decide (id = resourceID)) as [->|?].
    + rewrite lookup_insert_eq. by intros [= <-].
    + rewrite lookup_insert_ne by done. apply P.
Qed.

Lemma addRouter_keeps rv ids :
  let rv' := foldl (addRouter a V) rv ids in
  rv_Groups rv' = rv_Groups rv /\ rv_policies rv' = rv_policies rv /\ rv_resources rv' = rv_resources rv.
Proof.
  cbn zeta. revert rv. induction ids as [|i ids IH]; intros rv; cbn [foldl]; [done|].
  destruct (IH (addRouter a V rv i)) as (-> & -> & ->). unfold addRouter. by destruct (GetPeer a i).
Qed.

Lemma viewResources_returns policiesOf routers resources rv :
  resource_policies_ok a policiesOf -> (forall resource, resource ∈ resources -> resource ∈ a_NetworkResources a) ->
  resources_inv policiesOf rv -> exists rv',
    viewResources version_check ord a t V policiesOf routers resources rv = Ok rv' /\ resources_inv policiesOf rv'.
Proof.
  intros Hp. revert rv. induction resources as [|resource resources IH]; intros rv Hin Hrv; cbn [viewResources]; [eauto|].
  assert (forall r, r ∈ resources -> r ∈ a_NetworkResources a) as Hin' by (intros r ?; apply Hin; by right).
  unfold viewResource. destruct (negb (nr_Enabled resource)); cbn [mbind res_bind]; [by apply IH|].
  destruct (policiesOf !! nr_ID resource) as [policies|] eqn:Hpol; cbn [mbind res_bind]; [|by apply IH].
  edestruct (resourcePolicies_returns policiesOf (nr_ID resource) policies policies) as (add' & rv' & -> & [G P R]).
  - done.
  - intros p. apply (Hp resource policies p); [apply Hin; by left|done].
  - exact Hrv.
  - cbn [mbind res_bind]. apply IH; [done|].
    match goal with |- context [foldl (addRouter a V) ?x ?l] => destruct (addRouter_keeps x l) as (E1 & E2 & E3) end.
    split; cbn [rv_Groups rv_policies rv_resources].
    + by rewrite E1.
    + by rewrite E2.
    + intros r. rewrite E3. cbn. rewrite elem_of_app. intros [?|Hr]; [auto|].
      destruct add'; [|by apply elem_of_nil in Hr]. apply list_elem_of_singleton in Hr as ->. apply Hin. by left.
Qed.

Lemma view_returns tp cz zones policiesOf routers users :
  GetPeer a t = Some tp -> t ∈ V -> references_ok a -> resource_policies_ok a policiesOf ->
  exists c, GetPeerNetworkMapComponents version_check ord a t cz zones V policiesOf routers users = Ok (Some c) /\
    groups_ok c /\ policies_nonempty c.
Proof.
  intros Ht Htv Href Hres. unfold GetPeerNetworkMapComponents. rewrite Ht, decide_False by auto.
  destruct (getPeersGroupsPoliciesRoutes _ _ _ _ _ _ _) as [[v ps] rs] eqn:Hv.
  pose proof (first_stage_groups _ _ _ _ Href Hv) as Hg.
  destruct (viewResources_returns policiesOf routers (a_NetworkResources a)
    (mkResourceView (v_Peers v) (v_Groups v) (v_failed v) ∅ ∅ ∅ [])) as (rv & -> & [G P R]); [done|done|..].
  { split; cbn; [done|by intros ? ?; rewrite lookup_empty|by intros ? []%elem_of_nil]. }
  assert (exists groups, filterGroupPeers (rv_Groups rv) (rv_Peers rv) = Ok groups /\ all_some groups) as (groups & Hgr & Hgs).
  { unfold filterGroupPeers. rewrite decide_True by done. eexists. split; [done|]. intros gid x. rewrite lookup_omap.
    destruct (rv_Groups rv !! gid) as [[g|]|]; cbn; [|done..].
    destruct (filterGroup _ g); cbn; [intros [= <-]; eauto|done]. }
  cbn [mbind res_bind]. rewrite Hgr. cbn [mbind res_bind]. eexists. split; [done|]. split; [exact Hgs|].
  intros resource policy Hin Hpol. cbn in Hin. unfold policies_of in Hpol. cbn in Hpol.
  destruct (rv_policies rv !! nr_ID resource) as [l|] eqn:Hl; cbn in Hpol; [|by apply elem_of_nil in Hpol].
  apply (Hres resource l); [by apply R|by apply P|done].
Qed.

(** A route that names a group that does not exist. *)
Lemma view_dangling tp cz zones policiesOf routers users id r gid :
  account_ok a -> GetPeer a t = Some tp -> t ∈ V -> a_Routes a !! id = Some r -> gid ∈ routeGroups r ->
  GetGroup a gid = None ->
  GetPeerNetworkMapComponents version_check ord a t cz zones V policiesOf routers users = Panic.
Proof.
  intros Hok Ht Htv Hr Hgid Hg. unfold GetPeerNetworkMapComponents. rewrite Ht, decide_False by auto.
  destruct (getPeersGroupsPoliciesRoutes _ _ _ _ _ _ _) as [[v ps] rs] eqn:Hv.
  assert (maps_ok version_check a (view_maps v) /\ has_group (view_maps v) gid) as [Ho Hm].
  { destruct (first_stage version_check ord Hord a Hok V t _ _ _ _ (mk_is_Some _ _ Ht) Hv) as (? & _ & _ & Hrg & _).
    split; [done|]. apply (Hrg r); [|done]. apply account_routes_elem. eauto. }
  destruct (viewResources _ _ _ _ _ _ _ _ _) as [rv|[]|] eqn:Hres; cbn [mbind res_bind]; [|done].
  apply viewResources_step in Hres as [Hok' Hle]; [|exact Hok]. specialize (Hok' Ho).
  assert (filterGroupPeers (rv_Groups rv) (rv_Peers rv) = Panic) as Hp; [|by rewrite Hp].
  unfold filterGroupPeers. rewrite decide_False; [done|].
  destruct (ml_groups _ _ Hle _ Hm) as [x Hx]. intros Hall. destruct (Hall _ _ Hx) as [g ->].
  apply (mo_groups _ _ _ Hok') in Hx. congruence.
Qed.
End returns.

(** ** An account

    Peers a and b, both validated; a may reach b on TCP port 22 if its client
    is recent enough; b routes a network, and a resource for a. *)
Definition account_example (policies : list Policy) : Account :=
  mkAccount (mkNetwork [] PrefixZero PrefixZero [] 0)
    (list_to_map [(lit "a", peer_a); (lit "b", peer_b)]) ∅
    (list_to_map [(lit "ga", mkGroup (lit "ga") (lit "A") [lit "a"]);
                  (lit "gb", mkGroup (lit "gb") (lit "B") [lit "b"])])
    policies (list_to_map [(lit "rt", example_route)]) ∅ []
    [mkChecks (lit "chk") (mkChecksDefinition (Some (lit "0.60.0")) None None None None)]
    (mkAccountSettingsInfo true 3600 false 0) [example_resource].

Definition acc : Account := account_example [example_policy1].
Definition acc_zone : CustomZone := mkCustomZone (lit "netbird.cloud") [] false false.
Definition acc_policies : gmap gostring (list Policy) := list_to_map [(lit "res", [example_policy2])].
Definition acc_routers : gmap gostring (gmap gostring NetworkRouter) :=
  list_to_map [(lit "net", list_to_map [(lit "b", example_router)])].
Definition both : idset := {[lit "a"; lit "b"]}.

Lemma acc_peer ps k p : GetPeer (account_example ps) k = Some p ->
  (k, p) = (lit "a", peer_a) \/ (k, p) = (lit "b", peer_b).
Proof.
  unfold GetPeer. cbn [account_example a_Peers]. intros Hk%elem_of_list_to_map_2.
  apply elem_of_cons in Hk as [[= -> ->]|Hk]; [by left|]. apply list_elem_of_singleton in Hk as [= -> ->]. by right.
Qed.

Lemma acc_group ps k g : GetGroup (account_example ps) k = Some g ->
  g = mkGroup (lit "ga") (lit "A") [lit "a"] \/ g = mkGroup (lit "gb") (lit "B") [lit "b"].
Proof.
  unfold GetGroup. cbn [account_example a_Groups]. intros Hk%elem_of_list_to_map_2.
  apply elem_of_cons in Hk as [[= -> ->]|Hk]; [by left|]. apply list_elem_of_singleton in Hk as [= -> ->]. by right.
Qed.

Lemma acc_in_force policy rule : account_in_force acc policy rule -> policy = example_policy1 /\ rule = example_rule1.
Proof.
  intros (Hp & _ & Hr & _). apply list_elem_of_singleton in Hp as ->. by apply list_elem_of_singleton in Hr as ->.
Qed.

Lemma acc_ok : account_ok acc.
Proof.
  split.
  - by intros k p [[= -> ->]|[= -> ->]]%acc_peer.
  - by intros gid g [-> | ->]%acc_group.
  - by intros p1 r1 p2 r2 [_ ->]%acc_in_force [_ ->]%acc_in_force.
  - intros policy ->%list_elem_of_singleton. by intros ?%list_elem_of_singleton.
  - by intros k p [[= -> ->]|[= -> ->]]%acc_peer.
  - intros k p [[= -> ->]|[= -> ->]]%acc_peer; [|done]. by vm_compute.
  - by intros i j p q [[= -> ->]|[= -> ->]]%acc_peer [[= -> ->]|[= -> ->]]%acc_peer.
Qed.

Lemma acc_references : references_ok acc.
Proof.
  split.
  - intros id r gid Hr Hg. cbn [acc account_example a_Routes] in Hr. apply elem_of_list_to_map_2 in Hr.
    apply list_elem_of_singleton in Hr as [= -> ->]. apply list_elem_of_singleton in Hg as ->.
    eexists. by vm_compute.
  - intros policy rule gid [_ ->]%acc_in_force Hg. apply elem_of_cons in Hg as [->|Hg]; [eexists; by vm_compute|].
    apply list_elem_of_singleton in Hg as ->. eexists. by vm_compute.
Qed.

Lemma acc_resources : resource_policies_ok acc acc_policies.
Proof.
  intros resource policies policy ->%list_elem_of_singleton Hp. unfold acc_policies in Hp.
  apply elem_of_list_to_map_2 in Hp. apply list_elem_of_singleton in Hp as [= ->].
  by intros ->%list_elem_of_singleton.
Qed.

Lemma acc_rule_in_force : account_in_force acc example_policy1 example_rule1.
Proof. split_and!; [by left|done|by left|done]. Qed.

(** The map of a peer of the account. *)
Notation acc_map a t := (GetPeerNetworkMapFromComponents no_versions elements no_idna no_idna (fun s => s)
  (fun _ => 0%Z) a t acc_zone [] both acc_policies acc_routers ∅).

Lemma acc_returns t tp : GetPeer acc t = Some tp -> t ∈ both -> exists nm, acc_map acc t = Ok nm.
Proof.
  intros Ht Hv. destruct (view_returns no_versions elements elements_enumerates acc both t tp acc_zone []
    acc_policies acc_routers ∅ Ht Hv acc_references acc_resources) as (c & Hc & Hg & Hp).
  unfold GetPeerNetworkMapFromComponents. rewrite Hc. cbn [mbind res_bind].
  destruct (peer_groups_spec c (PeerID c) Hg) as (groups & H1 & _).
  destruct (sync_returns no_idna (fun s => s) elements c (PeerID c) Hp) as [res H2].
  by eapply calculate_total.
Qed.

Lemma acc_on_src : on_src no_versions acc both example_policy1 example_rule1 (lit "a").
Proof.
  split; [|split].
  - exists (lit "ga"), (mkGroup (lit "ga") (lit "A") [lit "a"]). split_and!; [by left|by vm_compute|by left].
  - split; [eexists; by vm_compute|]. by apply (bool_decide_unpack _); vm_compute.
  - intros check ->%list_elem_of_singleton (peer & pc & Hp & Hc & Hf).
    apply acc_peer in Hp as [[= ->]|[=]]. vm_compute in Hc. injection Hc as <-. by vm_compute in Hf.
Qed.

Lemma acc_on_dst : on_dst no_versions acc both example_rule1 (lit "b").
Proof.
  split; [|split].
  - exists (lit "gb"), (mkGroup (lit "gb") (lit "B") [lit "b"]). split_and!; [by left|by vm_compute|by left].
  - split; [eexists; by vm_compute|]. by apply (bool_decide_unpack _); vm_compute.
  - by intros check []%elem_of_nil.
Qed.

Lemma acc_allowed : account_allowed no_versions acc both (lit "a") (lit "b") FirewallRuleDirectionOUT example_rule1.
Proof.
  exists example_policy1. split; [apply acc_rule_in_force|]. left. split; [done|]. left.
  split; [apply acc_on_src|apply acc_on_dst].
Qed.

Lemma acc_port_open p : p ∈ [peer_a; peer_b] -> port_open no_versions example_rule1 p 22022.
Proof.
  intros Hp. right. right. split; [done|]. split; [|left; by left].
  right. apply elem_of_cons in Hp as [->|Hp]; [split_and!; by vm_compute|].
  apply list_elem_of_singleton in Hp as ->. split_and!; by vm_compute.
Qed.

(** ** Theorems *)

(** C2: The firewall of a peer enforces the policies of the account.  The
    network map built for a validated peer [t], from a view of the account
    that leaves out most of it, holds for another validated peer [q], a rule
    in force, a direction and a port a firewall rule that matches them if and
    only if the account allows that traffic: the two peers are on the sides
    of the rule, members of the groups it names that pass the posture checks
    of its policy, and the rule names the port. *)
Theorem account_firewall_exact version_check idna_ToUnicode idna_ToASCII unicode_lower ord now
    a V cz zones policiesOf routers users nm t tp q policy rule dir x :
  enumerates ord -> account_ok a -> GetPeer a t = Some tp -> t ∈ V ->
  GetPeer a (p_ID q) = Some q -> p_ID q ∈ V -> p_ID q <> t ->
  account_in_force a policy rule -> ports_ok rule ->
  GetPeerNetworkMapFromComponents version_check ord idna_ToUnicode idna_ToASCII unicode_lower now
    a t cz zones V policiesOf routers users = Ok nm ->
  (exists fr, fr ∈ nm_FirewallRules nm /\ fr_PolicyID fr = pr_ID rule /\
     fr_PeerIP fr = Addr_String (p_IP q) /\ fr_Direction fr = dir /\ opens fr x) <->
  account_allowed version_check a V t (p_ID q) dir rule /\ port_open version_check rule tp x.
Proof.
  intros Hord Hok Ht Htv Hq Hqv Hne Hf Hp Hnm.
  pose proof (fun action => account_treats version_check idna_ToUnicode idna_ToASCII unicode_lower ord Hord now a Hok V
    cz zones policiesOf routers users t tp q policy rule dir action x nm Ht Htv Hq Hqv Hne Hf Hp Hnm) as Hb.
  split.
  - intros (fr & H1 & H2 & H3 & H4 & Ho). destruct (proj1 (Hb (fr_Action fr))) as (? & _ & ?); [|done].
    exists fr. by split_and!.
  - intros [Hal Ho]. destruct (proj2 (Hb (pr_Action rule))) as (fr & ? & ? & ? & ? & _ & ?); [done|]. eauto 8.
Qed.

Lemma account_firewall_exact_witness : exists nm, acc_map acc (lit "a") = Ok nm /\
  exists fr, fr ∈ nm_FirewallRules nm /\ fr_PolicyID fr = lit "r1" /\ fr_PeerIP fr = lit "100.64.0.2" /\
    fr_Direction fr = FirewallRuleDirectionOUT /\ opens fr 22022.
Proof.
  destruct (acc_returns (lit "a") peer_a) as [nm Hnm]; [by vm_compute|by apply (bool_decide_unpack _); vm_compute|].
  exists nm. split; [exact Hnm|].
  refine (proj2 (account_firewall_exact no_versions no_idna no_idna (fun s => s) elements (fun _ => 0%Z)
    acc both acc_zone [] acc_policies acc_routers ∅ nm (lit "a") peer_a peer_b example_policy1 example_rule1
    FirewallRuleDirectionOUT 22022 elements_enumerates acc_ok _ _ _ _ _ acc_rule_in_force example_ports_ok Hnm) _).
  - by vm_compute.
  - by apply (bool_decide_unpack _); vm_compute.
  - by vm_compute.
  - by apply (bool_decide_unpack _); vm_compute.
  - by vm_compute.
  - split; [apply acc_allowed|]. right. right. split; [done|]. split.
    + right. split_and!; by vm_compute.
    + left. by left.
Defined.

(** C3: Connections are symmetric.  Take the maps of two validated peers of an
    account, each calculated from the view of its own peer, and a rule of the
    account.  On every port that the rule opens for the client versions of
    both peers (a client without port ranges gets none, a client with the
    native SSH port gets it in addition), the map of the first holds a
    firewall rule with a given action for outgoing traffic to the second if
    and only if the map of the second holds one with that action for incoming
    traffic from the first, and conversely. *)
Theorem account_connections_symmetric version_check idna_ToUnicode idna_ToASCII unicode_lower ord1 ord2 now1 now2
    a V cz zones1 zones2 policiesOf routers users nm1 nm2 p q policy rule action x :
  enumerates ord1 -> enumerates ord2 -> account_ok a ->
  GetPeer a (p_ID p) = Some p -> p_ID p ∈ V -> GetPeer a (p_ID q) = Some q -> p_ID q ∈ V -> p_ID p <> p_ID q ->
  account_in_force a policy rule -> ports_ok rule ->
  port_open version_check rule p x -> port_open version_check rule q x ->
  GetPeerNetworkMapFromComponents version_check ord1 idna_ToUnicode idna_ToASCII unicode_lower now1
    a (p_ID p) cz zones1 V policiesOf routers users = Ok nm1 ->
  GetPeerNetworkMapFromComponents version_check ord2 idna_ToUnicode idna_ToASCII unicode_lower now2
    a (p_ID q) cz zones2 V policiesOf routers users = Ok nm2 ->
  (treats nm1 rule q FirewallRuleDirectionOUT action x <-> treats nm2 rule p FirewallRuleDirectionIN action x) /\
  (treats nm1 rule q FirewallRuleDirectionIN action x <-> treats nm2 rule p FirewallRuleDirectionOUT action x).
Proof.
  intros Ho1 Ho2 Hok Hp Hpv Hq Hqv Hne Hf Hr Op Oq H1 H2.
  pose proof (fun dir => account_treats version_check idna_ToUnicode idna_ToASCII unicode_lower ord1 Ho1 now1 a Hok V
    cz zones1 policiesOf routers users (p_ID p) p q policy rule dir action x nm1 Hp Hpv Hq Hqv (not_eq_sym Hne) Hf Hr H1)
    as L1.
  pose proof (fun dir => account_treats version_check idna_ToUnicode idna_ToASCII unicode_lower ord2 Ho2 now2 a Hok V
    cz zones2 policiesOf routers users (p_ID q) q p policy rule dir action x nm2 Hq Hqv Hp Hpv Hne Hf Hr H2) as L2.
  rewrite !L1, !L2, !account_allowed_turn. split; split; by intros (? & ? & _).
Qed.

(** The rule of the example accepts the native SSH port on both sides. *)
Lemma account_connections_symmetric_witness : exists nm1 nm2,
  acc_map acc (lit "a") = Ok nm1 /\ acc_map acc (lit "b") = Ok nm2 /\
  treats nm1 example_rule1 peer_b FirewallRuleDirectionOUT PolicyTrafficActionAccept 22022 /\
  treats nm2 example_rule1 peer_a FirewallRuleDirectionIN PolicyTrafficActionAccept 22022.
Proof.
  destruct (acc_returns (lit "a") peer_a) as [nm1 H1]; [by vm_compute|by apply (bool_decide_unpack _); vm_compute|].
  destruct (acc_returns (lit "b") peer_b) as [nm2 H2]; [by vm_compute|by apply (bool_decide_unpack _); vm_compute|].
  exists nm1, nm2. split; [exact H1|]. split; [exact H2|].
  assert (treats nm1 example_rule1 peer_b FirewallRuleDirectionOUT PolicyTrafficActionAccept 22022) as Hout.
  { refine (proj2 (account_treats no_versions no_idna no_idna (fun s => s) elements elements_enumerates (fun _ => 0%Z)
      acc acc_ok both acc_zone [] acc_policies acc_routers ∅ (lit "a") peer_a peer_b example_policy1 example_rule1
      FirewallRuleDirectionOUT PolicyTrafficActionAccept 22022 nm1 _ _ _ _ _ acc_rule_in_force example_ports_ok H1) _);
      [by vm_compute|by apply (bool_decide_unpack _); vm_compute|by vm_compute|
       by apply (bool_decide_unpack _); vm_compute|by vm_compute|].
    split; [apply acc_allowed|]. split; [done|]. apply acc_port_open. by left. }
  split; [exact Hout|].
  refine (proj1 (proj1 (account_connections_symmetric no_versions no_idna no_idna (fun s => s) elements elements
    (fun _ => 0%Z) (fun _ => 0%Z) acc both acc_zone [] [] acc_policies acc_routers ∅ nm1 nm2 peer_a peer_b
    example_policy1 example_rule1 PolicyTrafficActionAccept 22022 elements_enumerates elements_enumerates acc_ok _ _ _ _ _
    acc_rule_in_force example_ports_ok _ _ H1 H2)) Hout).
  - by vm_compute.
  - by apply (bool_decide_unpack _); vm_compute.
  - by vm_compute.
  - by apply (bool_decide_unpack _); vm_compute.
  - by vm_compute.
  - apply acc_port_open. by left.
  - apply acc_port_open. right. by left.
Defined.

(** C40: The calculation of a network map is total on consistent accounts.  A
    peer that is unknown or not validated gets the empty map; a validated one
    gets a map if every group that routes and enabled rules name exists and
    every policy of a resource has a rule; and if a route names a group that
    does not exist, the calculation panics for every validated peer. *)
Theorem account_map_returns version_check idna_ToUnicode idna_ToASCII unicode_lower ord now
    a V cz zones policiesOf routers users t :
  enumerates ord -> account_ok a ->
  let network_map := GetPeerNetworkMapFromComponents version_check ord idna_ToUnicode idna_ToASCII unicode_lower
    now a t cz zones V policiesOf routers users in
  (~ approved a V t -> network_map = Ok (emptyMap a)) /\
  (approved a V t -> references_ok a -> resource_policies_ok a policiesOf -> exists nm, network_map = Ok nm) /\
  (approved a V t -> forall id r gid, a_Routes a !! id = Some r -> gid ∈ routeGroups r ->
     GetGroup a gid = None -> network_map = Panic).
Proof.
  intros Hord Hok network_map. unfold network_map, GetPeerNetworkMapFromComponents. split_and!.
  - intros Hn. unfold GetPeerNetworkMapComponents. destruct (GetPeer a t) as [tp|] eqn:Ht; [|done].
    rewrite decide_True; [done|]. intros Hv. apply Hn. split; eauto.
  - intros [[tp Ht] Hv] Href Hres.
    destruct (view_returns version_check ord Hord a V t tp cz zones policiesOf routers users Ht Hv Href Hres)
      as (c & -> & Hg & Hp). cbn [mbind res_bind].
    destruct (peer_groups_spec c (PeerID c) Hg) as (groups & H1 & _).
    destruct (sync_returns idna_ToASCII unicode_lower ord c (PeerID c) Hp) as [res H2]. by eapply calculate_total.
  - intros [[tp Ht] Hv] id r gid Hr Hin Hg.
    by rewrite (view_dangling version_check ord Hord a V t tp cz zones policiesOf routers users id r gid).
Qed.

Lemma account_map_returns_witness :
  acc_map acc (lit "c") = Ok (emptyMap acc) /\ exists nm, acc_map acc (lit "a") = Ok nm.
Proof.
  pose proof (fun t => account_map_returns no_versions no_idna no_idna (fun s => s) elements (fun _ => 0%Z)
    acc both acc_zone [] acc_policies acc_routers ∅ t elements_enumerates acc_ok) as H. split.
  - apply (proj1 (H (lit "c"))). intros [[p [[= ?]|[= ?]]%acc_peer] _]; done.
  - apply (proj1 (proj2 (H (lit "a")))); [|exact acc_references|exact acc_resources].
    split; [eexists; by vm_compute|by apply (bool_decide_unpack _); vm_compute].
Defined.

(** ** Access to the resource of the example account *)
Notation acc_components t :=
  (GetPeerNetworkMapComponents no_versions elements acc t acc_zone [] both acc_policies acc_routers ∅).

Definition acc_view (t : gostring) : NetworkMapComponents :=
  match acc_components t with Ok (Some c) => c | _ => example "a" end.

(** The view of a peer of the account is well formed and has a map. *)
Lemma acc_view_ok t tp : GetPeer acc t = Some tp -> t ∈ both ->
  acc_components t = Ok (Some (acc_view t)) /\ components_ok (acc_view t) /\ policies_nonempty (acc_view t) /\
  exists nm, Calculate no_versions no_idna no_idna (fun s => s) elements (fun _ => 0%Z) (acc_view t) = Ok nm.
Proof.
  intros Ht Hv. destruct (view_returns no_versions elements elements_enumerates acc both t tp acc_zone []
    acc_policies acc_routers ∅ Ht Hv acc_references acc_resources) as (c & Hc & Hg & Hp).
  destruct (peer_groups_spec c (PeerID c) Hg) as (groups & H1 & _).
  destruct (sync_returns no_idna (fun s => s) elements c (PeerID c) Hp) as [res H2].
  destruct (components_view no_versions elements elements_enumerates acc acc_ok both t _ _ _ _ _ _ _ Ht Hc) as [m Hm].
  unfold acc_view. rewrite Hc. split_and!; [done|exact (view_components_ok no_versions acc acc_ok both t c m Hm)|done|].
  by eapply calculate_total.
Qed.

Lemma acc_router_ids c : bool_decide (map_Forall (fun k p => from_option p_ID k p = k) (RouterPeers c)) = true ->
  router_ids_ok c.
Proof.
  intros H%bool_decide_eq_true id p. unfold GetRouterPeerInfo.
  destruct (RouterPeers c !! id) as [[q|]|] eqn:Hq; cbn; [|done..]. intros [= <-]. by apply H in Hq.
Qed.

(** The views of both peers show the grant. *)
Lemma acc_grant t : t ∈ [lit "a"; lit "b"] ->
  resource_grant (acc_view t) peer_a peer_b example_resource example_router example_policy2 example_rule2 /\
  router_ids_ok (acc_view t) /\ PeerID (acc_view t) = t.
Proof.
  intros Ht.
  assert (in_groups (acc_view t) [lit "ga"] (lit "a")) as Hin.
  { exists (lit "ga"), (mkGroup (lit "ga") (lit "A") [lit "a"]). 
    apply elem_of_cons in Ht as [->|Ht]; [|apply list_elem_of_singleton in Ht as ->];
    (split_and!; [by left|by vm_compute|by left]). }
  split; [split|split].
  all: apply elem_of_cons in Ht as [->|Ht]; [|apply list_elem_of_singleton in Ht as ->].
  all: try by vm_compute.
  1-2: split; [by vm_compute; left|done].
  1-2: intros [router Hr]; by vm_compute in Hr.
  1-2: split; [by vm_compute; left|done].
  1-2: split; [by left|]; (split; [done|]); by intros r []%elem_of_nil.
  1-2: split; [exists example_rule2; split; [by left|exact Hin]|left; exact Hin].
  1-2: apply (bool_decide_unpack _); by vm_compute.
  all: apply acc_router_ids; by vm_compute.
Qed.

(** Peer a reaches the resource through b, on TCP port 22. *)
Lemma resource_access_granted_witness : exists nm1 nm2 rf,
  acc_map acc (lit "a") = Ok nm1 /\ acc_map acc (lit "b") = Ok nm2 /\ rf ∈ nm_RoutesFirewallRules nm2 /\
  rf_Action rf = PolicyTrafficActionAccept /\ v4_text peer_a ∈ rf_SourceRanges rf /\ rf_opens rf 22.
Proof.
  destruct (acc_view_ok (lit "a") peer_a) as (V1 & O1 & N1 & nm1 & H1);
    [by vm_compute|by apply (bool_decide_unpack _); vm_compute|].
  destruct (acc_view_ok (lit "b") peer_b) as (V2 & O2 & N2 & nm2 & H2);
    [by vm_compute|by apply (bool_decide_unpack _); vm_compute|].
  destruct (acc_grant (lit "a")) as (G1 & R1 & E1); [by left|].
  destruct (acc_grant (lit "b")) as (G2 & R2 & E2); [by right; left|].
  destruct (resource_access_granted no_versions no_idna no_idna (fun s => s) elements elements (fun _ => 0%Z)
    (fun _ => 0%Z) (acc_view (lit "a")) (acc_view (lit "b")) nm1 nm2 peer_a peer_b example_resource example_router
    example_policy2 example_rule2 22 elements_enumerates elements_enumerates O1 O2 R1 R2 N1 N2 E1 E2 G1 G2
    ltac:(right; left; exists (lit "22"); split; [by left|by vm_compute]) H1 H2) as (_ & _ & _ & rf & Hrf & _ & _ & _ & Hact & _ & Hsrc & Ho).
  exists nm1, nm2, rf. split; [unfold GetPeerNetworkMapFromComponents; rewrite V1; exact H1|].
  split; [unfold GetPeerNetworkMapFromComponents; rewrite V2; exact H2|].
  split; [exact Hrf|]. split; [exact Hact|]. split; [exact Hsrc|exact Ho].
Defined.

(** ** A peer named by a rule needs no validation *)
Definition direct_rule : PolicyRule :=
  mkRule (lit "r1") (lit "p") [] [] true PolicyTrafficActionAccept [lit "gb"] (mkResource [] []) []
    (mkResource (lit "a") ResourceTypePeer) false PolicyRuleProtocolTCP [lit "22"] [] ∅ [].

Definition direct_account : Account :=
  account_example [mkPolicy (lit "p1") [] [] [] true [direct_rule] []].

(** Peer a is not validated, yet b accepts its traffic. *)
Theorem unvalidated_source_connected : exists nm fr,
  GetPeerNetworkMapFromComponents no_versions elements no_idna no_idna (fun s => s) (fun _ => 0%Z)
    direct_account (lit "b") acc_zone [] {[lit "b"]} acc_policies acc_routers ∅ = Ok nm /\
  fr ∈ nm_FirewallRules nm /\ fr_PeerIP fr = lit "100.64.0.1" /\ fr_Direction fr = FirewallRuleDirectionIN /\
  fr_Action fr = PolicyTrafficActionAccept.
Proof.
  eexists _, (mkFirewallRule (lit "r1") (lit "100.64.0.1") 0 (lit "accept") (lit "tcp") (lit "22") (mkRange 0 0)).
  split; [vm_compute; reflexivity|]. split; [by left|done].
Qed.
