(* ===== verification/SshAuth.v ===== *)
(** * SSH access from the network map to the login
      (management/internals/shared/grpc/conversion.go,
      client/internal/engine_ssh.go, client/ssh/auth/auth.go)

    The management service sends the authorised users of a network map as a
    list of hashes and, for every local user, the indexes into it; the client
    rebuilds the tables and the SSH server asks them at every login.  The
    hash function (BLAKE2b of golang.org/x/crypto) is a parameter. *)

From Stdlib Require Import ZArith Lia Ascii String.
From stdpp Require Import base gmap strings numbers list fin_maps.
From S2P Require Import Prelude Netip GoStrings AddrText I2pSam NetMapTypes NetMapCalc NetMapConn NetMapSsh NetworkMap NetMapTheorems.

Definition DefaultUserIDClaim : gostring := lit "sub".

Inductive auth_error : Type :=
| ErrEmptyUserID
| ErrHashUserID
| ErrUserNotAuthorized
| ErrNoMachineUserMapping
| ErrUserNotMappedToOSUser.

(** How access was granted. *)
Inductive granted : Type := ViaWildcard (userIndex : Z) | ViaMapping (userIndex : Z).

Record Config : Type := mkConfig {
  UserIDClaim : gostring;
  AuthorizedUsers : list (list Z);
  MachineUsers : gmap gostring (list Z) }.

Record Authorizer : Type := mkAuthorizer {
  userIDClaim : gostring;
  authorizedUsers : list (list Z);
  machineUsers : gmap gostring (list Z) }.

Definition NewAuthorizer : Authorizer := mkAuthorizer DefaultUserIDClaim [] ∅.

Definition Update (a : Authorizer) (config : option Config) : Authorizer :=
  match config with
  | None => mkAuthorizer DefaultUserIDClaim [] ∅
  | Some config =>
      mkAuthorizer
        (if decide (UserIDClaim config = []) then DefaultUserIDClaim else UserIDClaim config)
        (AuthorizedUsers config)
        (filter (fun kv => 0 < length kv.2) (MachineUsers config))
  end.

(** The first index of the hash. *)
Fixpoint findIndex (hash : list Z) (users : list (list Z)) (i : Z) : option Z :=
  match users with
  | [] => None
  | id :: rest => if decide (id = hash) then Some i else findIndex hash rest (i + 1)
  end.

Definition findUserIndex (a : Authorizer) (hashedUserID : list Z) : option Z :=
  findIndex hashedUserID (authorizedUsers a) 0.

Definition isIndexInList (index : Z) (indexes : list Z) : bool := bool_decide (index ∈ indexes).

Definition checkMachineUserMapping (a : Authorizer) (osUsername : gostring) (userIndex : Z) :
    res auth_error granted :=
  if match machineUsers a !! Wildcard with
     | Some wildcardIndexes => isIndexInList (u32 userIndex) wildcardIndexes
     | None => false
     end
  then Ok (ViaWildcard userIndex) else
  match machineUsers a !! osUsername with
  | None => Err ErrNoMachineUserMapping
  | Some allowedIndexes =>
      if isIndexInList (u32 userIndex) allowedIndexes then Ok (ViaMapping userIndex)
      else Err ErrUserNotMappedToOSUser
  end.

(** ** The messages *)
Record SSHAuth : Type := mkSSHAuth {
  sa_UserIDClaim : gostring;
  sa_AuthorizedUsers : list (list Z);
  sa_MachineUsers : gmap gostring (list Z) }.

(** [copy] into an array of 16 zero bytes. *)
Definition copy16 (src : list Z) : list Z := take 16 (src ++ replicate 16 0%Z).

Section hash.
(** [blake2b size m]: the sum of [m] under [blake2b.New(size, nil)], [None] if
    that fails; and the order in which a map is walked. *)
Context (blake2b : Z -> gostring -> option (list Z)) (ord : idset -> list gostring).

Definition HashUserID (userID : gostring) : option (list Z) := copy16 <$> blake2b 16 userID.

Definition Authorize (a : Authorizer) (jwtUserID osUsername : gostring) : res auth_error granted :=
  if decide (jwtUserID = []) then Err ErrEmptyUserID else
  match HashUserID jwtUserID with
  | None => Err ErrHashUserID
  | Some hashedUserID =>
      match findUserIndex a hashedUserID with
      | None => Err ErrUserNotAuthorized
      | Some userIndex => checkMachineUserMapping a osUsername userIndex
      end
  end.

(** [userIDToIndex], [hashedUsers] and the indexes of one machine user. *)
Record Builder : Type := mkBuilder {
  userIDToIndex : gmap gostring Z;
  hashedUsers : list (list Z);
  indexes : list Z }.

Definition indexUser (b : Builder) (userID : gostring) : Builder :=
  match userIDToIndex b !! userID with
  | Some idx => mkBuilder (userIDToIndex b) (hashedUsers b) (indexes b ++ [idx])
  | None =>
      match HashUserID userID with
      | None => b
      | Some hash =>
          let idx := u32 (Z.of_nat (length (hashedUsers b))) in
          mkBuilder (<[userID := idx]> (userIDToIndex b)) (hashedUsers b ++ [hash]) (indexes b ++ [idx])
      end
  end.

(** One machine user; the builder starts with no indexes. *)
Definition addMachineUser (users : gmap gostring idset) (st : Builder * gmap gostring (list Z))
    (machineUser : gostring) : Builder * gmap gostring (list Z) :=
  match users !! machineUser with
  | None => st
  | Some ids =>
      let b := foldl indexUser (mkBuilder (userIDToIndex st.1) (hashedUsers st.1) []) (ord ids) in
      (b, <[machineUser := indexes b]> st.2)
  end.

Definition buildAuthorizedUsersProto (users : gmap gostring idset) : list (list Z) * gmap gostring (list Z) :=
  let '(b, machineUsers) := foldl (addMachineUser users) (mkBuilder ∅ [] [], ∅) (ord (dom users)) in
  (hashedUsers b, machineUsers).

(** The part of [ToSyncResponse] for SSH, for a map with authorised users;
    the claim is the one of the HTTP configuration, if any. *)
Definition toSSHAuth (claim : gostring) (users : gmap gostring idset) : SSHAuth :=
  let '(hashed, machine) := buildAuthorizedUsersProto users in
  mkSSHAuth (if decide (claim = []) then DefaultUserIDClaim else claim) hashed machine.

(** The configuration that [updateSSHServerAuth] makes of a message; [None] if
    it drops the message for the length of a hash. *)
Definition authConfig (sshAuth : SSHAuth) : option Config :=
  if decide (Forall (fun hash => length hash = 16) (sa_AuthorizedUsers sshAuth)) then
    Some (mkConfig (sa_UserIDClaim sshAuth) (sa_AuthorizedUsers sshAuth) (sa_MachineUsers sshAuth))
  else None.

(** ** Proofs *)
Context (Hnew : forall m, is_Some (blake2b 16 m)) (Hord : enumerates ord).

Lemma copy16_length src : length (copy16 src) = 16.
Proof. unfold copy16. rewrite length_take, length_app, length_replicate. lia. Qed.

Lemma Hhash u : exists h, HashUserID u = Some h /\ length h = 16.
Proof.
  unfold HashUserID. destruct (Hnew u) as [sum ->]. eexists. split; [done|]. apply copy16_length.
Qed.

(** Every index stands for one user, whose hash is in its place. *)
Record builder_ok (b : Builder) : Prop := {
  bo_index : forall u i, userIDToIndex b !! u = Some i ->
    exists n, i = Z.of_nat n /\ hashedUsers b !! n = HashUserID u;
  bo_user : forall n h, hashedUsers b !! n = Some h ->
    exists u, userIDToIndex b !! u = Some (Z.of_nat n) /\ HashUserID u = Some h;
  bo_inj : forall u v i, userIDToIndex b !! u = Some i -> userIDToIndex b !! v = Some i -> u = v }.

Definition small (b : Builder) : Prop := (Z.of_nat (length (hashedUsers b)) <= 2 ^ 32)%Z.

Lemma indexUser_spec b u : builder_ok b -> small (indexUser b u) ->
  builder_ok (indexUser b u) /\
  (forall v i, userIDToIndex b !! v = Some i -> userIDToIndex (indexUser b u) !! v = Some i) /\
  exists i, userIDToIndex (indexUser b u) !! u = Some i /\ indexes (indexUser b u) = indexes b ++ [i].
Proof.
  intros [H1 H2 H3]. unfold indexUser, small. destruct (userIDToIndex b !! u) as [i|] eqn:Hu.
  { intros _. split_and!; [by split|done|]. eauto. }
  destruct (Hhash u) as (h & Hh & _). rewrite Hh. cbn. rewrite length_app. cbn. intros Hs.
  set (n := length (hashedUsers b)) in *.
  assert (u32 (Z.of_nat n) = Z.of_nat n) as -> by (unfold u32; apply Z.mod_small; lia).
  assert (forall v i, userIDToIndex b !! v = Some i -> v <> u) as Hne by congruence.
  assert (forall v, userIDToIndex b !! v <> Some (Z.of_nat n)) as Hfresh.
  { intros v Hv. destruct (H1 v _ Hv) as (k & ?%Nat2Z.inj & Hk). subst k. destruct (Hhash v) as (hv & Ev & _).
    rewrite Ev in Hk. apply lookup_lt_Some in Hk. unfold n in Hk. lia. }
  split_and!.
  - split; cbn.
    + intros v i [[<- <-]|[? Hv]]%lookup_insert_Some.
      * exists n. split; [done|]. rewrite Hh. unfold n. by rewrite lookup_app_r, Nat.sub_diag by done.
      * destruct (H1 v i Hv) as (k & -> & Hk). exists k. split; [done|]. destruct (Hhash v) as (hv & Ev & _).
        rewrite Ev in *. by apply lookup_app_l_Some.
    + intros k x [Hk|[Hle Hk]]%lookup_app_Some.
      * destruct (H2 k x Hk) as (v & Hv & ?). exists v. by rewrite lookup_insert_ne by (by apply not_eq_sym; eapply Hne).
      * destruct (k - length (hashedUsers b)) as [|j] eqn:E; [|by destruct j]. injection Hk as <-.
        exists u. replace k with n by (unfold n; lia). by rewrite lookup_insert_eq.
    + intros v w i [[<- <-]|[? Hv]]%lookup_insert_Some [[<- E]|[? Hw]]%lookup_insert_Some; try done.
      * by apply Hfresh in Hw.
      * subst i. by apply Hfresh in Hv.
      * by eapply H3.
  - intros v i Hv. cbn. by rewrite lookup_insert_ne by (by apply not_eq_sym; eapply Hne).
  - exists (Z.of_nat n). cbn. by rewrite lookup_insert_eq.
Qed.

Lemma indexUsers_only b us v : is_Some (userIDToIndex (foldl indexUser b us) !! v) ->
  is_Some (userIDToIndex b !! v) \/ v ∈ us.
Proof.
  revert b. induction us as [|u us IH]; intros b; cbn [foldl]; [by left|].
  intros [Hv|Hv]%IH; [|by right; right]. revert Hv. unfold indexUser.
  destruct (userIDToIndex b !! u); [by left|]. destruct (HashUserID u); [|by left]. cbn.
  destruct (decide (v = u)) as [->|Hne]; [right; left|]. rewrite lookup_insert_ne by done. by left.
Qed.

Lemma indexUser_grows b us : (length (hashedUsers b) <= length (hashedUsers (foldl indexUser b us)))%nat.
Proof.
  revert b. induction us as [|u us IH]; intros b; cbn [foldl]; [done|]. etrans; [|apply IH].
  unfold indexUser. destruct (userIDToIndex b !! u); [done|]. destruct (HashUserID u); [|done].
  cbn. rewrite length_app. lia.
Qed.

Lemma indexUsers_spec b us : builder_ok b -> small (foldl indexUser b us) ->
  let b' := foldl indexUser b us in
  builder_ok b' /\
  (forall v i, userIDToIndex b !! v = Some i -> userIDToIndex b' !! v = Some i) /\
  (forall i, i ∈ indexes b' <-> i ∈ indexes b \/ exists u, u ∈ us /\ userIDToIndex b' !! u = Some i) /\
  (forall u, u ∈ us -> is_Some (userIDToIndex b' !! u)).
Proof.
  cbn zeta. revert b. induction us as [|u us IH]; intros b Hb Hs; cbn [foldl] in *.
  { split_and!; [done|done|..]; [|by intros u ?%elem_of_nil].
    intros i. split; [by left|]. by intros [?|(u & ?%elem_of_nil & _)]. }
  assert (small (indexUser b u)) as Hs1 by (unfold small in *; pose proof (indexUser_grows (indexUser b u) us); lia).
  destruct (indexUser_spec b u Hb Hs1) as (Hb1 & Hm1 & i & Hi & Hidx).
  destruct (IH _ Hb1 Hs) as (Hb' & Hm & Hin & Hall). split_and!; [done|auto|..].
  - intros j. rewrite Hin, Hidx, elem_of_app, list_elem_of_singleton. setoid_rewrite elem_of_cons. split.
    + intros [[?| ->]|(v & ? & ?)]; [by left|right; eauto..].
    + intros [?|(v & [->|?] & Hv)]; [by left; left| |right; eauto].
      left. right. apply Hm in Hi. congruence.
  - intros v [->|?]%elem_of_cons; [|auto]. eauto.
Qed.

(** The indexes of a machine user stand for its users. *)
Definition machine_ok (users : gmap gostring idset) (index : gmap gostring Z) (m : gmap gostring (list Z))
    (mu : gostring) : Prop :=
  exists ids l, users !! mu = Some ids /\ m !! mu = Some l /\
    (forall i, i ∈ l <-> exists u, u ∈ ids /\ index !! u = Some i) /\
    (forall u, u ∈ ids -> is_Some (index !! u)).

Lemma machine_ok_mono users index index' m mu :
  (forall u i, index !! u = Some i -> index' !! u = Some i) ->
  machine_ok users index m mu -> machine_ok users index' m mu.
Proof.
  intros Hm (ids & l & H1 & H2 & H3 & H4). exists ids, l. split_and!; [done..| |].
  - intros i. rewrite H3. split; intros (u & Hu & Hi); exists u; (split; [done|]); [auto|].
    destruct (H4 u Hu) as [j Hj]. pose proof (Hm _ _ Hj). congruence.
  - intros u Hu. destruct (H4 u Hu) as [j Hj]. eauto.
Qed.

Record build_ok (users : gmap gostring idset) (done_ : list gostring) (st : Builder * gmap gostring (list Z)) :
    Prop := {
  bd_ok : builder_ok st.1;
  bd_done : forall mu, mu ∈ done_ -> machine_ok users (userIDToIndex st.1) st.2 mu;
  bd_only : forall mu, is_Some (st.2 !! mu) -> mu ∈ done_;
  bd_indexed : forall u, is_Some (userIDToIndex st.1 !! u) -> exists mu, authorized users mu u }.

Lemma addMachineUser_spec users done_ st mu : is_Some (users !! mu) ->
  build_ok users done_ st -> small (addMachineUser users st mu).1 ->
  build_ok users (done_ ++ [mu]) (addMachineUser users st mu).
Proof.
  intros [ids Hids] [H1 H2 H3 H4]. unfold addMachineUser. rewrite Hids. cbn zeta.
  set (b0 := mkBuilder _ _ []). cbn [fst]. intros Hs.
  assert (builder_ok b0) as Hb0 by (destruct H1; by split).
  destruct (indexUsers_spec b0 (ord ids) Hb0 Hs) as (Hb & Hm & Hin & Hall).
  set (b := foldl indexUser b0 (ord ids)) in *. split; cbn [fst snd].
  - done.
  - intros mu'. rewrite elem_of_app, list_elem_of_singleton. destruct (decide (mu' = mu)) as [->|Hne].
    + intros _. exists ids, (indexes b). rewrite lookup_insert_eq. split_and!; [done..| |].
      * intros i. rewrite Hin. cbn [b0 indexes]. setoid_rewrite (ord_elem _ _ _ Hord).
        split; [by intros [?%elem_of_nil|?]|by right].
      * intros u Hu. apply Hall. by apply (ord_elem _ _ _ Hord).
    + intros [Hd|?]; [|done]. apply (machine_ok_mono users (userIDToIndex st.1)); [done|].
      destruct (H2 mu' Hd) as (ids' & l & ? & ? & ? & ?). exists ids', l. by rewrite lookup_insert_ne by done.
  - intros mu'. rewrite elem_of_app, list_elem_of_singleton. destruct (decide (mu' = mu)) as [->|Hne]; [by right|].
    rewrite lookup_insert_ne by done. intros ?. left. auto.
  - intros u [Hu|Hu]%indexUsers_only; [by apply H4|]. exists mu. unfold authorized. rewrite Hids. cbn.
    by apply (ord_elem _ _ _ Hord).
Qed.

Lemma addMachineUser_grows users st mus :
  (length (hashedUsers st.1) <= length (hashedUsers (foldl (addMachineUser users) st mus).1))%nat.
Proof.
  revert st. induction mus as [|mu mus IH]; intros st; cbn [foldl]; [done|]. etrans; [|apply IH].
  unfold addMachineUser. destruct (users !! mu); [|done]. cbn.
  apply (indexUser_grows (mkBuilder (userIDToIndex st.1) (hashedUsers st.1) [])).
Qed.

Lemma addMachineUsers_spec users mus done_ st : (forall mu, mu ∈ mus -> is_Some (users !! mu)) ->
  build_ok users done_ st -> small (foldl (addMachineUser users) st mus).1 ->
  build_ok users (done_ ++ mus) (foldl (addMachineUser users) st mus).
Proof.
  revert done_ st. induction mus as [|mu mus IH]; intros done_ st Hu Hst Hs; cbn [foldl] in *.
  { by rewrite app_nil_r. }
  replace (done_ ++ mu :: mus) with ((done_ ++ [mu]) ++ mus) by by rewrite <- app_assoc.
  apply IH; [intros ? ?; apply Hu; by right| |done]. apply addMachineUser_spec; [apply Hu; by left|done|].
  unfold small in *. pose proof (addMachineUser_grows users (addMachineUser users st mu) mus). lia.
Qed.

Lemma findIndex_spec hash users i :
  match findIndex hash users i with
  | Some j => exists n, j = (i + Z.of_nat n)%Z /\ users !! n = Some hash
  | None => hash ∉ users
  end.
Proof.
  revert i. induction users as [|id users IH]; intros i; cbn [findIndex]; [by intros ?%elem_of_nil|].
  case_decide as H; [exists 0; split; [lia|by rewrite H]|].
  specialize (IH (i + 1)%Z). destruct (findIndex hash users (i + 1)).
  - destruct IH as (n & -> & ?). exists (S n). split; [lia|done].
  - by intros [?|?]%elem_of_cons.
Qed.

(** The tables that were built. *)
Lemma build_spec users hashed machine :
  buildAuthorizedUsersProto users = (hashed, machine) -> (Z.of_nat (length hashed) <= 2 ^ 32)%Z ->
  exists b, hashedUsers b = hashed /\ builder_ok b /\
    (forall mu, is_Some (users !! mu) -> machine_ok users (userIDToIndex b) machine mu) /\
    (forall mu, is_Some (machine !! mu) -> is_Some (users !! mu)) /\
    (forall u, is_Some (userIDToIndex b !! u) -> exists mu, authorized users mu u).
Proof.
  unfold buildAuthorizedUsersProto. destruct (foldl _ _ _) as [b m] eqn:Hf. intros [= <- <-] Hs.
  assert (build_ok users ([] ++ ord (dom users)) (b, m)) as [B1 B2 B3 B4].
  { rewrite <- Hf. apply addMachineUsers_spec.
    - intros mu. rewrite (ord_elem _ _ _ Hord). by rewrite elem_of_dom.
    - split; cbn; [|by intros ? ?%elem_of_nil|by intros mu [? ?%lookup_empty_Some]|by intros mu [? ?%lookup_empty_Some]].
      split; cbn; [by intros ? ? ?%lookup_empty_Some|done|by intros ? ? ? ?%lookup_empty_Some].
    - by rewrite Hf. }
  cbn [fst snd app] in *. exists b. split_and!; [done|done|..].
  - intros mu Hmu. apply B2. by apply (ord_elem _ _ _ Hord), elem_of_dom.
  - intros mu ?%B3. by apply elem_of_dom, (ord_elem ord _ _ Hord).
  - done.
Qed.

Lemma hashes_16 users hashed machine :
  buildAuthorizedUsersProto users = (hashed, machine) -> (Z.of_nat (length hashed) <= 2 ^ 32)%Z ->
  Forall (fun hash => length hash = 16) hashed.
Proof.
  intros Hb Hs. destruct (build_spec users hashed machine Hb Hs) as (b & <- & [_ B2 _] & _).
  apply Forall_forall. intros h (n & Hn)%list_elem_of_lookup. destruct (B2 n h Hn) as (u & _ & Hu).
  destruct (Hhash u) as (h' & E & ?). congruence.
Qed.

(** An index is in the filtered table for a local user exactly if the user is
    authorised for it. *)
Lemma index_authorized users machine b mu u i :
  (forall mu, is_Some (users !! mu) -> machine_ok users (userIDToIndex b) machine mu) ->
  (forall mu, is_Some (machine !! mu) -> is_Some (users !! mu)) ->
  builder_ok b -> userIDToIndex b !! u = Some i ->
  (exists l, filter (fun kv => 0 < length kv.2) machine !! mu = Some l /\ i ∈ l) <-> authorized users mu u.
Proof.
  intros Hm Honly Hb Hi. unfold authorized. split.
  - intros (l & [Hl _]%map_lookup_filter_Some & Hin).
    destruct (Hm mu (Honly mu (mk_is_Some _ _ Hl))) as (ids & l' & Hids & Hl' & Hiff & _).
    rewrite Hids. cbn. rewrite Hl in Hl'. injection Hl' as <-. destruct (proj1 (Hiff i) Hin) as (v & Hv & Hvi).
    by rewrite (bo_inj _ Hb u v i).
  - destruct (users !! mu) as [ids|] eqn:Hids; cbn; [|by intros ?%elem_of_empty]. intros Hu.
    destruct (Hm mu (mk_is_Some _ _ Hids)) as (ids' & l & E & Hl & Hiff & _).
    rewrite Hids in E. injection E as <-.
    assert (i ∈ l) as Hin by (apply Hiff; eauto). exists l. split; [|done].
    apply map_lookup_filter_Some. split; [done|]. cbn. destruct l; [by apply elem_of_nil in Hin|cbn; lia].
Qed.

(** A user that is authorised somewhere has its hash in the list. *)
Lemma authorized_hashed users machine b mu u h :
  (forall mu, is_Some (users !! mu) -> machine_ok users (userIDToIndex b) machine mu) ->
  builder_ok b -> HashUserID u = Some h -> authorized users mu u -> h ∈ hashedUsers b.
Proof.
  intros Hm Hb Hh. unfold authorized.
  destruct (users !! mu) as [ids|] eqn:Hids; cbn; [|by intros ?%elem_of_empty]. intros Hu.
  destruct (Hm mu (mk_is_Some _ _ Hids)) as (ids' & l & E & _ & _ & Hall).
  rewrite Hids in E. injection E as <-. destruct (Hall u Hu) as [i Hi].
  destruct (bo_index _ Hb u i Hi) as (n & _ & Hn). rewrite Hh in Hn. by eapply list_elem_of_lookup_2.
Qed.

(** The decision for an index. *)
Lemma checkMachineUserMapping_spec a osUsername i :
  (exists g, checkMachineUserMapping a osUsername i = Ok g) <->
  (exists l, machineUsers a !! Wildcard = Some l /\ u32 i ∈ l) \/
  (exists l, machineUsers a !! osUsername = Some l /\ u32 i ∈ l).
Proof.
  unfold checkMachineUserMapping, isIndexInList.
  assert (forall (o : option (list Z)), match o with Some l => bool_decide (u32 i ∈ l) | None => false end = true <->
    exists l, o = Some l /\ u32 i ∈ l) as Hif.
  { intros [l|]; [rewrite bool_decide_eq_true; split; [eauto|by intros (? & [= <-] & ?)]|].
    split; [done|by intros (? & ? & _)]. }
  destruct (match machineUsers a !! Wildcard with Some _ => _ | None => _ end) eqn:Hw.
  { apply Hif in Hw. split; [by left|eauto]. }
  assert (~ exists l, machineUsers a !! Wildcard = Some l /\ u32 i ∈ l) as Hn by (intros ?%Hif; congruence).
  rewrite <- (Hif (machineUsers a !! osUsername)). destruct (machineUsers a !! osUsername) as [l|].
  - destruct (bool_decide (u32 i ∈ l)); (split; [|by intros [?|?]; eauto]); [by right|by intros [? ?]].
  - split; [by intros [? ?]|by intros [?|?]].
Qed.
End hash.

(** After the client has taken over the SSH part of a message, the authorizer
    admits a user as an OS user if and only if the map authorises the user for
    that OS user or for every user. *)
Lemma authorizer_exact blake2b ord claim users a :
  (forall m, is_Some (blake2b 16%Z m)) -> enumerates ord ->
  (Z.of_nat (length (sa_AuthorizedUsers (toSSHAuth blake2b ord claim users))) <= 2 ^ 32)%Z ->
  exists config, authConfig (toSSHAuth blake2b ord claim users) = Some config /\
    userIDClaim (Update a (Some config)) = (if decide (claim = []) then DefaultUserIDClaim else claim) /\
    forall jwtUserID osUsername,
      (forall mu u, authorized users mu u -> HashUserID blake2b u = HashUserID blake2b jwtUserID -> u = jwtUserID) ->
      (exists g, Authorize blake2b (Update a (Some config)) jwtUserID osUsername = Ok g) <->
      jwtUserID <> [] /\ (authorized users Wildcard jwtUserID \/ authorized users osUsername jwtUserID).
Proof.
  intros Hnew Hord. unfold toSSHAuth. destruct (buildAuthorizedUsersProto _ _ _) as [hashed machine] eqn:Hb.
  cbn [sa_AuthorizedUsers]. intros Hs. unfold authConfig. cbn [sa_AuthorizedUsers sa_UserIDClaim sa_MachineUsers].
  rewrite decide_True by (by eapply hashes_16). eexists. split; [done|]. split.
  { cbn [Update userIDClaim UserIDClaim]. repeat case_decide; done. }
  intros jwtUserID osUsername Hcol.
  destruct (build_spec blake2b ord Hnew Hord users hashed machine Hb Hs) as (b & Hh & Hok & Hm & Honly & Hwho).
  unfold Authorize, findUserIndex. cbn [Update authorizedUsers AuthorizedUsers].
  destruct (decide (jwtUserID = [])) as [He|He]; [split; [by intros [? ?]|by intros [? _]]|].
  destruct (Hhash blake2b Hnew jwtUserID) as (h & Ej & _). rewrite Ej.
  pose proof (findIndex_spec h hashed 0) as Hf. destruct (findIndex h hashed 0) as [j|].
  - destruct Hf as (n & -> & Hn). rewrite <- Hh in Hn. destruct (bo_user _ _ Hok n h Hn) as (u & Hu & Eu).
    assert (forall mu, (exists l, filter (fun kv => 0 < length kv.2) machine !! mu = Some l /\
      u32 (0 + Z.of_nat n) ∈ l) <-> authorized users mu u) as Hix.
    { intros mu. rewrite <- (index_authorized blake2b users machine b mu u _ Hm Honly Hok Hu).
      replace (u32 (0 + Z.of_nat n)) with (Z.of_nat n); [done|]. unfold u32. rewrite Z.add_0_l, Z.mod_small; [done|].
      apply lookup_lt_Some in Hn. rewrite Hh in Hn. lia. }
    destruct (Hwho u (mk_is_Some _ _ Hu)) as [mu Hmu]. pose proof (Hcol mu u Hmu ltac:(congruence)). subst u.
    rewrite checkMachineUserMapping_spec. cbn [Update machineUsers MachineUsers]. rewrite !Hix.
    split; [by split|by intros [_ ?]].
  - rewrite <- Hh in Hf. split; [by intros [? ?]|]. intros [_ [Hau|Hau]]; destruct Hf;
      by eapply authorized_hashed.
Qed.
