(* ===== verification/SshServer.v ===== *)
(** * Logins at the SSH server
      (client/ssh/server/server.go, shared/auth/jwt/extractor.go,
      client/internal/engine_ssh.go)

    The password handler of the SSH server and the updates of its access
    control.  The handler is modelled twice: as one function for a login that
    runs alone, and as a step per critical section, so that logins and updates
    interleave.  The validation of a token (signatures and the key service),
    the clock, [url.JoinPath] and [time.Parse] are parameters. *)

From Stdlib Require Import ZArith Lia Ascii String.
From stdpp Require Import base gmap strings numbers list fin_maps.
From S2P Require Import Prelude GoStrings I2pSam NetMapTypes NetMapCalc NetMapConn NetMapSsh NetMapTheorems SshAuth.

Definition DefaultJWTMaxTokenAge : Z := (10 * 60)%Z.

(** ** Claims *)

(** A claim of a token; a number is given by its conversion to [int64]. *)
Inductive claim : Type := CString (s : gostring) | CNumber (n : Z) | CBool (b : bool) | COther.

Notation MapClaims := (gmap gostring claim).

Definition AccountIDSuffix : gostring := lit "wt_account_id".
Definition DomainIDSuffix : gostring := lit "wt_account_domain".
Definition DomainCategorySuffix : gostring := lit "wt_account_domain_category".
Definition jwt_UserIDClaim : gostring := lit "sub".
Definition LastLoginSuffix : gostring := lit "nb_last_login".
Definition Invited : gostring := lit "nb_invited".

Record ClaimsExtractor : Type := mkExtractor { ce_authAudience : gostring; ce_userIDClaim : gostring }.

Definition NewClaimsExtractor (audience claim : gostring) : ClaimsExtractor :=
  mkExtractor audience (if decide (claim = []) then jwt_UserIDClaim else claim).

(** The fields of [auth.UserAuth] that the extractor sets; [None] is the zero
    time. *)
Record UserAuth : Type := mkUserAuth {
  UserId : gostring;
  AccountId : gostring;
  ua_Domain : gostring;
  DomainCategory : gostring;
  LastLogin : option Z;
  ua_Invited : bool;
  Email : gostring;
  ua_Name : gostring;
  PreferredName : gostring }.

Inductive extract_error : Type := errUserIDClaimEmpty.

(** [claims[name].(string)] with its second result dropped. *)
Definition claim_string (claims : MapClaims) (name : gostring) : gostring :=
  match claims !! name with Some (CString s) => s | _ => [] end.

(** A claim that is asserted to be a string once it is there. *)
Definition asserted_string (claims : MapClaims) (name : gostring) : res extract_error gostring :=
  match claims !! name with
  | None => Ok []
  | Some (CString s) => Ok s
  | Some _ => Panic
  end.

(** ** State *)
Record JWTConfig : Type := mkJWTConfig {
  Issuer : gostring;
  KeysLocation : gostring;
  MaxTokenAge : Z;
  Audiences : list gostring }.

(** [jwt.Validator] less the keys it has fetched. *)
Record Validator : Type := mkValidator {
  v_issuer : gostring;
  v_audienceList : list gostring;
  v_keysLocation : gostring;
  v_idpSignkeyRefreshEnabled : bool }.

Definition NewValidator (config : JWTConfig) : Validator :=
  mkValidator (Issuer config) (Audiences config) (KeysLocation config) true.

Record connState : Type := mkConnState {
  cs_username : gostring;
  cs_remoteAddr : gostring;
  cs_portForwards : list gostring;
  cs_jwtUsername : gostring }.

(** The fields of [Server] that logins use. *)
Record Server : Type := mkServer {
  jwtConfig : option JWTConfig;
  jwtValidator : option Validator;
  jwtExtractor : option ClaimsExtractor;
  authorizer : Authorizer;
  pendingAuthJWT : gmap gostring gostring;
  connections : gmap gostring connState }.

Definition NewServer (config : option JWTConfig) : Server := mkServer config None None NewAuthorizer ∅ ∅.

(** The context of a login: the OS user, the remote address as text, and the
    password, a token. *)
Record Request : Type := mkRequest { rq_user : gostring; rq_addr : gostring; rq_password : gostring }.

Definition newAuthKey (username remoteAddr : gostring) : gostring := username ++ lit "@" ++ remoteAddr.

Inductive login_error : Type :=
| ErrNoJWTConfig | ErrNoAudiences | ErrNoValidator | ErrInvalidToken | ErrNoIssueTime | ErrTokenExpired
| ErrNoExtractor | ErrExtractUser | ErrNoSSHAccess | ErrDenied (e : auth_error).

(** Signed 64-bit wrap-around, and [time.Unix(sec, 0)] in nanoseconds from
    1970: a time counts its seconds from year 1, which may wrap. *)
Definition i64 (z : Z) : Z := ((z + 2 ^ 63) mod 2 ^ 64 - 2 ^ 63)%Z.

Definition unixToInternal : Z := 62135596800%Z.

Definition time_Unix (sec : Z) : Z := ((i64 (sec + unixToInternal) - unixToInternal) * 1000000000)%Z.

Section server.
Context (blake2b : Z -> gostring -> option (list Z)) (JoinPath : gostring -> gostring -> option gostring)
  (time_Parse : gostring -> option Z).

Definition parseTime (timeString : gostring) : option Z :=
  if decide (timeString = []) then None else time_Parse timeString.

Definition audienceClaim (c : ClaimsExtractor) (claimName : gostring) : gostring :=
  match JoinPath (ce_authAudience c) claimName with
  | Some audienceURL => audienceURL
  | None => ce_authAudience c ++ claimName
  end.

Definition ToUserAuth (c : ClaimsExtractor) (claims : MapClaims) : res extract_error UserAuth :=
  match claims !! ce_userIDClaim c with
  | Some (CString userID) =>
      accountID ← asserted_string claims (audienceClaim c AccountIDSuffix);
      domain ← asserted_string claims (audienceClaim c DomainIDSuffix);
      domainCategory ← asserted_string claims (audienceClaim c DomainCategorySuffix);
      lastLogin ← asserted_string claims (audienceClaim c LastLoginSuffix);
      Ok (mkUserAuth userID accountID domain domainCategory (parseTime lastLogin)
            (match claims !! audienceClaim c Invited with Some (CBool value) => value | _ => false end)
            (claim_string claims (lit "email")) (claim_string claims (lit "name"))
            (claim_string claims (lit "preferred_username")))
  | _ => Err errUserIDClaimEmpty
  end.

(** ** The server *)

(** [jwt_Parse now v token]: what [jwt.Parse] of golang-jwt answers at a time,
    with the keys the validator then has; a parsed token has map claims. *)
Context (jwt_Parse : Z -> Validator -> gostring -> option MapClaims).

Definition ValidateAndParse (now : Z) (v : Validator) (token : gostring) : option MapClaims :=
  if decide (token = []) then None else jwt_Parse now v token.

(** [UpdateSSHAuth]. *)
Definition UpdateSSHAuth (s : Server) (config : option Config) : Server :=
  mkServer (jwtConfig s) None None (Update (authorizer s) config) (pendingAuthJWT s) (connections s).

(** The first critical section of [ensureJWTValidator] and the checks after
    it: [Ok None] if there is nothing to do. *)
Definition ensureCheck (s : Server) : res login_error (option JWTConfig) :=
  match jwtValidator s, jwtExtractor s with
  | Some _, Some _ => Ok None
  | _, _ =>
      match jwtConfig s with
      | None => Err ErrNoJWTConfig
      | Some config => if decide (Audiences config = []) then Err ErrNoAudiences else Ok (Some config)
      end
  end.

(** The extractor of [ensureJWTValidator], from the claim the authorizer has. *)
Definition makeExtractor (s : Server) (config : JWTConfig) : ClaimsExtractor :=
  NewClaimsExtractor (hd [] (Audiences config)) (userIDClaim (authorizer s)).

(** Its last critical section. *)
Definition ensureInstall (s : Server) (v : Validator) (e : ClaimsExtractor) : Server :=
  match jwtValidator s, jwtExtractor s with
  | Some _, Some _ => s
  | _, _ => mkServer (jwtConfig s) (Some v) (Some e) (authorizer s) (pendingAuthJWT s) (connections s)
  end.

Definition ensureJWTValidator (s : Server) : Server * res login_error unit :=
  match ensureCheck s with
  | Ok None => (s, Ok tt)
  | Ok (Some config) => (ensureInstall s (NewValidator config) (makeExtractor s config), Ok tt)
  | Err e => (s, Err e)
  | Panic => (s, Panic)
  end.

Definition checkTokenAge (now : Z) (claims : MapClaims) (config : option JWTConfig) : res login_error unit :=
  match config with
  | None => Ok tt
  | Some config =>
      let maxTokenAge := if decide (MaxTokenAge config <= 0)%Z then DefaultJWTMaxTokenAge else MaxTokenAge config in
      match claims !! lit "iat" with
      | Some (CNumber iat) =>
          let tokenAge := time_Sub now (time_Unix iat) in
          let maxAge := i64 (maxTokenAge * 1000000000) in
          if decide (maxAge < tokenAge)%Z then Err ErrTokenExpired else Ok tt
      | _ => Err ErrNoIssueTime
      end
  end.

Definition validateJWTToken (now : Z) (s : Server) (tokenString : gostring) : res login_error MapClaims :=
  match jwtValidator s with
  | None => Err ErrNoValidator
  | Some v =>
      match ValidateAndParse now v tokenString with
      | None => Err ErrInvalidToken
      | Some claims => _ ← checkTokenAge now claims (jwtConfig s); Ok claims
      end
  end.

Definition hasSSHAccess (userAuth : UserAuth) : bool := bool_decide (UserId userAuth <> []).

Definition extractAndValidateUser (s : Server) (claims : MapClaims) : res login_error UserAuth :=
  match jwtExtractor s with
  | None => Err ErrNoExtractor
  | Some e =>
      match ToUserAuth e claims with
      | Ok userAuth => if hasSSHAccess userAuth then Ok userAuth else Err ErrNoSSHAccess
      | Err _ => Err ErrExtractUser
      | Panic => Panic
      end
  end.

(** The last critical section of the handler. *)
Definition recordLogin (s : Server) (rq : Request) (userAuth : UserAuth) : Server :=
  mkServer (jwtConfig s) (jwtValidator s) (jwtExtractor s) (authorizer s)
    (<[newAuthKey (rq_user rq) (rq_addr rq) := UserId userAuth]> (pendingAuthJWT s))
    (<[rq_addr rq := mkConnState (rq_user rq) (rq_addr rq) [] (UserId userAuth)]> (connections s)).

Definition authorizeLogin (s : Server) (rq : Request) (userAuth : UserAuth) : res login_error unit :=
  match Authorize blake2b (authorizer s) (UserId userAuth) (rq_user rq) with
  | Ok _ => Ok tt
  | Err e => Err (ErrDenied e)
  | Panic => Panic
  end.

(** A login that runs alone; [Ok] is the result [true], an error is logged
    and the result is [false]. *)
Definition passwordHandler (now : Z) (s : Server) (rq : Request) : Server * res login_error unit :=
  let '(s, ready) := ensureJWTValidator s in
  match
    _ ← ready;
    claims ← validateJWTToken now s (rq_password rq);
    userAuth ← extractAndValidateUser s claims;
    _ ← authorizeLogin s rq userAuth;
    Ok userAuth
  with
  | Ok userAuth => (recordLogin s rq userAuth, Ok tt)
  | Err e => (s, Err e)
  | Panic => (s, Panic)
  end.

(** [updateSSHServerAuth] of the engine, on the SSH server if it runs. *)
Definition updateSSHServerAuth (sshAuth : option SSHAuth) (sshServer : option Server) : option Server :=
  match sshAuth with
  | None => sshServer
  | Some sshAuth =>
      match sshServer with
      | None => None
      | Some s =>
          match authConfig sshAuth with
          | None => Some s
          | Some config => Some (UpdateSSHAuth s (Some config))
          end
      end
  end.

(** ** Interleaving *)

(** Where a login stands; every step reads or writes the server under its
    lock, or the authorizer under its own. *)
Inductive pc : Type :=
| PCheck
| PClaim (config : JWTConfig)
| PInstall (v : Validator) (e : ClaimsExtractor)
| PValidate
| PExtract (claims : MapClaims)
| PAuthorize (userAuth : UserAuth)
| PRecord (userAuth : UserAuth)
| PDone (result : res login_error unit).

Definition goto {A} (m : res login_error A) (next : A -> pc) : pc :=
  match m with Ok a => next a | Err e => PDone (Err e) | Panic => PDone Panic end.

Definition handler_step (now : Z) (rq : Request) (s : Server) (p : pc) : Server * pc :=
  match p with
  | PCheck => (s, goto (ensureCheck s) (fun o => match o with None => PValidate | Some config => PClaim config end))
  | PClaim config => (s, PInstall (NewValidator config) (makeExtractor s config))
  | PInstall v e => (ensureInstall s v e, PValidate)
  | PValidate => (s, goto (validateJWTToken now s (rq_password rq)) PExtract)
  | PExtract claims => (s, goto (extractAndValidateUser s claims) PAuthorize)
  | PAuthorize userAuth => (s, goto (authorizeLogin s rq userAuth) (fun _ => PRecord userAuth))
  | PRecord userAuth => (recordLogin s rq userAuth, PDone (Ok tt))
  | PDone result => (s, PDone result)
  end.

(** [n] steps of a login with no other in between. *)
Fixpoint handler_run (n : nat) (now : Z) (rq : Request) (s : Server) (p : pc) : Server * pc :=
  match n with
  | O => (s, p)
  | S n => let '(s, p) := handler_step now rq s p in handler_run n now rq s p
  end.

(** A login with the number of updates before it started, and the system: the
    server, its logins and, for the statements, the authorizers it has had. *)
Record Login : Type := mkLogin { lg_request : Request; lg_pc : pc; lg_since : nat }.

Record System : Type := mkSystem {
  sy_server : Server;
  sy_logins : list Login;
  sy_history : list Authorizer }.

Inductive sys_step : System -> System -> Prop :=
| login_starts s ls hist rq :
    sys_step (mkSystem s ls hist) (mkSystem s (ls ++ [mkLogin rq PCheck (pred (length hist))]) hist)
| login_continues s ls hist i l now s' p' :
    ls !! i = Some l -> handler_step now (lg_request l) s (lg_pc l) = (s', p') ->
    sys_step (mkSystem s ls hist) (mkSystem s' (<[i := mkLogin (lg_request l) p' (lg_since l)]> ls) hist)
| access_updated s ls hist config :
    sys_step (mkSystem s ls hist)
      (mkSystem (UpdateSSHAuth s config) ls (hist ++ [Update (authorizer s) config])).

Definition sys_init (config : option JWTConfig) : System := mkSystem (NewServer config) [] [NewAuthorizer].
End server.
