(* ===== verification/SshLogin.v ===== *)
(** * Theorems on logins at the SSH server

    A login that runs alone follows the network map of the last message; a
    login among others and among updates is admitted only by a token that was
    valid and by an access control that was in force while it ran; an update
    in the middle of a login can leave the user claim of the old message in
    force. *)

From Stdlib Require Import ZArith Lia Ascii String Relations.
From stdpp Require Import base gmap strings numbers list fin_maps relations.
From S2P Require Import Prelude GoStrings I2pSam NetMapTypes NetMapCalc NetMapConn NetMapSsh NetMapTheorems SshAuth SshServer.

Section login.
Context (blake2b : Z -> gostring -> option (list Z)) (JoinPath : gostring -> gostring -> option gostring)
  (time_Parse : gostring -> option Z) (jwt_Parse : Z -> Validator -> gostring -> option MapClaims).

Notation run := (handler_run blake2b JoinPath time_Parse jwt_Parse).
Notation login := (passwordHandler blake2b JoinPath time_Parse jwt_Parse).
Notation extract := (ToUserAuth JoinPath time_Parse).
Notation sys := (sys_step blake2b JoinPath time_Parse jwt_Parse).

Lemma done_stays n now rq s r : run n now rq s (PDone r) = (s, PDone r).
Proof. by induction n. Qed.

(** The part of the handler after the validator is ready. *)
Lemma validated_alone now s rq n :
  run (4 + n) now rq s PValidate = prod_map id PDone
    match
      claims ← validateJWTToken jwt_Parse now s (rq_password rq);
      userAuth ← extractAndValidateUser JoinPath time_Parse s claims;
      _ ← authorizeLogin blake2b s rq userAuth;
      Ok userAuth
    with
    | Ok userAuth => (recordLogin s rq userAuth, Ok tt)
    | Err e => (s, Err e)
    | Panic => (s, Panic)
    end.
Proof.
  cbn [handler_run handler_step Nat.add]. unfold mbind, res_bind.
  destruct (validateJWTToken _ _ _ _) as [claims|e|]; cbn [goto handler_run handler_step]; rewrite ?done_stays; [|done..].
  destruct (extractAndValidateUser _ _ _ _) as [u|e|]; cbn [goto handler_run handler_step]; rewrite ?done_stays; [|done..].
  destruct (authorizeLogin _ _ _ _) as [[]|e|]; cbn [goto handler_run handler_step]; by rewrite ?done_stays.
Qed.

(** The steps of a login that is not interrupted are those of the handler. *)
Lemma handler_alone now s rq : run 7 now rq s PCheck = prod_map id PDone (login now s rq).
Proof.
  unfold passwordHandler, ensureJWTValidator. cbn [handler_run handler_step].
  destruct (ensureCheck s) as [[config|]|e|]; cbn [goto handler_run handler_step]; [..|done|done].
  - exact (validated_alone now _ rq 0).
  - exact (validated_alone now s rq 2).
Qed.

(** ** Tokens *)

(** The token is not older than the configuration allows. *)
Definition fresh (config : JWTConfig) (now : Z) (claims : MapClaims) : Prop :=
  exists iat, claims !! lit "iat" = Some (CNumber iat) /\
    (time_Sub now (time_Unix iat) <=
     i64 ((if decide (MaxTokenAge config <= 0) then DefaultJWTMaxTokenAge else MaxTokenAge config) * 1000000000))%Z.

(** The password is a token that the validator of the configuration accepts. *)
Definition good_token (config : JWTConfig) (now : Z) (password : gostring) (claims : MapClaims) : Prop :=
  password <> [] /\ jwt_Parse now (NewValidator config) password = Some claims /\ fresh config now claims.

Lemma validate_spec now s config password claims :
  jwtConfig s = Some config -> jwtValidator s = Some (NewValidator config) ->
  validateJWTToken jwt_Parse now s password = Ok claims <-> good_token config now password claims.
Proof.
  intros Hc Hv. unfold validateJWTToken, ValidateAndParse, good_token, fresh, checkTokenAge. rewrite Hc, Hv.
  destruct (decide (password = [])) as [->|Hp]; [by split; [|intros [? _]]|].
  destruct (jwt_Parse now (NewValidator config) password) as [cl|]; [|by split; [|intros (_ & ? & _)]].
  set (m := (if decide (MaxTokenAge config <= 0)%Z then _ else _)). cbn zeta.
  destruct (cl !! lit "iat") as [[| iat | |]|] eqn:Hi; unfold mbind, res_bind;
    try (split; [done|intros (_ & [= <-] & ? & ? & _); congruence]).
  destruct (decide (i64 (m * 1000000000) < time_Sub now (time_Unix iat))%Z) as [Hlt|Hge].
  - split; [done|]. intros (_ & [= <-] & iat' & Hi' & Hle). rewrite Hi in Hi'. injection Hi' as <-. lia.
  - split; [|by intros (_ & [= <-] & _)]. intros [= <-]. split_and!; [done..|]. exists iat. split; [done|lia].
Qed.

(** Within the usual ranges, the age is the difference of the clocks. *)
Lemma fresh_usual config now claims iat :
  claims !! lit "iat" = Some (CNumber iat) -> (0 <= iat < 2 ^ 40)%Z -> (0 <= now < 2 ^ 62)%Z ->
  (MaxTokenAge config < 2 ^ 32)%Z ->
  fresh config now claims <->
  (now <= (iat + if decide (MaxTokenAge config <= 0) then 600 else MaxTokenAge config) * 1000000000)%Z.
Proof.
  intros Hi Hiat Hnow Hmax. unfold fresh, time_Sub, time_Unix, unixToInternal, DefaultJWTMaxTokenAge.
  assert (forall z, - 2 ^ 63 <= z < 2 ^ 63 -> i64 z = z)%Z as Hid.
  { intros z Hz. unfold i64. rewrite Z.mod_small; lia. }
  set (m := (if decide (MaxTokenAge config <= 0)%Z then (10 * 60)%Z else MaxTokenAge config)).
  replace (if decide (MaxTokenAge config <= 0)%Z then 600%Z else MaxTokenAge config) with m by done.
  assert (0 <= m < 2 ^ 32)%Z as Hm by (unfold m; case_decide; lia).
  assert (i64 (m * 1000000000) = m * 1000000000)%Z as Hm' by (apply Hid; lia).
  split.
  - intros (iat' & Hi' & Hle). rewrite Hi in Hi'. injection Hi' as <-. rewrite Hm', Hid in Hle by lia. lia.
  - intros Hle. exists iat. split; [done|]. rewrite Hm', Hid by lia. lia.
Qed.

(** ** One login after an update *)

(** The claims that are asserted to be strings are strings. *)
Definition string_claims (e : ClaimsExtractor) (claims : MapClaims) : Prop :=
  forall name, name ∈ [AccountIDSuffix; DomainIDSuffix; DomainCategorySuffix; LastLoginSuffix] ->
    match claims !! audienceClaim JoinPath e name with None | Some (CString _) => True | _ => False end.

Lemma asserted_ok claims name :
  match claims !! name with None | Some (CString _) => True | _ => False end <->
  exists t, asserted_string claims name = Ok t.
Proof. unfold asserted_string. destruct (claims !! name) as [[]|]; split; try done; try (by eauto); by intros [? ?]. Qed.

Lemma extract_spec e claims u :
  claims !! ce_userIDClaim e = Some (CString u) ->
  (string_claims e claims -> exists ua, extract e claims = Ok ua /\ UserId ua = u) /\
  (~ string_claims e claims -> extract e claims = Panic).
Proof.
  intros Hu. unfold ToUserAuth, string_claims. rewrite Hu. setoid_rewrite asserted_ok. split.
  - intros H. destruct (H AccountIDSuffix) as [? ->]; [by repeat constructor|].
    destruct (H DomainIDSuffix) as [? ->]; [by repeat constructor|].
    destruct (H DomainCategorySuffix) as [? ->]; [by repeat constructor|].
    destruct (H LastLoginSuffix) as [? ->]; [by repeat constructor|]. cbn. eauto.
  - intros Hn.
    assert (forall name, {t | asserted_string claims name = Ok t} + {asserted_string claims name = Panic}) as Hd.
    { intros name. unfold asserted_string. destruct (claims !! name) as [[]|]; eauto. }
    destruct (Hd (audienceClaim JoinPath e AccountIDSuffix)) as [[a Ha]| ->]; [|done].
    destruct (Hd (audienceClaim JoinPath e DomainIDSuffix)) as [[b Hb]|Hb]; [|by rewrite Ha, Hb].
    destruct (Hd (audienceClaim JoinPath e DomainCategorySuffix)) as [[c Hc]|Hc]; [|by rewrite Ha, Hb, Hc].
    destruct (Hd (audienceClaim JoinPath e LastLoginSuffix)) as [[d Hd']|Hd']; [|by rewrite Ha, Hb, Hc, Hd'].
    destruct Hn. intros name Hin.
    repeat (apply elem_of_cons in Hin as [->|Hin]; [by eauto|]). by apply elem_of_nil in Hin.
Qed.

Lemma extract_inv e claims ua : extract e claims = Ok ua ->
  claims !! ce_userIDClaim e = Some (CString (UserId ua)) /\ string_claims e claims.
Proof.
  intros H. destruct (claims !! ce_userIDClaim e) as [[u| | |]|] eqn:Hu; unfold ToUserAuth in H; rewrite Hu in H; try done.
  unfold string_claims. setoid_rewrite asserted_ok. unfold mbind, res_bind in H.
  destruct (asserted_string claims (audienceClaim JoinPath e AccountIDSuffix)) eqn:E1; [|done..].
  destruct (asserted_string claims (audienceClaim JoinPath e DomainIDSuffix)) eqn:E2; [|done..].
  destruct (asserted_string claims (audienceClaim JoinPath e DomainCategorySuffix)) eqn:E3; [|done..].
  destruct (asserted_string claims (audienceClaim JoinPath e LastLoginSuffix)) eqn:E4; [|done..].
  injection H as <-. split; [done|]. intros name Hin.
  repeat (apply elem_of_cons in Hin as [->|Hin]; [by eauto|]). by apply elem_of_nil in Hin.
Qed.

Lemma extract_panics e claims : extract e claims = Panic ->
  exists u, claims !! ce_userIDClaim e = Some (CString u) /\ ~ string_claims e claims.
Proof.
  intros H. destruct (claims !! ce_userIDClaim e) as [[u| | |]|] eqn:Hu;
    try (unfold ToUserAuth in H; rewrite Hu in H; done).
  exists u. split; [done|]. intros Hs. destruct (extract_spec e claims u Hu) as [Hok _].
  destruct (Hok Hs) as (ua & E & _). congruence.
Qed.

Lemma Authorize_returns a u osUser : Authorize blake2b a u osUser <> Panic.
Proof.
  unfold Authorize, checkMachineUserMapping. repeat (case_decide || case_match); done.
Qed.

Lemma validate_returns now s password : validateJWTToken jwt_Parse now s password <> Panic.
Proof.
  unfold validateJWTToken, checkTokenAge, mbind, res_bind. repeat (case_decide || case_match); congruence.
Qed.

(** A login that runs alone after an update uses the new claim and the new
    tables. *)
Lemma login_after_update s config cfg now rq :
  jwtConfig s = Some config -> Audiences config <> [] ->
  let a := Update (authorizer s) cfg in
  let e := NewClaimsExtractor (hd [] (Audiences config)) (userIDClaim a) in
  let r := snd (login now (UpdateSSHAuth s cfg) rq) in
  (r = Ok tt <-> exists claims ua, good_token config now (rq_password rq) claims /\ extract e claims = Ok ua /\
     UserId ua <> [] /\ exists g, Authorize blake2b a (UserId ua) (rq_user rq) = Ok g) /\
  (r = Panic <-> exists claims, good_token config now (rq_password rq) claims /\ extract e claims = Panic).
Proof.
  intros Hc Ha a e. cbn zeta. unfold passwordHandler, ensureJWTValidator, ensureCheck.
  cbn [UpdateSSHAuth jwtValidator jwtExtractor jwtConfig]. rewrite Hc, decide_False by done.
  cbn [ensureInstall UpdateSSHAuth jwtValidator jwtExtractor].
  change (makeExtractor _ config) with e.
  set (s' := mkServer _ (Some _) (Some e) _ _ _).
  pose proof (fun claims => validate_spec now s' config (rq_password rq) claims Hc eq_refl) as Hv.
  setoid_rewrite <- Hv. unfold mbind, res_bind.
  destruct (validateJWTToken jwt_Parse now s' (rq_password rq)) as [claims|err|] eqn:Ev; cbn [snd].
  - unfold extractAndValidateUser, authorizeLogin, hasSSHAccess. cbn [s' jwtExtractor authorizer].
    destruct (extract e claims) as [ua|err|] eqn:Ee; cbn [snd].
    + destruct (decide (UserId ua = [])) as [He|He]; [rewrite bool_decide_eq_false_2 by (by intros [])|
        rewrite bool_decide_eq_true_2 by done]; cbn [snd].
      { split; (split; [done|]); [intros (? & ? & [= <-] & E & ? & _)|intros (? & [= <-] & E)]; congruence. }
      change (authorizer (UpdateSSHAuth s cfg)) with a.
      destruct (Authorize blake2b a (UserId ua) (rq_user rq)) as [g|err|] eqn:Eg; cbn [snd].
      * split; split; try done; [intros _; exists claims, ua; eauto 6|intros (? & [= <-] & E); congruence].
      * split; (split; [done|]); [intros (? & ? & [= <-] & E & _ & g & ?)|intros (? & [= <-] & E)]; congruence.
      * by destruct (Authorize_returns a (UserId ua) (rq_user rq)).
    + split; (split; [done|]); [intros (? & ? & [= <-] & E & _)|intros (? & [= <-] & E)]; congruence.
    + split; split; try done; [intros (? & ? & [= <-] & E & _); congruence|eauto].
  - split; (split; [done|]); [by intros (? & ? & ? & _)|by intros (? & ? & _)].
  - by destruct (validate_returns now s' (rq_password rq)).
Qed.

(** ** Logins among updates *)
Context (config : JWTConfig).

(** The extractor was made from the claim of one of the authorizers. *)
Definition claim_of (hist : list Authorizer) (e : ClaimsExtractor) : Prop :=
  exists k a, hist !! k = Some a /\ e = NewClaimsExtractor (hd [] (Audiences config)) (userIDClaim a).

Definition extracted (hist : list Authorizer) (rq : Request) (ua : UserAuth) : Prop :=
  exists now claims e, good_token config now (rq_password rq) claims /\ claim_of hist e /\
    extract e claims = Ok ua /\ UserId ua <> [].

Definition allowed (hist : list Authorizer) (since : nat) (rq : Request) (ua : UserAuth) : Prop :=
  exists k a g, since <= k /\ hist !! k = Some a /\ Authorize blake2b a (UserId ua) (rq_user rq) = Ok g.

Definition pc_ok (hist : list Authorizer) (rq : Request) (since : nat) (p : pc) : Prop :=
  match p with
  | PCheck | PValidate | PDone (Err _) | PDone Panic => True
  | PClaim c => c = config
  | PInstall v e => v = NewValidator config /\ claim_of hist e
  | PExtract claims => exists now, good_token config now (rq_password rq) claims
  | PAuthorize ua => extracted hist rq ua
  | PRecord ua => extracted hist rq ua /\ allowed hist since rq ua
  | PDone (Ok _) => exists ua, extracted hist rq ua /\ allowed hist since rq ua
  end.

Definition login_ok (hist : list Authorizer) (l : Login) : Prop :=
  lg_since l < length hist /\ pc_ok hist (lg_request l) (lg_since l) (lg_pc l).

Record server_ok (hist : list Authorizer) (s : Server) : Prop := {
  so_config : jwtConfig s = Some config;
  so_validator : forall v, jwtValidator s = Some v -> v = NewValidator config;
  so_extractor : forall e, jwtExtractor s = Some e -> claim_of hist e;
  so_last : last hist = Some (authorizer s);
  so_claims : Forall (fun a => userIDClaim a <> []) hist }.

Record sys_ok (sy : System) : Prop := {
  sk_server : server_ok (sy_history sy) (sy_server sy);
  sk_logins : Forall (login_ok (sy_history sy)) (sy_logins sy) }.

(** What was true of the past stays true. *)
Lemma claim_of_mono hist a e : claim_of hist e -> claim_of (hist ++ [a]) e.
Proof. intros (k & b & Hk & ?). exists k, b. split; [by apply lookup_app_l_Some|done]. Qed.

Lemma extracted_mono hist a rq ua : extracted hist rq ua -> extracted (hist ++ [a]) rq ua.
Proof.
  intros (now & claims & e & ? & ? & ? & ?). exists now, claims, e. split_and!; try done. by apply claim_of_mono.
Qed.

Lemma allowed_mono hist a since rq ua : allowed hist since rq ua -> allowed (hist ++ [a]) since rq ua.
Proof. intros (k & b & g & ? & ? & ?). exists k, b, g. split_and!; try done. by apply lookup_app_l_Some. Qed.

Lemma login_ok_mono hist a l : login_ok hist l -> login_ok (hist ++ [a]) l.
Proof.
  intros [Hs Hp]. split; [rewrite length_app; lia|]. destruct (lg_pc l) as [| | | | | | |[]]; cbn in *; try done.
  - destruct Hp. split; [done|by apply claim_of_mono].
  - by apply extracted_mono.
  - destruct Hp. split; [by apply extracted_mono|by apply allowed_mono].
  - destruct Hp as (ua & ? & ?). exists ua. split; [by apply extracted_mono|by apply allowed_mono].
Qed.

Lemma ensureCheck_config hist s o : server_ok hist s -> ensureCheck s = Ok (Some o) -> o = config.
Proof. intros H. unfold ensureCheck. rewrite (so_config _ _ H). repeat case_match; congruence. Qed.

Lemma last_in_force hist s since : server_ok hist s -> since < length hist ->
  exists k, since <= k /\ hist !! k = Some (authorizer s).
Proof.
  intros H Hlt. exists (pred (length hist)). rewrite <- last_lookup. split; [lia|by apply H].
Qed.

(** A step of a login keeps the server and the login in order. *)
Lemma handler_step_ok hist s rq since p now s' p' :
  server_ok hist s -> since < length hist -> pc_ok hist rq since p ->
  handler_step blake2b JoinPath time_Parse jwt_Parse now rq s p = (s', p') ->
  server_ok hist s' /\ pc_ok hist rq since p'.
Proof.
  intros Hs Hlt Hp. destruct p as [|c|v e| |claims|ua|ua|r]; cbn [handler_step]; intros [= <- <-].
  - split; [done|]. destruct (ensureCheck s) as [[c|]|err|] eqn:E; cbn; try done. by eapply ensureCheck_config.
  - split; [done|]. cbn in Hp. subst c. split; [done|].
    destruct (last_in_force hist s 0 Hs) as (k & _ & Hk); [lia|]. by exists k, (authorizer s).
  - split; [|done]. destruct Hp as [-> He].
    assert (server_ok hist (mkServer (jwtConfig s) (Some (NewValidator config)) (Some e) (authorizer s)
      (pendingAuthJWT s) (connections s))) as Hnew.
    { destruct Hs. split; cbn; try done; by intros ? [= <-]. }
    unfold ensureInstall. destruct (jwtValidator s); [destruct (jwtExtractor s)|]; done.
  - split; [done|]. destruct (validateJWTToken jwt_Parse now s (rq_password rq)) as [claims|err|] eqn:E; cbn; try done.
    exists now. destruct (jwtValidator s) as [v|] eqn:Hv; [|by unfold validateJWTToken in E; rewrite Hv in E].
    rewrite (so_validator _ _ Hs v Hv) in Hv. by apply (validate_spec now s config) in E; [| |done]; [|apply Hs].
  - split; [done|]. destruct Hp as [now' Ht]. unfold extractAndValidateUser, hasSSHAccess.
    destruct (jwtExtractor s) as [e|] eqn:He; [|done].
    destruct (extract e claims) as [ua| |] eqn:Ee; [|done..].
    destruct (bool_decide _) eqn:Hb; [|done]. apply bool_decide_eq_true in Hb.
    exists now', claims, e. split_and!; try done. by apply (so_extractor _ _ Hs).
  - split; [done|]. unfold authorizeLogin.
    destruct (Authorize blake2b (authorizer s) (UserId ua) (rq_user rq)) as [g| |] eqn:Eg; cbn; [|done..].
    split; [done|]. destruct (last_in_force hist s since Hs Hlt) as (k & Hk & Ha). by exists k, (authorizer s), g.
  - split; [by destruct Hs|]. by exists ua.
  - done.
Qed.

Lemma Update_claim a cfg : userIDClaim (Update a cfg) <> [].
Proof. destruct cfg as [cfg|]; cbn; [case_decide|]; done. Qed.

Lemma sys_step_ok sy sy' : sys sy sy' -> sys_ok sy -> sys_ok sy'.
Proof.
  intros Hst [Hs Hl]. destruct Hst as [s ls hist rq|s ls hist i l now s' p' Hi Hp|s ls hist cfg];
    cbn [sy_server sy_logins sy_history] in *.
  - split; cbn; [done|]. apply Forall_app. split; [done|]. apply Forall_singleton. split; [|done].
    destruct (last_in_force hist s 0) as (k & _ & Hk%lookup_lt_Some); [done| |cbn; lia].
    destruct hist; [by destruct Hs|cbn; lia].
  - pose proof (Forall_lookup_1 _ _ _ _ Hl Hi) as [Hlt Hok].
    destruct (handler_step_ok hist s _ _ _ now s' p' Hs Hlt Hok Hp) as [Hs' Hok'].
    split; cbn; [done|]. apply Forall_insert; [done|]. by split.
  - split; cbn; [|by eapply Forall_impl; [|intros; apply login_ok_mono]]. destruct Hs as [H1 H2 H3 H4 H5].
    split; cbn; try done; [by rewrite last_snoc|]. apply Forall_app. split; [done|]. apply Forall_singleton.
    apply Update_claim.
Qed.

Lemma sys_reachable_ok sy : rtc sys (sys_init (Some config)) sy -> sys_ok sy.
Proof.
  intros Hr. assert (sys_ok (sys_init (Some config))) as H0.
  { split; cbn; [|done]. split; cbn; try done. by apply Forall_singleton. }
  induction Hr as [|x y z Hxy _ IH]; [done|]. apply IH. by eapply sys_step_ok.
Qed.
End login.

(** C11: SSH logins follow the network map.  After the client has taken over
    the SSH part of a message, a login that runs alone is admitted if and only
    if its password is a token that validates and is not too old, its user
    claim, the one of the message, names a user, the other claims are of the
    asserted types, and the network map authorises that user for the OS user
    or for every OS user ([*]), whatever the order in which the maps are
    walked.  The handler panics exactly on such a token with a claim of
    another type. *)
Theorem ssh_login_exact blake2b JoinPath time_Parse jwt_Parse ord claim users s config now rq :
  (forall m, is_Some (blake2b 16%Z m)) -> enumerates ord ->
  (Z.of_nat (length (sa_AuthorizedUsers (toSSHAuth blake2b ord claim users))) <= 2 ^ 32)%Z ->
  jwtConfig s = Some config -> Audiences config <> [] ->
  let c := if decide (claim = []) then DefaultUserIDClaim else claim in
  let e := mkExtractor (hd [] (Audiences config)) c in
  (forall claims u mu v, jwt_Parse now (NewValidator config) (rq_password rq) = Some claims ->
     claims !! c = Some (CString u) -> authorized users mu v -> HashUserID blake2b v = HashUserID blake2b u -> v = u) ->
  exists s', updateSSHServerAuth (Some (toSSHAuth blake2b ord claim users)) (Some s) = Some s' /\
    (snd (passwordHandler blake2b JoinPath time_Parse jwt_Parse now s' rq) = Ok tt <->
     exists claims u, good_token jwt_Parse config now (rq_password rq) claims /\ claims !! c = Some (CString u) /\
       u <> [] /\ string_claims JoinPath e claims /\ (authorized users Wildcard u \/ authorized users (rq_user rq) u)) /\
    (snd (passwordHandler blake2b JoinPath time_Parse jwt_Parse now s' rq) = Panic <->
     exists claims u, good_token jwt_Parse config now (rq_password rq) claims /\ claims !! c = Some (CString u) /\
       ~ string_claims JoinPath e claims).
Proof.
  intros Hnew Hord Hsz Hc Ha c e Hcol.
  destruct (authorizer_exact blake2b ord claim users (authorizer s) Hnew Hord Hsz) as (cfg & Hcfg & Hcl & Hex).
  exists (UpdateSSHAuth s (Some cfg)). split; [unfold updateSSHServerAuth; by rewrite Hcfg|].
  destruct (login_after_update blake2b JoinPath time_Parse jwt_Parse s config (Some cfg) now rq Hc Ha) as [H1 H2].
  fold c in Hcl. rewrite Hcl in H1, H2. unfold NewClaimsExtractor in H1, H2.
  assert (c <> []) as Hc0 by (unfold c; destruct (decide (claim = [])); done).
  rewrite (decide_False (P := c = [])) in H1, H2 by done. fold e in H1, H2.
  rewrite H1, H2. split; split.
  - intros (claims & ua & Ht & (Hu & Hs)%extract_inv & Hne & Hg). exists claims, (UserId ua).
    split_and!; [done..|]. apply Hex in Hg; [by destruct Hg|]. intros mu v. destruct Ht as (_ & Ht & _). by eapply Hcol.
  - intros (claims & u & Ht & Hu & Hne & Hs & Hau).
    destruct (extract_spec JoinPath time_Parse e claims u Hu) as [Hok _]. destruct (Hok Hs) as (ua & Hx & <-).
    exists claims, ua. split_and!; [done..|]. apply Hex; [|done]. intros mu v. destruct Ht as (_ & Ht & _). by eapply Hcol.
  - intros (claims & Ht & Hx). destruct (extract_panics JoinPath time_Parse e claims Hx) as (u & ? & ?). by exists claims, u.
  - intros (claims & u & Ht & Hu & Hn). exists claims. split; [done|].
    by apply (extract_spec JoinPath time_Parse e claims u Hu).
Qed.

(** ** A sample *)
Definition code16 (size : Z) (m : gostring) : option (list Z) := Some ((fun c => Z.of_nat (nat_of_ascii c)) <$> m).
Definition join_slash (base elem : gostring) : option gostring := Some (base ++ lit "/" ++ elem).
Definition no_time (s : gostring) : option Z := None.
Definition sample_claims : MapClaims := <[lit "iat" := CNumber 100]> {[lit "sub" := CString (lit "alice")]}.
Definition sample_parse (now : Z) (v : Validator) (token : gostring) : option MapClaims :=
  if decide (token = lit "token") then Some sample_claims else None.
Definition sample_config : JWTConfig := mkJWTConfig (lit "idp") (lit "keys") 0 [lit "nb"].
Definition sample_users : gmap gostring idset := {[lit "root" := {[lit "alice"]}]}.
Definition sample_request : Request := mkRequest (lit "root") (lit "100.64.0.2:4711") (lit "token").

Lemma sample_user now v token claims u :
  sample_parse now v token = Some claims -> claims !! lit "sub" = Some (CString u) -> u = lit "alice".
Proof.
  unfold sample_parse. destruct (decide _); [|done]. intros E. apply (inj Some) in E. rewrite <- E.
  unfold sample_claims. rewrite lookup_insert_ne by done. rewrite lookup_singleton_eq. intros H.
  apply (inj Some) in H. by injection H.
Qed.

Lemma sample_authorized mu v : authorized sample_users mu v -> v = lit "alice".
Proof.
  unfold authorized, sample_users. destruct (decide (mu = lit "root")) as [->|Hne].
  - rewrite lookup_singleton_eq. cbn. by intros ->%elem_of_singleton.
  - rewrite lookup_singleton_ne by done. cbn. by intros ?%elem_of_empty.
Qed.

Lemma sample_alice : authorized sample_users (lit "root") (lit "alice").
Proof. unfold authorized, sample_users. rewrite lookup_singleton_eq. cbn. by apply elem_of_singleton. Qed.

Lemma sample_string_claims : string_claims join_slash (mkExtractor (lit "nb") DefaultUserIDClaim) sample_claims.
Proof.
  intros name Hin. unfold sample_claims.
  assert (audienceClaim join_slash (mkExtractor (lit "nb") DefaultUserIDClaim) name = lit "nb/" ++ name) as -> by done.
  by rewrite lookup_insert_ne, lookup_singleton_ne by done.
Qed.

Lemma ssh_login_exact_witness :
  exists s', updateSSHServerAuth (Some (toSSHAuth code16 elements [] sample_users)) (Some (NewServer (Some sample_config))) =
      Some s' /\
    snd (passwordHandler code16 join_slash no_time sample_parse 150000000000 s' sample_request) = Ok tt.
Proof.
  destruct (ssh_login_exact code16 join_slash no_time sample_parse elements [] sample_users
    (NewServer (Some sample_config)) sample_config 150000000000 sample_request) as (s' & Hup & [_ Hok] & _).
  - intros m. by eexists.
  - exact elements_enumerates.
  - by vm_compute.
  - done.
  - done.
  - intros claims u mu v Hp Hu Ha _. apply sample_authorized in Ha as ->.
    symmetry. exact (sample_user _ _ _ claims u Hp Hu).
  - exists s'. split; [exact Hup|]. apply Hok. exists sample_claims, (lit "alice"). split_and!; [|reflexivity|done|..].
    + split; [done|]. split; [reflexivity|]. exists 100%Z. split; [reflexivity|by vm_compute].
    + exact sample_string_claims.
    + right. exact sample_alice.
Defined.

(** C12: No interleaving admits a login without a valid token and an access
    control that names its user.  Whatever logins and updates of the access
    control run at once, if a login is admitted, its password was a token
    that validated and was not too old, its user is the string in the user
    claim of one of the authorizers the server has had, and an authorizer
    that was in force after the login had started admits that user as the OS
    user. *)
Theorem ssh_login_safe blake2b JoinPath time_Parse jwt_Parse config sy l :
  rtc (sys_step blake2b JoinPath time_Parse jwt_Parse) (sys_init (Some config)) sy ->
  l ∈ sy_logins sy -> lg_pc l = PDone (Ok tt) ->
  exists now claims k1 a1 u k2 a2 g,
    good_token jwt_Parse config now (rq_password (lg_request l)) claims /\
    sy_history sy !! k1 = Some a1 /\ claims !! userIDClaim a1 = Some (CString u) /\ u <> [] /\
    lg_since l <= k2 /\ sy_history sy !! k2 = Some a2 /\
    Authorize blake2b a2 u (rq_user (lg_request l)) = Ok g.
Proof.
  intros Hr Hl Hpc. destruct (sys_reachable_ok _ _ _ _ _ _ Hr) as [Hs Hok].
  rewrite Forall_forall in Hok. destruct (Hok l Hl) as [_ Hp]. rewrite Hpc in Hp.
  destruct Hp as (ua & (now & claims & e & Ht & (k1 & a1 & H1 & ->) & [Hu _]%extract_inv & Hne) & k2 & a2 & g & ? & ? & ?).
  pose proof (Forall_lookup_1 _ _ _ _ (so_claims _ _ _ Hs) H1) as Ha1. cbn in Ha1, Hu.
  rewrite decide_False in Hu by done. exists now, claims, k1, a1, (UserId ua), k2, a2, g. by split_and!.
Qed.

(** The sample server with one login, step by step. *)
Definition sample_auth : option Config := authConfig (toSSHAuth code16 elements [] sample_users).
Definition sample_server : Server :=
  fst (handler_run code16 join_slash no_time sample_parse 7 150000000000 sample_request
    (UpdateSSHAuth (NewServer (Some sample_config)) sample_auth) PCheck).
Definition sample_system : System :=
  mkSystem sample_server [mkLogin sample_request (PDone (Ok tt)) 1] [NewAuthorizer; Update NewAuthorizer sample_auth].

(** A login that is let run. *)
Lemma run_reachable blake2b JoinPath time_Parse jwt_Parse n now s rq p since hist :
  rtc (sys_step blake2b JoinPath time_Parse jwt_Parse) (mkSystem s [mkLogin rq p since] hist)
    (let '(s', p') := handler_run blake2b JoinPath time_Parse jwt_Parse n now rq s p in
     mkSystem s' [mkLogin rq p' since] hist).
Proof.
  revert s p. induction n as [|n IH]; intros s p; cbn [handler_run]; [reflexivity|].
  destruct (handler_step _ _ _ _ now rq s p) as [s' p'] eqn:E. eapply rtc_l; [|apply IH].
  exact (login_continues _ _ _ _ s [mkLogin rq p since] hist 0 _ now s' p' eq_refl E).
Qed.

Lemma sample_reachable :
  rtc (sys_step code16 join_slash no_time sample_parse) (sys_init (Some sample_config)) sample_system.
Proof.
  eapply rtc_l; [apply access_updated with (config := sample_auth)|].
  eapply rtc_l; [apply login_starts with (rq := sample_request)|].
  exact (run_reachable _ _ _ _ 7 150000000000 _ sample_request PCheck 1 _).
Qed.

Lemma ssh_login_safe_witness :
  exists k2 a2 g, 1 <= k2 /\ sy_history sample_system !! k2 = Some a2 /\
    Authorize code16 a2 (lit "alice") (lit "root") = Ok g.
Proof.
  destruct (ssh_login_safe code16 join_slash no_time sample_parse sample_config sample_system
    (mkLogin sample_request (PDone (Ok tt)) 1) sample_reachable) as
    (now & claims & k1 & a1 & u & k2 & a2 & g & Ht & H1 & Hu & _ & Hk & H2 & Hg); [by left|done|].
  exists k2, a2, g. split; [exact Hk|]. split; [exact H2|].
  assert (u = lit "alice") as <-; [|exact Hg].
  destruct Ht as (_ & Hp & _).
  assert (userIDClaim a1 = lit "sub") as Hc by (destruct k1 as [|[|]]; [apply (inj Some) in H1 as <-; reflexivity..|done]).
  rewrite Hc in Hu. exact (sample_user _ _ _ claims u Hp Hu).
Defined.

(** An update in the middle of a login leaves the claim of the old message in
    force: the login, whatever its password, has read the claim before the
    update and installs its extractor after it, and every later login keeps
    that extractor. *)
Theorem stale_user_claim blake2b JoinPath time_Parse jwt_Parse config claim :
  Audiences config <> [] -> claim <> [] -> claim <> DefaultUserIDClaim ->
  exists sy e, rtc (sys_step blake2b JoinPath time_Parse jwt_Parse) (sys_init (Some config)) sy /\
    Forall (fun l => exists err, lg_pc l = PDone (Err err)) (sy_logins sy) /\
    userIDClaim (authorizer (sy_server sy)) = claim /\
    jwtExtractor (sy_server sy) = Some e /\ ce_userIDClaim e = DefaultUserIDClaim /\
    forall now rq, jwtExtractor (fst (passwordHandler blake2b JoinPath time_Parse jwt_Parse now (sy_server sy) rq)) = Some e.
Proof.
  intros Ha Hc Hd. set (rq := mkRequest [] [] []). set (cfg := Some (mkConfig claim [] ∅)).
  set (e := NewClaimsExtractor (hd [] (Audiences config)) DefaultUserIDClaim).
  set (s0 := UpdateSSHAuth (NewServer (Some config)) cfg).
  set (s1 := mkServer (Some config) (Some (NewValidator config)) (Some e) (authorizer s0) ∅ ∅).
  set (hist := [NewAuthorizer; Update NewAuthorizer cfg]).
  exists (mkSystem s1 [mkLogin rq (PDone (Err ErrInvalidToken)) 0] hist), e. split_and!.
  - eapply rtc_l; [apply login_starts with (rq := rq)|]. cbn [app length pred].
    assert (handler_run blake2b JoinPath time_Parse jwt_Parse 2 0 rq (NewServer (Some config)) PCheck =
      (NewServer (Some config), PInstall (NewValidator config) e)) as H2.
    { cbn [handler_run handler_step ensureCheck NewServer jwtValidator jwtExtractor jwtConfig].
      by rewrite decide_False by done. }
    pose proof (run_reachable blake2b JoinPath time_Parse jwt_Parse 2 0 (NewServer (Some config)) rq PCheck 0
      [NewAuthorizer]) as Hrun. rewrite H2 in Hrun. etrans; [exact Hrun|].
    eapply rtc_l; [apply access_updated with (config := cfg)|].
    exact (run_reachable blake2b JoinPath time_Parse jwt_Parse 2 0 s0 rq (PInstall (NewValidator config) e) 0 hist).
  - apply Forall_singleton. by eexists.
  - cbn. by rewrite decide_False by done.
  - done.
  - done.
  - intros now rq'. unfold passwordHandler. cbn [ensureJWTValidator ensureCheck s1 jwtValidator jwtExtractor sy_server].
    by destruct (_ ≫= _).
Qed.
